(** * ZELL: the offline processing core, embedded and verified

  The development follows the repository's layout:

  - [CInt] and [F32]: the arithmetic of the WebAssembly C modules
    (32-bit [int] with wrap-around, IEEE-754 single precision);
  - [Wasm]: the C functions of [wasm-modules/src/*.c] over byte buffers,
    in an error monad that records undefined behaviour;
  - [Js]: the JavaScript services ([OfflineProcessor], [ConversionService],
    [CompressionService], the converters and the backend routes) with an
    explicit event trace. *)

From Stdlib Require Import ZArith QArith Qround Qabs Qpower Lia Lqa Bool Ascii String Sorted.
From Stdlib Require Import SpecFloat.
From stdpp Require Import base option list strings gmap pretty.

Local Open Scope Z_scope.

(** ** 32-bit C [int] *)
Module CInt.

Definition INT_MAX : Z := 2147483647.
Definition INT_MIN : Z := -2147483648.

(** Two's complement wrap-around of a mathematical integer, which is what
    the WebAssembly [i32] instructions compute. *)
Definition wrap32 (z : Z) : Z := (z + 2147483648) mod 4294967296 - 2147483648.

Definition in_int (z : Z) : Prop := INT_MIN <= z <= INT_MAX.
Definition in_intb (z : Z) : bool := (INT_MIN <=? z) && (z <=? INT_MAX).

Definition add (a b : Z) : Z := wrap32 (a + b).
Definition sub (a b : Z) : Z := wrap32 (a - b).
Definition mul (a b : Z) : Z := wrap32 (a * b).

(** C division truncates toward zero; the divisor is checked by the caller. *)
Definition div (a b : Z) : Z := wrap32 (Z.quot a b).

(** Conversion to [unsigned char]. *)
Definition to_uchar (z : Z) : Z := z mod 256.

End CInt.

(** ** IEEE-754 binary32, through the Standard Library's specification

    WebAssembly evaluates [float] expressions in binary32, each operation
    rounded to nearest, ties to even. *)
Module F32.

Definition prec : Z := 24.
Definition emax : Z := 128.

(** [(float) n] for an [int] [n]. *)
Definition of_int (n : Z) : spec_float := binary_normalize prec emax n 0 false.

Definition fmul : spec_float -> spec_float -> spec_float := SFmul prec emax.
Definition fdiv : spec_float -> spec_float -> spec_float := SFdiv prec emax.

(** The integer part of a finite float, rounded toward zero. *)
Definition trunc_abs (m : positive) (e : Z) : Z :=
  if 0 <=? e then Z.pos m * 2 ^ e else Z.pos m / 2 ^ (- e).

(** [(int) f]: defined when [f] is finite and its integer part fits an
    [int]; otherwise the conversion has no defined result. *)
Definition to_int (f : spec_float) : option Z :=
  match f with
  | S754_zero _ => Some 0
  | S754_finite s m e =>
      let v := if s then - trunc_abs m e else trunc_abs m e in
      if CInt.in_intb v then Some v else None
  | S754_infinity _ | S754_nan => None
  end.

End F32.

(** ** The C functions of the WebAssembly modules *)
Module Wasm.
Import CInt.

(** A buffer is the list of its bytes (each in [0, 256)); a pointer is
    [None] when it is [NULL]. *)
Abbreviation buffer := (list Z).
Abbreviation pointer := (option (list Z)).

Inductive fault : Type :=
| OutOfBounds
| DivisionByZero
| FloatToIntRange.

(** Outcome of running a piece of C code. *)
Inductive outcome (A : Type) : Type :=
| Done (a : A)
| Undefined (f : fault)
| OutOfFuel.
Arguments Done {A} a.
Arguments Undefined {A} f.
Arguments OutOfFuel {A}.

#[global] Instance outcome_ret : MRet outcome := fun A a => Done a.
#[global] Instance outcome_bind : MBind outcome := fun A B k m =>
  match m with
  | Done a => k a
  | Undefined f => Undefined f
  | OutOfFuel => OutOfFuel
  end.

(** [buf[i]] as an rvalue. *)
Definition load (buf : buffer) (i : Z) : outcome Z :=
  if 0 <=? i then
    match buf !! Z.to_nat i with
    | Some v => Done v
    | None => Undefined OutOfBounds
    end
  else Undefined OutOfBounds.

(** [buf[i] = v]. *)
Definition store (buf : buffer) (i : Z) (v : Z) : outcome buffer :=
  if (0 <=? i) && (i <? Z.of_nat (length buf)) then
    Done (<[Z.to_nat i := v]> buf)
  else Undefined OutOfBounds.

(** [a / b] on [int]. *)
Definition divide (a b : Z) : outcome Z :=
  if b =? 0 then Undefined DivisionByZero else Done (CInt.div a b).

(** [(int) f]. *)
Definition float_to_int (f : spec_float) : outcome Z :=
  match F32.to_int f with
  | Some v => Done v
  | None => Undefined FloatToIntRange
  end.

(** A [while]/[for] loop: [cond] is the loop test, [body] one iteration
    (for a [for] loop, with its increment). *)
Fixpoint while {S : Type} (fuel : nat) (cond : S -> bool)
    (body : S -> outcome S) (s : S) : outcome S :=
  if cond s then
    match fuel with
    | O => OutOfFuel
    | Datatypes.S fuel' => s' ← body s; while fuel' cond body s'
    end
  else Done s.

(** *** Size computation shared by the [compress_*] functions

    [float compression_ratio = (float)quality / 100.0f;
     int target_size = (int)(input_size * compression_ratio);] *)
Definition compression_ratio (quality : Z) : spec_float :=
  F32.fdiv (F32.of_int quality) (F32.of_int 100).

(** [target_size] before the clamp, when the conversion is defined. *)
Definition scaled_size (input_size quality : Z) : option Z :=
  F32.to_int (F32.fmul (F32.of_int input_size) (compression_ratio quality)).

Definition clamp_size (target_size output_size : Z) : Z :=
  if output_size <? target_size then output_size else target_size.

(** *** image-processor.c: [compress_image] *)

Record copy_state : Type := CopyState { cp_i : Z; cp_j : Z; cp_out : buffer }.

Definition compress_image_body (input : buffer) (step : Z) (s : copy_state)
    : outcome copy_state :=
  v ← load input (cp_i s);
  out ← store (cp_out s) (cp_j s) v;
  Done (CopyState (CInt.add (cp_i s) step) (CInt.add (cp_j s) 1) out).

Definition compress_cond (input_size target_size : Z) (s : copy_state) : bool :=
  (cp_i s <? input_size) && (cp_j s <? target_size).

Definition compress_image (input_data : pointer) (input_size : Z)
    (output_data : pointer) (output_size quality : Z)
    : outcome (Z * pointer) :=
  match input_data, output_data with
  | Some input, Some output =>
      if (input_size <=? 0) || (output_size <=? 0) then Done (-1, output_data)
      else
        target_size ← float_to_int
             (F32.fmul (F32.of_int input_size) (compression_ratio quality));
        let target_size := clamp_size target_size output_size in
        step ← divide input_size target_size;
        let step := if step <? 1 then 1 else step in
        s ← while (Z.to_nat target_size)
                  (compress_cond input_size target_size)
                  (compress_image_body input step)
                  (CopyState 0 0 output);
        Done (target_size, Some (cp_out s))
  | _, _ => Done (-1, output_data)
  end.

(** *** the audio processor: [compress_audio] *)

Record sum_state : Type := SumState { sm_k : Z; sm_sum : Z; sm_count : Z }.

Definition average_cond (input_size step i : Z) (s : sum_state) : bool :=
  (sm_k s <? step) && (CInt.add i (sm_k s) <? input_size).

Definition average_body (input : buffer) (i : Z) (s : sum_state)
    : outcome sum_state :=
  v ← load input (CInt.add i (sm_k s));
  Done (SumState (CInt.add (sm_k s) 1) (CInt.add (sm_sum s) v)
                 (CInt.add (sm_count s) 1)).

Definition compress_audio_body (input : buffer) (input_size step : Z)
    (s : copy_state) : outcome copy_state :=
  a ← while (Z.to_nat step) (average_cond input_size step (cp_i s))
            (average_body input (cp_i s)) (SumState 0 0 0);
  q ← divide (sm_sum a) (sm_count a);
  out ← store (cp_out s) (cp_j s) (to_uchar q);
  Done (CopyState (CInt.add (cp_i s) step) (CInt.add (cp_j s) 1) out).

Definition compress_audio (input_data : pointer) (input_size : Z)
    (output_data : pointer) (output_size quality : Z)
    : outcome (Z * pointer) :=
  match input_data, output_data with
  | Some input, Some output =>
      if (input_size <=? 0) || (output_size <=? 0) then Done (-1, output_data)
      else
        target_size ← float_to_int
             (F32.fmul (F32.of_int input_size) (compression_ratio quality));
        let target_size := clamp_size target_size output_size in
        step ← divide input_size target_size;
        let step := if step <? 1 then 1 else step in
        s ← while (Z.to_nat target_size)
                  (compress_cond input_size target_size)
                  (compress_audio_body input input_size step)
                  (CopyState 0 0 output);
        Done (target_size, Some (cp_out s))
  | _, _ => Done (-1, output_data)
  end.


(** A loop whose test itself reads memory ([i < n && buf[i] != c]). *)
Fixpoint while_reading {S : Type} (fuel : nat) (cond : S -> outcome bool)
    (body : S -> outcome S) (s : S) : outcome S :=
  b ← cond s;
  if b : bool then
    match fuel with
    | O => OutOfFuel
    | Datatypes.S fuel' => s' ← body s; while_reading fuel' cond body s'
    end
  else Done s.

(** [memcpy(dst + dst_off, src + src_off, n)]: byte by byte, every access
    checked. *)
Fixpoint memcpy_from (k : nat) (dst : buffer) (dst_off : Z) (src : buffer)
    (src_off : Z) : outcome buffer :=
  match k with
  | O => Done dst
  | Datatypes.S k' =>
      v ← load src src_off;
      dst' ← store dst dst_off v;
      memcpy_from k' dst' (dst_off + 1) src (src_off + 1)
  end.

Definition memcpy (dst : buffer) (dst_off : Z) (src : buffer) (src_off n : Z)
    : outcome buffer :=
  if n <? 0 then Undefined OutOfBounds
  else memcpy_from (Z.to_nat n) dst dst_off src src_off.

(** [memcmp(buf + off, lit, strlen-or-less) == 0]. *)
Fixpoint starts_with (buf : buffer) (off : Z) (lit : list Z) : outcome bool :=
  match lit with
  | [] => Done true
  | c :: lit' =>
      v ← load buf off;
      rest ← starts_with buf (off + 1) lit';
      Done ((v =? c) && rest)
  end.

(** *** image-processor.c: [process_image] *)

Definition compression_factor (quality : Z) : Z :=
  CInt.div (CInt.sub 100 quality) 10.

Definition processed_size (input_size quality : Z) : Z :=
  CInt.sub input_size
    (CInt.div (CInt.mul input_size (compression_factor quality)) 100).

Definition process_image_cond (processed input_size : Z) (s : Z * buffer) : bool :=
  (s.1 <? processed) && (s.1 <? input_size).

Definition process_image_body (input : buffer) (quality format : Z)
    (s : Z * buffer) : outcome (Z * buffer) :=
  let '(i, out) := s in
  out' ←
    (if format =? 0 then
       v ← load input i;
       store out i (to_uchar (CInt.div (CInt.mul v quality) 100))
     else if format =? 1 then
       v ← load input i;
       store out i v
     else if format =? 2 then
       v ← load input i;
       store out i (to_uchar (CInt.div (CInt.mul v (CInt.add quality 20)) 120))
     else Done out);
  Done (CInt.add i 1, out').

Definition process_image (input_data : pointer) (input_size : Z)
    (output_data : pointer) (output_size quality format : Z)
    : outcome (Z * pointer) :=
  match input_data, output_data with
  | Some input, Some output =>
      if (input_size <=? 0) || (output_size <=? 0) then Done (-1, output_data)
      else
        let processed := clamp_size (processed_size input_size quality) output_size in
        s ← while (Z.to_nat input_size)
              (process_image_cond processed input_size)
              (process_image_body input quality format) (0, output);
        Done (processed, Some s.2)
  | _, _ => Done (-1, output_data)
  end.

(** *** pdf-processor.c: [merge_pdfs] *)

(** ["%PDF-1.4\n"], ["%PDF-"] and ["\n%%EOF\n"] as bytes. *)
Definition pdf_header : list Z := [37; 80; 68; 70; 45; 49; 46; 52; 10].
Definition pdf_magic : list Z := [37; 80; 68; 70; 45].
Definition pdf_footer : list Z := [10; 37; 37; 69; 79; 70; 10].

Definition strlen (s : list Z) : Z := Z.of_nat (length s).

Definition total_size_body (file_sizes : buffer) (s : Z * Z) : outcome (Z * Z) :=
  let '(i, total) := s in
  sz ← load file_sizes i;
  Done (CInt.add i 1, CInt.add total sz).

(** One round of the concatenation loop; the state is [(i, offset, out)]. *)
Definition merge_pdfs_body (pdf_files : list pointer) (file_sizes : buffer)
    (output_size : Z) (s : Z * Z * buffer) : outcome (Z * Z * buffer) :=
  let '(i, offset, out) := s in
  file ← (if 0 <=? i then
            match pdf_files !! Z.to_nat i with
            | Some p => Done p
            | None => Undefined OutOfBounds
            end
          else Undefined OutOfBounds);
  r ← match file with
      | None => Done (offset, out)
      | Some data =>
          sz ← load file_sizes i;
          if 0 <? sz then
            skip_header ←
              (if (0 <? i) && (8 <? sz) then
                 m ← starts_with data 0 pdf_magic;
                 Done (if m : bool then 8 else 0)
               else Done 0);
            let copy_size := CInt.sub sz skip_header in
            if CInt.add offset copy_size <? output_size then
              out' ← memcpy out offset data skip_header copy_size;
              Done (CInt.add offset copy_size, out')
            else Done (offset, out)
          else Done (offset, out)
      end;
  Done (CInt.add i 1, r.1, r.2).

Definition merge_pdfs (pdf_files : option (list pointer)) (file_sizes : pointer)
    (num_files : Z) (output_data : pointer) (output_size : Z)
    : outcome (Z * pointer) :=
  match pdf_files, file_sizes, output_data with
  | Some files, Some sizes, Some output =>
      if (num_files <=? 0) || (output_size <=? 0) then Done (-1, output_data)
      else
        t ← while (Z.to_nat num_files) (fun s => s.1 <? num_files)
              (total_size_body sizes) (0, 0);
        let total_size := t.2 in
        if output_size <? total_size then Done (-1, output_data)
        else
          let header_len := strlen pdf_header in
          h ← (if CInt.add 0 header_len <? output_size then
                 out ← memcpy output 0 pdf_header 0 header_len;
                 Done (CInt.add 0 header_len, out)
               else Done (0, output));
          m ← while (Z.to_nat num_files) (fun s => s.1.1 <? num_files)
                (merge_pdfs_body files sizes output_size) (0, h.1, h.2);
          let '(_, offset, out) := m in
          let footer_len := strlen pdf_footer in
          if CInt.add offset footer_len <? output_size then
            out' ← memcpy out offset pdf_footer 0 footer_len;
            Done (CInt.add offset footer_len, Some out')
          else Done (offset, Some out)
  | _, _, _ => Done (-1, output_data)
  end.


(** *** image-processor.c: [resize_image]; video-processor.c:
    [resize_video_frames] *)

(** [(float)input_width / output_width]. *)
Definition size_ratio (input_dim output_dim : Z) : spec_float :=
  F32.fdiv (F32.of_int input_dim) (F32.of_int output_dim).

(** [int src_x = (int)(x * x_ratio);
     if (src_x >= input_width) src_x = input_width - 1;] *)
Definition clamp_coord (v input_dim : Z) : Z :=
  if input_dim <=? v then CInt.sub input_dim 1 else v.

Definition source_coord (ratio : spec_float) (input_dim x : Z) : outcome Z :=
  v ← float_to_int (F32.fmul (F32.of_int x) ratio);
  Done (clamp_coord v input_dim).

(** The loop over the channels of one pixel. [in_base] and [out_base] are
    the offsets of the current frame in the two buffers (0 for an image). *)
Definition resize_channel_body (input : buffer) (in_base out_base : Z)
    (src_index dst_index : Z) (s : Z * buffer) : outcome (Z * buffer) :=
  let '(c, out) := s in
  v ← load input (in_base + CInt.add src_index c);
  out' ← store out (out_base + CInt.add dst_index c) v;
  Done (CInt.add c 1, out').

(** The loop over the pixels of one output row [y]. *)
Definition resize_pixel_body (input : buffer) (in_base out_base : Z)
    (input_width input_height output_width channels : Z)
    (x_ratio y_ratio : spec_float) (y : Z) (s : Z * buffer)
    : outcome (Z * buffer) :=
  let '(x, out) := s in
  src_x ← source_coord x_ratio input_width x;
  src_y ← source_coord y_ratio input_height y;
  let src_index := CInt.mul (CInt.add (CInt.mul src_y input_width) src_x) channels in
  let dst_index := CInt.mul (CInt.add (CInt.mul y output_width) x) channels in
  r ← while (Z.to_nat channels) (fun s => s.1 <? channels)
        (resize_channel_body input in_base out_base src_index dst_index) (0, out);
  Done (CInt.add x 1, r.2).

(** The loop over the output rows. *)
Definition resize_row_body (input : buffer) (in_base out_base : Z)
    (input_width input_height output_width channels : Z)
    (x_ratio y_ratio : spec_float) (s : Z * buffer) : outcome (Z * buffer) :=
  let '(y, out) := s in
  r ← while (Z.to_nat output_width) (fun s => s.1 <? output_width)
        (resize_pixel_body input in_base out_base input_width input_height
           output_width channels x_ratio y_ratio y) (0, out);
  Done (CInt.add y 1, r.2).

Definition resize_rows (input : buffer) (in_base out_base : Z)
    (input_width input_height output_width output_height channels : Z)
    (x_ratio y_ratio : spec_float) (out : buffer) : outcome buffer :=
  r ← while (Z.to_nat output_height) (fun s => s.1 <? output_height)
        (resize_row_body input in_base out_base input_width input_height
           output_width channels x_ratio y_ratio) (0, out);
  Done r.2.

Definition resize_image (input_data : pointer) (input_width input_height : Z)
    (output_data : pointer) (output_width output_height channels : Z)
    : outcome (Z * pointer) :=
  match input_data, output_data with
  | Some input, Some output =>
      if (input_width <=? 0) || (input_height <=? 0) || (output_width <=? 0)
         || (output_height <=? 0) || (channels <=? 0)
      then Done (-1, output_data)
      else
        let x_ratio := size_ratio input_width output_width in
        let y_ratio := size_ratio input_height output_height in
        out ← resize_rows input 0 0 input_width input_height
                output_width output_height channels x_ratio y_ratio output;
        Done (0, Some out)
  | _, _ => Done (-1, output_data)
  end.

(** One frame of [resize_video_frames]: [input_frame] and [output_frame]
    point [frame * frame_size] bytes into the buffers; pixels are RGB. *)
Definition resize_frame_body (input : buffer)
    (input_width input_height output_width output_height : Z)
    (input_frame_size output_frame_size : Z)
    (x_ratio y_ratio : spec_float) (s : Z * buffer) : outcome (Z * buffer) :=
  let '(frame, out) := s in
  let input_frame := CInt.mul frame input_frame_size in
  let output_frame := CInt.mul frame output_frame_size in
  out' ← resize_rows input input_frame output_frame input_width input_height
           output_width output_height 3 x_ratio y_ratio out;
  Done (CInt.add frame 1, out').

Definition resize_video_frames (input_data : pointer) (input_width input_height : Z)
    (output_data : pointer) (output_width output_height num_frames : Z)
    : outcome (Z * pointer) :=
  match input_data, output_data with
  | Some input, Some output =>
      if (input_width <=? 0) || (input_height <=? 0) || (output_width <=? 0)
         || (output_height <=? 0) || (num_frames <=? 0)
      then Done (-1, output_data)
      else
        let input_frame_size := CInt.mul (CInt.mul input_width input_height) 3 in
        let output_frame_size := CInt.mul (CInt.mul output_width output_height) 3 in
        let x_ratio := size_ratio input_width output_width in
        let y_ratio := size_ratio input_height output_height in
        r ← while (Z.to_nat num_frames) (fun s => s.1 <? num_frames)
              (resize_frame_body input input_width input_height output_width
                 output_height input_frame_size output_frame_size x_ratio y_ratio)
              (0, output);
        Done (0, Some r.2)
  | _, _ => Done (-1, output_data)
  end.

(** *** pdf-processor.c: [extract_text] *)

Definition printable (b : Z) : bool := (32 <=? b) && (b <=? 126).

(** State of the scan: [(i, in_text_object, text_size, out)]. *)
Record scan_state : Type := ScanState {
  sc_i : Z; sc_in_text : bool; sc_text_size : Z; sc_out : buffer }.

(** The [while] that copies one parenthesised string. *)
Definition string_cond (input : buffer) (input_size output_size : Z)
    (s : scan_state) : outcome bool :=
  if sc_i s <? input_size then
    v ← load input (sc_i s);
    Done (negb (v =? 41) && (sc_text_size s <? CInt.sub output_size 1))
  else Done false.

Definition string_body (input : buffer) (s : scan_state) : outcome scan_state :=
  v ← load input (sc_i s);
  r ← (if printable v then
         out ← store (sc_out s) (sc_text_size s) v;
         Done (CInt.add (sc_text_size s) 1, out)
       else Done (sc_text_size s, sc_out s));
  Done (ScanState (CInt.add (sc_i s) 1) (sc_in_text s) r.1 r.2).

(** The part of the [for] body after the [BT]/[ET] test. *)
Definition text_content (input : buffer) (input_size output_size : Z)
    (s : scan_state) : outcome scan_state :=
  if sc_in_text s then
    v ← load input (sc_i s);
    if v =? 40 then
      s1 ← while_reading (Z.to_nat input_size)
             (string_cond input input_size output_size) (string_body input)
             (ScanState (CInt.add (sc_i s) 1) (sc_in_text s) (sc_text_size s) (sc_out s));
      if sc_text_size s1 <? CInt.sub output_size 1 then
        out ← store (sc_out s1) (sc_text_size s1) 32;
        Done (ScanState (sc_i s1) (sc_in_text s1) (CInt.add (sc_text_size s1) 1) out)
      else Done s1
    else Done s
  else Done s.

(** One round of the [for] loop, with its [i++]; [continue] jumps to it. *)
Definition extract_text_body (input : buffer) (input_size output_size : Z)
    (s : scan_state) : outcome scan_state :=
  let advance (s : scan_state) :=
    ScanState (CInt.add (sc_i s) 1) (sc_in_text s) (sc_text_size s) (sc_out s) in
  marker ←
    (if sc_i s <? CInt.sub input_size 4 then
       bt ← starts_with input (sc_i s) [66; 84];
       if bt : bool then Done (Some true)
       else
         et ← starts_with input (sc_i s) [69; 84];
         Done (if et : bool then Some false else None)
     else Done None);
  match marker with
  | Some flag =>
      Done (advance (ScanState (CInt.add (sc_i s) 1) flag (sc_text_size s) (sc_out s)))
  | None =>
      s' ← text_content input input_size output_size s;
      Done (advance s')
  end.

Definition extract_text_cond (input_size output_size : Z) (s : scan_state) : bool :=
  (sc_i s <? input_size) && (sc_text_size s <? CInt.sub output_size 1).

Definition extract_text (input_data : pointer) (input_size : Z)
    (output_data : pointer) (output_size : Z) : outcome (Z * pointer) :=
  match input_data, output_data with
  | Some input, Some output =>
      if (input_size <=? 0) || (output_size <=? 0) then Done (-1, output_data)
      else
        s ← while (Z.to_nat input_size) (extract_text_cond input_size output_size)
              (extract_text_body input input_size output_size)
              (ScanState 0 false 0 output);
        if sc_text_size s <? output_size then
          out ← store (sc_out s) (sc_text_size s) 0;
          Done (sc_text_size s, Some out)
        else Done (sc_text_size s, Some (sc_out s))
  | _, _ => Done (-1, output_data)
  end.

(** *** the audio processor: [merge_audio]; video-processor.c: [merge_video] *)

(** [files[i]], an element of an array of pointers. *)
Definition load_pointer (files : list pointer) (i : Z) : outcome pointer :=
  if 0 <=? i then
    match files !! Z.to_nat i with
    | Some p => Done p
    | None => Undefined OutOfBounds
    end
  else Undefined OutOfBounds.

(** One round of the concatenation loop; the state is [(i, offset, out)]. *)
Definition merge_audio_body (audio_files : list pointer) (file_sizes : buffer)
    (s : Z * Z * buffer) : outcome (Z * Z * buffer) :=
  let '(i, offset, out) := s in
  file ← load_pointer audio_files i;
  r ← match file with
      | None => Done (offset, out)
      | Some data =>
          sz ← load file_sizes i;
          if 0 <? sz then
            out' ← memcpy out offset data 0 sz;
            Done (CInt.add offset sz, out')
          else Done (offset, out)
      end;
  Done (CInt.add i 1, r.1, r.2).

Definition merge_audio (audio_files : option (list pointer)) (file_sizes : pointer)
    (num_files : Z) (output_data : pointer) (output_size : Z)
    : outcome (Z * pointer) :=
  match audio_files, file_sizes, output_data with
  | Some files, Some sizes, Some output =>
      if (num_files <=? 0) || (output_size <=? 0) then Done (-1, output_data)
      else
        t ← while (Z.to_nat num_files) (fun s => s.1 <? num_files)
              (total_size_body sizes) (0, 0);
        let total_size := t.2 in
        if output_size <? total_size then Done (-1, output_data)
        else
          m ← while (Z.to_nat num_files) (fun s => s.1.1 <? num_files)
                (merge_audio_body files sizes) (0, 0, output);
          Done (total_size, Some m.2)
  | _, _, _ => Done (-1, output_data)
  end.

(** [merge_video] is, statement for statement, [merge_audio]. *)
Definition merge_video_body (video_files : list pointer) (file_sizes : buffer)
    (s : Z * Z * buffer) : outcome (Z * Z * buffer) :=
  let '(i, offset, out) := s in
  file ← load_pointer video_files i;
  r ← match file with
      | None => Done (offset, out)
      | Some data =>
          sz ← load file_sizes i;
          if 0 <? sz then
            out' ← memcpy out offset data 0 sz;
            Done (CInt.add offset sz, out')
          else Done (offset, out)
      end;
  Done (CInt.add i 1, r.1, r.2).

Definition merge_video (video_files : option (list pointer)) (file_sizes : pointer)
    (num_files : Z) (output_data : pointer) (output_size : Z)
    : outcome (Z * pointer) :=
  match video_files, file_sizes, output_data with
  | Some files, Some sizes, Some output =>
      if (num_files <=? 0) || (output_size <=? 0) then Done (-1, output_data)
      else
        t ← while (Z.to_nat num_files) (fun s => s.1 <? num_files)
              (total_size_body sizes) (0, 0);
        let total_size := t.2 in
        if output_size <? total_size then Done (-1, output_data)
        else
          m ← while (Z.to_nat num_files) (fun s => s.1.1 <? num_files)
                (merge_video_body files sizes) (0, 0, output);
          Done (total_size, Some m.2)
  | _, _, _ => Done (-1, output_data)
  end.

(** *** video-processor.c: [trim_video]; the audio processor: [trim_audio] *)

(** What both functions do once [start_byte] and [duration_bytes] are
    known. *)
Definition trim_bytes (input : buffer) (input_size : Z) (output : buffer)
    (start_byte duration_bytes : Z) : outcome (Z * pointer) :=
  if input_size <=? start_byte then Done (0, Some output)
  else
    let end_byte := CInt.add start_byte duration_bytes in
    let end_byte := if input_size <? end_byte then input_size else end_byte in
    let trimmed_size := CInt.sub end_byte start_byte in
    out ← memcpy output 0 input start_byte trimmed_size;
    Done (trimmed_size, Some out).

Definition trim_video (input_data : pointer) (input_size : Z)
    (output_data : pointer) (start_frame duration_frames frame_size : Z)
    : outcome (Z * pointer) :=
  match input_data, output_data with
  | Some input, Some output =>
      if (input_size <=? 0) || (frame_size <=? 0) then Done (-1, output_data)
      else
        let start_byte := CInt.mul start_frame frame_size in
        let duration_bytes := CInt.mul duration_frames frame_size in
        trim_bytes input input_size output start_byte duration_bytes
  | _, _ => Done (-1, output_data)
  end.

(** [(int)(t * sample_rate * bytes_per_frame)] for a [float] [t]: the
    [int]s are converted, the products are taken in single precision. *)
Definition time_to_bytes (t : spec_float) (sample_rate bytes_per_frame : Z)
    : outcome Z :=
  float_to_int
    (F32.fmul (F32.fmul t (F32.of_int sample_rate)) (F32.of_int bytes_per_frame)).

Definition trim_audio (input_data : pointer) (input_size : Z)
    (output_data : pointer) (start_time duration : spec_float)
    (sample_rate channels bits_per_sample : Z) : outcome (Z * pointer) :=
  match input_data, output_data with
  | Some input, Some output =>
      if input_size <=? 0 then Done (-1, output_data)
      else
        let bytes_per_sample := CInt.div bits_per_sample 8 in
        let bytes_per_frame := CInt.mul bytes_per_sample channels in
        start_byte ← time_to_bytes start_time sample_rate bytes_per_frame;
        duration_bytes ← time_to_bytes duration sample_rate bytes_per_frame;
        trim_bytes input input_size output start_byte duration_bytes
  | _, _ => Done (-1, output_data)
  end.

(** *** pdf-processor.c: [split_pdf] *)

(** One round of the loop over the pages; the state is
    [(i, page_data, page_sizes)], the two arrays being updated in place. *)
Definition split_pdf_body (input : buffer) (input_size page_size page_count : Z)
    (s : Z * list pointer * buffer) : outcome (Z * list pointer * buffer) :=
  let '(i, pages, sizes) := s in
  let start_offset := CInt.mul i page_size in
  let end_offset := CInt.mul (CInt.add i 1) page_size in
  let end_offset :=
    if i =? CInt.sub page_count 1 then input_size else end_offset in
  let current_page_size := CInt.sub end_offset start_offset in
  capacity ← load sizes i;
  let current_page_size :=
    if capacity <? current_page_size then capacity else current_page_size in
  page ← load_pointer pages i;
  match page with
  | None => Undefined OutOfBounds
  | Some buf =>
      buf' ← memcpy buf 0 input start_offset current_page_size;
      sizes' ← store sizes i current_page_size;
      Done (CInt.add i 1, <[Z.to_nat i := Some buf']> pages, sizes')
  end.

Definition split_pdf (input_data : pointer) (input_size : Z)
    (page_data : option (list pointer)) (page_sizes : pointer)
    (max_pages page_count : Z)
    : outcome (Z * option (list pointer) * pointer) :=
  match input_data, page_data, page_sizes with
  | Some input, Some pages, Some sizes =>
      if (input_size <=? 0) || (max_pages <=? 0) || (page_count <=? 0)
         || (max_pages <? page_count)
      then Done (-1, page_data, page_sizes)
      else
        page_size ← divide input_size page_count;
        s ← while (Z.to_nat page_count) (fun s => s.1.1 <? page_count)
              (split_pdf_body input input_size page_size page_count)
              (0, pages, sizes);
        Done (0, Some s.1.2, Some s.2)
  | _, _, _ => Done (-1, page_data, page_sizes)
  end.

(** *** [process_audio], [process_video] and [process_pdf] *)

(** The loop [output_data[j] = input_data[i] * quality / 100]. *)
Definition scaled_copy_body (input : buffer) (step quality : Z) (s : copy_state)
    : outcome copy_state :=
  v ← load input (cp_i s);
  out ← store (cp_out s) (cp_j s) (to_uchar (CInt.div (CInt.mul v quality) 100));
  Done (CopyState (CInt.add (cp_i s) step) (CInt.add (cp_j s) 1) out).

(** [int step = input_size / target_size; if (step < 1) step = 1;] and the
    loop that follows, which all three functions repeat for each format;
    [body] is its assignment. *)
Definition subsample (body : Z -> copy_state -> outcome copy_state)
    (input_size target_size : Z) (output : buffer) : outcome (Z * pointer) :=
  step ← divide input_size target_size;
  let step := if step <? 1 then 1 else step in
  s ← while (Z.to_nat target_size) (compress_cond input_size target_size)
        (body step) (CopyState 0 0 output);
  Done (target_size, Some (cp_out s)).

Definition process_audio (input_data : pointer) (input_size : Z)
    (output_data : pointer) (output_size quality format : Z)
    : outcome (Z * pointer) :=
  match input_data, output_data with
  | Some input, Some output =>
      if (input_size <=? 0) || (output_size <=? 0) then Done (-1, output_data)
      else
        target_size ← float_to_int
             (F32.fmul (F32.of_int input_size) (compression_ratio quality));
        let target_size := clamp_size target_size output_size in
        if format =? 0 then
          subsample (compress_image_body input) input_size target_size output
        else if format =? 1 then
          let copy_size := if target_size <? input_size then target_size else input_size in
          out ← memcpy output 0 input 0 copy_size;
          Done (copy_size, Some out)
        else if format =? 2 then
          subsample (fun step => scaled_copy_body input step quality)
            input_size target_size output
        else Done (target_size, Some output)
  | _, _ => Done (-1, output_data)
  end.

Definition process_video (input_data : pointer) (input_size : Z)
    (output_data : pointer) (output_size quality format : Z)
    : outcome (Z * pointer) :=
  match input_data, output_data with
  | Some input, Some output =>
      if (input_size <=? 0) || (output_size <=? 0) then Done (-1, output_data)
      else
        target_size ← float_to_int
             (F32.fmul (F32.of_int input_size) (compression_ratio quality));
        let target_size := clamp_size target_size output_size in
        if format =? 0 then
          subsample (compress_image_body input) input_size target_size output
        else if format =? 1 then
          subsample (compress_image_body input) input_size target_size output
        else if format =? 2 then
          subsample (fun step => scaled_copy_body input step quality)
            input_size target_size output
        else if format =? 3 then
          subsample (compress_image_body input) input_size target_size output
        else Done (target_size, Some output)
  | _, _ => Done (-1, output_data)
  end.

(** ["<?xml version=\"1.0\" encoding=\"UTF-8\"?>"] as bytes. *)
Definition docx_header : list Z :=
  [60; 63; 120; 109; 108; 32; 118; 101; 114; 115; 105; 111; 110; 61; 34; 49; 46;
   48; 34; 32; 101; 110; 99; 111; 100; 105; 110; 103; 61; 34; 85; 84; 70; 45; 56;
   34; 63; 62].

(** The loop that copies the printable bytes; the state is
    [(i, text_size, out)]. *)
Definition printable_cond (input_size target_size : Z) (s : Z * Z * buffer) : bool :=
  (s.1.1 <? input_size) && (s.1.2 <? target_size).

Definition printable_body (input : buffer) (s : Z * Z * buffer)
    : outcome (Z * Z * buffer) :=
  let '(i, text_size, out) := s in
  v ← load input i;
  r ← (if printable v then
         out' ← store out text_size v;
         Done (CInt.add text_size 1, out')
       else Done (text_size, out));
  Done (CInt.add i 1, r.1, r.2).

Definition process_pdf (input_data : pointer) (input_size : Z)
    (output_data : pointer) (output_size quality format : Z)
    : outcome (Z * pointer) :=
  match input_data, output_data with
  | Some input, Some output =>
      if (input_size <=? 0) || (output_size <=? 0) then Done (-1, output_data)
      else
        target_size ← float_to_int
             (F32.fmul (F32.of_int input_size) (compression_ratio quality));
        let target_size := clamp_size target_size output_size in
        if format =? 0 then
          subsample (compress_image_body input) input_size target_size output
        else if format =? 1 then
          s ← while (Z.to_nat input_size) (printable_cond input_size target_size)
                (printable_body input) (0, 0, output);
          Done (s.1.2, Some s.2)
        else if format =? 2 then
          let header_len := strlen docx_header in
          h ← (if CInt.add 0 header_len <? target_size then
                 out ← memcpy output 0 docx_header 0 header_len;
                 Done (CInt.add 0 header_len, out)
               else Done (0, output));
          s ← while (Z.to_nat input_size) (printable_cond input_size target_size)
                (printable_body input) (0, h.1, h.2);
          Done (s.1.2, Some s.2)
        else Done (target_size, Some output)
  | _, _ => Done (-1, output_data)
  end.

(** *** video-processor.c: [compress_video], which averages windows as
    [compress_audio] does *)
Definition compress_video (input_data : pointer) (input_size : Z)
    (output_data : pointer) (output_size quality : Z)
    : outcome (Z * pointer) :=
  match input_data, output_data with
  | Some input, Some output =>
      if (input_size <=? 0) || (output_size <=? 0) then Done (-1, output_data)
      else
        target_size ← float_to_int
             (F32.fmul (F32.of_int input_size) (compression_ratio quality));
        let target_size := clamp_size target_size output_size in
        step ← divide input_size target_size;
        let step := if step <? 1 then 1 else step in
        s ← while (Z.to_nat target_size)
                  (compress_cond input_size target_size)
                  (compress_audio_body input input_size step)
                  (CopyState 0 0 output);
        Done (target_size, Some (cp_out s))
  | _, _ => Done (-1, output_data)
  end.

End Wasm.


(** ** The JavaScript services *)
Module Js.

(** *** Numbers

    A JavaScript number is an IEEE-754 double. A finite one is modelled by
    the rational it denotes; every arithmetic operation yields the double
    nearest to the exact result, ties to even ([round64]). The special
    values that arithmetic can produce are kept apart; the sign of zero is
    not tracked. *)
Inductive number : Type :=
| Finite (q : Q)
| PosInfinity
| NegInfinity
| NaN.

(** [floor (log2 |q|)], for [q] other than zero. *)
Definition ilog2 (q : Q) : Z :=
  let k := Z.log2 (Z.abs (Qnum q)) - Z.log2 (Zpos (Qden q)) in
  if Qle_bool (2 ^ k) (Qabs q) then k else k - 1.

(** [q] rounded to the nearest integer, ties to the even one. *)
Definition round_half_even (q : Q) : Z :=
  let f := Qfloor q in
  match (q - inject_Z f ?= 1 # 2)%Q with
  | Lt => f
  | Gt => f + 1
  | Eq => if Z.even f then f else f + 1
  end.

(** The distance between the doubles around [q]: 53 significant bits, and
    [2 ^ -1074] in the subnormal range. *)
Definition ulp (q : Q) : Q := (2 ^ Z.max (ilog2 q - 52) (-1074))%Q.

(** The double nearest to [q]; beyond the largest double, an infinity. *)
Definition round64 (q : Q) : number :=
  if Qeq_bool q 0 then Finite 0
  else
    let r := Qred (inject_Z (round_half_even (q / ulp q)) * ulp q) in
    if Qle_bool (2 ^ 1024) (Qabs r)
    then (if Qle_bool 0 q then PosInfinity else NegInfinity)
    else Finite r.

(** An integer as a number: itself up to [2 ^ 53], the nearest double
    beyond. *)
Definition of_Z (z : Z) : number := round64 (inject_Z z).

Definition js_sub (a b : number) : number :=
  match a, b with
  | Finite x, Finite y => round64 (x - y)
  | NaN, _ | _, NaN => NaN
  | PosInfinity, PosInfinity | NegInfinity, NegInfinity => NaN
  | PosInfinity, _ | _, NegInfinity => PosInfinity
  | NegInfinity, _ | _, PosInfinity => NegInfinity
  end.

(** The infinity of the sign of [q], or [NaN] for zero. *)
Definition signed_infinity (q : Q) : number :=
  match (q ?= 0)%Q with
  | Gt => PosInfinity
  | Lt => NegInfinity
  | Eq => NaN
  end.

Definition negate (a : number) : number :=
  match a with
  | Finite q => Finite (- q)%Q
  | PosInfinity => NegInfinity
  | NegInfinity => PosInfinity
  | NaN => NaN
  end.

Definition js_mul (a b : number) : number :=
  match a, b with
  | Finite x, Finite y => round64 (x * y)
  | NaN, _ | _, NaN => NaN
  | PosInfinity, Finite y | Finite y, PosInfinity => signed_infinity y
  | NegInfinity, Finite y | Finite y, NegInfinity => negate (signed_infinity y)
  | PosInfinity, PosInfinity | NegInfinity, NegInfinity => PosInfinity
  | PosInfinity, NegInfinity | NegInfinity, PosInfinity => NegInfinity
  end.

Definition js_div (a b : number) : number :=
  match a, b with
  | Finite x, Finite y =>
      if Qeq_bool y 0 then signed_infinity x else round64 (x / y)
  | NaN, _ | _, NaN => NaN
  | Finite _, _ => Finite 0
  | PosInfinity, Finite y => if Qle_bool 0 y then PosInfinity else NegInfinity
  | NegInfinity, Finite y => if Qle_bool 0 y then NegInfinity else PosInfinity
  | _, _ => NaN
  end.

(** [q] rounded to the nearest integer, ties away from zero. *)
Definition round_half_away (q : Q) : Z :=
  if Qle_bool 0 q then Qfloor (q + (1 # 2))%Q else - Qfloor (- q + (1 # 2))%Q.

(** [x.toFixed(2)], as the value of the decimal that the produced string
    writes: the multiple of [1/100] nearest to the double [x], the larger in
    magnitude of two that are as near. From [10 ^ 21] on, [toFixed] writes the
    digits of [String(x)], which identify [x]. *)
Definition toFixed2 (a : number) : number :=
  match a with
  | Finite q =>
      if Qle_bool (10 ^ 21) (Qabs q) then Finite q
      else Finite (inject_Z (round_half_away (q * 100)%Q) / 100)%Q
  | other => other
  end.

(** [parseFloat(s)] for the string [s] of a [toFixed]: the double nearest
    to the decimal it writes. *)
Definition parseFloat (a : number) : number :=
  match a with
  | Finite q => round64 q
  | other => other
  end.

(** [(originalSize - compressedSize) / originalSize * 100], in doubles. *)
Definition ratio_percent (originalSize compressedSize : Z) : number :=
  js_mul
    (js_div (js_sub (of_Z originalSize) (of_Z compressedSize)) (of_Z originalSize))
    (of_Z 100).

(** [((originalSize - compressedSize) / originalSize * 100).toFixed(2)], the
    expression of every converter and of [OfflineProcessor]. *)
Definition compressionRatio (originalSize compressedSize : Z) : number :=
  toFixed2 (ratio_percent originalSize compressedSize).

(** *** Strings

    A string is modelled by the bytes of its UTF-8 encoding. *)

Definition lower_ascii (c : ascii) : ascii :=
  let n := nat_of_ascii c in
  if (65 <=? n)%nat && (n <=? 90)%nat then ascii_of_nat (n + 32) else c.

(** [s.toLowerCase()]. The letters [A] to [Z] are lowered, and so is the
    Kelvin sign U+212A (bytes 226, 132, 170), whose lower case is [k]: it is
    the one character outside ASCII whose lower case is a string of ASCII
    characters. Other characters outside ASCII are left as they are: the
    function is exact on strings of ASCII characters and Kelvin signs, and on
    every string it decides exactly whether the lower case is a given string
    of ASCII characters. *)
Fixpoint toLowerCase (s : string) : string :=
  match s with
  | EmptyString => EmptyString
  | String c rest =>
      match rest with
      | String c1 (String c2 rest') =>
          if Ascii.eqb c "226" && Ascii.eqb c1 "132" && Ascii.eqb c2 "170"
          then String "k" (toLowerCase rest')
          else String (lower_ascii c) (toLowerCase rest)
      | _ => String (lower_ascii c) (toLowerCase rest)
      end
  end.

(** [s.split('.').pop()]: what follows the last dot, or all of [s]. *)
Fixpoint split_pop_from (s : string) (acc : string) : string :=
  match s with
  | EmptyString => acc
  | String c s' =>
      if Ascii.eqb c "." then split_pop_from s' EmptyString
      else split_pop_from s' (acc +:+ String c EmptyString)
  end.

Definition split_pop (s : string) : string := split_pop_from s EmptyString.

Fixpoint has_dot (s : string) : bool :=
  match s with
  | EmptyString => false
  | String c s' => Ascii.eqb c "." || has_dot s'
  end.

(** The last portion of a path, as [path.extname] and [path.parse] of
    Node's POSIX [path] module look for it: separators at the end of the path
    are skipped, and the portion starts after the separator before it.
    [current] is the portion being read, [last] the one read before it. *)
Fixpoint last_portion_from (p : string) (current last : string) : string :=
  match p with
  | EmptyString => if String.eqb current "" then last else current
  | String c p' =>
      if Ascii.eqb c "/"
      then last_portion_from p' "" (if String.eqb current "" then last else current)
      else last_portion_from p' (current +:+ String c EmptyString) last
  end.

Definition last_portion (p : string) : string := last_portion_from p "" "".

(** [path.extname(p).slice(1)]: what follows the last dot of the last
    portion of [p]; empty when that portion has no dot, or none but its first
    character (and for the portion [..], whose extension is empty). *)
Definition extname_slice1 (p : string) : string :=
  match last_portion p with
  | EmptyString => EmptyString
  | String _ rest => if has_dot rest then split_pop rest else EmptyString
  end.

(** [Buffer.from(text)] for a text of ASCII characters. *)
Definition bytes_of_string (s : string) : list Z :=
  (fun c => Z.of_nat (nat_of_ascii c)) <$> list_ascii_of_string s.

(** *** ConversionService *)

Definition conversionMap : gmap string (list string) :=
  list_to_map [
    ("jpg", ["png"; "webp"]); ("jpeg", ["png"; "webp"]);
    ("png", ["jpg"; "webp"]); ("webp", ["jpg"; "png"]);
    ("gif", ["jpg"; "png"; "webp"]);
    ("mp3", ["wav"; "aac"]); ("wav", ["mp3"; "aac"]); ("aac", ["mp3"; "wav"]);
    ("mp4", ["mov"; "avi"; "mkv"]); ("mov", ["mp4"; "avi"; "mkv"]);
    ("avi", ["mp4"; "mov"; "mkv"]); ("mkv", ["mp4"; "mov"; "avi"]);
    ("pdf", ["docx"; "txt"]); ("docx", ["pdf"; "txt"]);
    ("txt", ["pdf"; "docx"]); ("pptx", ["pdf"]);
    ("zip", ["rar"; "7z"]); ("rar", ["zip"; "7z"]); ("7z", ["zip"; "rar"])
  ]%string.

(** The tables of [ConversionService] are object literals: looking up a key
    they do not hold finds the property of that name that every object
    inherits from [Object.prototype], if there is one. *)
Definition object_prototype_keys : list string :=
  ["constructor"; "__defineGetter__"; "__defineSetter__"; "hasOwnProperty";
   "__lookupGetter__"; "__lookupSetter__"; "isPrototypeOf"; "propertyIsEnumerable";
   "toString"; "valueOf"; "__proto__"; "toLocaleString"]%string.

(** [conversionMap[fromFormat]?.includes(toFormat) || false]. An inherited
    property has no [includes] method: the call throws a [TypeError], which
    [None] stands for. *)
Definition isConversionSupported (fromFormat toFormat : string) : option bool :=
  match conversionMap !! fromFormat with
  | Some targets => Some (bool_decide (toFormat ∈ targets))
  | None =>
      if bool_decide (fromFormat ∈ object_prototype_keys) then None else Some false
  end.

(** What [getFileCategory] returns: the name of a category, or, for a key
    of [Object.prototype], the inherited property. *)
Inductive category : Type :=
| Image | Audio | Video | Document | Archive | Text
| Inherited (key : string).

#[global] Instance category_eq_dec : EqDecision category.
Proof. solve_decision. Defined.

Definition categories : gmap string category :=
  list_to_map [
    ("jpg", Image); ("jpeg", Image); ("png", Image); ("webp", Image); ("gif", Image);
    ("mp3", Audio); ("wav", Audio); ("aac", Audio);
    ("mp4", Video); ("mov", Video); ("avi", Video); ("mkv", Video);
    ("pdf", Document); ("docx", Document); ("txt", Document); ("pptx", Document);
    ("zip", Archive); ("rar", Archive); ("7z", Archive)
  ]%string.

(** [categories[extension] || 'text'] *)
Definition getFileCategory (extension : string) : category :=
  match categories !! extension with
  | Some c => c
  | None =>
      if bool_decide (extension ∈ object_prototype_keys) then Inherited extension
      else Text
  end.

(** *** Effects: thrown errors and the trace of observable events *)

Inductive adapter : Type :=
| ImageConverter | AudioConverter | VideoConverter | DocumentConverter
| ArchiveConverter.

Inductive event : Type :=
| Progress (percent : Q)
| FileWritten (path : string) (data : list Z)
| AdapterCall (a : adapter).

Inductive completion (A : Type) : Type :=
| Returned (a : A)
| Threw (message : string).
Arguments Returned {A} a.
Arguments Threw {A} message.

(** A computation: the events it emitted, and how it ended. *)
Definition run (A : Type) : Type := list event * completion A.

#[global] Instance run_ret : MRet run := fun A a => ([], Returned a).
#[global] Instance run_bind : MBind run := fun A B k m =>
  match m.2 with
  | Returned a => (m.1 ++ (k a).1, (k a).2)
  | Threw e => (m.1, Threw e)
  end.

Definition emit (e : event) : run unit := ([e], Returned tt).
Definition throw {A : Type} (message : string) : run A := ([], Threw message).

(** [try { m } catch (error) { throw new Error(prefix + error.message) }] *)
Definition rethrow {A : Type} (prefix : string) (m : run A) : run A :=
  match m.2 with
  | Returned a => m
  | Threw e => (m.1, Threw (prefix +:+ e))
  end.

(** The [onProgress] argument of a job: no callback, or a callback, given by
    what a call with a percentage does: it returns ([None]), or it throws an
    error with the given message. *)
Definition callback : Type := option (Q -> option string).

(** [onProgress?.(percent)]: the call is recorded, then the callback runs. *)
Definition report (onProgress : callback) (percent : Q) : run unit :=
  match onProgress with
  | None => mret tt
  | Some listener =>
      emit (Progress percent);;
      match listener percent with
      | None => mret tt
      | Some message => throw message
      end
  end.

Definition progress_values (trace : list event) : list Q :=
  omap (fun e => match e with Progress p => Some p | _ => None end) trace.

Definition written_files (trace : list event) : list (string * list Z) :=
  omap (fun e => match e with FileWritten p d => Some (p, d) | _ => None end) trace.

Definition adapter_calls (trace : list event) : list adapter :=
  omap (fun e => match e with AdapterCall a => Some a | _ => None end) trace.

(** *** OfflineProcessor *)

Record file : Type := File { uri : string; name : string; size : Z }.

Record image_result : Type := ImageResult {
  ir_outputPath : string;
  ir_originalSize : Z;
  ir_compressedSize : Z;
  ir_compressionRatio : number }.

Record merge_result : Type := MergeResult {
  mr_outputPath : string;
  mr_totalSize : Z;
  mr_fileCount : Z }.

Section OfflineProcessor.

(** The device: what reading a URI yields (the decoded bytes, or the message
    of the error), whether writing a path fails, the cache directory and the
    clock. *)
Variable readFile : string -> string + list Z.
Variable writeError : string -> option string.
Variable cacheDirectory : string.
Variable now : Z.

(** pdf-lib: a loaded document is the list of its pages. *)
Variable page : Type.
Variable pdf_load : list Z -> string + list page.
Variable pdf_save : list page -> list Z.

(** [Buffer.from(await FileSystem.readAsStringAsync(uri, Base64), 'base64')] *)
Definition readAsBuffer (u : string) : run (list Z) :=
  match readFile u with
  | inr data => mret data
  | inl message => throw message
  end.

(** [await FileSystem.writeAsStringAsync(path, data, Base64)]. What a write
    that fails leaves behind is not modelled. *)
Definition writeBuffer (path : string) (data : list Z) : run unit :=
  match writeError path with
  | None => emit (FileWritten path data)
  | Some message => throw message
  end.

Definition convertToJpeg (buffer : list Z) : run (list Z) := mret buffer.
Definition convertToPng (buffer : list Z) : run (list Z) := mret buffer.
Definition convertToWebp (buffer : list Z) : run (list Z) := mret buffer.

Definition processImage (f : file) (targetFormat : string) (onProgress : callback)
    : run image_result :=
  rethrow "Image processing failed: " (
    report onProgress 10;;
    buffer ← readAsBuffer (uri f);
    report onProgress 30;;
    report onProgress 50;;
    processedData ←
      (let fmt := toLowerCase targetFormat in
       if String.eqb fmt "jpg" || String.eqb fmt "jpeg" then convertToJpeg buffer
       else if String.eqb fmt "png" then convertToPng buffer
       else if String.eqb fmt "webp" then convertToWebp buffer
       else throw ("Unsupported target format: " +:+ targetFormat));
    report onProgress 80;;
    let outputPath :=
      cacheDirectory +:+ "processed_" +:+ pretty now +:+ "." +:+ targetFormat in
    writeBuffer outputPath processedData;;
    report onProgress 100;;
    mret (ImageResult outputPath (size f) (Z.of_nat (length processedData))
            (compressionRatio (size f) (Z.of_nat (length processedData))))).

Definition mergeAudioFallback (buffers : list (list Z)) : run (list Z) :=
  mret (concat buffers).

Definition mergeVideoFallback (buffers : list (list Z)) : run (list Z) :=
  mret (concat buffers).

(** The [for (const buffer of buffers)] loop of [mergePdfsFallback];
    [merged] is the page list of [mergedPdf]. *)
Fixpoint copy_all_pages (buffers : list (list Z)) (merged : list page)
    : run (list page) :=
  match buffers with
  | [] => mret merged
  | buffer :: rest =>
      match pdf_load buffer with
      | inr pages => copy_all_pages rest (merged ++ pages)
      | inl message => throw message
      end
  end.

Definition mergePdfsFallback (buffers : list (list Z)) : run (list Z) :=
  rethrow "PDF merge failed: " (
    merged ← copy_all_pages buffers [];
    mret (pdf_save merged)).

(** The reading loop of [mergeFiles], from index [i] on; [total] is
    [files.length]. *)
Fixpoint read_files (remaining : list file) (i : nat) (total : nat)
    (onProgress : callback) (buffers : list (list Z)) : run (list (list Z)) :=
  match remaining with
  | [] => mret buffers
  | f :: rest =>
      data ← readAsBuffer (uri f);
      report onProgress
        (10 + inject_Z (Z.of_nat i + 1) * 30 / inject_Z (Z.of_nat total))%Q;;
      read_files rest (S i) total onProgress (buffers ++ [data])
  end.

(** The [switch (outputFormat.toLowerCase())] of [mergeFiles]. *)
Definition merge_by_format (outputFormat : string) (buffers : list (list Z))
    : run (list Z) :=
  let fmt := toLowerCase outputFormat in
  if String.eqb fmt "pdf" then mergePdfsFallback buffers
  else if String.eqb fmt "mp3" || String.eqb fmt "wav" || String.eqb fmt "aac"
  then mergeAudioFallback buffers
  else if String.eqb fmt "mp4" || String.eqb fmt "mov" || String.eqb fmt "avi"
          || String.eqb fmt "mkv"
  then mergeVideoFallback buffers
  else throw ("Unsupported merge format: " +:+ outputFormat).

Definition mergeFiles (files : list file) (outputFormat : string)
    (onProgress : callback) : run merge_result :=
  rethrow "File merge failed: " (
    report onProgress 10;;
    buffers ← read_files files 0 (length files) onProgress [];
    report onProgress 70;;
    mergedData ← merge_by_format outputFormat buffers;
    report onProgress 90;;
    let outputPath :=
      cacheDirectory +:+ "merged_" +:+ pretty now +:+ "." +:+ outputFormat in
    writeBuffer outputPath mergedData;;
    report onProgress 100;;
    mret (MergeResult outputPath (Z.of_nat (length mergedData))
            (Z.of_nat (length files)))).

(** The other conversions are placeholders too. *)
Definition convertToMp3 (buffer : list Z) : run (list Z) := mret buffer.
Definition convertToWav (buffer : list Z) : run (list Z) := mret buffer.
Definition convertToAac (buffer : list Z) : run (list Z) := mret buffer.
Definition convertToMp4 (buffer : list Z) : run (list Z) := mret buffer.
Definition convertToMov (buffer : list Z) : run (list Z) := mret buffer.
Definition convertToAvi (buffer : list Z) : run (list Z) := mret buffer.
Definition convertToMkv (buffer : list Z) : run (list Z) := mret buffer.

Definition convertPdfToText (buffer : list Z) : run (list Z) :=
  rethrow "PDF to text conversion failed: " (
    match pdf_load buffer with
    | inr _ =>
        mret (bytes_of_string
                "PDF text extraction not fully implemented in offline mode")
    | inl message => throw message
    end).

Definition convertPdfToDocx (buffer : list Z) : run (list Z) :=
  rethrow "PDF to DOCX conversion failed: " (
    mret (bytes_of_string
            "PDF to DOCX conversion not fully implemented in offline mode")).

Definition processAudio (f : file) (targetFormat : string) (onProgress : callback)
    : run image_result :=
  rethrow "Audio processing failed: " (
    report onProgress 10;;
    buffer ← readAsBuffer (uri f);
    report onProgress 30;;
    report onProgress 50;;
    processedData ←
      (let fmt := toLowerCase targetFormat in
       if String.eqb fmt "mp3" then convertToMp3 buffer
       else if String.eqb fmt "wav" then convertToWav buffer
       else if String.eqb fmt "aac" then convertToAac buffer
       else throw ("Unsupported target format: " +:+ targetFormat));
    report onProgress 80;;
    let outputPath :=
      cacheDirectory +:+ "processed_" +:+ pretty now +:+ "." +:+ targetFormat in
    writeBuffer outputPath processedData;;
    report onProgress 100;;
    mret (ImageResult outputPath (size f) (Z.of_nat (length processedData))
            (compressionRatio (size f) (Z.of_nat (length processedData))))).

Definition processVideo (f : file) (targetFormat : string) (onProgress : callback)
    : run image_result :=
  rethrow "Video processing failed: " (
    report onProgress 10;;
    buffer ← readAsBuffer (uri f);
    report onProgress 30;;
    report onProgress 50;;
    processedData ←
      (let fmt := toLowerCase targetFormat in
       if String.eqb fmt "mp4" then convertToMp4 buffer
       else if String.eqb fmt "mov" then convertToMov buffer
       else if String.eqb fmt "avi" then convertToAvi buffer
       else if String.eqb fmt "mkv" then convertToMkv buffer
       else throw ("Unsupported target format: " +:+ targetFormat));
    report onProgress 80;;
    let outputPath :=
      cacheDirectory +:+ "processed_" +:+ pretty now +:+ "." +:+ targetFormat in
    writeBuffer outputPath processedData;;
    report onProgress 100;;
    mret (ImageResult outputPath (size f) (Z.of_nat (length processedData))
            (compressionRatio (size f) (Z.of_nat (length processedData))))).

Definition processPdf (f : file) (targetFormat : string) (onProgress : callback)
    : run image_result :=
  rethrow "PDF processing failed: " (
    report onProgress 10;;
    buffer ← readAsBuffer (uri f);
    report onProgress 30;;
    report onProgress 50;;
    processedData ←
      (let fmt := toLowerCase targetFormat in
       if String.eqb fmt "txt" then convertPdfToText buffer
       else if String.eqb fmt "docx" then convertPdfToDocx buffer
       else throw ("Unsupported target format: " +:+ targetFormat));
    report onProgress 80;;
    let outputPath :=
      cacheDirectory +:+ "processed_" +:+ pretty now +:+ "." +:+ targetFormat in
    writeBuffer outputPath processedData;;
    report onProgress 100;;
    mret (ImageResult outputPath (size f) (Z.of_nat (length processedData))
            (compressionRatio (size f) (Z.of_nat (length processedData))))).

End OfflineProcessor.

(** *** The backend: converters and the [/api/convert] route *)

Record conversion_result : Type := ConversionResult {
  cr_outputPath : string;
  cr_originalSize : Z;
  cr_compressedSize : Z;
  cr_compressionRatio : number }.

Inductive response : Type :=
| Ok200 (fileName : string) (result : conversion_result)
| Error400 (error : string)
| Error500 (error : string) (details : option string).

(** [req.file], as multer leaves it for the handler of a route. *)
Record upload : Type := Upload { originalname : string; stored_path : string }.

(** What [upload.single('file')] makes of a request: the upload is stored,
    the request carries no file, or multer passes an error on to the
    error-handling middleware. *)
Inductive received : Type :=
| Stored (u : upload)
| NoFile
| Refused.

(** [path.parse(p).name]: the last portion of [p] without its extension. *)
Fixpoint drop_extension (s : string) : string :=
  match s with
  | EmptyString => EmptyString
  | String c s' =>
      if Ascii.eqb c "." && negb (has_dot s') then EmptyString
      else String c (drop_extension s')
  end.

Definition parse_name (p : string) : string :=
  let portion := last_portion p in
  if String.eqb portion ".." then portion
  else
    match portion with
    | EmptyString => EmptyString
    | String c rest => String c (drop_extension rest)
    end.

Section Backend.

(** What lies outside the repository: the size of a stored file, the
    third-party codecs (ffmpeg, pdf-lib, mammoth) behind the audio, video and
    document converters, sharp, unzipper and archiver; [uuidv4]; the two
    directories [path.join(__dirname, 'uploads')] and
    [path.join(__dirname, 'outputs')]; and [fs.remove]. Each fallible one
    yields the message of the error it raises, or its result. *)
Variable stat_size : string -> Z.
Variable codec : adapter -> string -> string -> string -> string + conversion_result.
Variable sharp : string -> string -> string + list Z.
Variable unzip : string -> option string.
Variable archive : string -> string + list Z.
Variable uuidv4 : nat -> string.
Variable uploadsDir : string.
Variable outputsDir : string.
Variable remove : string -> option string.

(** [path.join(directory, fileName)], for a directory as [path.join] returns
    it and a file name without separators. *)
Definition path_join (directory fileName : string) : string :=
  directory +:+ "/" +:+ fileName.

(** The [multer] instance of the server: files of more than [fileSize] bytes
    are refused, the others are stored in [uploadsDir] under
    [`${uuidv4()}-${file.originalname}`]. *)
Definition fileSize : Z := 100 * 1024 * 1024.

Definition upload_single (f : file) : received :=
  if fileSize <? size f then Refused
  else Stored (Upload (name f) (path_join uploadsDir (uuidv4 0 +:+ "-" +:+ name f))).

(** archiveConverter.js *)
Definition extractArchive (inputPath : string) : run unit :=
  let inputExtension := toLowerCase (extname_slice1 inputPath) in
  if String.eqb inputExtension "zip" then
    match unzip inputPath with
    | None => mret tt
    | Some message => throw ("ZIP extraction failed: " +:+ message)
    end
  else
    throw ("Extraction of " +:+ inputExtension
           +:+ " files not supported in this version").

(** The write stream is opened before the format is looked at, which
    creates the output file, still empty. *)
Definition createArchive (outputPath format : string) : run (list Z) :=
  emit (FileWritten outputPath []);;
  let fmt := toLowerCase format in
  if String.eqb fmt "zip" || String.eqb fmt "tar" then
    match archive outputPath with
    | inr data => emit (FileWritten outputPath data);; mret data
    | inl message => throw ("Archive creation failed: " +:+ message)
    end
  else throw ("Archive format " +:+ format +:+ " not supported").

Definition archiveConverter_convert (inputPath outputPath targetFormat : string)
    : run conversion_result :=
  rethrow "Archive conversion failed: " (
    let originalSize := stat_size inputPath in
    extractArchive inputPath;;
    data ← createArchive outputPath targetFormat;
    let compressedSize := Z.of_nat (length data) in
    mret (ConversionResult outputPath originalSize compressedSize
            (parseFloat (compressionRatio originalSize compressedSize)))).

(** imageConverter.js: [convert]. *)
Definition imageConverter_convert (inputPath outputPath targetFormat : string)
    : run conversion_result :=
  rethrow "Image conversion failed: " (
    let originalSize := stat_size inputPath in
    let fmt := toLowerCase targetFormat in
    (if String.eqb fmt "jpg" || String.eqb fmt "jpeg" || String.eqb fmt "png"
        || String.eqb fmt "webp" then mret tt
     else if String.eqb fmt "gif"
     then throw "GIF conversion not supported in this version"
     else throw ("Unsupported target format: " +:+ targetFormat));;
    data ← match sharp inputPath fmt with
           | inr data => emit (FileWritten outputPath data);; mret data
           | inl message => throw message
           end;
    let compressedSize := Z.of_nat (length data) in
    mret (ConversionResult outputPath originalSize compressedSize
            (parseFloat (compressionRatio originalSize compressedSize)))).

(** A converter, as the route sees it: the call is recorded, then the
    converter runs. *)
Definition invoke (a : adapter) (inputPath outputPath targetFormat : string)
    : run conversion_result :=
  emit (AdapterCall a);;
  match a with
  | ArchiveConverter => archiveConverter_convert inputPath outputPath targetFormat
  | ImageConverter => imageConverter_convert inputPath outputPath targetFormat
  | _ =>
      match codec a inputPath outputPath targetFormat with
      | inr result => mret result
      | inl message => throw message
      end
  end.

(** The [switch (fileExtension)] of the route. *)
Definition converter_for (fileExtension : string) : option adapter :=
  if String.eqb fileExtension "jpg" || String.eqb fileExtension "jpeg"
     || String.eqb fileExtension "png" || String.eqb fileExtension "webp"
     || String.eqb fileExtension "gif" then Some ImageConverter
  else if String.eqb fileExtension "mp3" || String.eqb fileExtension "wav"
     || String.eqb fileExtension "aac" then Some AudioConverter
  else if String.eqb fileExtension "mp4" || String.eqb fileExtension "mov"
     || String.eqb fileExtension "avi" || String.eqb fileExtension "mkv"
  then Some VideoConverter
  else if String.eqb fileExtension "pdf" || String.eqb fileExtension "docx"
     || String.eqb fileExtension "txt" || String.eqb fileExtension "pptx"
  then Some DocumentConverter
  else if String.eqb fileExtension "zip" || String.eqb fileExtension "rar"
     || String.eqb fileExtension "7z" then Some ArchiveConverter
  else None.

(** [await fs.remove(inputPath)] *)
Definition remove_file (path : string) : run unit :=
  match remove path with
  | None => mret tt
  | Some message => throw message
  end.

(** The handler of [app.post('/api/convert', ...)], for a stored upload. *)
Definition convert_handler (u : upload) (targetFormat : string)
    : list event * response :=
  let inputPath := stored_path u in
  let originalName := originalname u in
  let fileExtension := toLowerCase (extname_slice1 originalName) in
  let outputFileName := parse_name originalName +:+ "." +:+ targetFormat in
  let outputPath := path_join outputsDir (uuidv4 1 +:+ "-" +:+ outputFileName) in
  match converter_for fileExtension with
  | None => ([], Error400 "Unsupported file format")
  | Some a =>
      let r := (result ← invoke a inputPath outputPath targetFormat;
                remove_file inputPath;;
                mret result) in
      match r.2 with
      | Returned result => (r.1, Ok200 outputFileName result)
      | Threw message => (r.1, Error500 "Conversion failed" (Some message))
      end
  end.

(** The route: [upload.single('file')], then the handler; an error of
    multer goes to the error-handling middleware at the end of the server. *)
Definition convert_route (r : received) (targetFormat : string)
    : list event * response :=
  match r with
  | Stored u => convert_handler u targetFormat
  | NoFile => ([], Error400 "No file uploaded")
  | Refused => ([], Error500 "Internal server error" None)
  end.

(** ConversionService.convertFile: the request goes to the backend as it
    is; [x || 'Conversion failed'] keeps a non-empty [x]. *)
Definition or_default (s fallback : string) : string :=
  if String.eqb s "" then fallback else s.

Definition convertFile (f : file) (targetFormat : string) (onProgress : callback)
    : run (conversion_result * string) :=
  rethrow "Conversion failed: " (
    let served := convert_route (upload_single f) targetFormat in
    match served.2 with
    | Ok200 fileName result =>
        (served.1, Returned tt);;
        mapM (fun i => report onProgress (inject_Z (10 * i))) (seqZ 0 11);;
        let downloadUrl := "http://localhost:3001/api/download/" +:+ fileName in
        mret (result, downloadUrl)
    | Error400 error => (served.1, Threw (or_default error "Conversion failed"))
    | Error500 error _ => (served.1, Threw (or_default error "Conversion failed"))
    end).

(** imageConverter.js: the settings of a compression level. *)
Definition getQualityFromLevel (level : string) : Z :=
  let l := toLowerCase level in
  if String.eqb l "low" then 90
  else if String.eqb l "medium" then 75
  else if String.eqb l "high" then 50
  else 75.

Definition getPngCompressionLevel (level : string) : Z :=
  let l := toLowerCase level in
  if String.eqb l "low" then 3
  else if String.eqb l "medium" then 6
  else if String.eqb l "high" then 9
  else 6.

(** documentConverter.js: [convert]. The conversions it dispatches to
    ([pdfToText], [docxToPdf], ...) go through the file system, mammoth and
    html-pdf: [document_tool] gives, for the name of one of them, the bytes
    it writes or the message of the error it raises. *)
Variable document_tool : string -> string -> string -> string + list Z.

Definition run_document_tool (tool inputPath outputPath : string) : run (list Z) :=
  match document_tool tool inputPath outputPath with
  | inr data => emit (FileWritten outputPath data);; mret data
  | inl message => throw message
  end.

Definition documentConverter_convert (inputPath outputPath targetFormat : string)
    : run conversion_result :=
  rethrow "Document conversion failed: " (
    let originalSize := stat_size inputPath in
    let inputExtension := toLowerCase (extname_slice1 inputPath) in
    data ←
      (if String.eqb inputExtension "pdf" && String.eqb targetFormat "txt"
       then run_document_tool "pdfToText" inputPath outputPath
       else if String.eqb inputExtension "docx" && String.eqb targetFormat "pdf"
       then run_document_tool "docxToPdf" inputPath outputPath
       else if String.eqb inputExtension "docx" && String.eqb targetFormat "txt"
       then run_document_tool "docxToText" inputPath outputPath
       else if String.eqb inputExtension "txt" && String.eqb targetFormat "pdf"
       then run_document_tool "textToPdf" inputPath outputPath
       else if String.eqb inputExtension "txt" && String.eqb targetFormat "docx"
       then run_document_tool "textToDocx" inputPath outputPath
       else if String.eqb inputExtension "pptx" && String.eqb targetFormat "pdf"
       then run_document_tool "pptxToPdf" inputPath outputPath
       else throw ("Conversion from " +:+ inputExtension +:+ " to "
                   +:+ targetFormat +:+ " not supported"));
    let compressedSize := Z.of_nat (length data) in
    mret (ConversionResult outputPath originalSize compressedSize
            (parseFloat (compressionRatio originalSize compressedSize)))).

(** imageConverter.js: [compress]. [metadata_format] is the format sharp
    detects in the content of the file. *)
Variable metadata_format : string -> string + string.

Definition imageConverter_compress (inputPath outputPath compressionLevel : string)
    : run conversion_result :=
  rethrow "Image compression failed: " (
    let originalSize := stat_size inputPath in
    format ← match metadata_format inputPath with
             | inr format => mret format
             | inl message => throw message
             end;
    let encoder :=
      if String.eqb format "jpeg" then "jpeg"
      else if String.eqb format "png" then "png"
      else if String.eqb format "webp" then "webp"
      else "jpeg" in
    data ← match sharp inputPath encoder with
           | inr data => emit (FileWritten outputPath data);; mret data
           | inl message => throw message
           end;
    let compressedSize := Z.of_nat (length data) in
    mret (ConversionResult outputPath originalSize compressedSize
            (parseFloat (compressionRatio originalSize compressedSize)))).

(** The [/api/compress] route. The audio and video compressors run ffmpeg:
    [compressor] gives their result or the message of their error. *)
Variable compressor : adapter -> string -> string -> string -> string + conversion_result.

Definition compress_with (a : adapter) (inputPath outputPath compressionLevel : string)
    : run conversion_result :=
  emit (AdapterCall a);;
  match a with
  | ImageConverter => imageConverter_compress inputPath outputPath compressionLevel
  | _ =>
      match compressor a inputPath outputPath compressionLevel with
      | inr result => mret result
      | inl message => throw message
      end
  end.

(** The [switch (fileExtension)] of the route. *)
Definition compressor_for (fileExtension : string) : option adapter :=
  if String.eqb fileExtension "jpg" || String.eqb fileExtension "jpeg"
     || String.eqb fileExtension "png" || String.eqb fileExtension "webp"
  then Some ImageConverter
  else if String.eqb fileExtension "mp3" || String.eqb fileExtension "wav"
     || String.eqb fileExtension "aac" then Some AudioConverter
  else if String.eqb fileExtension "mp4" || String.eqb fileExtension "mov"
     || String.eqb fileExtension "avi" || String.eqb fileExtension "mkv"
  then Some VideoConverter
  else None.

Definition compress_handler (u : upload) (compressionLevel : string)
    : list event * response :=
  let inputPath := stored_path u in
  let originalName := originalname u in
  let fileExtension := toLowerCase (extname_slice1 originalName) in
  let outputFileName :=
    parse_name originalName +:+ "_compressed." +:+ fileExtension in
  let outputPath := path_join outputsDir (uuidv4 1 +:+ "-" +:+ outputFileName) in
  match compressor_for fileExtension with
  | None => ([], Error400 "Compression not supported for this file type")
  | Some a =>
      let r := (result ← compress_with a inputPath outputPath compressionLevel;
                remove_file inputPath;;
                mret result) in
      match r.2 with
      | Returned result => (r.1, Ok200 outputFileName result)
      | Threw message => (r.1, Error500 "Compression failed" (Some message))
      end
  end.

Definition compress_route (r : received) (compressionLevel : string)
    : list event * response :=
  match r with
  | Stored u => compress_handler u compressionLevel
  | NoFile => ([], Error400 "No file uploaded")
  | Refused => ([], Error500 "Internal server error" None)
  end.

(** CompressionService.compressFile *)
Definition compressFile (f : file) (compressionLevel : string) (onProgress : callback)
    : run (conversion_result * string) :=
  rethrow "Compression failed: " (
    let served := compress_route (upload_single f) compressionLevel in
    match served.2 with
    | Ok200 fileName result =>
        (served.1, Returned tt);;
        mapM (fun i => report onProgress (inject_Z (10 * i))) (seqZ 0 11);;
        let downloadUrl := "http://localhost:3001/api/download/" +:+ fileName in
        mret (result, downloadUrl)
    | Error400 error => (served.1, Threw (or_default error "Compression failed"))
    | Error500 error _ => (served.1, Threw (or_default error "Compression failed"))
    end).

End Backend.

(** *** Validation on the client *)

Record validation : Type := Validation {
  isValid : bool;
  errors : list string;
  warnings : list string }.

(** ConversionService.validateFile *)
Definition supportedFormats : list string :=
  ["jpg"; "jpeg"; "png"; "webp"; "gif"; "mp3"; "wav"; "aac"; "mp4"; "mov"; "avi";
   "mkv"; "pdf"; "docx"; "txt"; "pptx"; "zip"; "rar"; "7z"]%string.

Definition validateFile (f : file) : validation :=
  let maxSize := 100 * 1024 * 1024 in
  let errors1 :=
    if maxSize <? size f then ["File size exceeds 100MB limit"%string] else [] in
  let extension := toLowerCase (split_pop (name f)) in
  let errors2 :=
    if String.eqb extension "" then ["File must have an extension"%string] else [] in
  let errors3 :=
    if bool_decide (extension ∈ supportedFormats) then []
    else [("File format ." +:+ extension +:+ " is not supported")%string] in
  let warnings :=
    if 50 * 1024 * 1024 <? size f
    then ["Large file may take longer to process"%string] else [] in
  let errors := errors1 ++ errors2 ++ errors3 in
  Validation (bool_decide (errors = [])) errors warnings.

(** The functions of CompressionService.js that share a name with those of
    ConversionService.js. *)
Module CompressionService.

Definition compressibleTypes : list string :=
  ["jpg"; "jpeg"; "png"; "webp"; "gif"; "mp3"; "wav"; "aac"; "mp4"; "mov"; "avi";
   "mkv"; "pdf"; "docx"; "txt"; "zip"; "rar"; "7z"]%string.

Definition isCompressionSupported (fileExtension : string) : bool :=
  bool_decide (toLowerCase fileExtension ∈ compressibleTypes).

Definition alreadyCompressed : list string :=
  ["jpg"; "jpeg"; "mp3"; "mp4"; "zip"; "rar"; "7z"]%string.

Definition validateFile (f : file) : validation :=
  let maxSize := 100 * 1024 * 1024 in
  let errors1 :=
    if maxSize <? size f then ["File size exceeds 100MB limit"%string] else [] in
  let extension := toLowerCase (split_pop (name f)) in
  let errors2 :=
    if String.eqb extension "" then ["File must have an extension"%string] else [] in
  let errors3 :=
    if isCompressionSupported extension then []
    else [("Compression not supported for ." +:+ extension +:+ " files")%string] in
  let warnings1 :=
    if 50 * 1024 * 1024 <? size f
    then ["Large file may take longer to compress"%string] else [] in
  let warnings2 :=
    if bool_decide (extension ∈ alreadyCompressed)
    then ["File is already compressed, further compression may reduce quality"%string]
    else [] in
  let errors := errors1 ++ errors2 ++ errors3 in
  Validation (bool_decide (errors = [])) errors (warnings1 ++ warnings2).

End CompressionService.

End Js.

(** * Specification vocabulary *)

Import CInt Wasm Js.

(** Invariant of the subsampling loops of [compress_image] and
    [compress_audio]: the source index is [step] times the target index. *)
Definition copy_inv (output : buffer) (target_size step : Z) (s : copy_state) : Prop :=
  cp_i s = cp_j s * step /\ 0 <= cp_j s <= target_size /\
  length (cp_out s) = length output.

Definition copy_measure (target_size : Z) (s : copy_state) : nat :=
  Z.to_nat (target_size - cp_j s).

(** [sum += v] over the samples of a window, in the arithmetic of [int]. *)
Definition wrapped_sum (samples : list Z) : Z := foldl CInt.add 0 samples.

(** The window of [compress_audio] at source index [i]: [step] samples, or
    those that remain. *)
Definition window (input : buffer) (i step : Z) : list Z :=
  take (Z.to_nat step) (drop (Z.to_nat i) input).

(** [(unsigned char)(sum / count)] for the window at [i]. *)
Definition averaged (input : buffer) (i step : Z) : Z :=
  to_uchar (CInt.div (wrapped_sum (window input i step))
                     (Z.of_nat (length (window input i step)))).

(** Invariant of the averaging window of [compress_audio]. *)
Definition sum_inv (input : buffer) (i step : Z) (s : sum_state) : Prop :=
  0 <= sm_k s <= step /\ i + sm_k s <= Z.of_nat (length input) /\
  sm_count s = sm_k s /\
  sm_sum s = wrapped_sum (take (Z.to_nat (sm_k s)) (drop (Z.to_nat i) input)).

(** Invariant of the outer loop of [compress_audio]: every sample written so
    far is the average of its window. *)
Definition audio_inv (input output : buffer) (target_size step : Z)
    (s : copy_state) : Prop :=
  copy_inv output target_size step s /\
  forall j, 0 <= j < cp_j s ->
    cp_out s !! Z.to_nat j = Some (averaged input (j * step) step).

(** The plain sum and the two means of a window. *)
Definition sum_bytes (samples : list Z) : Z := foldr Z.add 0 samples.

Definition floor_mean (samples : list Z) : Z :=
  sum_bytes samples / Z.of_nat (length samples).

Definition rounded_mean (samples : list Z) : Z :=
  round_half_away (inject_Z (sum_bytes samples) / inject_Z (Z.of_nat (length samples))).

Definition is_byte (b : Z) : Prop := 0 <= b < 256.

(** The distance between the doubles around a [q] in the normal range, and
    the multiple of a distance [g] nearest to [q]. *)
Definition grid (q : Q) : Q := (2 ^ (ilog2 q - 52))%Q.

Definition nearest_multiple (g q : Q) : Q := (inject_Z (round_half_even (q / g)) * g)%Q.

(** The quotient behind the compression ratio, before rounding. *)
Definition exact_ratio (original output : Z) : Q :=
  ((inject_Z original - inject_Z output) / inject_Z original * 100)%Q.

(** What the specification asks of a reported ratio. *)
Definition ratio_in_range (original : Z) (reported : number) : Prop :=
  exists r : Q, reported = Finite r /\ (0 <= r <= 100)%Q /\ (original = 0 -> (r == 0)%Q).

(** What the specification asks of an illegal conversion request. *)
Definition rejected_at_validation {A : Type} (r : run A) : Prop :=
  r.2 = Threw "IllegalConversion" /\ adapter_calls r.1 = [].

(** A progress stream that never decreases and stays between two bounds. *)
Definition ascending (lo hi : Q) (percents : list Q) : Prop :=
  StronglySorted Qle percents /\ Forall (fun p => (lo <= p <= hi)%Q) percents.

(** The percentage reported by [mergeFiles] once [done] of [total] files
    are read. *)
Definition read_percent (total done : nat) : Q :=
  (10 + inject_Z (Z.of_nat done) * 30 / inject_Z (Z.of_nat total))%Q.

(** The formats that [mergeFiles] merges by concatenating bytes. *)
Definition concatenating_format (fmt : string) : bool :=
  bool_decide (fmt ∈ ["mp3"; "wav"; "aac"; "mp4"; "mov"; "avi"; "mkv"]%string).

(** The path [mergeFiles] writes to. *)
Definition merged_path (cacheDirectory : string) (now : Z) (outputFormat : string)
    : string :=
  cacheDirectory +:+ "merged_" +:+ pretty now +:+ "." +:+ outputFormat.

(** Entry [i] of a merged sequence whose parts have the given sizes: the
    part that starts where the parts before it end. *)
Definition merged_entry {X : Type} (sizes : list nat) (i : nat) (merged : list X)
    : list X :=
  take (default 0%nat (sizes !! i)) (drop (sum_list (take i sizes)) merged).

(** Every file can be read, and yields the given bytes. *)
Definition all_read (readFile : string -> string + list Z) (files : list file)
    (buffers : list (list Z)) : Prop :=
  Forall2 (fun f b => readFile (uri f) = inr b) files buffers.

(** Every buffer loads as a PDF document with the given pages. *)
Definition all_loaded {page : Type} (pdf_load : list Z -> string + list page)
    (buffers : list (list Z)) (docs : list (list page)) : Prop :=
  Forall2 (fun b d => pdf_load b = inr d) buffers docs.

(** The category of a file, from the extension of its name. *)
Definition file_category (f : file) : category :=
  getFileCategory (toLowerCase (split_pop (name f))).

Definition mixed_categories (files : list file) : Prop :=
  exists f g, f ∈ files /\ g ∈ files /\ file_category f <> file_category g.

(** What the specification asks of a merge of incompatible inputs. *)
Definition merge_refused {A : Type} (r : run A) : Prop :=
  r.2 = Threw "IncompatibleMergeInputs" /\ written_files r.1 = [].

(** A job that, when it fails, has written nothing. *)
Definition no_write_on_failure {A : Type} (r : run A) : Prop :=
  forall e, r.2 = Threw e -> written_files r.1 = [].

(** A sample device: a picture and a song in storage, every write accepted;
    and a toy PDF library whose documents have one page per byte. *)
Definition sample_read (u : string) : string + list Z :=
  if String.eqb u "file:///photo.png" then inr [137; 80; 78; 71]
  else if String.eqb u "file:///song.mp3" then inr [73; 68; 51]
  else inl "ENOENT"%string.

Definition sample_files : list file :=
  [File "file:///photo.png" "photo.png" 4; File "file:///song.mp3" "song.mp3" 3].

Definition sample_write (path : string) : option string := None.
Definition sample_load (bytes : list Z) : string + list Z := inr bytes.
Definition sample_save (pages : list Z) : list Z := pages.

(** What the specification asks of [compress_image] and [compress_audio]:
    that they return the exact scaled size, clamped to the capacity. *)
Definition returns_exact_scaled_size
    (compress : pointer -> Z -> pointer -> Z -> Z -> outcome (Z * pointer))
    (input : buffer) (output : buffer) (quality : Z) : Prop :=
  let input_size := Z.of_nat (length input) in
  let output_size := Z.of_nat (length output) in
  exists out,
    compress (Some input) input_size (Some output) output_size quality
    = Done (Z.min (input_size * quality / 100) output_size, out).

(** What the specification asks of the samples of [compress_audio]: the
    rounded mean of each window. *)
Definition averages_rounded (input output : buffer) (quality : Z) : Prop :=
  let input_size := Z.of_nat (length input) in
  let output_size := Z.of_nat (length output) in
  forall target_size out,
    compress_audio (Some input) input_size (Some output) output_size quality
      = Done (target_size, Some out) ->
    let step := Z.max 1 (input_size / target_size) in
    forall j, 0 <= j < target_size -> j * step < input_size ->
      out !! Z.to_nat j = Some (rounded_mean (window input (j * step) step)).

(** The only error signal of the C interface: the return value -1. *)
Definition signals_error (r : outcome (Z * pointer)) : Prop :=
  exists out, r = Done (-1, out).

(** What [extract_text] may have written after looking at the first
    [consumed] bytes of the input: printable bytes only, which, the spaces
    apart, are bytes of the input in input order. *)
Definition extracted (input : buffer) (consumed : nat) (text : list Z) : Prop :=
  Forall (fun b => printable b = true) text /\
  filter (fun b => b <> 32) text `sublist_of` take consumed input.

(** Invariant of the loops of [extract_text]. *)
Definition text_inv (input output : buffer) (output_size : Z) (s : scan_state)
    : Prop :=
  0 <= sc_i s /\ 0 <= sc_text_size s <= output_size - 1 /\
  length (sc_out s) = length output /\
  extracted input (Z.to_nat (sc_i s))
    (take (Z.to_nat (sc_text_size s)) (sc_out s)).

(** What the specification asks of the text of [extract_text]: printable
    bytes, all copied from the input in input order. *)
Definition copied_in_order (input : buffer) (text : list Z) : Prop :=
  Forall (fun b => printable b = true) text /\ text `sublist_of` input.

(** A float that is not negative: its sign bit, when it has one, is clear. *)
Definition sign_clear (f : spec_float) : Prop :=
  match f with
  | S754_zero s | S754_infinity s | S754_finite s _ _ => s = false
  | S754_nan => True
  end.

(** The source coordinate that the resize loops compute for the output
    coordinate [x]: [(int)(x * ratio)] in single precision, clamped to the
    last row or column. *)
Definition sample_coord (input_dim output_dim x : Z) : Z :=
  match F32.to_int (F32.fmul (F32.of_int x) (size_ratio input_dim output_dim)) with
  | Some v => Z.min v (input_dim - 1)
  | None => 0
  end.

(** The source coordinate in exact arithmetic,
    [clamp(floor(x * src / dst), 0, src - 1)]. *)
Definition exact_coord (input_dim output_dim x : Z) : Z :=
  Z.max 0 (Z.min (x * input_dim / output_dim) (input_dim - 1)).

(** The float-to-int conversions of a resize are all defined. *)
Definition coords_defined (input_dim output_dim : Z) : Prop :=
  forall x, 0 <= x < output_dim ->
    is_Some (F32.to_int (F32.fmul (F32.of_int x) (size_ratio input_dim output_dim))).

(** The same, as a check that can be run. *)
Definition coords_definedb (input_dim output_dim : Z) : bool :=
  forallb
    (fun x =>
       match F32.to_int (F32.fmul (F32.of_int x) (size_ratio input_dim output_dim)) with
       | Some _ => true
       | None => false
       end)
    (seqZ 0 output_dim).

(** The geometry of one resize: a plane of [output_width * output_height]
    pixels of [channels] bytes, written at [out_base] from the plane at
    [in_base]. *)
Record plane : Type := Plane {
  in_base : Z; out_base : Z;
  input_width : Z; input_height : Z;
  output_width : Z; output_height : Z;
  channels : Z }.

(** The index in the input of the byte sampled for channel [c] of output
    pixel [(x, y)], and the index in the output where it is written. *)
Definition src_at (g : plane) (y x c : Z) : Z :=
  in_base g
  + (sample_coord (input_height g) (output_height g) y * input_width g
     + sample_coord (input_width g) (output_width g) x) * channels g + c.

Definition dst_at (g : plane) (y x c : Z) : Z :=
  out_base g + (y * output_width g + x) * channels g + c.

(** The first [p] bytes of the plane are written, each with the byte it
    samples; the rest of the output is as it was. *)
Definition filled (g : plane) (input out0 : buffer) (p : Z) (out : buffer) : Prop :=
  length out = length out0 /\
  (forall k : nat,
     Z.of_nat k < out_base g \/ out_base g + p <= Z.of_nat k ->
     out !! k = out0 !! k) /\
  (forall y x c,
     0 <= y < output_height g -> 0 <= x < output_width g -> 0 <= c < channels g ->
     (y * output_width g + x) * channels g + c < p ->
     out !! Z.to_nat (dst_at g y x c) = input !! Z.to_nat (src_at g y x c)).

(** The plane fits the buffers, and no index leaves [int]. *)
Definition plane_fits (g : plane) (input out0 : buffer) : Prop :=
  0 < input_width g /\ 0 < input_height g /\ 0 < output_width g /\
  0 < output_height g /\ 0 < channels g /\
  0 <= in_base g /\ 0 <= out_base g /\
  input_width g * input_height g * channels g <= INT_MAX /\
  output_width g * output_height g * channels g <= INT_MAX /\
  in_base g + input_width g * input_height g * channels g <= Z.of_nat (length input) /\
  out_base g + output_width g * output_height g * channels g <= Z.of_nat (length out0) /\
  coords_defined (input_width g) (output_width g) /\
  coords_defined (input_height g) (output_height g).

(** Invariant of the frame loop of [resize_video_frames]: the frames before
    [s.1] are resized, the rest of the output is as it was. *)
Definition frames_inv (input output : buffer) (iw ih ow oh nf : Z)
    (s : Z * buffer) : Prop :=
  0 <= s.1 <= nf /\ length s.2 = length output /\
  (forall k : nat, s.1 * (ow * oh * 3) <= Z.of_nat k -> s.2 !! k = output !! k) /\
  (forall f y x c,
     0 <= f < s.1 -> 0 <= y < oh -> 0 <= x < ow -> 0 <= c < 3 ->
     s.2 !! Z.to_nat (f * (ow * oh * 3) + (y * ow + x) * 3 + c)
     = input !! Z.to_nat (f * (iw * ih * 3)
                          + (sample_coord ih oh y * iw + sample_coord iw ow x) * 3 + c)).

(** What the specification asks of a resized image: every output pixel
    samples the source at the exact clamped coordinate. *)
Definition samples_exact_coord (input : buffer) (iw ih : Z) (output : buffer)
    (ow oh ch : Z) : Prop :=
  forall out,
    resize_image (Some input) iw ih (Some output) ow oh ch = Done (0, Some out) ->
    forall y x c, 0 <= y < oh -> 0 <= x < ow -> 0 <= c < ch ->
      out !! Z.to_nat ((y * ow + x) * ch + c)
      = input !! Z.to_nat ((exact_coord ih oh y * iw + exact_coord iw ow x) * ch + c).

(** What [merge_audio] and [merge_video] copy for one entry: the declared
    number of bytes of a file that is there, nothing for a [NULL] entry or a
    size that is not positive. *)
Definition merged_chunk (file : pointer) (sz : Z) : list Z :=
  match file with
  | Some data => if 0 <? sz then take (Z.to_nat sz) data else []
  | None => []
  end.

Definition merged_bytes (files : list pointer) (file_sizes : list Z) : list Z :=
  concat (zip_with merged_chunk files file_sizes).

(** The arrays handed to a merge: a size for each file, not negative, and
    no more than the file holds. *)
Definition merge_inputs (files : list pointer) (file_sizes : list Z) : Prop :=
  Forall2 (fun file sz =>
             0 <= sz /\ forall data, file = Some data -> sz <= Z.of_nat (length data))
          files file_sizes.

(** Invariant of the concatenation loop of [merge_audio]. *)
Definition merge_inv (files : list pointer) (file_sizes output : buffer)
    (num_files : Z) (s : Z * Z * buffer) : Prop :=
  let written := merged_bytes (take (Z.to_nat s.1.1) files)
                              (take (Z.to_nat s.1.1) file_sizes) in
  0 <= s.1.1 <= num_files /\
  s.1.2 = Z.of_nat (length written) /\
  s.2 = written ++ drop (length written) output.

(** The bytes that [trim_video] and [trim_audio] keep. *)
Definition trimmed (input : buffer) (start_byte duration_bytes : Z) : list Z :=
  take (Z.to_nat duration_bytes) (drop (Z.to_nat start_byte) input).

(** The size of the largest page that [split_pdf] cuts, the last one. *)
Definition page_capacity (input_size page_count : Z) : Z :=
  input_size - (page_count - 1) * (input_size / page_count).

(** How much of the input the first [i] pages of [split_pdf] hold. *)
Definition split_offset (input_size page_count i : Z) : Z :=
  if i =? page_count then input_size else i * (input_size / page_count).

(** Invariant of the loop of [split_pdf]: the pages written so far, each cut
    to the size reported for it, make up the start of the input; the other
    entries of the two arrays are as they were. *)
Definition split_inv (input : buffer) (pages0 : list pointer) (sizes0 : buffer)
    (page_count : Z) (s : Z * list pointer * buffer) : Prop :=
  let i := Z.to_nat s.1.1 in
  0 <= s.1.1 <= page_count /\
  length s.1.2 = length pages0 /\ length s.2 = length sizes0 /\
  drop i s.1.2 = drop i pages0 /\ drop i s.2 = drop i sizes0 /\
  merged_bytes (take i s.1.2) (take i s.2)
  = take (Z.to_nat (split_offset (Z.of_nat (length input)) page_count s.1.1)) input.

(** The step of the subsampling loops. *)
Definition sample_step (input_size target_size : Z) : Z :=
  if input_size / target_size <? 1 then 1 else input_size / target_size.

(** Output of a subsampling loop: entry [j] below [target_size] is the
    sample at [j * step], passed through [encode], as long as that sample
    exists; every other entry is as it was. *)
Definition subsampled (encode : Z -> Z) (input output : buffer) (target_size : Z)
    (out : buffer) : Prop :=
  let step := sample_step (Z.of_nat (length input)) target_size in
  length out = length output /\
  forall j : nat,
    out !! j =
    if (Z.of_nat j <? target_size) && (Z.of_nat j * step <? Z.of_nat (length input))
    then encode <$> input !! Z.to_nat (Z.of_nat j * step)
    else output !! j.

(** [(unsigned char)(v * quality / 100)]. *)
Definition scale_byte (quality v : Z) : Z :=
  to_uchar (CInt.div (CInt.mul v quality) 100).

(** Invariant of a subsampling loop. *)
Definition subsample_inv (encode : Z -> Z) (input output : buffer)
    (target_size step : Z) (s : copy_state) : Prop :=
  copy_inv output target_size step s /\
  (0 < cp_j s -> (cp_j s - 1) * step < Z.of_nat (length input)) /\
  (forall j : nat, Z.of_nat j < cp_j s ->
     cp_out s !! j = encode <$> input !! Z.to_nat (Z.of_nat j * step)) /\
  (forall j : nat, cp_j s <= Z.of_nat j -> cp_out s !! j = output !! j).

(** The text that [process_pdf] produces: the printable bytes of the input
    after [prefix], cut to [target_size]. *)
Definition printable_text (prefix : list Z) (input : buffer) (target_size : Z)
    : list Z :=
  take (Z.to_nat target_size) (prefix ++ filter (fun b => printable b = true) input).

(** Invariant of the loop that copies the printable bytes. *)
Definition printable_inv (prefix : list Z) (input output : buffer)
    (target_size : Z) (s : Z * Z * buffer) : Prop :=
  let text := prefix ++ filter (fun b => printable b = true)
                               (take (Z.to_nat s.1.1) input) in
  0 <= s.1.1 <= Z.of_nat (length input) /\
  s.1.2 = Z.of_nat (length text) /\ s.1.2 <= target_size /\
  s.2 = text ++ drop (length text) output.

(** What [process_image] stores for the input byte [v]. *)
Definition encode_byte (quality format v : Z) : Z :=
  if format =? 0 then to_uchar (CInt.div (CInt.mul v quality) 100)
  else if format =? 1 then v
  else to_uchar (CInt.div (CInt.mul v (CInt.add quality 20)) 120).

(** Invariant of the loop of [process_image]: the first [s.1] bytes are
    encoded, the rest of the output is as it was. *)
Definition encode_inv (quality format : Z) (input output : buffer) (s : Z * buffer)
    : Prop :=
  0 <= s.1 <= Z.of_nat (length input) /\ s.1 <= Z.of_nat (length output) /\
  s.2 = (if (0 <=? format) && (format <=? 2)
         then (encode_byte quality format <$> take (Z.to_nat s.1) input)
              ++ drop (Z.to_nat s.1) output
         else output).

(** What [merge_pdfs] copies for entry [i]: the declared bytes of the file,
    without the first 8 when the file is not the first, is longer than 8
    bytes and starts with ["%PDF-"]. *)
Definition pdf_chunk (i : nat) (file : pointer) (sz : Z) : list Z :=
  match file with
  | Some data =>
      if 0 <? sz then
        let skip_header :=
          if (0 <? Z.of_nat i) && (8 <? sz)
             && bool_decide (take 5 data = pdf_magic)
          then 8 else 0 in
        take (Z.to_nat (sz - skip_header)) (drop (Z.to_nat skip_header) data)
      else []
  | None => []
  end.

Definition pdf_chunks (files : list pointer) (file_sizes : list Z) : list Z :=
  concat (imap (fun i entry => pdf_chunk i entry.1 entry.2) (zip files file_sizes)).

(** Invariant of the concatenation loop of [merge_pdfs] when the output has
    room for everything. *)
Definition pdf_inv (files : list pointer) (file_sizes output : buffer)
    (num_files : Z) (s : Z * Z * buffer) : Prop :=
  let written := pdf_header ++ pdf_chunks (take (Z.to_nat s.1.1) files)
                                          (take (Z.to_nat s.1.1) file_sizes) in
  0 <= s.1.1 <= num_files /\
  s.1.2 = Z.of_nat (length written) /\
  s.1.2 <= 9 + sum_bytes (take (Z.to_nat s.1.1) file_sizes) /\
  s.2 = written ++ drop (length written) output.

(** A file name with a dot after its first character: among the names
    without separators, those for which [path.extname] finds an extension. *)
Definition dotted_name (name : string) : bool :=
  match name with
  | EmptyString => false
  | String _ rest => has_dot rest
  end.

(** The category that each converter of the backend serves. *)
Definition adapter_category (a : adapter) : category :=
  match a with
  | ImageConverter => Image
  | AudioConverter => Audio
  | VideoConverter => Video
  | DocumentConverter => Document
  | ArchiveConverter => Archive
  end.

(** The path the [process*] jobs of [OfflineProcessor] write to. *)
Definition processed_path (cacheDirectory : string) (now : Z) (targetFormat : string)
    : string :=
  cacheDirectory +:+ "processed_" +:+ pretty now +:+ "." +:+ targetFormat.

(** A job that succeeds, writes [data] to [path] and nothing else, and
    reports the size of [data]. *)
Definition writes_exactly (job : run image_result) (path : string) (original : Z)
    (data : list Z) : Prop :=
  exists t,
    job = (t, Returned (ImageResult path original (Z.of_nat (length data))
                          (compressionRatio original (Z.of_nat (length data)))))
    /\ written_files t = [(path, data)].

(** A job that fails with the given message, having written nothing. *)
Definition fails_silently {A : Type} (job : run A) (message : string) : Prop :=
  job.2 = Threw message /\ written_files job.1 = [].

(** What a call of the progress callback with [percent] throws, if
    anything. *)
Definition throws_at (onProgress : callback) (percent : Q) : option string :=
  match onProgress with
  | Some listener => listener percent
  | None => None
  end.

(** A progress callback that always returns, or no callback at all. *)
Definition quiet (onProgress : callback) : Prop :=
  forall percent, throws_at onProgress percent = None.

(** The callback of the sample runs, which does nothing. *)
Definition sample_callback : callback := Some (fun _ => None).

(** A name that holds no path separator. *)
Fixpoint has_slash (s : string) : bool :=
  match s with
  | EmptyString => false
  | String c s' => Ascii.eqb c "/" || has_slash s'
  end.

Definition plain_name (name : string) : bool := negb (has_slash name).

(** The extension of one portion of a path. *)
Definition portion_extension (portion : string) : string :=
  match portion with
  | EmptyString => EmptyString
  | String _ rest => if has_dot rest then split_pop rest else EmptyString
  end.

(** The path under which multer stores an upload, and the path of the
    converted file. *)
Definition upload_path (uploadsDir : string) (uuidv4 : nat -> string) (name : string)
    : string :=
  path_join uploadsDir (uuidv4 0%nat +:+ "-" +:+ name).

Definition output_path (outputsDir : string) (uuidv4 : nat -> string)
    (fileName : string) : string :=
  path_join outputsDir (uuidv4 1%nat +:+ "-" +:+ fileName).

(** * Properties *)

(** ** Arithmetic and monad bookkeeping *)

Ltac int_range := unfold in_int, INT_MIN, INT_MAX in *; lia.

Lemma wrap32_id (z : Z) : in_int z -> wrap32 z = z.
Proof.
  unfold in_int, INT_MIN, INT_MAX, wrap32. intros H.
  rewrite Z.mod_small by lia. lia.
Qed.

Lemma add_id (a b : Z) : in_int (a + b) -> CInt.add a b = a + b.
Proof. apply wrap32_id. Qed.

Lemma mul_id (a b : Z) : in_int (a * b) -> CInt.mul a b = a * b.
Proof. apply wrap32_id. Qed.

Lemma div_pos (a b : Z) :
  0 <= a <= INT_MAX -> 0 < b -> CInt.div a b = a / b.
Proof.
  intros Ha Hb. unfold CInt.div. rewrite Z.quot_div_nonneg by lia.
  apply wrap32_id. unfold in_int, INT_MIN, INT_MAX in *.
  assert (0 <= a / b) by (apply Z.div_pos; lia).
  assert (a / b <= a) by (apply Z.div_le_upper_bound; nia).
  lia.
Qed.

Lemma bind_Done {A B} (m : outcome A) (k : A -> outcome B) (a : A) :
  m = Done a -> (m ≫= k) = k a.
Proof. intros ->. reflexivity. Qed.

Lemma load_Done (buf : buffer) (i v : Z) :
  0 <= i -> buf !! Z.to_nat i = Some v -> load buf i = Done v.
Proof.
  intros Hi Hv. unfold load.
  destruct (Z.leb_spec 0 i); [|lia]. by rewrite Hv.
Qed.

Lemma load_in_bounds (buf : buffer) (i : Z) :
  0 <= i < Z.of_nat (length buf) -> exists v, load buf i = Done v /\ buf !! Z.to_nat i = Some v.
Proof.
  intros Hi. destruct (lookup_lt_is_Some_2 buf (Z.to_nat i)) as [v Hv]; [lia|].
  exists v. split; [|done]. apply load_Done; [lia|done].
Qed.

Lemma store_in_bounds (buf : buffer) (i v : Z) :
  0 <= i < Z.of_nat (length buf) -> store buf i v = Done (<[Z.to_nat i := v]> buf).
Proof.
  intros Hi. unfold store.
  destruct (Z.leb_spec 0 i); [|lia].
  destruct (Z.ltb_spec i (Z.of_nat (length buf))); [done|lia].
Qed.

(** The loop rule: an invariant kept by the body, with a measure that the
    body decreases, holds on exit, where the test is false; the loop does
    exit within [measure] iterations. *)
Lemma while_rule {S : Type} (Inv : S -> Prop) (measure : S -> nat)
    (cond : S -> bool) (body : S -> outcome S) :
  (forall s, Inv s -> cond s = true ->
     exists s', body s = Done s' /\ Inv s' /\ (measure s' < measure s)%nat) ->
  forall fuel s, Inv s -> (measure s <= fuel)%nat ->
    exists s', while fuel cond body s = Done s' /\ Inv s' /\ cond s' = false.
Proof.
  intros Hbody. induction fuel as [|fuel IH]; intros s Hs Hm; simpl.
  - destruct (cond s) eqn:Hc; [|by eauto].
    destruct (Hbody s Hs Hc) as (s' & _ & _ & Hlt). lia.
  - destruct (cond s) eqn:Hc; [|by eauto].
    destruct (Hbody s Hs Hc) as (s' & -> & Hs' & Hlt). simpl.
    apply IH; [done|lia].
Qed.

(** ** The subsampling loops of [compress_image] and [compress_audio] *)
Section CompressLoops.
Variables (input output : buffer) (input_size target_size step : Z).
Hypothesis Hinput : Z.of_nat (length input) = input_size.
Hypothesis Htarget : 0 <= target_size <= Z.of_nat (length output).
Hypothesis Hstep : 1 <= step.
Hypothesis Hspan : target_size * step <= INT_MAX.

Local Abbreviation cinv := (copy_inv output target_size step).
Local Abbreviation cmeasure := (copy_measure target_size).
Local Abbreviation sinv i := (sum_inv input i step).

Lemma copy_next_in_int (j : Z) :
  0 <= j < target_size -> in_int (j * step + step) /\ in_int (j + 1).
Proof. unfold in_int, INT_MIN, INT_MAX in *. intros Hj. split; nia. Qed.

Lemma compress_image_body_inv (s : copy_state) :
  cinv s -> compress_cond input_size target_size s = true ->
  exists s', compress_image_body input step s = Done s' /\ cinv s' /\
             (cmeasure s' < cmeasure s)%nat.
Proof.
  intros (Hi & Hj & Hlen) Hc. unfold compress_cond in Hc.
  apply andb_true_iff in Hc as [Hc1 Hc2].
  apply Z.ltb_lt in Hc1, Hc2.
  assert (0 <= cp_i s) by nia.
  destruct (load_in_bounds input (cp_i s)) as (v & Hv & _); [lia|].
  unfold compress_image_body. rewrite (bind_Done _ _ _ Hv).
  rewrite (bind_Done _ _ _ (store_in_bounds (cp_out s) (cp_j s) v ltac:(lia))).
  destruct (copy_next_in_int (cp_j s)) as [Hn1 Hn2]; [lia|].
  eexists. split; [reflexivity|]. unfold copy_inv, copy_measure.
  cbn [cp_i cp_j cp_out].
  rewrite Hi, !add_id by done. rewrite length_insert.
  repeat split; lia.
Qed.

Lemma compress_image_loop :
  exists s', while (Z.to_nat target_size) (compress_cond input_size target_size)
               (compress_image_body input step) (CopyState 0 0 output) = Done s'
             /\ length (cp_out s') = length output.
Proof.
  destruct (while_rule cinv cmeasure _ _ compress_image_body_inv
              (Z.to_nat target_size) (CopyState 0 0 output)) as (s' & Hs' & Hinv & _).
  - unfold copy_inv. simpl. lia.
  - unfold copy_measure. simpl. lia.
  - exists s'. split; [done|]. apply Hinv.
Qed.

Lemma average_body_inv (i : Z) (s : sum_state) :
  0 <= i -> i + step <= INT_MAX ->
  sinv i s -> average_cond input_size step i s = true ->
  exists s', average_body input i s = Done s' /\ sinv i s' /\
             (Z.to_nat (step - sm_k s') < Z.to_nat (step - sm_k s))%nat.
Proof.
  intros Hi Hspan' (Hk & Hik & Hcount & Hsum) Hc. unfold average_cond in Hc.
  apply andb_true_iff in Hc as [Hc1 Hc2].
  apply Z.ltb_lt in Hc1, Hc2.
  assert (Hadd : CInt.add i (sm_k s) = i + sm_k s).
  { apply add_id. unfold in_int, INT_MIN, INT_MAX in *. lia. }
  rewrite Hadd in Hc2.
  destruct (load_in_bounds input (i + sm_k s)) as (v & Hv & Hlook); [lia|].
  unfold average_body. rewrite Hadd, (bind_Done _ _ _ Hv).
  assert (Hk1 : CInt.add (sm_k s) 1 = sm_k s + 1).
  { apply add_id. unfold in_int, INT_MIN, INT_MAX in *. lia. }
  eexists. split; [reflexivity|]. unfold sum_inv. cbn [sm_k sm_sum sm_count].
  rewrite Hcount, Hk1, Hsum. repeat split; try lia.
  replace (Z.to_nat (sm_k s + 1)) with (S (Z.to_nat (sm_k s))) by lia.
  rewrite (take_S_r _ _ v).
  - unfold wrapped_sum. by rewrite foldl_snoc.
  - rewrite lookup_drop. rewrite <- Hlook. f_equal. lia.
Qed.

Lemma average_loop (i : Z) :
  0 <= i < input_size -> i + step <= INT_MAX ->
  exists a, while (Z.to_nat step) (average_cond input_size step i)
              (average_body input i) (SumState 0 0 0) = Done a
            /\ sm_sum a = wrapped_sum (window input i step)
            /\ sm_count a = Z.of_nat (length (window input i step))
            /\ 1 <= sm_count a.
Proof.
  intros Hi Hspan'.
  destruct (while_rule (sinv i) (fun s => Z.to_nat (step - sm_k s))
              (average_cond input_size step i) (average_body input i))
    with (fuel := Z.to_nat step) (s := SumState 0 0 0)
    as (a & Ha & (Hk & Hik & Hcount & Hsum) & Hexit).
  - intros s Hs Hc. apply average_body_inv; (done || lia).
  - unfold sum_inv. cbn. repeat split; lia.
  - cbn. lia.
  - exists a. split; [done|].
    assert (Hexit' : step <= sm_k a \/ input_size <= i + sm_k a).
    { unfold average_cond in Hexit. apply andb_false_iff in Hexit as [He|He];
        apply Z.ltb_ge in He; [by left|right].
      rewrite add_id in He by (unfold in_int, INT_MIN, INT_MAX in *; lia). done. }
    assert (Hwin : take (Z.to_nat (sm_k a)) (drop (Z.to_nat i) input)
                   = window input i step).
    { unfold window. destruct Hexit' as [He|He].
      - by replace (sm_k a) with step by lia.
      - rewrite !take_ge; [done| |]; rewrite length_drop; lia. }
    rewrite Hsum, Hcount, Hwin. split; [done|].
    assert (Hlen : Z.of_nat (length (window input i step)) = sm_k a).
    { rewrite <- Hwin, length_take, length_drop. lia. }
    rewrite Hlen. split; [done|]. lia.
Qed.

Local Abbreviation ainv := (audio_inv input output target_size step).

Lemma compress_audio_body_inv (s : copy_state) :
  ainv s -> compress_cond input_size target_size s = true ->
  exists s', compress_audio_body input input_size step s = Done s' /\ ainv s' /\
             (cmeasure s' < cmeasure s)%nat.
Proof.
  intros [(Hi & Hj & Hlen) Hcontent] Hc. unfold compress_cond in Hc.
  apply andb_true_iff in Hc as [Hc1 Hc2].
  apply Z.ltb_lt in Hc1, Hc2.
  destruct (copy_next_in_int (cp_j s)) as [Hn1 Hn2]; [lia|].
  assert (0 <= cp_i s) by nia.
  destruct (average_loop (cp_i s)) as (a & Ha & Hsum & Hcount & Hpos).
  { lia. } { unfold in_int, INT_MIN, INT_MAX in *. lia. }
  unfold compress_audio_body. rewrite (bind_Done _ _ _ Ha).
  unfold divide. destruct (Z.eqb_spec (sm_count a) 0) as [H0|_]; [lia|].
  cbn [mbind outcome_bind].
  rewrite (bind_Done _ _ _ (store_in_bounds (cp_out s) (cp_j s) _ ltac:(lia))).
  eexists. split; [reflexivity|]. unfold audio_inv, copy_inv, copy_measure.
  cbn [cp_i cp_j cp_out].
  rewrite Hi, !add_id by done. rewrite length_insert.
  repeat split; try lia.
  intros j Hjr. destruct (decide (j = cp_j s)) as [->|Hne].
  - rewrite list_lookup_insert_eq by lia.
    unfold averaged. by rewrite Hsum, Hcount, <- Hi.
  - rewrite list_lookup_insert_ne by lia. apply Hcontent. lia.
Qed.

Lemma compress_audio_loop :
  exists s', while (Z.to_nat target_size) (compress_cond input_size target_size)
               (compress_audio_body input input_size step) (CopyState 0 0 output) = Done s'
             /\ length (cp_out s') = length output
             /\ forall j, 0 <= j < target_size -> j * step < input_size ->
                  cp_out s' !! Z.to_nat j = Some (averaged input (j * step) step).
Proof.
  destruct (while_rule ainv cmeasure _ _ compress_audio_body_inv
              (Z.to_nat target_size) (CopyState 0 0 output))
    as (s' & Hs' & [(Hi & Hj & Hlen) Hcontent] & Hexit).
  - split; [unfold copy_inv; cbn; lia|]. cbn. intros j Hj. lia.
  - unfold copy_measure. cbn. lia.
  - exists s'. split; [done|]. split; [done|].
    intros j Hjt Hjs. apply Hcontent. split; [lia|].
    unfold compress_cond in Hexit. apply andb_false_iff in Hexit as [He|He];
      apply Z.ltb_ge in He; [|lia].
    rewrite Hi in He. nia.
Qed.

End CompressLoops.

(** The step chosen by the [compress_*] functions keeps the source index
    inside [int]. *)
Lemma compress_step_span (input_size target_size : Z) :
  0 < input_size <= INT_MAX -> 1 <= target_size <= INT_MAX ->
  let step := if input_size / target_size <? 1 then 1 else input_size / target_size in
  1 <= step /\ target_size * step <= INT_MAX.
Proof.
  intros Hi Ht. simpl. destruct (Z.ltb_spec (input_size / target_size) 1) as [H|H].
  - lia.
  - split; [done|]. pose proof (Z.mul_div_le input_size target_size). lia.
Qed.

Lemma clamp_size_min (t output_size : Z) : clamp_size t output_size = Z.min t output_size.
Proof. unfold clamp_size. destruct (Z.ltb_spec output_size t); lia. Qed.

Lemma to_int_in_int (f : spec_float) (v : Z) : F32.to_int f = Some v -> in_int v.
Proof.
  destruct f as [s| | |s m e]; simpl; try discriminate.
  - intros [= <-]. unfold in_int, INT_MIN, INT_MAX. lia.
  - destruct (in_intb _) eqn:Hb; [|discriminate]. intros [= <-].
    unfold in_intb in Hb. apply andb_true_iff in Hb as [H1 H2].
    apply Z.leb_le in H1, H2. by split.
Qed.

Section CompressCalls.
Variables (input output : buffer) (input_size output_size quality t : Z).
Hypothesis Hinput : Z.of_nat (length input) = input_size.
Hypothesis Houtput : Z.of_nat (length output) = output_size.
Hypothesis Hisz : 0 < input_size <= INT_MAX.
Hypothesis Hosz : 0 < output_size <= INT_MAX.
Hypothesis Hscaled : scaled_size input_size quality = Some t.
Hypothesis Ht : 1 <= t.

Lemma compress_prologue :
  (input_size <=? 0) || (output_size <=? 0) = false /\
  float_to_int (F32.fmul (F32.of_int input_size) (compression_ratio quality)) = Done t /\
  1 <= Z.min t output_size <= Z.of_nat (length output) /\
  divide input_size (clamp_size t output_size) = Done (input_size / Z.min t output_size).
Proof using All.
  repeat split.
  - apply orb_false_iff. split; apply Z.leb_gt; lia.
  - unfold float_to_int. unfold scaled_size in Hscaled. by rewrite Hscaled.
  - lia.
  - lia.
  - rewrite clamp_size_min. unfold divide.
    destruct (Z.eqb_spec (Z.min t output_size) 0); [lia|].
    f_equal. apply div_pos; lia.
Qed.

Lemma compress_image_runs :
  exists out,
    compress_image (Some input) input_size (Some output) output_size quality
      = Done (Z.min t output_size, Some out) /\ length out = length output.
Proof using All.
  destruct compress_prologue as (Hguard & Hfloat & Htarget & Hdiv).
  destruct (compress_step_span input_size (Z.min t output_size)) as [Hstep Hspan];
    [lia|lia|].
  destruct (compress_image_loop input output input_size (Z.min t output_size) _
              Hinput ltac:(lia) Hstep Hspan) as (s & Hs & Hlen).
  exists (cp_out s). split; [|done].
  unfold compress_image. rewrite Hguard, (bind_Done _ _ _ Hfloat).
  rewrite (bind_Done _ _ _ Hdiv), clamp_size_min.
  by rewrite (bind_Done _ _ _ Hs).
Qed.

Lemma compress_audio_runs :
  exists out,
    compress_audio (Some input) input_size (Some output) output_size quality
      = Done (Z.min t output_size, Some out) /\ length out = length output /\
    let target_size := Z.min t output_size in
    let step := if input_size / target_size <? 1 then 1 else input_size / target_size in
    forall j, 0 <= j < target_size -> j * step < input_size ->
      out !! Z.to_nat j = Some (averaged input (j * step) step).
Proof using All.
  destruct compress_prologue as (Hguard & Hfloat & Htarget & Hdiv).
  destruct (compress_step_span input_size (Z.min t output_size)) as [Hstep Hspan];
    [lia|lia|].
  destruct (compress_audio_loop input output input_size (Z.min t output_size) _
              Hinput ltac:(lia) Hstep Hspan) as (s & Hs & Hlen & Hcontent).
  exists (cp_out s). split; [|done].
  unfold compress_audio. rewrite Hguard, (bind_Done _ _ _ Hfloat).
  rewrite (bind_Done _ _ _ Hdiv), clamp_size_min.
  by rewrite (bind_Done _ _ _ Hs).
Qed.

End CompressCalls.




(** ** Doubles *)

Lemma two_pow_pos (k : Z) : (0 < 2 ^ k)%Q.
Proof. by apply Qpower_0_lt. Qed.

Lemma two_pow_add (a b : Z) : (2 ^ (a + b) == 2 ^ a * 2 ^ b)%Q.
Proof. by apply Qpower_plus. Qed.

Lemma two_pow_le (a b : Z) : a <= b -> (2 ^ a <= 2 ^ b)%Q.
Proof. intros H. by apply Qpower_le_compat_l. Qed.

Lemma two_pow_lt (a b : Z) : a < b -> (2 ^ a < 2 ^ b)%Q.
Proof. intros H. by apply Qpower_lt_compat_l. Qed.

Lemma two_pow_lt_inv (a b : Z) : (2 ^ a < 2 ^ b)%Q -> a < b.
Proof. intros H. by apply (Qpower_lt_compat_l_inv 2). Qed.

Lemma two_pow_Z (a : Z) : 0 <= a -> (inject_Z (2 ^ a) == 2 ^ a)%Q.
Proof. intros H. by rewrite Zpower_Qpower. Qed.

Lemma ilog2_spec (q : Q) :
  ~ (q == 0)%Q -> (2 ^ ilog2 q <= Qabs q)%Q /\ (Qabs q < 2 ^ (ilog2 q + 1))%Q.
Proof.
  intros Hq. unfold ilog2.
  destruct q as [n d]. cbn [Qnum Qden].
  assert (Hn : 0 < Z.abs n).
  { assert (n <> 0); [|lia]. intros ->. by apply Hq. }
  set (a := Z.log2 (Z.abs n)). set (b := Z.log2 (Z.pos d)).
  destruct (Z.log2_spec (Z.abs n) Hn) as [Ha1 Ha2]. fold a in Ha1, Ha2.
  destruct (Z.log2_spec (Z.pos d) ltac:(lia)) as [Hb1 Hb2]. fold b in Hb1, Hb2.
  assert (Ha0 : 0 <= a) by apply Z.log2_nonneg.
  assert (Hb0 : 0 <= b) by apply Z.log2_nonneg.
  assert (Habs : (Qabs (n # d) == inject_Z (Z.abs n) / inject_Z (Z.pos d))%Q).
  { unfold Qabs. apply Qmake_Qdiv. }
  assert (Hd : (0 < inject_Z (Z.pos d))%Q) by (by rewrite <- (Zlt_Qlt 0)).
  rewrite Zle_Qle in Ha1, Hb1. rewrite Zlt_Qlt in Ha2, Hb2.
  rewrite two_pow_Z in Ha1, Ha2, Hb1, Hb2 by lia.
  replace (Z.succ a) with (a + 1) in Ha2 by lia.
  replace (Z.succ b) with (b + 1) in Hb2 by lia.
  destruct (Qle_bool (2 ^ (a - b)) (Qabs (n # d))) eqn:Hle.
  - apply Qle_bool_iff in Hle. split; [done|].
    rewrite Habs. apply Qlt_shift_div_r; [done|].
    assert (Hsplit : (2 ^ (a + 1) == 2 ^ (a - b + 1) * 2 ^ b)%Q).
    { rewrite <- two_pow_add. by replace (a - b + 1 + b) with (a + 1) by lia. }
    pose proof (two_pow_pos (a - b + 1)) as Hp.
    rewrite Hsplit in Ha2.
    eapply Qlt_le_trans; [exact Ha2|]. by apply Qmult_le_l.
  - assert (Hlt : (Qabs (n # d) < 2 ^ (a - b))%Q).
    { apply Qnot_le_lt. intros H. apply Qle_bool_iff in H. congruence. }
    split.
    + rewrite Habs. apply Qle_shift_div_l; [done|].
      assert (Hsplit : (2 ^ a == 2 ^ (a - b - 1) * 2 ^ (b + 1))%Q).
      { rewrite <- two_pow_add. by replace (a - b - 1 + (b + 1)) with a by lia. }
      pose proof (two_pow_pos (a - b - 1)) as Hp.
      eapply Qle_trans; [|exact Ha1]. rewrite Hsplit.
      apply Qmult_le_l; [done|]. by apply Qlt_le_weak.
    + by replace (a - b - 1 + 1) with (a - b) by lia.
Qed.

Lemma ilog2_unique (q : Q) (k : Z) :
  (2 ^ k <= Qabs q)%Q -> (Qabs q < 2 ^ (k + 1))%Q -> ilog2 q = k.
Proof.
  intros Hlo Hhi.
  assert (Hq : ~ (q == 0)%Q).
  { intros H0. assert (Ha : (Qabs q == 0)%Q) by (by rewrite H0).
    pose proof (two_pow_pos k). lra. }
  destruct (ilog2_spec q Hq) as [Hlo' Hhi'].
  assert (H1 : ilog2 q < k + 1).
  { apply two_pow_lt_inv. eapply Qle_lt_trans; [exact Hlo'|exact Hhi]. }
  assert (H2 : k < ilog2 q + 1).
  { apply two_pow_lt_inv. eapply Qle_lt_trans; [exact Hlo|exact Hhi']. }
  lia.
Qed.

Lemma ilog2_Qeq (q1 q2 : Q) : ~ (q1 == 0)%Q -> (q1 == q2)%Q -> ilog2 q1 = ilog2 q2.
Proof.
  intros Hne Heq. symmetry.
  destruct (ilog2_spec q1 Hne) as [Hlo Hhi].
  apply ilog2_unique; by rewrite <- Heq.
Qed.

#[global] Instance round_half_even_proper : Proper (Qeq ==> eq) round_half_even.
Proof.
  intros q1 q2 Heq. unfold round_half_even.
  rewrite (Qfloor_comp _ _ Heq).
  assert (Hc : (q1 - inject_Z (Qfloor q2) ?= 1 # 2)%Q
               = (q2 - inject_Z (Qfloor q2) ?= 1 # 2)%Q) by (by rewrite Heq).
  by rewrite Hc.
Qed.

Lemma round_half_even_close (q : Q) :
  (q - (1 # 2) <= inject_Z (round_half_even q) <= q + (1 # 2))%Q.
Proof.
  unfold round_half_even.
  pose proof (Qfloor_le q) as Hlo. pose proof (Qlt_floor q) as Hhi.
  rewrite inject_Z_plus in Hhi. change (inject_Z 1) with 1%Q in Hhi.
  destruct (Qcompare_spec (q - inject_Z (Qfloor q)) (1 # 2)) as [He|Hl|Hg].
  - destruct (Z.even (Qfloor q)).
    + split; lra.
    + rewrite inject_Z_plus. change (inject_Z 1) with 1%Q. split; lra.
  - split; lra.
  - rewrite inject_Z_plus. change (inject_Z 1) with 1%Q. split; lra.
Qed.

Lemma round_half_even_le (q : Q) (k : Z) :
  (q <= inject_Z k)%Q -> round_half_even q <= k.
Proof.
  intros Hq. unfold round_half_even.
  pose proof (Qfloor_le q) as Hlo. pose proof (Qlt_floor q) as Hhi.
  rewrite inject_Z_plus in Hhi. change (inject_Z 1) with 1%Q in Hhi.
  assert (Hfk : Qfloor q <= k).
  { rewrite <- (Qfloor_Z k). by apply Qfloor_resp_le. }
  destruct (Z.eq_dec (Qfloor q) k) as [Heq|Hne].
  - assert (Hz : (q - inject_Z (Qfloor q) <= 0)%Q) by (rewrite Heq; lra).
    destruct (Qcompare_spec (q - inject_Z (Qfloor q)) (1 # 2)) as [He|Hl|Hg];
      [lra|lia|lra].
  - destruct (q - inject_Z (Qfloor q) ?= 1 # 2)%Q; [destruct (Z.even _)|..]; lia.
Qed.

Lemma round_half_even_ge (q : Q) (k : Z) :
  (inject_Z k <= q)%Q -> k <= round_half_even q.
Proof.
  intros Hq. unfold round_half_even.
  assert (Hfk : k <= Qfloor q).
  { rewrite <- (Qfloor_Z k). by apply Qfloor_resp_le. }
  destruct (q - inject_Z (Qfloor q) ?= 1 # 2)%Q; [destruct (Z.even _)|..]; lia.
Qed.

Lemma round_half_even_Z (q : Q) (k : Z) : (q == inject_Z k)%Q -> round_half_even q = k.
Proof.
  intros Hq. apply Z.le_antisymm.
  - apply round_half_even_le. lra.
  - apply round_half_even_ge. lra.
Qed.

#[global] Instance round64_proper : Proper (Qeq ==> eq) round64.
Proof.
  intros q1 q2 Heq. unfold round64.
  destruct (Qeq_bool q1 0) eqn:H1.
  - apply Qeq_bool_iff in H1. rewrite Heq in H1. apply Qeq_bool_iff in H1.
    by rewrite H1.
  - assert (Hne : ~ (q1 == 0)%Q) by (by apply Qeq_bool_neq).
    assert (H2 : Qeq_bool q2 0 = false).
    { destruct (Qeq_bool q2 0) eqn:H2; [|done].
      apply Qeq_bool_iff in H2. rewrite <- Heq in H2. done. }
    rewrite H2. unfold ulp. rewrite <- (ilog2_Qeq q1 q2 Hne Heq).
    set (g := (2 ^ Z.max (ilog2 q1 - 52) (-1074))%Q).
    assert (Hr : round_half_even (q1 / g) = round_half_even (q2 / g)) by (by rewrite Heq).
    rewrite Hr.
    assert (Hs : Qle_bool 0 q1 = Qle_bool 0 q2).
    { apply eq_true_iff_eq. rewrite !Qle_bool_iff. by rewrite Heq. }
    by rewrite Hs.
Qed.

Lemma nearest_multiple_close (g q : Q) :
  (0 < g)%Q -> (Qabs (nearest_multiple g q - q) <= (1 # 2) * g)%Q.
Proof.
  intros Hg. unfold nearest_multiple.
  destruct (round_half_even_close (q / g)) as [Hlo Hhi].
  assert (Hq : (q == q / g * g)%Q) by (field; lra).
  apply Qabs_Qle_condition.
  apply (Qmult_le_compat_r _ _ g) in Hlo; [|lra].
  apply (Qmult_le_compat_r _ _ g) in Hhi; [|lra].
  set (t := (q / g)%Q) in *. set (z := inject_Z (round_half_even t)) in *.
  clearbody t z. split; lra.
Qed.

Lemma grid_pos (q : Q) : (0 < grid q)%Q.
Proof. apply two_pow_pos. Qed.

Lemma grid_le (q : Q) :
  ~ (q == 0)%Q -> (grid q <= (1 # 4503599627370496) * Qabs q)%Q.
Proof.
  intros Hq. destruct (ilog2_spec q Hq) as [Hlo _]. unfold grid.
  replace (ilog2 q - 52) with (ilog2 q + (-52)) by lia.
  rewrite two_pow_add.
  assert (H52 : (2 ^ (-52) == 1 # 4503599627370496)%Q) by reflexivity.
  rewrite H52. lra.
Qed.

Lemma round64_normal (q : Q) :
  ~ (q == 0)%Q -> (2 ^ (-1000) <= Qabs q)%Q -> (Qabs q <= 2 ^ 1000)%Q ->
  round64 q = Finite (Qred (nearest_multiple (grid q) q)).
Proof.
  intros Hq Hlo Hhi. unfold round64.
  destruct (Qeq_bool q 0) eqn:H0; [by apply Qeq_bool_iff in H0|].
  destruct (ilog2_spec q Hq) as [_ Hup].
  assert (He : -1000 < ilog2 q + 1).
  { apply two_pow_lt_inv. eapply Qle_lt_trans; [exact Hlo|exact Hup]. }
  unfold ulp. rewrite Z.max_l by lia. fold (grid q). fold (nearest_multiple (grid q) q).
  pose proof (nearest_multiple_close (grid q) q (grid_pos q)) as Hclose.
  pose proof (grid_le q Hq) as Hg. pose proof (grid_pos q) as Hgp.
  pose proof (Qabs_nonneg q) as Hq0.
  assert (Hbound : (Qabs (nearest_multiple (grid q) q) <= 2 * Qabs q)%Q).
  { assert (Hsum : (nearest_multiple (grid q) q
                     == (nearest_multiple (grid q) q - q) + q)%Q) by ring.
    rewrite Hsum at 1.
    eapply Qle_trans; [apply Qabs_triangle|]. lra. }
  destruct (Qle_bool (2 ^ 1024) (Qabs (Qred (nearest_multiple (grid q) q)))) eqn:Hov;
    [|done].
  apply Qle_bool_iff in Hov. rewrite Qred_correct in Hov.
  assert (Hlt : (2 * 2 ^ 1000 < 2 ^ 1024)%Q) by reflexivity.
  lra.
Qed.

Lemma nearest_multiple_le (g q B : Q) (k : Z) :
  (0 < g)%Q -> (B == inject_Z k * g)%Q -> (q <= B)%Q -> (nearest_multiple g q <= B)%Q.
Proof.
  intros Hg HB Hq. unfold nearest_multiple. rewrite HB.
  apply Qmult_le_compat_r; [|lra]. rewrite <- Zle_Qle.
  apply round_half_even_le. apply Qle_shift_div_r; [done|]. by rewrite <- HB.
Qed.

Lemma nearest_multiple_ge (g q B : Q) (k : Z) :
  (0 < g)%Q -> (B == inject_Z k * g)%Q -> (B <= q)%Q -> (B <= nearest_multiple g q)%Q.
Proof.
  intros Hg HB Hq. unfold nearest_multiple. rewrite HB.
  apply Qmult_le_compat_r; [|lra]. rewrite <- Zle_Qle.
  apply round_half_even_ge. apply Qle_shift_div_l; [done|]. by rewrite <- HB.
Qed.

(** Every integer is a multiple of the spacing around a [q] below [2 ^ 53]. *)
Lemma int_on_grid (q : Q) (B : Z) :
  ~ (q == 0)%Q -> (Qabs q < 2 ^ 53)%Q ->
  exists k, (inject_Z B == inject_Z k * grid q)%Q.
Proof.
  intros Hq Hsmall. destruct (ilog2_spec q Hq) as [Hlo _].
  assert (He : ilog2 q < 53).
  { apply two_pow_lt_inv. eapply Qle_lt_trans; [exact Hlo|exact Hsmall]. }
  exists (B * 2 ^ (52 - ilog2 q)). unfold grid.
  rewrite inject_Z_mult, two_pow_Z by lia. rewrite <- Qmult_assoc, <- two_pow_add.
  replace (52 - ilog2 q + (ilog2 q - 52)) with 0 by lia.
  change (2 ^ 0)%Q with 1%Q. ring.
Qed.

Lemma round64_bounds (q : Q) :
  ~ (q == 0)%Q -> (2 ^ (-1000) <= Qabs q)%Q -> (Qabs q <= 2 ^ 1000)%Q ->
  exists r, round64 q = Finite r /\
    (Qabs (r - q) <= (1 # 9007199254740992) * Qabs q)%Q /\
    forall (B : Q) (k : Z), (B == inject_Z k * grid q)%Q ->
      ((q <= B)%Q -> (r <= B)%Q) /\ ((B <= q)%Q -> (B <= r)%Q).
Proof.
  intros Hq Hlo Hhi. eexists. split; [by apply round64_normal|].
  split.
  - rewrite Qred_correct.
    pose proof (nearest_multiple_close (grid q) q (grid_pos q)) as Hclose.
    pose proof (grid_le q Hq) as Hg. lra.
  - intros B k HB. rewrite Qred_correct. split; intros HqB.
    + by apply (nearest_multiple_le _ _ _ k); [apply grid_pos|..].
    + by apply (nearest_multiple_ge _ _ _ k); [apply grid_pos|..].
Qed.

(** ** The compression ratio *)

Lemma Qfloor_half_close (x : Q) :
  (x - (1 # 2) <= inject_Z (Qfloor (x + (1 # 2))) <= x + (1 # 2))%Q.
Proof.
  pose proof (Qfloor_le (x + (1 # 2))) as Hle.
  pose proof (Qlt_floor (x + (1 # 2))) as Hlt.
  rewrite inject_Z_plus in Hlt. change (inject_Z 1) with 1%Q in Hlt.
  split; lra.
Qed.

Lemma round_half_away_close (x : Q) :
  (x - (1 # 2) <= inject_Z (round_half_away x) <= x + (1 # 2))%Q.
Proof.
  unfold round_half_away. destruct (Qle_bool 0 x).
  - apply Qfloor_half_close.
  - pose proof (Qfloor_half_close (- x)) as H.
    rewrite inject_Z_opp. split; lra.
Qed.

Lemma round_half_away_nonneg (x : Q) : (0 <= x)%Q -> 0 <= round_half_away x.
Proof.
  intros Hx. unfold round_half_away.
  destruct (Qle_bool 0 x) eqn:Hb.
  - change 0 with (Qfloor 0). apply Qfloor_resp_le. lra.
  - apply Qle_bool_iff in Hx. congruence.
Qed.

Lemma round_half_away_nonpos (x : Q) : (x <= 0)%Q -> round_half_away x <= 0.
Proof.
  intros Hx. unfold round_half_away.
  destruct (Qle_bool 0 x) eqn:Hb.
  - apply Qle_bool_iff in Hb.
    assert (Hz : (x + (1 # 2) <= 1 # 2)%Q) by lra.
    apply Qfloor_resp_le in Hz. exact Hz.
  - assert (Hz : (0 <= - x + (1 # 2))%Q) by lra.
    apply Qfloor_resp_le in Hz. change (Qfloor 0) with 0 in Hz. lia.
Qed.

Lemma round_half_away_le (x : Q) (n : Z) :
  (x <= inject_Z n)%Q -> round_half_away x <= n.
Proof.
  intros Hx. destruct (round_half_away_close x) as [_ Hup].
  assert (Hlt : (inject_Z (round_half_away x) < inject_Z (n + 1))%Q).
  { rewrite inject_Z_plus. change (inject_Z 1) with 1%Q. lra. }
  rewrite <- Zlt_Qlt in Hlt. lia.
Qed.

(** Integers below [2 ^ 53] are doubles. *)
Lemma of_Z_exact (z : Z) :
  Z.abs z < 2 ^ 53 -> exists r, of_Z z = Finite r /\ (r == inject_Z z)%Q.
Proof.
  intros Hz. unfold of_Z.
  destruct (Z.eq_dec z 0) as [->|Hne]; [by exists 0%Q|].
  assert (Hq : ~ (inject_Z z == 0)%Q).
  { intros H0. apply Hne. by apply (inject_Z_injective z 0). }
  assert (Habs : (Qabs (inject_Z z) == inject_Z (Z.abs z))%Q) by reflexivity.
  assert (H1 : (1 <= inject_Z (Z.abs z))%Q) by (rewrite <- (Zle_Qle 1); lia).
  assert (H53 : (inject_Z (Z.abs z) < 2 ^ 53)%Q).
  { rewrite <- two_pow_Z by lia. by rewrite <- Zlt_Qlt. }
  assert (Hc1 : (2 ^ (-1000) <= 1)%Q) by (by vm_compute).
  assert (Hc2 : (2 ^ 53 <= 2 ^ 1000)%Q) by (by apply two_pow_le).
  destruct (round64_bounds (inject_Z z) Hq) as (r & Hr & _ & Hgrid);
    [rewrite Habs; lra..|].
  destruct (int_on_grid (inject_Z z) z Hq) as [k Hk]; [rewrite Habs; lra|].
  destruct (Hgrid (inject_Z z) k Hk) as [Hle Hge].
  exists r. split; [done|]. apply Qle_antisym; [apply Hle|apply Hge]; lra.
Qed.

Lemma round64_positive (q : Q) :
  (2 ^ (-1000) <= q)%Q -> (q <= 2 ^ 1000)%Q ->
  exists r, round64 q = Finite r /\
    (q - (1 # 9007199254740992) * q <= r <= q + (1 # 9007199254740992) * q)%Q /\
    forall (B : Q) (k : Z), (B == inject_Z k * grid q)%Q ->
      ((q <= B)%Q -> (r <= B)%Q) /\ ((B <= q)%Q -> (B <= r)%Q).
Proof.
  intros Hlo Hhi. pose proof (two_pow_pos (-1000)) as Hpos.
  assert (Habs : (Qabs q == q)%Q) by (apply Qabs_pos; lra).
  destruct (round64_bounds q) as (r & Hr & Hclose & Hgrid); [lra|by rewrite Habs..|].
  exists r. split; [done|]. split; [|done].
  rewrite Habs in Hclose. apply Qabs_Qle_condition in Hclose. lra.
Qed.

Lemma round64_negative (q : Q) :
  (2 ^ (-1000) <= - q)%Q -> (- q <= 2 ^ 1000)%Q ->
  exists r, round64 q = Finite r /\
    (q + (1 # 9007199254740992) * q <= r <= q - (1 # 9007199254740992) * q)%Q /\
    forall (B : Q) (k : Z), (B == inject_Z k * grid q)%Q ->
      ((q <= B)%Q -> (r <= B)%Q) /\ ((B <= q)%Q -> (B <= r)%Q).
Proof.
  intros Hlo Hhi. pose proof (two_pow_pos (-1000)) as Hpos.
  assert (Habs : (Qabs q == - q)%Q) by (apply Qabs_neg; lra).
  destruct (round64_bounds q) as (r & Hr & Hclose & Hgrid); [lra|by rewrite Habs..|].
  exists r. split; [done|]. split; [|done].
  rewrite Habs in Hclose. apply Qabs_Qle_condition in Hclose. lra.
Qed.

Lemma ratio_quotient (original output : Z) :
  0 < original < 2 ^ 53 -> 0 <= output < 2 ^ 53 ->
  ratio_percent original output
  = js_mul (round64 ((inject_Z original - inject_Z output) / inject_Z original))
      (of_Z 100).
Proof.
  intros Ho Hc. unfold ratio_percent.
  destruct (of_Z_exact original) as (ro & Hro & Ero); [lia|].
  destruct (of_Z_exact output) as (rc & Hrc & Erc); [lia|].
  destruct (of_Z_exact (original - output)) as (rs & Hrs & Ers); [lia|].
  rewrite Hro, Hrc. cbn [js_sub].
  assert (Hsub : (ro - rc == inject_Z (original - output))%Q).
  { rewrite Ero, Erc. unfold Z.sub. rewrite inject_Z_plus, inject_Z_opp. ring. }
  rewrite Hsub. fold (of_Z (original - output)). rewrite Hrs. cbn [js_div].
  assert (Hpos : (0 < inject_Z original)%Q) by (rewrite <- (Zlt_Qlt 0); lia).
  destruct (Qeq_bool ro 0) eqn:H0.
  { apply Qeq_bool_iff in H0. lra. }
  assert (Hquot : (rs / ro == (inject_Z original - inject_Z output) / inject_Z original)%Q).
  { rewrite Ers, Ero. unfold Z.sub. rewrite inject_Z_plus, inject_Z_opp. reflexivity. }
  by rewrite Hquot.
Qed.

(** The double computed for the ratio_percent, before [toFixed]. *)
Lemma ratio_bounds (original output : Z) :
  0 < original < 2 ^ 53 -> 0 <= output < 2 ^ 53 ->
  exists p : Q,
    ratio_percent original output = Finite p /\
    (Qabs (p - exact_ratio original output)
       <= (1 # 2251799813685248) * Qabs (exact_ratio original output))%Q /\
    (-1000000000000000000 <= p <= 100)%Q /\
    (output <= original -> (0 <= p)%Q) /\
    (original <= output -> (p <= 0)%Q).
Proof.
  intros Ho Hc. rewrite ratio_quotient by done.
  destruct (of_Z_exact 100) as (rh & Hrh & Erh); [by vm_compute|]. rewrite Hrh.
  change (inject_Z 100) with 100%Q in Erh.
  unfold exact_ratio.
  set (X := inject_Z original). set (C := inject_Z output).
  assert (HX1 : (1 <= X)%Q) by (unfold X; rewrite <- (Zle_Qle 1); lia).
  assert (HX53 : (X < 9007199254740992)%Q).
  { unfold X. change 9007199254740992%Q with (inject_Z (2 ^ 53)).
    rewrite <- Zlt_Qlt. lia. }
  assert (HC0 : (0 <= C)%Q) by (unfold C; rewrite <- (Zle_Qle 0); lia).
  assert (HC53 : (C < 9007199254740992)%Q).
  { unfold C. change 9007199254740992%Q with (inject_Z (2 ^ 53)).
    rewrite <- Zlt_Qlt. lia. }
  assert (Hlo : (2 ^ (-1000) <= 1 # 9007199254740992)%Q) by (by vm_compute).
  assert (Hhi : (10000000000000000000 <= 2 ^ 1000)%Q) by (by vm_compute).
  assert (H53 : (2 ^ 53 == 9007199254740992)%Q) by reflexivity.
  assert (Hdiff : (X - C == inject_Z (original - output))%Q).
  { unfold X, C, Z.sub. rewrite inject_Z_plus, inject_Z_opp. reflexivity. }
  set (x := ((X - C) / X)%Q).
  assert (Hx1 : (x <= 1)%Q) by (apply Qle_shift_div_r; lra).
  destruct (Z.lt_total output original) as [Hlt|[Heq|Hgt]].
  - (* a smaller output *)
    assert (Hd : (1 <= X - C)%Q).
    { rewrite Hdiff, <- (Zle_Qle 1). lia. }
    assert (Hx0 : ((1 # 9007199254740992) <= x)%Q) by (apply Qle_shift_div_l; lra).
    destruct (round64_positive x) as (d & Hd' & Hdx & Hgrid); [lra..|].
    destruct (int_on_grid x 1) as [k Hk]; [lra| |].
    { rewrite Qabs_pos by lra. rewrite H53. lra. }
    destruct (Hgrid 1%Q k Hk) as [Hd1 _]. specialize (Hd1 Hx1).
    rewrite Hd'. cbn [js_mul].
    assert (Hy : (d * rh == d * 100)%Q) by (by rewrite Erh).
    rewrite (round64_proper _ _ Hy).
    destruct (round64_positive (d * 100)) as (p & Hp & Hpy & Hgrid'); [lra..|].
    destruct (int_on_grid (d * 100) 100) as [k' Hk']; [lra| |].
    { rewrite Qabs_pos by lra. rewrite H53. lra. }
    destruct (Hgrid' 100%Q k' Hk') as [Hp100 _]. specialize (Hp100 ltac:(lra)).
    exists p. split; [done|]. split; [|split; [lra|split; [intros _; lra|lia]]].
    rewrite (Qabs_pos (x * 100)) by lra. apply Qabs_Qle_condition. lra.
  - (* the same size *)
    assert (Hx0 : (x == 0)%Q).
    { unfold x, X, C. rewrite Heq. unfold Qminus. rewrite Qplus_opp_r. reflexivity. }
    rewrite (round64_proper _ _ Hx0). change (round64 0) with (Finite 0). cbn [js_mul].
    assert (Hy : (0 * rh == 0)%Q) by ring. rewrite (round64_proper _ _ Hy).
    exists 0%Q. split; [done|]. split; [|split; [lra|split; intros _; lra]].
    rewrite Hx0. assert (Hz : (0 - 0 * 100 == 0)%Q) by ring. rewrite Hz.
    by vm_compute.
  - (* a larger output *)
    assert (Hd : (X - C <= -1)%Q).
    { rewrite Hdiff. change (-1)%Q with (inject_Z (-1)). rewrite <- Zle_Qle. lia. }
    assert (Hx0 : (x <= - (1 # 9007199254740992))%Q) by (apply Qle_shift_div_r; lra).
    assert (Hxlo : (-9007199254740992 <= x)%Q) by (apply Qle_shift_div_l; lra).
    destruct (round64_negative x) as (d & Hd' & Hdx & Hgrid); [lra..|].
    rewrite Hd'. cbn [js_mul].
    assert (Hy : (d * rh == d * 100)%Q) by (by rewrite Erh).
    rewrite (round64_proper _ _ Hy).
    destruct (round64_negative (d * 100)) as (p & Hp & Hpy & Hgrid'); [lra..|].
    exists p. split; [done|]. split; [|split; [lra|split; [lia|intros _; lra]]].
    rewrite (Qabs_neg (x * 100)) by lra. apply Qabs_Qle_condition. lra.
Qed.

(** The double that [parseFloat] finds for a decimal with two places. *)
Lemma round64_hundredths (z : Z) :
  -100000000000000000000 <= z <= 10000 ->
  exists r' : Q,
    round64 (inject_Z z / 100) = Finite r' /\
    (Qabs (r' - inject_Z z / 100)
       <= (1 # 9007199254740992) * Qabs (inject_Z z / 100))%Q /\
    (r' <= 100)%Q /\ (0 <= z -> (0 <= r')%Q) /\ (z <= 0 -> (r' <= 0)%Q).
Proof.
  intros Hz.
  assert (Hdiv : (inject_Z z / 100 == inject_Z z * (1 # 100))%Q) by reflexivity.
  set (r := (inject_Z z / 100)%Q) in *.
  assert (Hlo : (2 ^ (-1000) <= 1 # 100)%Q) by (by vm_compute).
  assert (Hhi : (1000000000000000000 <= 2 ^ 1000)%Q) by (by vm_compute).
  assert (H53 : (2 ^ 53 == 9007199254740992)%Q) by reflexivity.
  assert (Hzlo : (-100000000000000000000 <= inject_Z z)%Q).
  { change (-100000000000000000000)%Q with (inject_Z (-100000000000000000000)).
    rewrite <- Zle_Qle. lia. }
  assert (Hzhi : (inject_Z z <= 10000)%Q).
  { change 10000%Q with (inject_Z 10000). rewrite <- Zle_Qle. lia. }
  destruct (Z.lt_total z 0) as [Hneg|[->|Hpos]].
  - assert (Hz1 : (inject_Z z <= -1)%Q).
    { change (-1)%Q with (inject_Z (-1)). rewrite <- Zle_Qle. lia. }
    destruct (round64_negative r) as (r' & Hr' & Hclose & Hgrid); [lra..|].
    exists r'. split; [done|].
    split; [rewrite (Qabs_neg r) by lra; apply Qabs_Qle_condition; lra|].
    split; [lra|]. split; [lia|intros _; lra].
  - exists 0%Q. split; [done|]. split; [by vm_compute|]. split; [lra|].
    split; intros _; lra.
  - assert (Hz1 : (1 <= inject_Z z)%Q) by (rewrite <- (Zle_Qle 1); lia).
    destruct (round64_positive r) as (r' & Hr' & Hclose & Hgrid); [lra..|].
    destruct (int_on_grid r 100) as [k Hk]; [lra| |].
    { rewrite Qabs_pos by lra. rewrite H53. lra. }
    destruct (Hgrid 100%Q k Hk) as [H100 _]. specialize (H100 ltac:(lra)).
    exists r'. split; [done|].
    split; [rewrite (Qabs_pos r) by lra; apply Qabs_Qle_condition; lra|].
    split; [lra|]. split; [intros _; lra|lia].
Qed.

Lemma round_half_away_ge (x : Q) (n : Z) :
  (inject_Z n <= x)%Q -> n <= round_half_away x.
Proof.
  intros Hx. destruct (round_half_away_close x) as [Hlo _].
  assert (Hlt : (inject_Z (n - 1) < inject_Z (round_half_away x))%Q).
  { replace (n - 1) with (n + -1) by lia.
    rewrite inject_Z_plus. change (inject_Z (-1)) with (-1)%Q. lra. }
  rewrite <- Zlt_Qlt in Hlt. lia.
Qed.

(** *** Inversion of the trace monad *)

Lemma run_bind_returned {A B : Type} (m : run A) (k : A -> run B)
    (t : list event) (b : B) :
  (m ≫= k) = (t, Returned b) ->
  exists t1 a t2, m = (t1, Returned a) /\ k a = (t2, Returned b) /\ t = t1 ++ t2.
Proof.
  destruct m as [t1 [a|e]]; unfold mbind, run_bind; cbn; [|discriminate].
  destruct (k a) as [t2 c] eqn:Hk. cbn. intros [= <- ->]. by eauto 6.
Qed.

Lemma run_bind_eq {A B : Type} (m : run A) (k : A -> run B) :
  (m ≫= k) =
    match m.2 with
    | Returned a => (m.1 ++ (k a).1, (k a).2)
    | Threw e => (m.1, Threw e)
    end.
Proof. reflexivity. Qed.

Lemma rethrow_returned {A : Type} (prefix : string) (m : run A)
    (t : list event) (a : A) :
  rethrow prefix m = (t, Returned a) -> m = (t, Returned a).
Proof. destruct m as [t1 [a1|e]]; unfold rethrow; cbn; [done|discriminate]. Qed.

Lemma rethrow_of_returned {A : Type} (prefix : string) (m : run A)
    (t : list event) (a : A) :
  m = (t, Returned a) -> rethrow prefix m = (t, Returned a).
Proof. by intros ->. Qed.

Lemma run_bind_returns {A B : Type} (m : run A) (k : A -> run B)
    (t1 t2 : list event) (a : A) (b : B) :
  m = (t1, Returned a) -> k a = (t2, Returned b) ->
  (m ≫= k) = (t1 ++ t2, Returned b).
Proof. intros -> Hk. rewrite run_bind_eq. cbn. by rewrite Hk. Qed.

Lemma report_returns (onProgress : callback) (p : Q) :
  throws_at onProgress p = None ->
  report onProgress p = ((report onProgress p).1, Returned tt).
Proof.
  destruct onProgress as [listener|]; [|done]. cbn. intros Hquiet.
  unfold report. by rewrite Hquiet.
Qed.

Lemma report_throws (onProgress : callback) (p : Q) (message : string) :
  throws_at onProgress p = Some message ->
  report onProgress p = ([Progress p], Threw message).
Proof.
  destruct onProgress as [listener|]; [|done]. cbn. intros Hthrows.
  unfold report. by rewrite Hthrows.
Qed.

Lemma rethrow_trace {A : Type} (prefix : string) (m : run A) :
  (rethrow prefix m).1 = m.1.
Proof. by destruct m as [t1 [a1|e]]. Qed.

Ltac run_inv H :=
  repeat
    (let t1 := fresh "t" in
     let a := fresh "a" in
     let t2 := fresh "t" in
     let H1 := fresh "Hrun" in
     let Ht := fresh "Htrace" in
     apply run_bind_returned in H as (t1 & a & t2 & H1 & H & Ht)).

Lemma processImage_ratio (readFile : string -> string + list Z)
    (writeError : string -> option string) (cacheDirectory : string) (now : Z)
    (f : file) (targetFormat : string) (onProgress : callback)
    (trace : list event) (r : image_result) :
  processImage readFile writeError cacheDirectory now f targetFormat onProgress
    = (trace, Returned r) ->
  ir_compressionRatio r = compressionRatio (ir_originalSize r) (ir_compressedSize r)
  /\ ir_originalSize r = size f /\ 0 <= ir_compressedSize r.
Proof.
  intros H. apply rethrow_returned in H. run_inv H.
  injection H as _ <-. cbn. repeat split. lia.
Qed.

(** Two samples. Saving 97 bytes of 160 is 60.625 per cent; the doubles
    evaluate it just below, and the ratio reported is 60.62. For
    999997559999 bytes turned into 49999878 the exact ratio is below 99.995;
    the doubles evaluate it to 99.995 or above, and the ratio reported is
    100.00. *)
Lemma compressionRatio_samples :
  (exact_ratio 160 63 == 60.625)%Q /\
  compressionRatio 160 63 = Finite (6062 # 100) /\
  (exact_ratio 999997559999 49999878 < 99.995)%Q /\
  compressionRatio 999997559999 49999878 = Finite (10000 # 100).
Proof. repeat split; by vm_compute. Qed.

(** C1, as the code has it: for a non-empty original and sizes below
    [2 ^ 53], the reported ratio is the double [p] that
    [(original - output) / original * 100] evaluates to, which differs from
    the exact quotient by at most its [2 ^ -51]-th part, rounded to two
    decimals by [toFixed(2)] (the value [r], what [OfflineProcessor]
    reports), and for the converters of the backend read back by
    [parseFloat] (the double [r'] nearest to [r]). The ratio is at most 100,
    non-negative when the output is not larger than the original, and
    non-positive when it is not smaller: no clamp is applied. *)
Theorem compressionRatio_unclamped (original output : Z) :
  0 < original < 2 ^ 53 -> 0 <= output < 2 ^ 53 ->
  exists p r r' : Q,
    ratio_percent original output = Finite p /\
    (Qabs (p - exact_ratio original output)
       <= (1 # 2251799813685248) * Qabs (exact_ratio original output))%Q /\
    compressionRatio original output = Finite r /\
    (r == inject_Z (round_half_away (p * 100)) / 100)%Q /\
    (p - (1 # 200) <= r <= p + (1 # 200))%Q /\
    parseFloat (compressionRatio original output) = Finite r' /\
    (Qabs (r' - r) <= (1 # 9007199254740992) * Qabs r)%Q /\
    ((r <= 100)%Q /\ (r' <= 100)%Q) /\
    (output <= original -> (0 <= r)%Q /\ (0 <= r')%Q) /\
    (original <= output -> (r <= 0)%Q /\ (r' <= 0)%Q).
Proof.
  intros Ho Hc.
  destruct (ratio_bounds original output Ho Hc) as (p & Hp & Hclose & Hrange & Hnn & Hnp).
  set (z := round_half_away (p * 100)).
  assert (Hzhi : z <= 10000).
  { apply round_half_away_le. change (inject_Z 10000) with 10000%Q. lra. }
  assert (Hzlo : -100000000000000000000 <= z).
  { apply round_half_away_ge.
    change (inject_Z (-100000000000000000000)) with (-100000000000000000000)%Q. lra. }
  destruct (round64_hundredths z ltac:(lia)) as (r' & Hr' & Hnear & H100 & Hpos & Hneg).
  assert (Hratio : compressionRatio original output = Finite (inject_Z z / 100)).
  { unfold compressionRatio. rewrite Hp. unfold toFixed2.
    destruct (Qle_bool (10 ^ 21) (Qabs p)) eqn:Hbig; [|done].
    apply Qle_bool_iff in Hbig.
    assert (H21 : (10 ^ 21 == 1000000000000000000000)%Q) by reflexivity.
    rewrite H21 in Hbig. revert Hbig. apply Qabs_case; intros; lra. }
  exists p, (inject_Z z / 100)%Q, r'.
  split; [done|]. split; [done|]. split; [done|]. split; [reflexivity|].
  assert (Hdiv : (inject_Z z / 100 == inject_Z z * (1 # 100))%Q) by reflexivity.
  pose proof (round_half_away_close (p * 100)) as [Hlo Hhi]. fold z in Hlo, Hhi.
  split; [rewrite Hdiv; split; lra|].
  split; [by rewrite Hratio|]. split; [done|].
  assert (Hz1 : (inject_Z z <= 10000)%Q).
  { change 10000%Q with (inject_Z 10000). by rewrite <- Zle_Qle. }
  split; [split; [rewrite Hdiv; lra|done]|].
  split; intros Hle.
  - assert (Hz0 : 0 <= z) by (apply round_half_away_nonneg; specialize (Hnn Hle); lra).
    split; [|by apply Hpos]. rewrite Hdiv. rewrite Zle_Qle in Hz0.
    change (inject_Z 0) with 0%Q in Hz0. lra.
  - assert (Hz0 : z <= 0) by (apply round_half_away_nonpos; specialize (Hnp Hle); lra).
    split; [|by apply Hneg]. rewrite Hdiv. rewrite Zle_Qle in Hz0.
    change (inject_Z 0) with 0%Q in Hz0. lra.
Qed.

Lemma compressionRatio_unclamped_witness :
  exists r : Q,
    compressionRatio 1000 400 = Finite r /\ (r <= 100)%Q /\ (0 <= r)%Q.
Proof.
  destruct (compressionRatio_unclamped 1000 400 ltac:(lia) ltac:(lia))
    as (p & r & r' & _ & _ & Hr & _ & _ & _ & _ & [H100 _] & Hnn & _).
  exists r. split; [exact Hr|]. split; [exact H100|]. apply Hnn. lia.
Defined.

(** C1 as stated fails on an output larger than the original: 100 bytes
    turned into 150 are reported with the ratio -50. *)
Lemma compressionRatio_not_in_range :
  (exists r : Q, compressionRatio 100 150 = Finite r /\ (r == -50)%Q) /\
  ~ ratio_in_range 100 (compressionRatio 100 150).
Proof.
  split; [eexists; split; [by vm_compute|reflexivity]|].
  intros (r & Hr & [Hlo _] & _).
  vm_compute in Hr. injection Hr as <-. vm_compute in Hlo. by apply Hlo.
Qed.

(** ** Conversion requests *)
Section ConversionRequests.
Variable stat_size : string -> Z.
Variable codec : adapter -> string -> string -> string -> string + conversion_result.
Variable sharp : string -> string -> string + list Z.
Variable unzip : string -> option string.
Variable archive : string -> string + list Z.
Variable uuidv4 : nat -> string.
Variables uploadsDir outputsDir : string.
Variable remove : string -> option string.

Lemma archiveConverter_convert_mp3 (inputPath outputPath : string) :
  exists t message,
    archiveConverter_convert stat_size unzip archive inputPath outputPath "mp3"
      = (t, Threw message)
    /\ adapter_calls t = [] /\ progress_values t = [].
Proof.
  unfold archiveConverter_convert, extractArchive, createArchive.
  destruct (String.eqb (toLowerCase (extname_slice1 inputPath)) "zip");
    [destruct (unzip inputPath)|];
    unfold rethrow, mbind, run_bind, emit, throw; cbn;
    do 2 eexists; (split; [reflexivity|]); split; reflexivity.
Qed.

Lemma convert_handler_zip_mp3 (u : upload) :
  toLowerCase (extname_slice1 (originalname u)) = "zip"%string ->
  exists t details,
    convert_handler stat_size codec sharp unzip archive uuidv4 outputsDir remove u "mp3"
      = (t, Error500 "Conversion failed" (Some details))
    /\ adapter_calls t = [ArchiveConverter] /\ progress_values t = [].
Proof.
  intros Hext. unfold convert_handler. rewrite Hext.
  change (converter_for "zip") with (Some ArchiveConverter).
  cbv beta iota zeta. unfold invoke.
  match goal with
  | |- context [archiveConverter_convert _ _ _ ?i ?o _] =>
      destruct (archiveConverter_convert_mp3 i o) as (t & message & Hrun & Hcalls & Hprog)
  end.
  rewrite !run_bind_eq, Hrun. cbn.
  exists (AdapterCall ArchiveConverter :: t), message.
  split; [reflexivity|]. split; cbn; by f_equal.
Qed.

(** A request whose upload multer refuses never reaches a handler. *)
Lemma convertFile_refused_upload (f : file) (targetFormat : string)
    (onProgress : callback) :
  fileSize < size f ->
  convertFile stat_size codec sharp unzip archive uuidv4 uploadsDir outputsDir remove
    f targetFormat onProgress
  = ([], Threw "Conversion failed: Internal server error").
Proof.
  intros Hsize. unfold convertFile, upload_single.
  by destruct (Z.ltb_spec fileSize (size f)); [|lia].
Qed.

Lemma upload_single_stored (f : file) :
  size f <= fileSize ->
  upload_single uuidv4 uploadsDir f
  = Stored (Upload (name f) (upload_path uploadsDir uuidv4 (name f))).
Proof.
  intros Hsize. unfold upload_single.
  by destruct (Z.ltb_spec fileSize (size f)); [lia|].
Qed.

End ConversionRequests.




(** ** Progress streams *)

Lemma ascending_nil (lo hi : Q) : ascending lo hi [].
Proof. split; constructor. Qed.

Lemma ascending_single (lo hi p : Q) : (lo <= p <= hi)%Q -> ascending lo hi [p].
Proof. intros Hp. split; repeat constructor; apply Hp. Qed.

Lemma ascending_weaken (lo lo' hi hi' : Q) (l : list Q) :
  ascending lo hi l -> (lo' <= lo)%Q -> (hi <= hi')%Q -> ascending lo' hi' l.
Proof.
  intros [Hs Hb] Hlo Hhi. split; [done|].
  eapply Forall_impl; [exact Hb|]. intros p Hp. cbn in Hp. split; lra.
Qed.

Lemma ascending_app (lo mid hi : Q) (l1 l2 : list Q) :
  ascending lo mid l1 -> ascending mid hi l2 -> (lo <= mid)%Q -> (mid <= hi)%Q ->
  ascending lo hi (l1 ++ l2).
Proof.
  intros [Hs1 Hb1] [Hs2 Hb2] Hlo Hhi. split.
  - induction Hs1 as [|p l1 Hs1 IH Hall]; [done|].
    apply Forall_cons in Hb1 as [Hp Hb1]. cbn. constructor; [by apply IH|].
    apply Forall_app. split; [done|].
    eapply Forall_impl; [exact Hb2|]. intros q Hq. cbn in Hq. lra.
  - apply Forall_app. split.
    + eapply Forall_impl; [exact Hb1|]. intros p Hp. cbn in Hp. split; lra.
    + eapply Forall_impl; [exact Hb2|]. intros p Hp. cbn in Hp. split; lra.
Qed.

Lemma progress_values_app (t1 t2 : list event) :
  progress_values (t1 ++ t2) = progress_values t1 ++ progress_values t2.
Proof. unfold progress_values. apply omap_app. Qed.

Lemma written_files_app (t1 t2 : list event) :
  written_files (t1 ++ t2) = written_files t1 ++ written_files t2.
Proof. unfold written_files. apply omap_app. Qed.

Lemma ascending_bind {A B : Type} (m : run A) (k : A -> run B) (lo mid hi : Q) :
  ascending lo mid (progress_values m.1) ->
  (forall a, ascending mid hi (progress_values (k a).1)) ->
  (lo <= mid)%Q -> (mid <= hi)%Q ->
  ascending lo hi (progress_values (m ≫= k).1).
Proof.
  intros Hm Hk Hlo Hhi. rewrite run_bind_eq. destruct m as [t [a|e]]; cbn in *.
  - rewrite progress_values_app. by eapply ascending_app.
  - eapply ascending_weaken; [exact Hm|lra|lra].
Qed.

Lemma ascending_rethrow {A : Type} (prefix : string) (m : run A) (lo hi : Q) :
  ascending lo hi (progress_values m.1) ->
  ascending lo hi (progress_values (rethrow prefix m).1).
Proof. by rewrite rethrow_trace. Qed.

Lemma report_progress (onProgress : callback) (p : Q) :
  progress_values (report onProgress p).1
  = match onProgress with Some _ => [p] | None => [] end.
Proof.
  destruct onProgress as [listener|]; [|done]. unfold report.
  rewrite run_bind_eq. cbn. by destruct (listener p).
Qed.

Lemma ascending_report (onProgress : callback) (lo hi p : Q) :
  (lo <= p <= hi)%Q -> ascending lo hi (progress_values (report onProgress p).1).
Proof.
  intros Hp. rewrite report_progress. destruct onProgress.
  - by apply ascending_single.
  - apply ascending_nil.
Qed.

Lemma ascending_silent {A : Type} (m : run A) (lo hi : Q) :
  progress_values m.1 = [] -> ascending lo hi (progress_values m.1).
Proof. intros ->. apply ascending_nil. Qed.

Lemma read_percent_step (total done : nat) :
  (0 < total)%nat -> (read_percent total done <= read_percent total (S done))%Q.
Proof.
  intros Ht. unfold read_percent.
  assert (HT : (0 < inject_Z (Z.of_nat total))%Q) by (rewrite <- (Zlt_Qlt 0); lia).
  assert (Hd : (inject_Z (Z.of_nat done) <= inject_Z (Z.of_nat (S done)))%Q)
    by (rewrite <- Zle_Qle; lia).
  assert (Hq : (inject_Z (Z.of_nat done) * 30 / inject_Z (Z.of_nat total)
                <= inject_Z (Z.of_nat (S done)) * 30 / inject_Z (Z.of_nat total))%Q).
  { unfold Qdiv. apply Qmult_le_compat_r; [lra|].
    apply Qlt_le_weak, Qinv_lt_0_compat, HT. }
  lra.
Qed.

Lemma read_percent_bounds (total done : nat) :
  (0 < total)%nat -> (done <= total)%nat -> (10 <= read_percent total done <= 40)%Q.
Proof.
  intros Ht Hd. unfold read_percent.
  assert (HT : (0 < inject_Z (Z.of_nat total))%Q) by (rewrite <- (Zlt_Qlt 0); lia).
  assert (H0 : (0 <= inject_Z (Z.of_nat done))%Q) by (rewrite <- (Zle_Qle 0); lia).
  assert (H1 : (inject_Z (Z.of_nat done) <= inject_Z (Z.of_nat total))%Q)
    by (rewrite <- Zle_Qle; lia).
  assert (Hlo : (0 <= inject_Z (Z.of_nat done) * 30 / inject_Z (Z.of_nat total))%Q).
  { apply Qle_shift_div_l; [done|]. lra. }
  assert (Hhi : (inject_Z (Z.of_nat done) * 30 / inject_Z (Z.of_nat total) <= 30)%Q).
  { apply Qle_shift_div_r; [done|]. lra. }
  split; lra.
Qed.

(** ** [ConversionService]: what a conversion reports *)

(** The reports of the loop [for (let i = 0; i <= 100; i += 10)]. *)
Lemma reports_ascending (onProgress : callback) (l : list Z) (lo : Q) :
  StronglySorted Z.le l ->
  Forall (fun i => (lo <= inject_Z (10 * i) <= 100)%Q) l ->
  ascending lo 100
    (progress_values (mapM (fun i => report onProgress (inject_Z (10 * i))) l).1).
Proof.
  intros Hsorted. revert lo.
  induction Hsorted as [|i l Hsorted IH Hall]; intros lo Hbounds; [apply ascending_nil|].
  apply Forall_cons in Hbounds as [Hi Hbounds]. cbn [mapM].
  eapply (ascending_bind _ _ lo (inject_Z (10 * i)) 100);
    [apply ascending_report; lra| |lra|lra].
  intros y.
  eapply (ascending_bind _ _ _ 100 100); [| |lra|lra].
  - apply IH. apply Forall_forall. intros j Hj.
    rewrite Forall_forall in Hall, Hbounds.
    specialize (Hall j Hj). specialize (Hbounds j Hj).
    split; [|lra]. rewrite <- Zle_Qle. lia.
  - intros k. apply ascending_nil.
Qed.

Section ConversionProgress.
Variable stat_size : string -> Z.
Variable codec : adapter -> string -> string -> string -> string + conversion_result.
Variable sharp : string -> string -> string + list Z.
Variable unzip : string -> option string.
Variable archive : string -> string + list Z.
Variable uuidv4 : nat -> string.
Variables uploadsDir outputsDir : string.
Variable remove : string -> option string.

Lemma invoke_progress (a : adapter) (inputPath outputPath targetFormat : string) :
  progress_values
    (invoke stat_size codec sharp unzip archive a inputPath outputPath targetFormat).1
  = [].
Proof.
  unfold invoke, archiveConverter_convert, imageConverter_convert, extractArchive,
    createArchive, rethrow, mbind, run_bind, emit, throw, mret, run_ret.
  destruct a; cbn; repeat (case_match; cbn); reflexivity.
Qed.

Lemma remove_file_trace (path : string) : (remove_file remove path).1 = [].
Proof. unfold remove_file. by destruct (remove path). Qed.

Lemma convert_route_progress (r : received) (targetFormat : string) :
  progress_values
    (convert_route stat_size codec sharp unzip archive uuidv4 outputsDir remove r
       targetFormat).1
  = [].
Proof.
  destruct r as [u| |]; [|done..]. unfold convert_route, convert_handler.
  destruct (converter_for _) as [a|]; [|done]. cbv zeta.
  match goal with
  | |- context [invoke _ _ _ _ _ a ?i ?o ?t] =>
      pose proof (invoke_progress a i o t) as Hp;
      destruct (invoke stat_size codec sharp unzip archive a i o t) as [t0 [r|e]]
  end; [|done].
  rewrite !run_bind_eq. cbn [fst snd] in *.
  pose proof (remove_file_trace (stored_path u)) as Hr.
  destruct (remove_file remove (stored_path u)) as [t1 [[]|e]]; cbn [fst snd] in *;
    subst t1; cbn; by rewrite ?app_nil_r.
Qed.

Lemma convertFile_ascending (f : file) (targetFormat : string) (onProgress : callback) :
  ascending 0 100
    (progress_values
       (convertFile stat_size codec sharp unzip archive uuidv4 uploadsDir outputsDir
          remove f targetFormat onProgress).1).
Proof.
  unfold convertFile. rewrite rethrow_trace.
  pose proof (convert_route_progress (upload_single uuidv4 uploadsDir f) targetFormat)
    as Hp.
  destruct (convert_route _ _ _ _ _ _ _ _ _ _)
    as [t [fileName result|error|error details]];
    cbn [fst snd] in *; [|by rewrite Hp; apply ascending_nil..].
  eapply (ascending_bind _ _ 0 0 100); [cbn [fst]; rewrite Hp; apply ascending_nil| |lra|lra].
  intros _.
  eapply (ascending_bind _ _ 0 100 100); [| |lra|lra].
  - apply reports_ascending.
    + change (seqZ 0 11) with [0; 1; 2; 3; 4; 5; 6; 7; 8; 9; 10].
      repeat (constructor; [|repeat constructor; lia]). constructor.
    + change (seqZ 0 11) with [0; 1; 2; 3; 4; 5; 6; 7; 8; 9; 10].
      repeat constructor; by vm_compute.
  - intros k. apply ascending_nil.
Qed.

End ConversionProgress.

(** ** [OfflineProcessor]: what the jobs report and write *)
Section OfflineJobs.
Variable readFile : string -> string + list Z.
Variable writeError : string -> option string.
Variable cacheDirectory : string.
Variable now : Z.
Variable page : Type.
Variable pdf_load : list Z -> string + list page.
Variable pdf_save : list page -> list Z.

Lemma readAsBuffer_trace (u : string) : (readAsBuffer readFile u).1 = [].
Proof. unfold readAsBuffer. by destruct (readFile u). Qed.

Lemma writeBuffer_progress (path : string) (data : list Z) :
  progress_values (writeBuffer writeError path data).1 = [].
Proof. unfold writeBuffer. by destruct (writeError path). Qed.

Lemma copy_all_pages_trace (buffers : list (list Z)) (merged : list page) :
  (copy_all_pages page pdf_load buffers merged).1 = [].
Proof.
  revert merged. induction buffers as [|b buffers IH]; intros merged; cbn; [done|].
  destruct (pdf_load b); [done|apply IH].
Qed.

Lemma mergePdfsFallback_trace (buffers : list (list Z)) :
  (mergePdfsFallback page pdf_load pdf_save buffers).1 = [].
Proof.
  unfold mergePdfsFallback. rewrite rethrow_trace, run_bind_eq.
  pose proof (copy_all_pages_trace buffers []) as Ht.
  destruct (copy_all_pages page pdf_load buffers []) as [t [a|e]]; cbn in *;
    by subst.
Qed.

Lemma merge_by_format_trace (outputFormat : string) (buffers : list (list Z)) :
  (merge_by_format page pdf_load pdf_save outputFormat buffers).1 = [].
Proof.
  unfold merge_by_format. cbv zeta.
  destruct (String.eqb (toLowerCase outputFormat) "pdf");
    [by rewrite mergePdfsFallback_trace|].
  destruct (_ || _); [done|]. destruct (_ || _); done.
Qed.

Lemma read_files_ascending (total : nat) (onProgress : callback)
    (remaining : list file) (i : nat) (buffers : list (list Z)) :
  (i + length remaining = total)%nat ->
  ascending (read_percent total i) 40
    (progress_values (read_files readFile remaining i total onProgress buffers).1).
Proof.
  revert i buffers. induction remaining as [|f rest IH]; intros i buffers Hlen.
  - apply ascending_nil.
  - cbn in Hlen. cbn [read_files].
    replace (Z.of_nat i + 1) with (Z.of_nat (S i)) by lia.
    fold (read_percent total (S i)).
    pose proof (read_percent_step total i ltac:(lia)) as Hstep.
    pose proof (read_percent_bounds total (S i) ltac:(lia) ltac:(lia)) as [_ Hhi].
    eapply (ascending_bind _ _ _ (read_percent total i));
      [apply ascending_silent; by rewrite readAsBuffer_trace| |lra|lra].
    intros data.
    eapply (ascending_bind _ _ _ (read_percent total (S i)));
      [apply ascending_report; lra| |lra|lra].
    intros _. apply IH. lia.
Qed.

Lemma mergeFiles_ascending (files : list file) (outputFormat : string)
    (onProgress : callback) :
  ascending 10 100
    (progress_values
       (mergeFiles readFile writeError cacheDirectory now page pdf_load pdf_save
          files outputFormat onProgress).1).
Proof.
  unfold mergeFiles. apply ascending_rethrow.
  eapply (ascending_bind _ _ 10 10 100); [apply ascending_report; lra| |lra|lra].
  intros _.
  eapply (ascending_bind _ _ 10 40 100); [| |lra|lra].
  { eapply ascending_weaken; [by apply read_files_ascending| |lra].
    unfold read_percent. change (inject_Z (Z.of_nat 0)) with 0%Q.
    assert (Hz : forall x : Q, (0 * 30 / x == 0)%Q) by (intros x; unfold Qdiv; ring).
    rewrite Hz. lra. }
  intros buffers.
  eapply (ascending_bind _ _ 40 70 100); [apply ascending_report; lra| |lra|lra].
  intros _.
  eapply (ascending_bind _ _ 70 70 100); [| |lra|lra].
  { apply ascending_silent. by rewrite merge_by_format_trace. }
  intros mergedData.
  eapply (ascending_bind _ _ 70 90 100); [apply ascending_report; lra| |lra|lra].
  intros _. cbv zeta.
  eapply (ascending_bind _ _ 90 90 100);
    [apply ascending_silent, writeBuffer_progress| |lra|lra].
  intros _.
  eapply (ascending_bind _ _ 90 100 100); [apply ascending_report; lra| |lra|lra].
  intros _. apply ascending_nil.
Qed.

Lemma processImage_ascending (f : file) (targetFormat : string) (onProgress : callback) :
  ascending 10 100
    (progress_values
       (processImage readFile writeError cacheDirectory now f targetFormat
          onProgress).1).
Proof.
  unfold processImage. apply ascending_rethrow.
  eapply (ascending_bind _ _ 10 10 100); [apply ascending_report; lra| |lra|lra].
  intros _.
  eapply (ascending_bind _ _ 10 10 100);
    [apply ascending_silent; by rewrite readAsBuffer_trace| |lra|lra].
  intros buffer.
  eapply (ascending_bind _ _ 10 30 100); [apply ascending_report; lra| |lra|lra].
  intros _.
  eapply (ascending_bind _ _ 30 50 100); [apply ascending_report; lra| |lra|lra].
  intros _.
  eapply (ascending_bind _ _ 50 50 100); [| |lra|lra].
  { apply ascending_silent. cbv zeta.
    destruct (_ || _); [done|]. destruct (String.eqb _ "png"); [done|].
    destruct (String.eqb _ "webp"); done. }
  intros processedData.
  eapply (ascending_bind _ _ 50 80 100); [apply ascending_report; lra| |lra|lra].
  intros _. cbv zeta.
  eapply (ascending_bind _ _ 80 80 100);
    [apply ascending_silent, writeBuffer_progress| |lra|lra].
  intros _.
  eapply (ascending_bind _ _ 80 100 100); [apply ascending_report; lra| |lra|lra].
  intros _. apply ascending_nil.
Qed.

Lemma merged_entry_concat {X : Type} (parts : list (list X)) (i : nat) (part : list X) :
  parts !! i = Some part ->
  merged_entry (length <$> parts) i (concat parts) = part.
Proof.
  unfold merged_entry. revert i. induction parts as [|p parts IH]; intros i Hi.
  - done.
  - destruct i as [|i]; cbn in *.
    + injection Hi as ->. rewrite drop_0. by rewrite take_app_length.
    + rewrite drop_app_add'; [|done]. by apply IH.
Qed.

Lemma report_written (onProgress : callback) (p : Q) :
  written_files (report onProgress p).1 = [].
Proof.
  destruct onProgress as [listener|]; [|done]. unfold report.
  rewrite run_bind_eq. cbn. by destruct (listener p).
Qed.

Lemma written_bind_nil {A B : Type} (m : run A) (k : A -> run B) :
  written_files m.1 = [] -> (forall a, written_files (k a).1 = []) ->
  written_files (m ≫= k).1 = [].
Proof.
  intros Hm Hk. rewrite run_bind_eq. destruct m as [t [a|e]]; cbn [fst snd] in *.
  - by rewrite written_files_app, Hm, Hk.
  - done.
Qed.

Lemma read_files_written (total : nat) (onProgress : callback)
    (remaining : list file) (i : nat) (buffers : list (list Z)) :
  written_files (read_files readFile remaining i total onProgress buffers).1 = [].
Proof.
  revert i buffers. induction remaining as [|f rest IH]; intros i buffers; [done|].
  cbn [read_files].
  apply written_bind_nil; [by rewrite readAsBuffer_trace|]. intros data.
  apply written_bind_nil; [apply report_written|]. intros _. apply IH.
Qed.

Lemma run_bind_completion {A B : Type} (m : run A) (k : A -> run B) :
  (m ≫= k).2 = match m.2 with
               | Returned a => (k a).2
               | Threw e => Threw e
               end.
Proof. rewrite run_bind_eq. by destruct m as [t [a|e]]. Qed.

Lemma run_ret_bind {A B : Type} (a : A) (k : A -> run B) : (mret a ≫= k) = k a.
Proof. rewrite run_bind_eq. cbn. by destruct (k a). Qed.

Lemma report_completion (onProgress : callback) (p : Q) :
  throws_at onProgress p = None -> (report onProgress p).2 = Returned tt.
Proof. intros Hquiet. by rewrite report_returns. Qed.

Lemma rethrow_completion {A : Type} (prefix : string) (m : run A) :
  (rethrow prefix m).2 = match m.2 with
                         | Returned a => Returned a
                         | Threw e => Threw (prefix +:+ e)
                         end.
Proof. by destruct m as [t [a|e]]. Qed.

Lemma read_files_all_read (total : nat) (onProgress : callback)
    (remaining : list file) (datas : list (list Z)) (i : nat)
    (buffers : list (list Z)) :
  all_read readFile remaining datas ->
  (i + length remaining = total)%nat ->
  (forall p, (p <= 90)%Q -> throws_at onProgress p = None) ->
  (read_files readFile remaining i total onProgress buffers).2
    = Returned (buffers ++ datas).
Proof.
  intros Hall Hlen Hquiet. revert i buffers Hlen.
  induction Hall as [|f data rest datas Hf _ IH]; intros i buffers Hlen.
  - cbn. by rewrite app_nil_r.
  - cbn [read_files]. cbn in Hlen.
    unfold readAsBuffer. rewrite Hf, run_ret_bind.
    rewrite run_bind_completion, report_completion.
    + rewrite IH by lia. by rewrite <- app_assoc.
    + apply Hquiet. replace (Z.of_nat i + 1) with (Z.of_nat (S i)) by lia.
      fold (read_percent total (S i)).
      pose proof (read_percent_bounds total (S i) ltac:(lia) ltac:(lia)). lra.
Qed.

Lemma copy_all_pages_all_loaded (buffers : list (list Z)) (docs : list (list page))
    (merged : list page) :
  all_loaded pdf_load buffers docs ->
  copy_all_pages page pdf_load buffers merged = ([], Returned (merged ++ concat docs)).
Proof.
  intros Hall. revert merged.
  induction Hall as [|b d buffers docs Hb _ IH]; intros merged; cbn.
  - by rewrite app_nil_r.
  - rewrite Hb, IH. by rewrite app_assoc.
Qed.

(** A step that returns can be taken out of a computation, leaving its
    trace behind. *)
Lemma run_bind_step {A B : Type} (m : run A) (k : A -> run B) (t : list event) (a : A) :
  m = (t, Returned a) -> (m ≫= k) = ((t, Returned tt) ≫= fun _ => k a).
Proof. by intros ->. Qed.

Lemma run_bind_steps {B : Type} (t1 t2 : list event) (m : run B) :
  ((t1, Returned tt) ≫= fun _ => (t2, Returned tt) ≫= fun _ => m)
  = ((t1 ++ t2, Returned tt) ≫= fun _ => m).
Proof. rewrite !run_bind_eq. cbn. by rewrite app_assoc. Qed.

(** Once the inputs are read and merged into [data], with a callback that
    returns up to there, [mergeFiles] writes [data], once: what remains is
    the last report. *)
Lemma mergeFiles_until_last_report (files : list file) (buffers : list (list Z))
    (outputFormat : string) (onProgress : callback) (data : list Z) :
  all_read readFile files buffers ->
  (forall p, (p <= 90)%Q -> throws_at onProgress p = None) ->
  writeError (merged_path cacheDirectory now outputFormat) = None ->
  merge_by_format page pdf_load pdf_save outputFormat buffers = ([], Returned data) ->
  exists t,
    written_files t = [(merged_path cacheDirectory now outputFormat, data)] /\
    mergeFiles readFile writeError cacheDirectory now page pdf_load pdf_save
      files outputFormat onProgress
    = rethrow "File merge failed: " (
        (t, Returned tt);;
        report onProgress 100;;
        mret (MergeResult (merged_path cacheDirectory now outputFormat)
                (Z.of_nat (length data)) (Z.of_nat (length files)))).
Proof.
  intros Hread Hquiet Hwrite Hmerge.
  pose proof (read_files_all_read (length files) onProgress files buffers 0 [] Hread
                eq_refl Hquiet) as Hbuf.
  pose proof (read_files_written (length files) onProgress files 0 []) as Hsilent.
  destruct (read_files _ _ _ _ _ _) as [t c] eqn:Hfiles.
  cbn [fst snd] in Hbuf, Hsilent. subst c. cbn [app] in Hfiles.
  assert (H10 : throws_at onProgress 10 = None) by (by apply Hquiet).
  assert (H70 : throws_at onProgress 70 = None) by (by apply Hquiet).
  assert (H90 : throws_at onProgress 90 = None) by (by apply Hquiet).
  eexists. split; [|unfold mergeFiles; f_equal].
  2: { rewrite (run_bind_step _ _ _ tt (report_returns onProgress 10 H10)).
       rewrite (run_bind_step _ _ _ _ Hfiles), run_bind_steps.
       rewrite (run_bind_step _ _ _ tt (report_returns onProgress 70 H70)),
         run_bind_steps.
       rewrite (run_bind_step _ _ _ _ Hmerge), run_bind_steps.
       rewrite (run_bind_step _ _ _ tt (report_returns onProgress 90 H90)),
         run_bind_steps. cbv zeta.
       fold (merged_path cacheDirectory now outputFormat).
       unfold writeBuffer. rewrite Hwrite.
       rewrite (run_bind_step (emit _) _ _ tt eq_refl), run_bind_steps.
       reflexivity. }
  rewrite !written_files_app, !report_written, Hsilent. reflexivity.
Qed.

Lemma mergeFiles_writes (files : list file) (buffers : list (list Z))
    (outputFormat : string) (onProgress : callback) (data : list Z) :
  all_read readFile files buffers ->
  (forall p, (p <= 90)%Q -> throws_at onProgress p = None) ->
  throws_at onProgress 100 = None ->
  writeError (merged_path cacheDirectory now outputFormat) = None ->
  merge_by_format page pdf_load pdf_save outputFormat buffers = ([], Returned data) ->
  exists t,
    mergeFiles readFile writeError cacheDirectory now page pdf_load pdf_save
      files outputFormat onProgress
    = (t, Returned (MergeResult (merged_path cacheDirectory now outputFormat)
                      (Z.of_nat (length data)) (Z.of_nat (length files))))
    /\ written_files t = [(merged_path cacheDirectory now outputFormat, data)].
Proof.
  intros Hread Hquiet Hlast Hwrite Hmerge.
  destruct (mergeFiles_until_last_report files buffers outputFormat onProgress data
              Hread Hquiet Hwrite Hmerge) as (t & Hw & ->).
  eexists. split.
  - apply rethrow_of_returned.
    eapply run_bind_returns; [reflexivity|].
    eapply run_bind_returns; [by apply report_returns|].
    reflexivity.
  - by rewrite app_nil_r, written_files_app, report_written, app_nil_r.
Qed.

(** The last report comes after the write: a callback that throws there
    makes the merge fail with its output written. *)
Lemma mergeFiles_fails_after_write (files : list file) (buffers : list (list Z))
    (outputFormat : string) (onProgress : callback) (data : list Z) (message : string) :
  all_read readFile files buffers ->
  (forall p, (p <= 90)%Q -> throws_at onProgress p = None) ->
  throws_at onProgress 100 = Some message ->
  writeError (merged_path cacheDirectory now outputFormat) = None ->
  merge_by_format page pdf_load pdf_save outputFormat buffers = ([], Returned data) ->
  exists t,
    mergeFiles readFile writeError cacheDirectory now page pdf_load pdf_save
      files outputFormat onProgress
    = (t, Threw ("File merge failed: " +:+ message))
    /\ written_files t = [(merged_path cacheDirectory now outputFormat, data)].
Proof.
  intros Hread Hquiet Hthrows Hwrite Hmerge.
  destruct (mergeFiles_until_last_report files buffers outputFormat onProgress data
              Hread Hquiet Hwrite Hmerge) as (t & Hw & ->).
  rewrite (report_throws _ _ _ Hthrows), !run_bind_eq. cbn [fst snd].
  unfold rethrow. cbn [fst snd]. eexists. split; [reflexivity|].
  rewrite written_files_app, Hw. reflexivity.
Qed.

Lemma no_write_bind_silent {A B : Type} (m : run A) (k : A -> run B) :
  written_files m.1 = [] -> (forall a, no_write_on_failure (k a)) ->
  no_write_on_failure (m ≫= k).
Proof.
  intros Hm Hk e. rewrite run_bind_eq. destruct m as [t [a|e']]; cbn [fst snd] in *.
  - intros He. rewrite written_files_app, Hm. by apply (Hk a e).
  - done.
Qed.

Lemma no_write_rethrow {A : Type} (prefix : string) (m : run A) :
  no_write_on_failure m -> no_write_on_failure (rethrow prefix m).
Proof.
  intros Hm e. rewrite rethrow_trace. destruct m as [t [a|e']]; cbn; [done|].
  intros _. by apply (Hm e').
Qed.

(** Whatever fails before the write leaves nothing behind: when the write
    goes through and the last report returns, a merge that fails has written
    nothing. *)
Lemma mergeFiles_no_write_on_failure (files : list file) (outputFormat : string)
    (onProgress : callback) :
  writeError (merged_path cacheDirectory now outputFormat) = None ->
  throws_at onProgress 100 = None ->
  no_write_on_failure
    (mergeFiles readFile writeError cacheDirectory now page pdf_load pdf_save
       files outputFormat onProgress).
Proof.
  intros Hwrite Hlast. unfold mergeFiles. apply no_write_rethrow.
  apply no_write_bind_silent; [apply report_written|]. intros _.
  apply no_write_bind_silent; [apply read_files_written|]. intros buffers.
  apply no_write_bind_silent; [apply report_written|]. intros _.
  apply no_write_bind_silent.
  { by rewrite merge_by_format_trace. }
  intros mergedData.
  apply no_write_bind_silent; [apply report_written|]. intros _. cbv zeta.
  fold (merged_path cacheDirectory now outputFormat).
  intros e. unfold writeBuffer. rewrite Hwrite.
  rewrite !run_bind_completion. cbn [snd emit].
  by rewrite report_completion.
Qed.

(** A merge whose format no branch of the switch takes fails there, with
    nothing written. *)
Lemma mergeFiles_fails_at_switch (files : list file) (buffers : list (list Z))
    (outputFormat : string) (onProgress : callback) (message : string) :
  all_read readFile files buffers ->
  quiet onProgress ->
  merge_by_format page pdf_load pdf_save outputFormat buffers = ([], Threw message) ->
  fails_silently
    (mergeFiles readFile writeError cacheDirectory now page pdf_load pdf_save files
       outputFormat onProgress)
    ("File merge failed: " +:+ message).
Proof.
  intros Hread Hquiet Hmerge.
  pose proof (read_files_all_read (length files) onProgress files buffers 0 [] Hread
                eq_refl (fun p _ => Hquiet p)) as Hbuf.
  pose proof (read_files_written (length files) onProgress files 0 []) as Hsilent.
  destruct (read_files _ _ _ _ _ _) as [t c] eqn:Hfiles.
  cbn [fst snd app] in Hbuf, Hsilent. subst c.
  unfold fails_silently, mergeFiles.
  rewrite (run_bind_step _ _ _ tt (report_returns onProgress 10 (Hquiet _))).
  rewrite (run_bind_step _ _ _ _ Hfiles), run_bind_steps.
  rewrite (run_bind_step _ _ _ tt (report_returns onProgress 70 (Hquiet _))),
    run_bind_steps.
  rewrite Hmerge, !run_bind_eq. cbn [fst snd]. unfold rethrow. cbn [fst snd].
  split; [done|].
  by rewrite app_nil_r, !written_files_app, !report_written, Hsilent.
Qed.

(** The dispatch of [mergeFiles] on a format merged by concatenation. *)
Lemma merge_dispatch_concat (outputFormat : string) (buffers : list (list Z)) :
  concatenating_format (toLowerCase outputFormat) = true ->
  merge_by_format page pdf_load pdf_save outputFormat buffers
  = ([], Returned (concat buffers)).
Proof.
  unfold concatenating_format. intros Hfmt. apply bool_decide_eq_true in Hfmt.
  unfold merge_by_format. cbv zeta.
  set (fmt := toLowerCase outputFormat) in *. clearbody fmt.
  repeat (apply elem_of_cons in Hfmt as [->|Hfmt]; [reflexivity|]).
  by apply elem_of_nil in Hfmt.
Qed.

Lemma merge_dispatch_pdf (outputFormat : string) (buffers : list (list Z))
    (docs : list (list page)) :
  toLowerCase outputFormat = "pdf"%string -> all_loaded pdf_load buffers docs ->
  merge_by_format page pdf_load pdf_save outputFormat buffers
  = ([], Returned (pdf_save (concat docs))).
Proof.
  unfold merge_by_format. intros -> Hdocs. cbn. unfold mergePdfsFallback.
  by rewrite (copy_all_pages_all_loaded _ _ [] Hdocs).
Qed.

End OfflineJobs.

(** ** Claims on [OfflineProcessor] *)

(** C8: within one job the reported percentages never decrease. For
    [mergeFiles], for [processImage] and for [convertFile], whatever the
    files, the format, the device, the callback and the point where the job
    fails (a callback that throws included), the percentages passed to
    [onProgress] form a non-decreasing sequence (each one is at most every
    later one); they lie between 10 and 100 for the first two, between 0 and
    100 for the third. *)
Theorem progress_never_decreases
    (readFile : string -> string + list Z) (writeError : string -> option string)
    (cacheDirectory : string) (now : Z) (page : Type)
    (pdf_load : list Z -> string + list page) (pdf_save : list page -> list Z)
    (stat_size : string -> Z)
    (codec : adapter -> string -> string -> string -> string + conversion_result)
    (sharp : string -> string -> string + list Z)
    (unzip : string -> option string) (archive : string -> string + list Z)
    (uuidv4 : nat -> string) (uploadsDir outputsDir : string)
    (remove : string -> option string)
    (files : list file) (f : file) (format : string) (onProgress : callback) :
  let merge_stream :=
    progress_values
      (mergeFiles readFile writeError cacheDirectory now page pdf_load pdf_save
         files format onProgress).1 in
  let image_stream :=
    progress_values
      (processImage readFile writeError cacheDirectory now f format onProgress).1 in
  let conversion_stream :=
    progress_values
      (convertFile stat_size codec sharp unzip archive uuidv4 uploadsDir outputsDir
         remove f format onProgress).1 in
  (StronglySorted Qle merge_stream /\
   Forall (fun p => (10 <= p <= 100)%Q) merge_stream) /\
  (StronglySorted Qle image_stream /\
   Forall (fun p => (10 <= p <= 100)%Q) image_stream) /\
  (StronglySorted Qle conversion_stream /\
   Forall (fun p => (0 <= p <= 100)%Q) conversion_stream).
Proof.
  split; [|split].
  - apply mergeFiles_ascending.
  - apply processImage_ascending.
  - apply convertFile_ascending.
Qed.

(** C2: a merge keeps the declared order. When every input can be read, the
    output can be written and the progress callback returns, [mergeFiles]
    succeeds and writes one file: for an audio or video format its bytes are
    the inputs' bytes, entry [i] of the output being input [i]; for PDF
    (every input loading as a document) it is the saved document whose page
    list is the inputs' page lists, block [i] being the pages of input [i]. *)
Theorem mergeFiles_preserves_order
    (readFile : string -> string + list Z) (writeError : string -> option string)
    (cacheDirectory : string) (now : Z) (page : Type)
    (pdf_load : list Z -> string + list page) (pdf_save : list page -> list Z)
    (files : list file) (buffers : list (list Z)) (outputFormat : string)
    (onProgress : callback) :
  all_read readFile files buffers ->
  writeError (merged_path cacheDirectory now outputFormat) = None ->
  quiet onProgress ->
  (concatenating_format (toLowerCase outputFormat) = true ->
   exists t data,
     mergeFiles readFile writeError cacheDirectory now page pdf_load pdf_save
       files outputFormat onProgress
     = (t, Returned (MergeResult (merged_path cacheDirectory now outputFormat)
                       (Z.of_nat (length data)) (Z.of_nat (length files))))
     /\ written_files t = [(merged_path cacheDirectory now outputFormat, data)]
     /\ forall i b, buffers !! i = Some b ->
          merged_entry (length <$> buffers) i data = b) /\
  (toLowerCase outputFormat = "pdf"%string ->
   forall docs, all_loaded pdf_load buffers docs ->
   exists t pages,
     mergeFiles readFile writeError cacheDirectory now page pdf_load pdf_save
       files outputFormat onProgress
     = (t, Returned (MergeResult (merged_path cacheDirectory now outputFormat)
                       (Z.of_nat (length (pdf_save pages)))
                       (Z.of_nat (length files))))
     /\ written_files t = [(merged_path cacheDirectory now outputFormat, pdf_save pages)]
     /\ forall i d, docs !! i = Some d ->
          merged_entry (length <$> docs) i pages = d).
Proof.
  intros Hread Hwrite Hquiet. split.
  - intros Hfmt.
    destruct (mergeFiles_writes readFile writeError cacheDirectory now page pdf_load
                pdf_save files buffers outputFormat onProgress (concat buffers)
                Hread (fun p _ => Hquiet p) (Hquiet 100%Q) Hwrite
                (merge_dispatch_concat page pdf_load pdf_save outputFormat buffers Hfmt))
      as (t & Hrun & Hw).
    exists t, (concat buffers). split; [exact Hrun|]. split; [exact Hw|].
    intros i b Hb. by apply merged_entry_concat.
  - intros Hfmt docs Hdocs.
    destruct (mergeFiles_writes readFile writeError cacheDirectory now page pdf_load
                pdf_save files buffers outputFormat onProgress (pdf_save (concat docs))
                Hread (fun p _ => Hquiet p) (Hquiet 100%Q) Hwrite
                (merge_dispatch_pdf page pdf_load pdf_save outputFormat buffers docs
                   Hfmt Hdocs))
      as (t & Hrun & Hw).
    exists t, (concat docs). split; [exact Hrun|]. split; [exact Hw|].
    intros i d Hd. by apply merged_entry_concat.
Qed.

Lemma mergeFiles_preserves_order_witness :
  (exists t data,
     mergeFiles sample_read sample_write "cache/" 1700 Z sample_load sample_save
       sample_files "wav" sample_callback
     = (t, Returned (MergeResult (merged_path "cache/" 1700 "wav")
                       (Z.of_nat (length data)) 2))
     /\ written_files t = [(merged_path "cache/" 1700 "wav", data)]
     /\ forall i b, [[137; 80; 78; 71]; [73; 68; 51]] !! i = Some b ->
          merged_entry (length <$> [[137; 80; 78; 71]; [73; 68; 51]]) i data = b) /\
  (exists t pages,
     mergeFiles sample_read sample_write "cache/" 1700 Z sample_load sample_save
       sample_files "PDF" sample_callback
     = (t, Returned (MergeResult (merged_path "cache/" 1700 "PDF")
                       (Z.of_nat (length (sample_save pages))) 2))
     /\ written_files t = [(merged_path "cache/" 1700 "PDF", sample_save pages)]
     /\ forall i d, [[137; 80; 78; 71]; [73; 68; 51]] !! i = Some d ->
          merged_entry (length <$> [[137; 80; 78; 71]; [73; 68; 51]]) i pages = d).
Proof.
  split.
  - refine (proj1 (mergeFiles_preserves_order sample_read sample_write "cache/"
                     1700 Z sample_load sample_save sample_files
                     [[137; 80; 78; 71]; [73; 68; 51]] "wav" sample_callback _ _ _) _).
    + repeat constructor.
    + reflexivity.
    + intros p. reflexivity.
    + reflexivity.
  - refine (proj2 (mergeFiles_preserves_order sample_read sample_write "cache/"
                     1700 Z sample_load sample_save sample_files
                     [[137; 80; 78; 71]; [73; 68; 51]] "PDF" sample_callback _ _ _)
              _ _ _).
    + repeat constructor.
    + reflexivity.
    + intros p. reflexivity.
    + reflexivity.
    + repeat constructor.
Defined.

(** C3, as the code has it: [mergeFiles] never compares the categories of
    its inputs, and there is no [IncompatibleMergeInputs] error. Into an
    audio or video format, any inputs that can be read are merged by
    concatenating their bytes and written; the merge then succeeds, unless
    the progress callback throws on the last report (100), which comes after
    the write: the merge fails with its output written. What does hold is
    that, when the write goes through and the last report returns, a merge
    that fails has written no output. *)
Theorem mergeFiles_ignores_categories
    (readFile : string -> string + list Z) (writeError : string -> option string)
    (cacheDirectory : string) (now : Z) (page : Type)
    (pdf_load : list Z -> string + list page) (pdf_save : list page -> list Z)
    (files : list file) (buffers : list (list Z)) (outputFormat : string)
    (onProgress : callback) :
  let merge :=
    mergeFiles readFile writeError cacheDirectory now page pdf_load pdf_save
      files outputFormat onProgress in
  let path := merged_path cacheDirectory now outputFormat in
  writeError path = None ->
  (throws_at onProgress 100 = None -> no_write_on_failure merge) /\
  (concatenating_format (toLowerCase outputFormat) = true ->
   all_read readFile files buffers ->
   (forall p, (p <= 90)%Q -> throws_at onProgress p = None) ->
   exists t,
     written_files t = [(path, concat buffers)] /\
     merge
     = (t, match throws_at onProgress 100 with
           | None =>
               Returned (MergeResult path (Z.of_nat (length (concat buffers)))
                           (Z.of_nat (length files)))
           | Some message => Threw ("File merge failed: " +:+ message)
           end)).
Proof.
  intros merge path Hwrite. split.
  - intros Hlast. by apply mergeFiles_no_write_on_failure.
  - intros Hfmt Hread Hquiet.
    pose proof (merge_dispatch_concat page pdf_load pdf_save outputFormat buffers Hfmt)
      as Hmerge.
    destruct (throws_at onProgress 100) as [message|] eqn:Hlast.
    + destruct (mergeFiles_fails_after_write readFile writeError cacheDirectory now
                  page pdf_load pdf_save files buffers outputFormat onProgress
                  (concat buffers) message Hread Hquiet Hlast Hwrite Hmerge)
        as (t & Hrun & Hw).
      by exists t.
    + destruct (mergeFiles_writes readFile writeError cacheDirectory now page pdf_load
                  pdf_save files buffers outputFormat onProgress (concat buffers)
                  Hread Hquiet Hlast Hwrite Hmerge) as (t & Hrun & Hw).
      by exists t.
Qed.

Lemma mergeFiles_ignores_categories_witness :
  mixed_categories sample_files /\
  exists t,
    written_files t = [(merged_path "cache/" 1700 "mp4", [137; 80; 78; 71; 73; 68; 51])]
    /\ mergeFiles sample_read sample_write "cache/" 1700 Z sample_load sample_save
         sample_files "mp4" sample_callback
       = (t, Returned (MergeResult (merged_path "cache/" 1700 "mp4") 7 2)).
Proof.
  split.
  - exists (File "file:///photo.png" "photo.png" 4),
           (File "file:///song.mp3" "song.mp3" 3).
    split; [by left|]. split; [right; by left|]. by vm_compute.
  - apply (proj2 (mergeFiles_ignores_categories sample_read sample_write "cache/"
                    1700 Z sample_load sample_save sample_files
                    [[137; 80; 78; 71]; [73; 68; 51]] "mp4" sample_callback eq_refl)).
    + reflexivity.
    + repeat constructor.
    + intros p _. reflexivity.
Defined.

(** C3 as stated fails: a picture and a song merge into an mp4 file. *)
Lemma mixed_merge_not_refused :
  mixed_categories sample_files /\
  ~ merge_refused
      (mergeFiles sample_read sample_write "cache/" 1700 Z sample_load sample_save
         sample_files "mp4" sample_callback).
Proof.
  split.
  - exists (File "file:///photo.png" "photo.png" 4),
           (File "file:///song.mp3" "song.mp3" 3).
    split; [by left|]. split; [right; by left|]. by vm_compute.
  - intros [Hthrew _]. vm_compute in Hthrew. discriminate.
Qed.

(** ** Claims on the WebAssembly modules *)

(** C9, as the code has it: on buffers of the declared sizes, with
    [input_size > 0], [output_size > 0] and a scaled size
    [t = (int)(input_size * ((float)quality / 100.0f))] that is defined and
    at least 1, [compress_image] and [compress_audio] run to completion (no
    division by zero, every access in bounds) and return
    [min(t, output_size)]. The scaled size is computed in single precision,
    so it can be one less than [floor(input_size * quality / 100)]. *)
Theorem compress_returns_clamped_size
    (input output : list Z) (input_size output_size quality t : Z) :
  Z.of_nat (length input) = input_size ->
  Z.of_nat (length output) = output_size ->
  0 < input_size <= INT_MAX ->
  0 < output_size <= INT_MAX ->
  scaled_size input_size quality = Some t ->
  1 <= t ->
  (exists out,
     compress_image (Some input) input_size (Some output) output_size quality
       = Done (Z.min t output_size, Some out) /\ length out = length output) /\
  (exists out,
     compress_audio (Some input) input_size (Some output) output_size quality
       = Done (Z.min t output_size, Some out) /\ length out = length output).
Proof.
  intros Hin Hout Hisz Hosz Hscaled Ht. split.
  - by apply compress_image_runs.
  - destruct (compress_audio_runs input output input_size output_size quality t)
      as (out & Hrun & Hlen & _); try done.
    by exists out.
Qed.

Lemma compress_returns_clamped_size_witness :
  (exists out,
     compress_image (Some [10; 20; 30; 40]) 4 (Some [0; 0; 0]) 3 50
       = Done (2, Some out) /\ length out = 3%nat) /\
  (exists out,
     compress_audio (Some [10; 20; 30; 40]) 4 (Some [0; 0; 0]) 3 50
       = Done (2, Some out) /\ length out = 3%nat).
Proof.
  apply (compress_returns_clamped_size [10; 20; 30; 40] [0; 0; 0] 4 3 50 2).
  - reflexivity.
  - reflexivity.
  - by vm_compute.
  - by vm_compute.
  - by vm_compute.
  - lia.
Defined.

(** C9 as stated fails: for 75 bytes at quality 84 the exact scaled size is
    63, and both functions return 62. *)
Lemma compress_scaled_size_inexact :
  1 <= 75 * 84 / 100 /\
  ~ returns_exact_scaled_size compress_image (replicate 75 7) (replicate 75 0) 84 /\
  ~ returns_exact_scaled_size compress_audio (replicate 75 7) (replicate 75 0) 84.
Proof.
  split; [by vm_compute|].
  split; intros [out H]; vm_compute in H; discriminate.
Qed.

Lemma wrapped_sum_from (samples : list Z) (acc : Z) :
  Forall is_byte samples -> 0 <= acc ->
  acc + 255 * Z.of_nat (length samples) <= INT_MAX ->
  foldl CInt.add acc samples = acc + sum_bytes samples /\
  0 <= sum_bytes samples <= 255 * Z.of_nat (length samples).
Proof.
  intros Hall. revert acc.
  induction Hall as [|b samples Hb _ IH]; intros acc Hacc Hmax; cbn [foldl sum_bytes foldr].
  - split; lia.
  - unfold is_byte in Hb. cbn [length] in Hmax.
    rewrite add_id by (unfold in_int, INT_MIN, INT_MAX in *; lia).
    destruct (IH (acc + b)) as [Hsum Hrange]; [lia|lia|].
    fold (sum_bytes samples). split; [lia|]. cbn [length]. lia.
Qed.

Lemma averaged_floor_mean (input : buffer) (i step : Z) :
  Forall is_byte input -> 255 * step <= INT_MAX ->
  window input i step <> [] ->
  averaged input i step = floor_mean (window input i step).
Proof.
  intros Hall Hmax Hne. unfold averaged, floor_mean, wrapped_sum.
  assert (Hstep : 0 < step).
  { destruct (Z.lt_ge_cases 0 step) as [|Hle]; [done|]. exfalso. apply Hne.
    unfold window. by replace (Z.to_nat step) with 0%nat by lia. }
  set (w := window input i step) in *.
  assert (Hw : Forall is_byte w).
  { subst w. unfold window. by apply Forall_take, Forall_drop. }
  assert (Hlen : Z.of_nat (length w) <= step).
  { subst w. unfold window. rewrite length_take. lia. }
  assert (Hpos : 0 < Z.of_nat (length w)) by (destruct w; [done|cbn; lia]).
  destruct (wrapped_sum_from w 0 Hw ltac:(lia) ltac:(lia)) as [-> Hrange].
  rewrite Z.add_0_l, div_pos by lia.
  unfold to_uchar. apply Z.mod_small. split.
  - apply Z.div_pos; lia.
  - apply Z.div_lt_upper_bound; lia.
Qed.

(** C6, as the code has it: every sample that [compress_audio] writes is
    the mean of the samples of its window, rounded down (the integer
    quotient [sum / count]), not rounded to nearest; the window holds [step]
    consecutive input samples, or those that remain at the end of the
    input. This holds for byte buffers of the declared sizes, a target size
    of at least 1 that the conversion to [int] defines, and a step small
    enough for the sum of a window to stay within [int]:
    [255 * step <= INT_MAX]. *)
Theorem compress_audio_floor_mean
    (input output : list Z) (input_size output_size quality t : Z) :
  Z.of_nat (length input) = input_size ->
  Z.of_nat (length output) = output_size ->
  0 < input_size <= INT_MAX ->
  0 < output_size <= INT_MAX ->
  scaled_size input_size quality = Some t ->
  1 <= t ->
  Forall is_byte input ->
  let target_size := Z.min t output_size in
  let step := Z.max 1 (input_size / target_size) in
  255 * step <= INT_MAX ->
  exists out,
    compress_audio (Some input) input_size (Some output) output_size quality
      = Done (target_size, Some out) /\
    forall j, 0 <= j < target_size -> j * step < input_size ->
      out !! Z.to_nat j = Some (floor_mean (window input (j * step) step)).
Proof.
  intros Hin Hout Hisz Hosz Hscaled Ht Hbytes target_size step Hmax.
  destruct (compress_audio_runs input output input_size output_size quality t)
    as (out & Hrun & Hlen & Hcontent); try done.
  exists out. split; [exact Hrun|].
  assert (Hstep : (if input_size / target_size <? 1 then 1
                   else input_size / target_size) = step).
  { subst step. destruct (Z.ltb_spec (input_size / target_size) 1); lia. }
  cbv zeta in Hcontent. fold target_size in Hcontent. rewrite Hstep in Hcontent.
  intros j Hj Hjs. rewrite (Hcontent j Hj Hjs). f_equal.
  apply averaged_floor_mean; [done|done|].
  unfold window. intros Hnil. apply (f_equal length) in Hnil.
  rewrite length_take, length_drop in Hnil. cbn in Hnil.
  assert (0 <= j * step) by nia. lia.
Qed.

Lemma compress_audio_floor_mean_witness :
  exists out,
    compress_audio (Some [1; 2; 3; 4]) 4 (Some [0; 0; 0; 0]) 4 50
      = Done (2, Some out) /\
    forall j, 0 <= j < 2 -> j * 2 < 4 ->
      out !! Z.to_nat j = Some (floor_mean (window [1; 2; 3; 4] (j * 2) 2)).
Proof.
  apply (compress_audio_floor_mean [1; 2; 3; 4] [0; 0; 0; 0] 4 4 50 2).
  - reflexivity.
  - reflexivity.
  - by vm_compute.
  - by vm_compute.
  - by vm_compute.
  - lia.
  - repeat constructor; by vm_compute.
  - by vm_compute.
Defined.

(** C6 as stated fails: the windows [1; 2] and [3; 4] have means 1.5 and
    3.5, which round to 2 and 4; the samples written are 1 and 3. *)
Lemma compress_audio_truncates :
  ~ averages_rounded [1; 2; 3; 4] [0; 0; 0; 0] 50.
Proof.
  intros H. unfold averages_rounded in H. cbv zeta in H.
  specialize (H 2 [1; 3; 0; 0] eq_refl 0 ltac:(lia)).
  match type of H with
  | ?P -> _ => assert (HP : P) by (by vm_compute); specialize (H HP)
  end.
  vm_compute in H. discriminate.
Qed.

(** ** Output capacity *)

Lemma process_image_body_inv (input output : buffer) (input_size processed : Z)
    (quality format : Z) (s : Z * buffer) :
  Z.of_nat (length input) = input_size -> input_size <= INT_MAX ->
  processed <= Z.of_nat (length output) ->
  0 <= s.1 /\ length s.2 = length output ->
  process_image_cond processed input_size s = true ->
  exists s', process_image_body input quality format s = Done s' /\
             (0 <= s'.1 /\ length s'.2 = length output) /\
             (Z.to_nat (input_size - s'.1) < Z.to_nat (input_size - s.1))%nat.
Proof.
  intros Hin Hmax Hproc [Hi Hlen] Hc. destruct s as [i out]. cbn [fst snd] in *.
  unfold process_image_cond in Hc. cbn [fst] in Hc.
  apply andb_true_iff in Hc as [Hc1 Hc2]. apply Z.ltb_lt in Hc1, Hc2.
  destruct (load_in_bounds input i) as (v & Hv & _); [lia|].
  assert (Hst : forall w, store out i w = Done (<[Z.to_nat i := w]> out))
    by (intros w; apply store_in_bounds; lia).
  assert (Hnext : CInt.add i 1 = i + 1)
    by (apply add_id; unfold in_int, INT_MIN, INT_MAX in *; lia).
  unfold process_image_body. rewrite Hnext.
  destruct (format =? 0); [|destruct (format =? 1); [|destruct (format =? 2)]];
    rewrite ?(bind_Done _ _ _ Hv), ?Hst; cbn [mbind outcome_bind];
    (eexists; split; [reflexivity|]); cbn [fst snd]; rewrite ?length_insert;
    (split; [split; [lia|done]|lia]).
Qed.

Lemma process_image_clamps (input output : buffer) (input_size output_size : Z)
    (quality format : Z) :
  Z.of_nat (length input) = input_size ->
  Z.of_nat (length output) = output_size ->
  0 < input_size <= INT_MAX -> 0 < output_size ->
  exists out,
    process_image (Some input) input_size (Some output) output_size quality format
      = Done (Z.min (processed_size input_size quality) output_size, Some out)
    /\ length out = length output.
Proof.
  intros Hin Hout Hisz Hosz. unfold process_image.
  assert (Hguard : (input_size <=? 0) || (output_size <=? 0) = false).
  { apply orb_false_iff. split; apply Z.leb_gt; lia. }
  rewrite Hguard, clamp_size_min.
  set (processed := Z.min (processed_size input_size quality) output_size).
  destruct (while_rule (fun s : Z * buffer => 0 <= s.1 /\ length s.2 = length output)
              (fun s => Z.to_nat (input_size - s.1))
              (process_image_cond processed input_size)
              (process_image_body input quality format))
    with (fuel := Z.to_nat input_size) (s := (0, output))
    as (s & Hs & [_ Hlen] & _).
  - intros s Hinv Hc.
    apply (process_image_body_inv input output input_size processed); (done || lia).
  - cbn. split; [lia|done].
  - cbn. lia.
  - exists s.2. by rewrite (bind_Done _ _ _ Hs).
Qed.

Lemma sum_bytes_cons (x : Z) (l : list Z) : sum_bytes (x :: l) = x + sum_bytes l.
Proof. reflexivity. Qed.

Lemma sum_bytes_app (l1 l2 : list Z) :
  sum_bytes (l1 ++ l2) = sum_bytes l1 + sum_bytes l2.
Proof.
  induction l1 as [|x l1 IH]; [done|].
  rewrite <- app_comm_cons, !sum_bytes_cons, IH. lia.
Qed.

Lemma sum_bytes_nonneg (l : list Z) :
  Forall (fun sz => 0 <= sz) l -> 0 <= sum_bytes l.
Proof.
  induction 1 as [|x l Hx _ IH]; [done|]. rewrite sum_bytes_cons. lia.
Qed.

Lemma total_size_loop (file_sizes : buffer) (num_files : Z) :
  Z.of_nat (length file_sizes) = num_files -> num_files <= INT_MAX ->
  Forall (fun sz => 0 <= sz) file_sizes ->
  sum_bytes file_sizes <= INT_MAX ->
  while (Z.to_nat num_files) (fun s : Z * Z => s.1 <? num_files)
    (total_size_body file_sizes) (0, 0)
  = Done (num_files, sum_bytes file_sizes).
Proof.
  intros Hlen Hfiles Hpos Hmax.
  assert (Hgen : forall rest done_ i total,
            file_sizes = done_ ++ rest -> i = Z.of_nat (length done_) ->
            total = sum_bytes done_ ->
            while (length rest) (fun s : Z * Z => s.1 <? num_files)
              (total_size_body file_sizes) (i, total)
            = Done (num_files, sum_bytes file_sizes)).
  { induction rest as [|sz rest IH]; intros done_ i total Hsplit Hi Htotal.
    - rewrite app_nil_r in Hsplit. subst. cbn.
      by rewrite Z.ltb_irrefl.
    - assert (Hlt : i < num_files).
      { subst. rewrite length_app. cbn. lia. }
      cbn [while length fst]. apply Z.ltb_lt in Hlt as Hlt'. rewrite Hlt'.
      assert (Hload : load file_sizes i = Done sz).
      { apply load_Done; [lia|]. subst file_sizes i.
        rewrite Nat2Z.id. by rewrite list_lookup_middle. }
      pose proof Hpos as Hpos'. rewrite Hsplit in Hpos'.
      apply Forall_app in Hpos' as [Hd Hr]. apply Forall_cons in Hr as [Hsz Hr].
      pose proof (sum_bytes_nonneg _ Hd). pose proof (sum_bytes_nonneg _ Hr).
      pose proof (sum_bytes_app done_ (sz :: rest)) as Hs1.
      rewrite <- Hsplit, sum_bytes_cons in Hs1.
      assert (Hbody : total_size_body file_sizes (i, total) = Done (i + 1, total + sz)).
      { unfold total_size_body. rewrite (bind_Done _ _ _ Hload).
        by rewrite !add_id by (unfold in_int, INT_MIN, INT_MAX in *; lia). }
      rewrite (bind_Done _ _ _ Hbody).
      apply (IH (done_ ++ [sz])).
      + by rewrite <- app_assoc.
      + rewrite length_app. cbn. lia.
      + rewrite sum_bytes_app, sum_bytes_cons. cbn. lia. }
  replace (Z.to_nat num_files) with (length file_sizes) by lia.
  by apply (Hgen file_sizes []).
Qed.

Lemma merge_pdfs_rejects (pdf_files : list pointer) (file_sizes output : buffer)
    (num_files output_size : Z) :
  Z.of_nat (length file_sizes) = num_files ->
  Forall (fun sz => 0 <= sz) file_sizes ->
  sum_bytes file_sizes <= INT_MAX ->
  0 < num_files <= INT_MAX -> 0 < output_size ->
  output_size < sum_bytes file_sizes ->
  merge_pdfs (Some pdf_files) (Some file_sizes) num_files (Some output) output_size
    = Done (-1, Some output).
Proof.
  intros Hlen Hpos Hmax Hn Ho Hbig. unfold merge_pdfs.
  assert (Hguard : (num_files <=? 0) || (output_size <=? 0) = false).
  { apply orb_false_iff. split; apply Z.leb_gt; lia. }
  rewrite Hguard, (bind_Done _ _ _ (total_size_loop _ _ Hlen ltac:(lia) Hpos Hmax)).
  cbn [snd]. apply Z.ltb_lt in Hbig. by rewrite Hbig.
Qed.

(** C4, as the code has it: [process_image] does not signal an output
    that does not fit. On buffers of the declared sizes it succeeds and
    returns the processed size clamped to the capacity,
    [min(processed_size, output_size)]. [merge_pdfs] does return the error
    value -1, leaving the output untouched, when the sizes of its inputs,
    none of them negative and their sum within [int], add up to more than
    the capacity. *)
Theorem capacity_clamped_or_rejected
    (input output : list Z) (input_size output_size quality format : Z)
    (pdf_files : list pointer) (file_sizes : list Z) (num_files : Z) :
  Z.of_nat (length input) = input_size ->
  Z.of_nat (length output) = output_size ->
  0 < input_size <= INT_MAX ->
  0 < output_size ->
  (exists out,
     process_image (Some input) input_size (Some output) output_size quality format
       = Done (Z.min (processed_size input_size quality) output_size, Some out)
     /\ length out = length output) /\
  (Z.of_nat (length file_sizes) = num_files ->
   0 < num_files <= INT_MAX ->
   Forall (fun sz => 0 <= sz) file_sizes ->
   sum_bytes file_sizes <= INT_MAX ->
   output_size < sum_bytes file_sizes ->
   merge_pdfs (Some pdf_files) (Some file_sizes) num_files (Some output) output_size
     = Done (-1, Some output)).
Proof.
  intros Hin Hout Hisz Hosz. split.
  - by apply process_image_clamps.
  - intros Hlen Hn Hpos Hmax Hbig. by apply merge_pdfs_rejects.
Qed.

Lemma capacity_clamped_or_rejected_witness :
  (exists out,
     process_image (Some [10; 20; 30; 40; 50; 60; 70; 80; 90; 100]) 10
       (Some [0; 0; 0; 0; 0]) 5 100 1
       = Done (5, Some out) /\ length out = 5%nat) /\
  merge_pdfs (Some [Some [1; 2; 3]; Some [4; 5; 6]]) (Some [3; 3]) 2
    (Some [0; 0; 0; 0; 0]) 5
    = Done (-1, Some [0; 0; 0; 0; 0]).
Proof.
  destruct (capacity_clamped_or_rejected
              [10; 20; 30; 40; 50; 60; 70; 80; 90; 100] [0; 0; 0; 0; 0] 10 5 100 1
              [Some [1; 2; 3]; Some [4; 5; 6]] [3; 3] 2
              eq_refl eq_refl ltac:(by vm_compute) ltac:(lia)) as [Himage Hpdf].
  split.
  - exact Himage.
  - apply Hpdf.
    + reflexivity.
    + by vm_compute.
    + repeat constructor; lia.
    + by vm_compute.
    + by vm_compute.
Defined.

(** C4 as stated fails: ten bytes processed at quality 100 into a buffer of
    five are cut to five and reported as a success. *)
Lemma truncation_not_signalled :
  processed_size 10 100 = 10 /\
  process_image (Some [10; 20; 30; 40; 50; 60; 70; 80; 90; 100]) 10
    (Some [0; 0; 0; 0; 0]) 5 100 1
    = Done (5, Some [10; 20; 30; 40; 50]) /\
  ~ signals_error
      (process_image (Some [10; 20; 30; 40; 50; 60; 70; 80; 90; 100]) 10
         (Some [0; 0; 0; 0; 0]) 5 100 1).
Proof.
  split; [reflexivity|]. split; [reflexivity|].
  intros [out H]. vm_compute in H. discriminate.
Qed.

(** ** Text extraction *)

Lemma while_reading_rule {S : Type} (Inv : S -> Prop) (measure : S -> nat)
    (cond : S -> outcome bool) (body : S -> outcome S) :
  (forall s, Inv s ->
     exists b, cond s = Done b /\
       (b = true ->
        exists s', body s = Done s' /\ Inv s' /\ (measure s' < measure s)%nat)) ->
  forall fuel s, Inv s -> (measure s <= fuel)%nat ->
    exists s', while_reading fuel cond body s = Done s' /\ Inv s' /\
               cond s' = Done false.
Proof.
  intros Hstep. induction fuel as [|fuel IH]; intros s Hs Hm;
    destruct (Hstep s Hs) as ([|] & Hc & Hb); cbn; rewrite Hc; cbn; eauto.
  - destruct (Hb eq_refl) as (s' & _ & _ & Hlt). lia.
  - destruct (Hb eq_refl) as (s' & -> & Hs' & Hlt). cbn. apply IH; [done|lia].
Qed.

Lemma extracted_more (input : buffer) (n m : nat) (text : list Z) :
  extracted input n text -> (n <= m)%nat -> extracted input m text.
Proof.
  intros [Hp Hs] Hle. split; [done|].
  etrans; [exact Hs|].
  replace (take n input) with (take n (take m input))
    by (rewrite take_take; f_equal; lia).
  apply sublist_take.
Qed.

Lemma extracted_all (input : buffer) (n : nat) (text : list Z) :
  extracted input n text -> extracted input (length input) text.
Proof.
  intros Hex. destruct (decide (n <= length input)%nat) as [Hle|Hgt].
  - by eapply extracted_more.
  - destruct Hex as [Hp Hs]. split; [done|].
    rewrite take_ge in Hs by lia. by rewrite take_ge by lia.
Qed.

Lemma extracted_copy (input : buffer) (n : nat) (text : list Z) (v : Z) :
  extracted input n text -> input !! n = Some v -> printable v = true ->
  extracted input (S n) (text ++ [v]).
Proof.
  intros [Hp Hs] Hv Hpv. split.
  - apply Forall_app. split; [done|]. by repeat constructor.
  - rewrite filter_app, (take_S_r _ _ _ Hv).
    apply sublist_app; [done|].
    destruct (decide (v <> 32)) as [Hne|Heq].
    + by rewrite filter_cons_True.
    + rewrite filter_cons_False by done. apply sublist_nil_l.
Qed.

Lemma extracted_space (input : buffer) (n : nat) (text : list Z) :
  extracted input n text -> extracted input n (text ++ [32]).
Proof.
  intros [Hp Hs]. split.
  - apply Forall_app. split; [done|]. by repeat constructor.
  - rewrite filter_app, filter_cons_False by (intros H; by apply H).
    by rewrite filter_nil, app_nil_r.
Qed.

Lemma text_push (out : buffer) (ts : nat) (v : Z) :
  (ts < length out)%nat -> take (S ts) (<[ts := v]> out) = take ts out ++ [v].
Proof.
  intros Hlt. rewrite (take_S_r _ _ v) by (by apply list_lookup_insert_eq).
  by rewrite take_insert_ge.
Qed.

Lemma starts_with_pair (buf : buffer) (off c1 c2 : Z) :
  0 <= off -> off + 1 < Z.of_nat (length buf) ->
  exists b, starts_with buf off [c1; c2] = Done b.
Proof.
  intros Hoff Hlen.
  destruct (load_in_bounds buf off) as (v1 & Hv1 & _); [lia|].
  destruct (load_in_bounds buf (off + 1)) as (v2 & Hv2 & _); [lia|].
  cbn [starts_with]. rewrite (bind_Done _ _ _ Hv1), (bind_Done _ _ _ Hv2).
  cbn. eauto.
Qed.

Section ExtractText.
Variables (input output : buffer) (input_size output_size : Z).
Hypothesis Hinput : Z.of_nat (length input) = input_size.
Hypothesis Houtput : Z.of_nat (length output) = output_size.
Hypothesis Hisz : 0 < input_size < INT_MAX.
Hypothesis Hosz : 0 < output_size <= INT_MAX.

Local Abbreviation tinv := (text_inv input output output_size).

Lemma capacity_minus_one : CInt.sub output_size 1 = output_size - 1.
Proof. apply wrap32_id. unfold in_int, INT_MIN, INT_MAX in *. lia. Qed.

Lemma next_index (i : Z) : 0 <= i <= input_size -> CInt.add i 1 = i + 1.
Proof. intros Hi. apply add_id. unfold in_int, INT_MIN, INT_MAX in *. lia. Qed.

Lemma next_text_size (ts : Z) : 0 <= ts <= output_size - 1 -> CInt.add ts 1 = ts + 1.
Proof. intros Hi. apply add_id. unfold in_int, INT_MIN, INT_MAX in *. lia. Qed.

(** Appending one byte to the text. *)
Lemma push_inv (s : scan_state) (v : Z) (consumed : Z) :
  tinv s -> sc_text_size s < output_size - 1 ->
  sc_i s <= consumed ->
  extracted input (Z.to_nat consumed)
    (take (Z.to_nat (sc_text_size s)) (sc_out s) ++ [v]) ->
  store (sc_out s) (sc_text_size s) v
    = Done (<[Z.to_nat (sc_text_size s) := v]> (sc_out s)) /\
  tinv (ScanState consumed (sc_in_text s) (sc_text_size s + 1)
          (<[Z.to_nat (sc_text_size s) := v]> (sc_out s))).
Proof.
  intros (Hi & Hts & Hlen & Hex) Hroom Hcons Hex'. split.
  - apply store_in_bounds. lia.
  - unfold text_inv. cbn [sc_i sc_text_size sc_out].
    rewrite length_insert.
    replace (Z.to_nat (sc_text_size s + 1)) with (S (Z.to_nat (sc_text_size s))) by lia.
    rewrite text_push by lia.
    split; [lia|]. split; [lia|]. split; [done|]. exact Hex'.
Qed.

Lemma string_loop (s0 : scan_state) :
  tinv s0 -> sc_i s0 <= input_size ->
  exists s1,
    while_reading (Z.to_nat input_size)
      (string_cond input input_size output_size) (string_body input) s0 = Done s1
    /\ tinv s1 /\ sc_i s0 <= sc_i s1 <= input_size
    /\ sc_in_text s1 = sc_in_text s0.
Proof.
  intros Hinv Hle.
  destruct (while_reading_rule
              (fun s => tinv s /\ sc_i s0 <= sc_i s <= input_size
                        /\ sc_in_text s = sc_in_text s0)
              (fun s => Z.to_nat (input_size - sc_i s))
              (string_cond input input_size output_size) (string_body input))
    with (fuel := Z.to_nat input_size) (s := s0) as (s1 & Hrun & Hs1 & _).
  - intros s (Hs & Hrange & Hflag). pose proof Hs as (Hi & Hts & Hlen & Hex).
    unfold string_cond. destruct (Z.ltb_spec (sc_i s) input_size) as [Hlt|Hge];
      [|exists false; split; [done|discriminate]].
    destruct (load_in_bounds input (sc_i s)) as (v & Hv & Hlook); [lia|].
    rewrite (bind_Done _ _ _ Hv), capacity_minus_one. eexists. split; [reflexivity|].
    intros Hb. apply andb_true_iff in Hb as [_ Hroom]. apply Z.ltb_lt in Hroom.
    unfold string_body. rewrite (bind_Done _ _ _ Hv), next_index by lia.
    destruct (printable v) eqn:Hp.
    + destruct (push_inv s v (sc_i s + 1) Hs Hroom ltac:(lia)) as [Hst Hinv'].
      { replace (Z.to_nat (sc_i s + 1)) with (S (Z.to_nat (sc_i s))) by lia.
        by apply extracted_copy. }
      rewrite (bind_Done _ _ _ Hst), next_text_size by lia.
      eexists. split; [reflexivity|]. cbn [fst snd sc_i sc_in_text].
      split; [|lia]. split; [exact Hinv'|]. split; [lia|done].
    + eexists. split; [reflexivity|]. cbn [fst snd sc_i sc_in_text].
      split; [|lia]. split; [|split; [lia|done]].
      unfold text_inv. cbn [sc_i sc_text_size sc_out].
      split; [lia|]. split; [lia|]. split; [done|].
      eapply extracted_more; [exact Hex|lia].
  - split; [done|]. split; [lia|done].
  - destruct Hinv as (Hi0 & _). cbn beta. lia.
  - exists s1. destruct Hs1 as (H1 & H2 & H3).
    exact (conj Hrun (conj H1 (conj H2 H3))).
Qed.

Lemma text_content_inv (s : scan_state) :
  tinv s -> sc_i s < input_size -> sc_text_size s < output_size - 1 ->
  exists s', text_content input input_size output_size s = Done s' /\ tinv s'
             /\ sc_i s <= sc_i s' <= input_size.
Proof.
  intros Hs Hlt Hroom. pose proof Hs as (Hi & Hts & Hlen & Hex).
  unfold text_content. destruct (sc_in_text s) eqn:Hflag;
    [|exists s; split; [done|]; split; [done|lia]].
  destruct (load_in_bounds input (sc_i s)) as (v & Hv & _); [lia|].
  rewrite (bind_Done _ _ _ Hv).
  destruct (v =? 40); [|exists s; split; [done|]; split; [done|lia]].
  rewrite next_index by lia.
  destruct (string_loop (ScanState (sc_i s + 1) true (sc_text_size s) (sc_out s)))
    as (s1 & Hrun & Hs1 & Hrange & _).
  { unfold text_inv. cbn [sc_i sc_text_size sc_out].
    split; [lia|]. split; [lia|]. split; [done|].
    eapply extracted_more; [exact Hex|lia]. }
  { cbn. lia. }
  cbn [sc_i] in Hrange.
  rewrite (bind_Done _ _ _ Hrun), capacity_minus_one.
  destruct (Z.ltb_spec (sc_text_size s1) (output_size - 1)) as [Hroom1|_];
    [|exists s1; split; [done|]; split; [done|lia]].
  destruct (push_inv s1 32 (sc_i s1) Hs1 Hroom1 ltac:(lia)) as [Hst Hinv'].
  { apply extracted_space, Hs1. }
  pose proof Hs1 as (_ & Hts1 & _).
  rewrite (bind_Done _ _ _ Hst), next_text_size by lia.
  eexists. split; [reflexivity|]. split; [exact Hinv'|]. cbn. lia.
Qed.

Lemma extract_text_body_inv (s : scan_state) :
  tinv s -> extract_text_cond input_size output_size s = true ->
  exists s', extract_text_body input input_size output_size s = Done s' /\ tinv s'
             /\ (Z.to_nat (input_size - sc_i s') < Z.to_nat (input_size - sc_i s))%nat.
Proof.
  intros Hs Hc. pose proof Hs as (Hi & Hts & Hlen & Hex).
  unfold extract_text_cond in Hc. rewrite capacity_minus_one in Hc.
  apply andb_true_iff in Hc as [Hlt Hroom]. apply Z.ltb_lt in Hlt, Hroom.
  assert (Hskip : forall flag consumed, sc_i s <= consumed ->
            tinv (ScanState consumed flag (sc_text_size s) (sc_out s))).
  { intros flag consumed Hle. unfold text_inv. cbn [sc_i sc_text_size sc_out].
    split; [lia|]. split; [lia|]. split; [done|].
    eapply extracted_more; [exact Hex|lia]. }
  assert (Hcontent :
    exists s', (s'' ← text_content input input_size output_size s;
                Done (ScanState (CInt.add (sc_i s'') 1) (sc_in_text s'')
                        (sc_text_size s'') (sc_out s''))) = Done s' /\ tinv s'
               /\ (Z.to_nat (input_size - sc_i s') < Z.to_nat (input_size - sc_i s))%nat).
  { destruct (text_content_inv s Hs Hlt Hroom) as (s1 & Hrun & Hs1 & Hrange).
    rewrite (bind_Done _ _ _ Hrun), next_index by lia.
    eexists. split; [reflexivity|]. cbn [sc_i]. split; [|lia].
    pose proof Hs1 as (Hi1 & Hts1 & Hlen1 & Hex1).
    unfold text_inv. cbn [sc_i sc_text_size sc_out].
    split; [lia|]. split; [lia|]. split; [done|].
    eapply extracted_more; [exact Hex1|lia]. }
  unfold extract_text_body.
  assert (Hfour : CInt.sub input_size 4 = input_size - 4).
  { apply wrap32_id. unfold in_int, INT_MIN, INT_MAX in *. lia. }
  rewrite Hfour.
  destruct (Z.ltb_spec (sc_i s) (input_size - 4)) as [Hfar|_];
    [|cbn [mbind outcome_bind]; exact Hcontent].
  destruct (starts_with_pair input (sc_i s) 66 84) as (bt & Hbt); [lia|lia|].
  destruct (starts_with_pair input (sc_i s) 69 84) as (et & Het); [lia|lia|].
  rewrite (bind_Done _ _ _ Hbt).
  assert (Hmark : forall flag,
    exists s', Done (ScanState
                 (CInt.add (sc_i (ScanState (CInt.add (sc_i s) 1) flag
                                    (sc_text_size s) (sc_out s))) 1)
                 (sc_in_text (ScanState (CInt.add (sc_i s) 1) flag
                                (sc_text_size s) (sc_out s)))
                 (sc_text_size (ScanState (CInt.add (sc_i s) 1) flag
                                  (sc_text_size s) (sc_out s)))
                 (sc_out (ScanState (CInt.add (sc_i s) 1) flag
                            (sc_text_size s) (sc_out s)))) = Done s' /\ tinv s'
               /\ (Z.to_nat (input_size - sc_i s') < Z.to_nat (input_size - sc_i s))%nat).
  { intros flag. cbn [sc_i sc_in_text sc_text_size sc_out].
    rewrite (next_index (sc_i s)) by lia. rewrite next_index by lia.
    eexists. split; [reflexivity|].
    split; [apply Hskip; lia|]. cbn [sc_i]. lia. }
  destruct bt; cbn [mbind outcome_bind]; [apply Hmark|].
  rewrite (bind_Done _ _ _ Het).
  destruct et; cbn [mbind outcome_bind]; [apply Hmark|exact Hcontent].
Qed.

Lemma extract_text_runs :
  exists n out,
    extract_text (Some input) input_size (Some output) output_size = Done (n, Some out)
    /\ 0 <= n <= output_size - 1
    /\ out !! Z.to_nat n = Some 0
    /\ length out = length output
    /\ extracted input (length input) (take (Z.to_nat n) out).
Proof.
  destruct (while_rule tinv (fun s => Z.to_nat (input_size - sc_i s))
              (extract_text_cond input_size output_size)
              (extract_text_body input input_size output_size)
              extract_text_body_inv (Z.to_nat input_size) (ScanState 0 false 0 output))
    as (s & Hrun & (Hi & Hts & Hlen & Hex) & _).
  - unfold text_inv. cbn [sc_i sc_text_size sc_out].
    split; [lia|]. split; [lia|]. split; [done|]. cbn.
    split; [constructor|]. apply sublist_nil_l.
  - cbn. lia.
  - exists (sc_text_size s), (<[Z.to_nat (sc_text_size s) := 0]> (sc_out s)).
    split.
    + unfold extract_text.
      assert (Hguard : (input_size <=? 0) || (output_size <=? 0) = false).
      { apply orb_false_iff. split; apply Z.leb_gt; lia. }
      rewrite Hguard, (bind_Done _ _ _ Hrun).
      destruct (Z.ltb_spec (sc_text_size s) output_size); [|lia].
      by rewrite store_in_bounds by lia.
    + split; [lia|]. split; [apply list_lookup_insert_eq; lia|].
      split; [by rewrite length_insert|].
      rewrite take_insert_ge by lia. by eapply extracted_all.
Qed.

End ExtractText.

(** C10, as the code has it: on buffers of the declared sizes,
    [extract_text] returns a length [n <= output_size - 1], writes the NUL
    at index [n], and writes printable ASCII only before it. Those bytes
    are copied from the input in input order, except for the space that the
    function itself appends after each parenthesised string: with the
    spaces left out, the text is a subsequence of the input. *)
Theorem extract_text_bounded_printable
    (input output : list Z) (input_size output_size : Z) :
  Z.of_nat (length input) = input_size ->
  Z.of_nat (length output) = output_size ->
  0 < input_size < INT_MAX ->
  0 < output_size <= INT_MAX ->
  exists n out,
    extract_text (Some input) input_size (Some output) output_size
      = Done (n, Some out)
    /\ 0 <= n <= output_size - 1
    /\ out !! Z.to_nat n = Some 0
    /\ Forall (fun b => 32 <= b <= 126) (take (Z.to_nat n) out)
    /\ filter (fun b => b <> 32) (take (Z.to_nat n) out) `sublist_of` input.
Proof.
  intros Hin Hout Hisz Hosz.
  destruct (extract_text_runs input output input_size output_size Hin Hout Hisz Hosz)
    as (n & out & Hrun & Hn & Hnul & _ & [Hp Hsub]).
  exists n, out. split; [exact Hrun|]. split; [exact Hn|]. split; [exact Hnul|].
  split.
  - eapply Forall_impl; [exact Hp|]. intros b Hb. cbn in Hb.
    unfold printable in Hb. apply andb_true_iff in Hb as [H1 H2].
    apply Z.leb_le in H1, H2. lia.
  - by rewrite (take_ge input) in Hsub by lia.
Qed.

Lemma extract_text_bounded_printable_witness :
  exists n out,
    extract_text (Some [66; 84; 40; 72; 105; 41; 120; 120; 120; 120]) 10
      (Some [7; 7; 7; 7; 7; 7]) 6
      = Done (n, Some out)
    /\ 0 <= n <= 6 - 1
    /\ out !! Z.to_nat n = Some 0
    /\ Forall (fun b => 32 <= b <= 126) (take (Z.to_nat n) out)
    /\ filter (fun b => b <> 32) (take (Z.to_nat n) out)
       `sublist_of` [66; 84; 40; 72; 105; 41; 120; 120; 120; 120].
Proof.
  apply (extract_text_bounded_printable
           [66; 84; 40; 72; 105; 41; 120; 120; 120; 120] [7; 7; 7; 7; 7; 7] 10 6).
  - reflexivity.
  - reflexivity.
  - by vm_compute.
  - by vm_compute.
Defined.

(** C10 as stated fails on the bytes [BT(A)xxxx]: the text written is an
    'A' followed by a space, and the input holds no space. *)
Lemma separator_not_from_input :
  extract_text (Some [66; 84; 40; 65; 41; 120; 120; 120; 120]) 9
    (Some [7; 7; 7; 7; 7; 7; 7; 7]) 8
    = Done (2, Some [65; 32; 0; 7; 7; 7; 7; 7]) /\
  ~ copied_in_order [66; 84; 40; 65; 41; 120; 120; 120; 120]
      (take 2 [65; 32; 0; 7; 7; 7; 7; 7]).
Proof.
  split; [reflexivity|]. intros [_ Hsub].
  assert (Hin : 32 ∈ [66; 84; 40; 65; 41; 120; 120; 120; 120]).
  { eapply elem_of_sublist; [|exact Hsub]. cbn. right. by left. }
  repeat (apply elem_of_cons in Hin as [Heq|Hin]; [discriminate|]).
  by apply elem_of_nil in Hin.
Qed.

(** ** Resizing *)

Lemma binary_round_aux_sign (m e : Z) (l : location) :
  sign_clear (binary_round_aux F32.prec F32.emax false m e l).
Proof.
  unfold binary_round_aux.
  destruct (shr_fexp _ _ _ _ _) as [mrs1 e1].
  destruct (shr_fexp _ _ _ _ _) as [mrs2 e2].
  destruct (shr_m mrs2); [done| |done].
  by destruct (Z.leb _ _).
Qed.

Lemma of_int_sign (n : Z) : 0 <= n -> sign_clear (F32.of_int n).
Proof.
  intros Hn. unfold F32.of_int, binary_normalize. destruct n as [|p|p]; [done| |lia].
  unfold binary_round. destruct (shl_align _ _ _) as [mz ez].
  apply binary_round_aux_sign.
Qed.

Lemma fdiv_sign (a b : spec_float) :
  sign_clear a -> sign_clear b -> sign_clear (F32.fdiv a b).
Proof.
  unfold F32.fdiv, SFdiv.
  destruct a as [sa|sa| |sa ma ea], b as [sb|sb| |sb mb eb]; cbn;
    try done; try (by intros -> ->).
  intros -> ->. destruct (SFdiv_core_binary _ _ _ _ _ _) as [[mz ez] lz].
  apply binary_round_aux_sign.
Qed.

Lemma fmul_sign (a b : spec_float) :
  sign_clear a -> sign_clear b -> sign_clear (F32.fmul a b).
Proof.
  unfold F32.fmul, SFmul.
  destruct a as [sa|sa| |sa ma ea], b as [sb|sb| |sb mb eb]; cbn;
    try done; try (by intros -> ->).
  intros -> ->. apply binary_round_aux_sign.
Qed.

Lemma to_int_nonneg (f : spec_float) (v : Z) :
  sign_clear f -> F32.to_int f = Some v -> 0 <= v.
Proof.
  destruct f as [s|s| |s m e]; cbn; try discriminate.
  - by intros _ [= <-].
  - intros ->. destruct (in_intb _); [|discriminate]. intros [= <-].
    unfold F32.trunc_abs. destruct (Z.leb_spec 0 e).
    + apply Z.mul_nonneg_nonneg; [lia|]. apply Z.pow_nonneg. lia.
    + apply Z.div_pos; [lia|]. apply Z.pow_pos_nonneg; lia.
Qed.

Lemma coords_definedb_defined (input_dim output_dim : Z) :
  coords_definedb input_dim output_dim = true -> coords_defined input_dim output_dim.
Proof.
  unfold coords_definedb. intros Hall x Hx.
  rewrite forallb_forall in Hall. specialize (Hall x).
  destruct (F32.to_int _); [by eexists|].
  discriminate Hall. apply list_elem_of_In, elem_of_seqZ. lia.
Defined.

(** The float-to-int conversions are defined for every resize between
    dimensions up to 32. *)
Lemma coords_defined_small (input_dim output_dim : Z) :
  1 <= input_dim <= 32 -> 1 <= output_dim <= 32 ->
  coords_defined input_dim output_dim.
Proof.
  intros Hi Ho. apply coords_definedb_defined.
  assert (Hall : forallb (fun a => forallb (coords_definedb a) (seqZ 1 32)) (seqZ 1 32)
                 = true) by (by vm_compute).
  rewrite forallb_forall in Hall.
  specialize (Hall input_dim ltac:(apply list_elem_of_In, elem_of_seqZ; lia)).
  rewrite forallb_forall in Hall.
  apply Hall. apply list_elem_of_In, elem_of_seqZ. lia.
Qed.

(** The coordinate computed by the code is the one of [sample_coord], and
    it is a valid row or column. *)
Lemma source_coord_sample (input_dim output_dim x : Z) :
  0 < input_dim <= INT_MAX -> 0 < output_dim -> 0 <= x < output_dim ->
  coords_defined input_dim output_dim ->
  source_coord (size_ratio input_dim output_dim) input_dim x
    = Done (sample_coord input_dim output_dim x)
  /\ 0 <= sample_coord input_dim output_dim x <= input_dim - 1.
Proof.
  intros Hin Hout Hx Hdef. destruct (Hdef x Hx) as [v Hv].
  assert (Hnn : 0 <= v).
  { eapply to_int_nonneg; [|exact Hv].
    apply fmul_sign; [apply of_int_sign; lia|].
    apply fdiv_sign; apply of_int_sign; lia. }
  unfold source_coord, float_to_int, sample_coord. rewrite Hv. cbn.
  unfold clamp_coord, CInt.sub. destruct (Z.leb_spec input_dim v).
  - rewrite wrap32_id by (unfold in_int, INT_MIN, INT_MAX in *; lia).
    split; [f_equal|]; lia.
  - split; [f_equal|]; lia.
Qed.

(** Two positions of a plane with the same linear index are the same. *)
Lemma linear_index_inj (w ch y x c y' x' c' : Z) :
  0 <= x < w -> 0 <= x' < w -> 0 <= c < ch -> 0 <= c' < ch ->
  (y * w + x) * ch + c = (y' * w + x') * ch + c' ->
  y = y' /\ x = x' /\ c = c'.
Proof.
  intros Hx Hx' Hc Hc' Heq.
  assert (Hpix : y * w + x = y' * w + x' /\ c = c').
  { destruct (Z.lt_trichotomy (y * w + x) (y' * w + x')) as [Hlt|[Heq'|Hgt]];
      [nia|split; [done|nia]|nia]. }
  destruct Hpix as [Hpix ->].
  destruct (Z.lt_trichotomy y y') as [Hlt|[->|Hgt]]; [nia|split; [done|lia]|nia].
Qed.

Lemma plane_index_bound (w h ch y x c : Z) :
  0 <= y < h -> 0 <= x < w -> 0 <= c < ch ->
  0 <= (y * w + x) * ch + c < w * h * ch.
Proof.
  intros Hy Hx Hc.
  assert (0 <= y * w + x) by nia.
  assert (y * w + x + 1 <= h * w) by nia.
  split; nia.
Qed.

Lemma product_factors_le (a b c m : Z) :
  0 < a -> 0 < b -> 0 < c -> a * b * c <= m -> a <= m /\ b <= m /\ c <= m.
Proof.
  intros Ha Hb Hc Hm.
  assert (1 <= a * b) by nia. assert (a <= a * b) by nia. assert (b <= a * b) by nia.
  assert (a * b <= a * b * c) by nia. assert (c <= a * b * c) by nia.
  lia.
Qed.

Section ResizePlane.
Variables (g : plane) (input out0 : buffer).
Hypothesis Hfit : plane_fits g input out0.

Local Abbreviation iw := (input_width g).
Local Abbreviation ih := (input_height g).
Local Abbreviation ow := (output_width g).
Local Abbreviation oh := (output_height g).
Local Abbreviation ch := (channels g).
Local Abbreviation sx x := (sample_coord (input_width g) (output_width g) x).
Local Abbreviation sy y := (sample_coord (input_height g) (output_height g) y).

Lemma plane_dims_in_int :
  iw <= INT_MAX /\ ih <= INT_MAX /\ ow <= INT_MAX /\ oh <= INT_MAX /\ ch <= INT_MAX.
Proof.
  destruct Hfit as (H1 & H2 & H3 & H4 & H5 & _ & _ & H6 & H7 & _).
  destruct (product_factors_le _ _ _ _ H1 H2 H5 H6) as (? & ? & ?).
  destruct (product_factors_le _ _ _ _ H3 H4 H5 H7) as (? & ? & ?).
  by repeat split.
Qed.

Lemma src_index_value (y x : Z) :
  0 <= y < oh -> 0 <= x < ow ->
  0 <= sy y <= ih - 1 /\ 0 <= sx x <= iw - 1 /\
  CInt.mul (CInt.add (CInt.mul (sy y) iw) (sx x)) ch = (sy y * iw + sx x) * ch.
Proof.
  intros Hy Hx. pose proof plane_dims_in_int as (B1 & B2 & B3 & B4 & B5).
  destruct Hfit as (H1 & H2 & H3 & H4 & H5 & _ & _ & H6 & H7 & _ & _ & Dx & Dy).
  destruct (source_coord_sample iw ow x ltac:(lia) H3 Hx Dx) as [_ Hsx].
  destruct (source_coord_sample ih oh y ltac:(lia) H4 Hy Dy) as [_ Hsy].
  split; [done|]. split; [done|].
  pose proof (plane_index_bound iw ih ch (sy y) (sx x) 0 ltac:(lia) ltac:(lia) ltac:(lia)).
  assert (0 <= sy y * iw <= sy y * iw + sx x) by nia.
  assert (sy y * iw + sx x <= (sy y * iw + sx x) * ch) by nia.
  unfold CInt.mul, CInt.add.
  rewrite (wrap32_id (sy y * iw)) by int_range.
  rewrite (wrap32_id (sy y * iw + sx x)) by int_range.
  apply wrap32_id. int_range.
Qed.

Lemma dst_index_value (y x : Z) :
  0 <= y < oh -> 0 <= x < ow ->
  CInt.mul (CInt.add (CInt.mul y ow) x) ch = (y * ow + x) * ch.
Proof.
  intros Hy Hx.
  destruct Hfit as (H1 & H2 & H3 & H4 & H5 & _ & _ & H6 & H7 & _).
  pose proof (plane_index_bound ow oh ch y x 0 ltac:(lia) ltac:(lia) ltac:(lia)).
  assert (0 <= y * ow <= y * ow + x) by nia.
  assert (y * ow + x <= (y * ow + x) * ch) by nia.
  unfold CInt.mul, CInt.add.
  rewrite (wrap32_id (y * ow)) by int_range.
  rewrite (wrap32_id (y * ow + x)) by int_range.
  apply wrap32_id. int_range.
Qed.

Lemma filled_start : filled g input out0 0 out0.
Proof.
  destruct Hfit as (H1 & H2 & H3 & H4 & H5 & _).
  split; [done|]. split; [done|]. intros y x c Hy Hx Hc Hlt. nia.
Qed.

Lemma filled_write (out : buffer) (y x c v : Z) :
  0 <= y < oh -> 0 <= x < ow -> 0 <= c < ch ->
  filled g input out0 ((y * ow + x) * ch + c) out ->
  input !! Z.to_nat (src_at g y x c) = Some v ->
  store out (dst_at g y x c) v = Done (<[Z.to_nat (dst_at g y x c) := v]> out) /\
  filled g input out0 ((y * ow + x) * ch + c + 1)
    (<[Z.to_nat (dst_at g y x c) := v]> out).
Proof.
  intros Hy Hx Hc (Hlen & Hkeep & Hdone) Hv.
  destruct Hfit as (H1 & H2 & H3 & H4 & H5 & Hib & Hob & H6 & H7 & Hi & Ho & _).
  pose proof (plane_index_bound ow oh ch y x c Hy Hx Hc) as Hp.
  assert (Hdst : dst_at g y x c = out_base g + ((y * ow + x) * ch + c))
    by (unfold dst_at; lia).
  split; [apply store_in_bounds; lia|].
  split; [by rewrite length_insert|]. split.
  - intros k Hk. rewrite list_lookup_insert_ne by lia. apply Hkeep. lia.
  - intros y' x' c' Hy' Hx' Hc' Hlt.
    destruct (decide ((y' * ow + x') * ch + c' = (y * ow + x) * ch + c)) as [Heq|Hne].
    + destruct (linear_index_inj ow ch y' x' c' y x c Hx' Hx Hc' Hc Heq)
        as (-> & -> & ->).
      rewrite list_lookup_insert_eq by lia. by rewrite Hv.
    + rewrite list_lookup_insert_ne by (unfold dst_at; lia). apply Hdone; lia.
Qed.

Lemma channel_loop (y x : Z) (out : buffer) :
  0 <= y < oh -> 0 <= x < ow ->
  filled g input out0 ((y * ow + x) * ch) out ->
  exists r,
    while (Z.to_nat ch) (fun s : Z * buffer => s.1 <? ch)
      (resize_channel_body input (in_base g) (out_base g)
         ((sy y * iw + sx x) * ch) ((y * ow + x) * ch)) (0, out) = Done r
    /\ filled g input out0 ((y * ow + x + 1) * ch) r.2.
Proof.
  intros Hy Hx Hstart.
  pose proof plane_dims_in_int as (B1 & B2 & B3 & B4 & B5).
  destruct (src_index_value y x Hy Hx) as (Hsy & Hsx & _).
  pose proof Hfit as (H1 & H2 & H3 & H4 & H5 & Hib & Hob & H6 & H7 & Hi & Ho & _).
  destruct (while_rule
              (fun s : Z * buffer =>
                 0 <= s.1 <= ch /\ filled g input out0 ((y * ow + x) * ch + s.1) s.2)
              (fun s => Z.to_nat (ch - s.1))
              (fun s : Z * buffer => s.1 <? ch)
              (resize_channel_body input (in_base g) (out_base g)
                 ((sy y * iw + sx x) * ch) ((y * ow + x) * ch)))
    with (fuel := Z.to_nat ch) (s := (0, out)) as (r & Hrun & [Hc Hfilled] & Hexit).
  - intros [c o] [Hc Hfill] Hlt. cbn [fst snd] in *. apply Z.ltb_lt in Hlt.
    pose proof (plane_index_bound iw ih ch (sy y) (sx x) c ltac:(lia) ltac:(lia)
                  ltac:(lia)) as Hsrc.
    pose proof (plane_index_bound ow oh ch y x c Hy Hx ltac:(lia)) as Hdst.
    unfold resize_channel_body.
    rewrite !add_id by int_range.
    destruct (load_in_bounds input (in_base g + ((sy y * iw + sx x) * ch + c)))
      as (v & Hv & Hlook); [lia|].
    rewrite (bind_Done _ _ _ Hv).
    destruct (filled_write o y x c v Hy Hx ltac:(lia) Hfill) as [Hst Hfill'].
    { unfold src_at. rewrite <- Hlook. f_equal. lia. }
    replace (out_base g + ((y * ow + x) * ch + c)) with (dst_at g y x c)
      by (unfold dst_at; lia).
    rewrite (bind_Done _ _ _ Hst).
    eexists. split; [reflexivity|]. cbn [fst snd]. split; [|lia].
    split; [lia|]. by replace ((y * ow + x) * ch + (c + 1))
                        with ((y * ow + x) * ch + c + 1) by lia.
  - cbn [fst snd]. split; [lia|]. by rewrite Z.add_0_r.
  - cbn [fst]. lia.
  - exists r. split; [done|]. cbn beta in Hexit. apply Z.ltb_ge in Hexit.
    by replace ((y * ow + x + 1) * ch) with ((y * ow + x) * ch + r.1)
      by (replace r.1 with ch by lia; ring).
Qed.

Lemma pixel_loop (y : Z) (out : buffer) :
  0 <= y < oh ->
  filled g input out0 (y * ow * ch) out ->
  exists r,
    while (Z.to_nat ow) (fun s : Z * buffer => s.1 <? ow)
      (resize_pixel_body input (in_base g) (out_base g) iw ih ow ch
         (size_ratio iw ow) (size_ratio ih oh) y) (0, out) = Done r
    /\ filled g input out0 ((y + 1) * ow * ch) r.2.
Proof.
  intros Hy Hstart.
  pose proof plane_dims_in_int as (B1 & B2 & B3 & B4 & B5).
  pose proof Hfit as (H1 & H2 & H3 & H4 & H5 & Hib & Hob & H6 & H7 & Hi & Ho & Dx & Dy).
  destruct (while_rule
              (fun s : Z * buffer =>
                 0 <= s.1 <= ow /\ filled g input out0 ((y * ow + s.1) * ch) s.2)
              (fun s => Z.to_nat (ow - s.1))
              (fun s : Z * buffer => s.1 <? ow)
              (resize_pixel_body input (in_base g) (out_base g) iw ih ow ch
                 (size_ratio iw ow) (size_ratio ih oh) y))
    with (fuel := Z.to_nat ow) (s := (0, out)) as (r & Hrun & [Hx Hfilled] & Hexit).
  - intros [x o] [Hx Hfill] Hlt. cbn [fst snd] in *. apply Z.ltb_lt in Hlt.
    destruct (source_coord_sample iw ow x ltac:(lia) H3 ltac:(lia) Dx) as [Hcx _].
    destruct (source_coord_sample ih oh y ltac:(lia) H4 Hy Dy) as [Hcy _].
    destruct (src_index_value y x Hy ltac:(lia)) as (_ & _ & Hsrc).
    pose proof (dst_index_value y x Hy ltac:(lia)) as Hdst.
    destruct (channel_loop y x o Hy ltac:(lia) Hfill) as (r & Hr & Hfill').
    unfold resize_pixel_body.
    rewrite (bind_Done _ _ _ Hcx), (bind_Done _ _ _ Hcy), Hsrc, Hdst.
    rewrite (bind_Done _ _ _ Hr), add_id by int_range.
    eexists. split; [reflexivity|]. cbn [fst snd]. split; [|lia].
    split; [lia|]. by replace (y * ow + (x + 1)) with (y * ow + x + 1) by lia.
  - cbn [fst snd]. split; [lia|].
    by replace ((y * ow + 0) * ch) with (y * ow * ch) by lia.
  - cbn [fst]. lia.
  - exists r. split; [done|]. cbn beta in Hexit. apply Z.ltb_ge in Hexit.
    by replace ((y + 1) * ow * ch) with ((y * ow + r.1) * ch)
      by (replace r.1 with ow by lia; ring).
Qed.

Lemma resize_rows_filled :
  exists out,
    resize_rows input (in_base g) (out_base g) iw ih ow oh ch
      (size_ratio iw ow) (size_ratio ih oh) out0 = Done out
    /\ filled g input out0 (ow * oh * ch) out.
Proof.
  pose proof plane_dims_in_int as (B1 & B2 & B3 & B4 & B5).
  pose proof Hfit as (H1 & H2 & H3 & H4 & H5 & _).
  destruct (while_rule
              (fun s : Z * buffer =>
                 0 <= s.1 <= oh /\ filled g input out0 (s.1 * ow * ch) s.2)
              (fun s => Z.to_nat (oh - s.1))
              (fun s : Z * buffer => s.1 <? oh)
              (resize_row_body input (in_base g) (out_base g) iw ih ow ch
                 (size_ratio iw ow) (size_ratio ih oh)))
    with (fuel := Z.to_nat oh) (s := (0, out0)) as (r & Hrun & [Hy Hfilled] & Hexit).
  - intros [y o] [Hy Hfill] Hlt. cbn [fst snd] in *. apply Z.ltb_lt in Hlt.
    destruct (pixel_loop y o ltac:(lia) Hfill) as (r & Hr & Hfill').
    unfold resize_row_body. rewrite (bind_Done _ _ _ Hr), add_id by int_range.
    eexists. split; [reflexivity|]. cbn [fst snd]. split; [|lia].
    split; [lia|done].
  - cbn [fst snd]. split; [lia|]. apply filled_start.
  - cbn [fst]. lia.
  - exists r.2. unfold resize_rows. rewrite (bind_Done _ _ _ Hrun). split; [done|].
    cbn beta in Hexit. apply Z.ltb_ge in Hexit.
    by replace (ow * oh * ch) with (r.1 * ow * ch)
      by (replace r.1 with oh by lia; ring).
Qed.

End ResizePlane.

Lemma resize_image_filled (input output : buffer)
    (iw ih ow oh ch : Z) :
  plane_fits (Plane 0 0 iw ih ow oh ch) input output ->
  exists out,
    resize_image (Some input) iw ih (Some output) ow oh ch = Done (0, Some out)
    /\ filled (Plane 0 0 iw ih ow oh ch) input output (ow * oh * ch) out.
Proof.
  intros Hfit. pose proof Hfit as (H1 & H2 & H3 & H4 & H5 & _). cbn in H1, H2, H3, H4, H5.
  destruct (resize_rows_filled _ _ _ Hfit) as (out & Hrun & Hfilled).
  exists out. split; [|exact Hfilled].
  unfold resize_image.
  assert (Hguard : (iw <=? 0) || (ih <=? 0) || (ow <=? 0) || (oh <=? 0) || (ch <=? 0)
                   = false).
  { repeat (apply orb_false_iff; split); apply Z.leb_gt; lia. }
  rewrite Hguard. cbn in Hrun. by rewrite (bind_Done _ _ _ Hrun).
Qed.

Section ResizeFrames.
Variables (input output : buffer) (iw ih ow oh nf : Z).
Hypothesis Hdims : 0 < iw /\ 0 < ih /\ 0 < ow /\ 0 < oh /\ 0 < nf.
Hypothesis Hin_int : nf * (iw * ih * 3) <= INT_MAX.
Hypothesis Hout_int : nf * (ow * oh * 3) <= INT_MAX.
Hypothesis Hin_len : nf * (iw * ih * 3) <= Z.of_nat (length input).
Hypothesis Hout_len : nf * (ow * oh * 3) <= Z.of_nat (length output).
Hypothesis Hdx : coords_defined iw ow.
Hypothesis Hdy : coords_defined ih oh.

Local Abbreviation finv := (frames_inv input output iw ih ow oh nf).

Lemma frame_sizes :
  0 < iw * ih * 3 /\ 0 < ow * oh * 3 /\
  CInt.mul (CInt.mul iw ih) 3 = iw * ih * 3 /\
  CInt.mul (CInt.mul ow oh) 3 = ow * oh * 3.
Proof.
  destruct Hdims as (H1 & H2 & H3 & H4 & H5).
  assert (0 < iw * ih) by nia. assert (0 < ow * oh) by nia.
  assert (iw * ih * 3 <= nf * (iw * ih * 3)) by nia.
  assert (ow * oh * 3 <= nf * (ow * oh * 3)) by nia.
  split; [lia|]. split; [lia|]. unfold CInt.mul.
  rewrite (wrap32_id (iw * ih)), (wrap32_id (ow * oh)) by int_range.
  split; apply wrap32_id; int_range.
Qed.

Lemma resize_frame_body_inv (s : Z * buffer) :
  finv s -> (s.1 <? nf) = true ->
  exists s',
    resize_frame_body input iw ih ow oh (iw * ih * 3) (ow * oh * 3)
      (size_ratio iw ow) (size_ratio ih oh) s = Done s'
    /\ finv s' /\ (Z.to_nat (nf - s'.1) < Z.to_nat (nf - s.1))%nat.
Proof.
  destruct s as [frame out]. intros (Hf & Hlen & Hkeep & Hdone) Hlt.
  cbn [fst snd] in *. apply Z.ltb_lt in Hlt.
  destruct Hdims as (H1 & H2 & H3 & H4 & H5).
  destruct frame_sizes as (Hifs & Hofs & _ & _).
  assert (Hfi : 0 <= frame * (iw * ih * 3) /\
                frame * (iw * ih * 3) + iw * ih * 3 <= nf * (iw * ih * 3)) by nia.
  assert (Hfo : 0 <= frame * (ow * oh * 3) /\
                frame * (ow * oh * 3) + ow * oh * 3 <= nf * (ow * oh * 3)) by nia.
  set (g := Plane (frame * (iw * ih * 3)) (frame * (ow * oh * 3)) iw ih ow oh 3).
  assert (Hfit : plane_fits g input out).
  { unfold plane_fits, g. cbn. rewrite Hlen. repeat split; (done || lia). }
  destruct (resize_rows_filled g input out Hfit) as (out' & Hrun & Hlen' & Hkeep' & Hdone').
  unfold resize_frame_body.
  rewrite !mul_id by int_range. cbn in Hrun. rewrite (bind_Done _ _ _ Hrun).
  rewrite add_id by int_range.
  eexists. split; [reflexivity|]. unfold frames_inv. cbn [fst snd]. split; [|lia].
  split; [lia|]. split; [congruence|]. split.
  - intros k Hk. rewrite Hkeep' by (cbn; lia). apply Hkeep. lia.
  - intros f y x c Hfr Hy Hx Hc.
    pose proof (plane_index_bound ow oh 3 y x c Hy Hx Hc) as Hp.
    destruct (decide (f = frame)) as [->|Hne].
    + specialize (Hdone' y x c Hy Hx Hc ltac:(cbn; lia)).
      unfold dst_at, src_at, g in Hdone'. cbn in Hdone'. exact Hdone'.
    + assert (Hbefore : f * (ow * oh * 3) + ow * oh * 3 <= frame * (ow * oh * 3)) by nia.
      rewrite Hkeep' by (cbn; lia). apply Hdone; lia.
Qed.

Lemma resize_video_frames_filled :
  exists out,
    resize_video_frames (Some input) iw ih (Some output) ow oh nf = Done (0, Some out)
    /\ finv (nf, out).
Proof.
  destruct Hdims as (H1 & H2 & H3 & H4 & H5).
  destruct frame_sizes as (_ & _ & Hifs & Hofs).
  destruct (while_rule finv (fun s => Z.to_nat (nf - s.1))
              (fun s : Z * buffer => s.1 <? nf)
              (resize_frame_body input iw ih ow oh (iw * ih * 3) (ow * oh * 3)
                 (size_ratio iw ow) (size_ratio ih oh)) resize_frame_body_inv
              (Z.to_nat nf) (0, output)) as (r & Hrun & Hinv & Hexit).
  - unfold frames_inv. cbn [fst snd]. split; [lia|]. split; [done|].
    split; [done|]. intros f y x c Hf. lia.
  - cbn [fst]. lia.
  - exists r.2. split.
    + unfold resize_video_frames.
      assert (Hguard : (iw <=? 0) || (ih <=? 0) || (ow <=? 0) || (oh <=? 0)
                       || (nf <=? 0) = false).
      { repeat (apply orb_false_iff; split); apply Z.leb_gt; lia. }
      rewrite Hguard, Hifs, Hofs. by rewrite (bind_Done _ _ _ Hrun).
    + cbn beta in Hexit. apply Z.ltb_ge in Hexit.
      destruct Hinv as (Hf & Hrest). replace nf with r.1 by lia.
      destruct r. split; [cbn in *; lia|exact Hrest].
Qed.

End ResizeFrames.

(** C5, as the code has it: when the float-to-int conversions of the
    coordinates are defined and the buffers hold the declared planes, a
    resize to [w x h] writes exactly the [w * h] pixels of the output (every
    byte after them is left as it was), and output pixel [(x, y)] is the
    input pixel at column [min((int)(x * x_ratio), src_w - 1)] and row
    [min((int)(y * y_ratio), src_h - 1)], a valid column and row. The
    products are taken in single precision with [x_ratio = (float)src_w /
    dst_w], so the column can be one less than [floor(x * src_w / dst_w)].
    [resize_video_frames] does the same for each RGB frame. *)
Theorem resize_samples_clamped_source
    (input output frames_in frames_out : list Z) (iw ih ow oh ch nf : Z) :
  0 < iw -> 0 < ih -> 0 < ow -> 0 < oh ->
  coords_defined iw ow -> coords_defined ih oh ->
  (forall x, 0 <= x < ow -> 0 <= sample_coord iw ow x <= iw - 1) /\
  (forall y, 0 <= y < oh -> 0 <= sample_coord ih oh y <= ih - 1) /\
  (0 < ch ->
   iw * ih * ch <= INT_MAX -> ow * oh * ch <= INT_MAX ->
   iw * ih * ch <= Z.of_nat (length input) ->
   ow * oh * ch <= Z.of_nat (length output) ->
   exists out,
     resize_image (Some input) iw ih (Some output) ow oh ch = Done (0, Some out)
     /\ length out = length output
     /\ (forall k : nat, ow * oh * ch <= Z.of_nat k -> out !! k = output !! k)
     /\ forall y x c, 0 <= y < oh -> 0 <= x < ow -> 0 <= c < ch ->
          out !! Z.to_nat ((y * ow + x) * ch + c)
          = input !! Z.to_nat ((sample_coord ih oh y * iw + sample_coord iw ow x) * ch
                               + c)) /\
  (0 < nf ->
   nf * (iw * ih * 3) <= INT_MAX -> nf * (ow * oh * 3) <= INT_MAX ->
   nf * (iw * ih * 3) <= Z.of_nat (length frames_in) ->
   nf * (ow * oh * 3) <= Z.of_nat (length frames_out) ->
   exists out,
     resize_video_frames (Some frames_in) iw ih (Some frames_out) ow oh nf
       = Done (0, Some out)
     /\ length out = length frames_out
     /\ (forall k : nat, nf * (ow * oh * 3) <= Z.of_nat k -> out !! k = frames_out !! k)
     /\ forall f y x c, 0 <= f < nf -> 0 <= y < oh -> 0 <= x < ow -> 0 <= c < 3 ->
          out !! Z.to_nat (f * (ow * oh * 3) + (y * ow + x) * 3 + c)
          = frames_in !! Z.to_nat (f * (iw * ih * 3)
                                   + (sample_coord ih oh y * iw
                                      + sample_coord iw ow x) * 3 + c)).
Proof.
  intros Hiw Hih How Hoh Hdx Hdy.
  split; [|split; [|split]].
  - intros x Hx.
    assert (Hb : iw <= INT_MAX \/ INT_MAX < iw) by lia. destruct Hb as [Hb|Hb].
    + by apply (source_coord_sample iw ow x).
    + destruct (Hdx x Hx) as [v Hv]. unfold sample_coord. rewrite Hv.
      pose proof (to_int_in_int _ _ Hv) as Hr.
      assert (0 <= v).
      { eapply to_int_nonneg; [|exact Hv].
        apply fmul_sign; [apply of_int_sign; lia|].
        apply fdiv_sign; apply of_int_sign; lia. }
      int_range.
  - intros y Hy.
    assert (Hb : ih <= INT_MAX \/ INT_MAX < ih) by lia. destruct Hb as [Hb|Hb].
    + by apply (source_coord_sample ih oh y).
    + destruct (Hdy y Hy) as [v Hv]. unfold sample_coord. rewrite Hv.
      pose proof (to_int_in_int _ _ Hv) as Hr.
      assert (0 <= v).
      { eapply to_int_nonneg; [|exact Hv].
        apply fmul_sign; [apply of_int_sign; lia|].
        apply fdiv_sign; apply of_int_sign; lia. }
      int_range.
  - intros Hch Hi Ho Hil Hol.
    destruct (resize_image_filled input output iw ih ow oh ch)
      as (out & Hrun & Hlen & Hkeep & Hdone).
    { unfold plane_fits. cbn. repeat split; (done || lia). }
    exists out. split; [exact Hrun|]. split; [exact Hlen|]. split.
    + intros k Hk. apply Hkeep. cbn. lia.
    + intros y x c Hy Hx Hc.
      pose proof (plane_index_bound ow oh ch y x c Hy Hx Hc) as Hp.
      specialize (Hdone y x c Hy Hx Hc ltac:(cbn; lia)).
      unfold dst_at, src_at in Hdone. cbn in Hdone. exact Hdone.
  - intros Hnf Hi Ho Hil Hol.
    destruct (resize_video_frames_filled frames_in frames_out iw ih ow oh nf)
      as (out & Hrun & _ & Hlen & Hkeep & Hdone); try done.
    exists out. by repeat split.
Qed.


Lemma resize_samples_clamped_source_witness :
  exists out,
    resize_image (Some [10; 20; 30; 40]) 2 2 (Some [0; 0; 0; 0; 0; 0; 0; 0; 0; 9]) 3 3 1
      = Done (0, Some out)
    /\ length out = 10%nat
    /\ (forall k : nat, 3 * 3 * 1 <= Z.of_nat k ->
          out !! k = [0; 0; 0; 0; 0; 0; 0; 0; 0; 9] !! k)
    /\ forall y x c, 0 <= y < 3 -> 0 <= x < 3 -> 0 <= c < 1 ->
         out !! Z.to_nat ((y * 3 + x) * 1 + c)
         = [10; 20; 30; 40] !! Z.to_nat ((sample_coord 2 3 y * 2 + sample_coord 2 3 x) * 1
                                         + c).
Proof.
  refine (proj1 (proj2 (proj2
            (resize_samples_clamped_source [10; 20; 30; 40]
               [0; 0; 0; 0; 0; 0; 0; 0; 0; 9] [] [] 2 2 3 3 1 0
               _ _ _ _ (coords_definedb_defined 2 3 eq_refl)
               (coords_definedb_defined 2 3 eq_refl)))) _ _ _ _ _);
    by vm_compute.
Defined.

(** C5 as stated fails: resizing a row of 26 pixels to 22, output pixel 11
    should sample column [floor(11 * 26 / 22) = 13]; in single precision
    [11 * (26 / 22)] is just below 13 and the code samples column 12. *)
Lemma resize_samples_column_12 :
  exact_coord 26 22 11 = 13 /\
  sample_coord 26 22 11 = 12 /\
  ~ samples_exact_coord (seqZ 0 26) 26 1 (replicate 22 0) 22 1 1.
Proof.
  split; [reflexivity|]. split; [by vm_compute|].
  intros H. unfold samples_exact_coord in H.
  remember (resize_image (Some (seqZ 0 26)) 26 1 (Some (replicate 22 0)) 22 1 1)
    as r eqn:Hr.
  vm_compute in Hr. subst r.
  specialize (H _ eq_refl 0 11 0 ltac:(lia) ltac:(lia) ltac:(lia)).
  vm_compute in H. discriminate.
Qed.

(** ** Copies *)

Lemma memcpy_from_copies (k : nat) : forall (dst src : buffer) (d s : nat),
  (d + k <= length dst)%nat -> (s + k <= length src)%nat ->
  memcpy_from k dst (Z.of_nat d) src (Z.of_nat s)
  = Done (take d dst ++ take k (drop s src) ++ drop (d + k) dst).
Proof.
  induction k as [|k IH]; intros dst src d s Hd Hs.
  - cbn [memcpy_from]. rewrite take_0, Nat.add_0_r. cbn [app]. by rewrite take_drop.
  - cbn [memcpy_from].
    destruct (load_in_bounds src (Z.of_nat s)) as (v & Hv & Hlook); [lia|].
    rewrite Nat2Z.id in Hlook.
    rewrite (bind_Done _ _ _ Hv).
    rewrite (bind_Done _ _ _ (store_in_bounds dst (Z.of_nat d) v ltac:(lia))).
    rewrite Nat2Z.id.
    replace (Z.of_nat d + 1) with (Z.of_nat (S d)) by lia.
    replace (Z.of_nat s + 1) with (Z.of_nat (S s)) by lia.
    rewrite IH by (rewrite ?length_insert; lia).
    f_equal.
    rewrite (take_S_r _ _ v) by (apply list_lookup_insert_eq; lia).
    rewrite take_insert_ge by lia.
    rewrite drop_insert_lt by lia.
    rewrite (drop_S src v s Hlook). cbn [take].
    rewrite <- app_assoc. cbn [app].
    by replace (S d + k)%nat with (d + S k)%nat by lia.
Qed.

Lemma memcpy_copies (dst src : buffer) (dst_off src_off n : Z) :
  0 <= dst_off -> 0 <= src_off -> 0 <= n ->
  dst_off + n <= Z.of_nat (length dst) -> src_off + n <= Z.of_nat (length src) ->
  memcpy dst dst_off src src_off n
  = Done (take (Z.to_nat dst_off) dst
          ++ take (Z.to_nat n) (drop (Z.to_nat src_off) src)
          ++ drop (Z.to_nat (dst_off + n)) dst).
Proof.
  intros Hd Hs Hn Hdl Hsl. unfold memcpy.
  destruct (Z.ltb_spec n 0); [lia|].
  rewrite <- (Z2Nat.id dst_off), <- (Z2Nat.id src_off) at 1 by lia.
  rewrite memcpy_from_copies by lia.
  by replace (Z.to_nat dst_off + Z.to_nat n)%nat with (Z.to_nat (dst_off + n)) by lia.
Qed.

(** ** Merging audio and video *)

Lemma merged_bytes_take_S (files : list pointer) (file_sizes : list Z) (i : nat)
    (file : pointer) (sz : Z) :
  files !! i = Some file -> file_sizes !! i = Some sz ->
  merged_bytes (take (S i) files) (take (S i) file_sizes)
  = merged_bytes (take i files) (take i file_sizes) ++ merged_chunk file sz.
Proof.
  intros Hf Hs. unfold merged_bytes.
  rewrite (take_S_r _ _ _ Hf), (take_S_r _ _ _ Hs).
  rewrite zip_with_app.
  - rewrite concat_app. cbn [zip_with concat]. by rewrite app_nil_r.
  - apply lookup_lt_Some in Hf, Hs. rewrite !length_take. lia.
Qed.

Lemma merged_bytes_length (files : list pointer) (file_sizes : list Z) :
  merge_inputs files file_sizes ->
  Z.of_nat (length (merged_bytes files file_sizes)) <= sum_bytes file_sizes.
Proof.
  unfold merged_bytes. induction 1 as [|file sz files file_sizes [Hsz Hdata] _ IH]; [done|].
  cbn [zip_with concat]. rewrite length_app, sum_bytes_cons.
  assert (Z.of_nat (length (merged_chunk file sz)) <= sz); [|lia].
  unfold merged_chunk. destruct file as [data|]; [|cbn; lia].
  destruct (Z.ltb_spec 0 sz); [|cbn; lia]. rewrite length_take. lia.
Qed.

Lemma sum_bytes_take_le (l : list Z) (n : nat) :
  Forall (fun sz => 0 <= sz) l -> sum_bytes (take n l) <= sum_bytes l.
Proof.
  intros Hl. rewrite <- (take_drop n l) at 2. rewrite sum_bytes_app.
  pose proof (sum_bytes_nonneg (drop n l) (Forall_drop _ _ _ Hl)). lia.
Qed.

Lemma merge_inputs_sizes (files : list pointer) (file_sizes : list Z) :
  merge_inputs files file_sizes -> Forall (fun sz => 0 <= sz) file_sizes.
Proof. induction 1 as [|? ? ? ? [? _]]; constructor; done. Qed.

Section MergeLoop.
Variables (files : list pointer) (file_sizes output : buffer) (num_files : Z).
Hypothesis Hinputs : merge_inputs files file_sizes.
Hypothesis Hcount : Z.of_nat (length file_sizes) = num_files.
Hypothesis Hfiles : num_files <= INT_MAX.
Hypothesis Hfits : sum_bytes file_sizes <= Z.of_nat (length output).
Hypothesis Hcapacity : Z.of_nat (length output) <= INT_MAX.

Local Abbreviation minv := (merge_inv files file_sizes output num_files).

Lemma merge_audio_body_inv (s : Z * Z * buffer) :
  minv s -> (s.1.1 <? num_files) = true ->
  exists s', merge_audio_body files file_sizes s = Done s' /\ minv s' /\
             (Z.to_nat (num_files - s'.1.1) < Z.to_nat (num_files - s.1.1))%nat.
Proof using All.
  destruct s as [[i offset] out]. unfold merge_inv. cbn [fst snd].
  intros (Hi & Hoff & Hout) Hc. apply Z.ltb_lt in Hc.
  set (written := merged_bytes (take (Z.to_nat i) files) (take (Z.to_nat i) file_sizes))
    in *.
  pose proof (Forall2_length _ _ _ Hinputs) as Hlen.
  destruct (lookup_lt_is_Some_2 files (Z.to_nat i)) as [file Hfile]; [lia|].
  destruct (lookup_lt_is_Some_2 file_sizes (Z.to_nat i)) as [sz Hsz]; [lia|].
  destruct (Forall2_lookup_lr _ _ _ _ _ _ Hinputs Hfile Hsz) as [Hpos Hdata].
  assert (Hnext : CInt.add i 1 = i + 1)
    by (apply add_id; unfold in_int, INT_MIN, INT_MAX in *; lia).
  assert (Hstep : merged_bytes (take (Z.to_nat (i + 1)) files)
                               (take (Z.to_nat (i + 1)) file_sizes)
                  = written ++ merged_chunk file sz).
  { replace (Z.to_nat (i + 1)) with (S (Z.to_nat i)) by lia.
    by apply merged_bytes_take_S. }
  assert (Hbound : Z.of_nat (length (written ++ merged_chunk file sz))
                   <= Z.of_nat (length output)).
  { rewrite <- Hstep.
    etransitivity; [apply merged_bytes_length; by apply Forall2_take|].
    etransitivity; [apply sum_bytes_take_le; by eapply merge_inputs_sizes|done]. }
  rewrite length_app in Hbound.
  unfold merge_audio_body, load_pointer.
  destruct (Z.leb_spec 0 i); [|lia]. rewrite Hfile. cbn [mbind outcome_bind].
  destruct file as [data|].
  - rewrite (bind_Done _ _ _ (load_Done file_sizes i sz ltac:(lia) Hsz)).
    specialize (Hdata data eq_refl).
    destruct (Z.ltb_spec 0 sz) as [Hsz0|Hsz0].
    + assert (Hchunk : merged_chunk (Some data) sz = take (Z.to_nat sz) data).
      { unfold merged_chunk. by destruct (Z.ltb_spec 0 sz); [|lia]. }
      rewrite Hchunk in *. rewrite length_take in Hbound.
      assert (Hlout : length out = length output).
      { rewrite Hout, length_app, length_drop. lia. }
      rewrite memcpy_copies by lia. cbn [mbind outcome_bind fst snd].
      rewrite Hnext, add_id by (unfold in_int, INT_MIN, INT_MAX in *; lia).
      eexists. split; [reflexivity|]. cbn [fst snd]. rewrite Hstep.
      split; [|lia]. split; [lia|]. split.
      * rewrite length_app, length_take. lia.
      * rewrite Hout at 1. rewrite Hoff, Nat2Z.id, take_app_length.
        rewrite <- app_assoc. do 2 f_equal.
        rewrite Hout.
        replace (Z.to_nat (Z.of_nat (length written) + sz))
          with (length written + Z.to_nat sz)%nat by lia.
        rewrite drop_app_add, drop_drop. f_equal.
        rewrite length_app, length_take. lia.
    + cbn [mbind outcome_bind fst snd]. rewrite Hnext.
      eexists. split; [reflexivity|]. cbn [fst snd]. rewrite Hstep.
      assert (Hchunk : merged_chunk (Some data) sz = []).
      { unfold merged_chunk. by destruct (Z.ltb_spec 0 sz); [lia|]. }
      rewrite Hchunk, app_nil_r. repeat split; (done || lia).
  - cbn [mbind outcome_bind fst snd]. rewrite Hnext.
    eexists. split; [reflexivity|]. cbn [fst snd]. rewrite Hstep.
    cbn [merged_chunk]. rewrite app_nil_r. repeat split; (done || lia).
Qed.

Lemma merge_audio_loop :
  while (Z.to_nat num_files) (fun s : Z * Z * buffer => s.1.1 <? num_files)
    (merge_audio_body files file_sizes) (0, 0, output)
  = Done (num_files, Z.of_nat (length (merged_bytes files file_sizes)),
          merged_bytes files file_sizes
          ++ drop (length (merged_bytes files file_sizes)) output).
Proof using All.
  destruct (while_rule minv (fun s => Z.to_nat (num_files - s.1.1))
              (fun s : Z * Z * buffer => s.1.1 <? num_files)
              (merge_audio_body files file_sizes) merge_audio_body_inv
              (Z.to_nat num_files) (0, 0, output))
    as ([[i offset] out] & Hrun & (Hi & Hoff & Hout) & Hexit).
  - unfold merge_inv. cbn. split; [lia|]. by rewrite drop_0.
  - cbn. lia.
  - cbn [fst snd] in *. apply Z.ltb_ge in Hexit.
    pose proof (Forall2_length _ _ _ Hinputs) as Hlen.
    rewrite !take_ge in Hoff, Hout by lia.
    rewrite Hrun. by replace i with num_files by lia; subst.
Qed.

End MergeLoop.

Lemma merge_audio_runs (files : list pointer) (file_sizes output : buffer)
    (num_files output_size : Z) :
  merge_inputs files file_sizes ->
  Z.of_nat (length file_sizes) = num_files ->
  Z.of_nat (length output) = output_size ->
  0 < num_files <= INT_MAX -> 0 < output_size <= INT_MAX ->
  sum_bytes file_sizes <= output_size ->
  merge_audio (Some files) (Some file_sizes) num_files (Some output) output_size
  = Done (sum_bytes file_sizes,
          Some (merged_bytes files file_sizes
                ++ drop (length (merged_bytes files file_sizes)) output)).
Proof.
  intros Hinputs Hcount Hout Hn Hcap Hfits. unfold merge_audio.
  pose proof (merge_inputs_sizes _ _ Hinputs) as Hpos.
  pose proof (sum_bytes_nonneg _ Hpos).
  assert (Hguard : (num_files <=? 0) || (output_size <=? 0) = false).
  { apply orb_false_iff. split; apply Z.leb_gt; lia. }
  rewrite Hguard.
  rewrite (bind_Done _ _ _ (total_size_loop _ _ Hcount ltac:(lia) Hpos ltac:(lia))).
  cbn [snd]. destruct (Z.ltb_spec output_size (sum_bytes file_sizes)); [lia|].
  rewrite (bind_Done _ _ _
             (merge_audio_loop files file_sizes output num_files Hinputs Hcount
                ltac:(lia) ltac:(lia) ltac:(lia))).
  done.
Qed.

Lemma merged_bytes_present (datas : list buffer) :
  merged_bytes (Some <$> datas) ((fun data => Z.of_nat (length data)) <$> datas)
  = concat datas.
Proof.
  unfold merged_bytes. induction datas as [|data datas IH]; [done|].
  cbn [fmap list_fmap zip_with concat]. f_equal; [|exact IH].
  unfold merged_chunk. destruct (Z.ltb_spec 0 (Z.of_nat (length data))).
  - rewrite Nat2Z.id. apply take_ge. lia.
  - destruct data; [done|]. cbn [length] in *. lia.
Qed.

Lemma merge_inputs_present (datas : list buffer) :
  merge_inputs (Some <$> datas) ((fun data => Z.of_nat (length data)) <$> datas).
Proof.
  unfold merge_inputs. apply Forall2_fmap, Forall_Forall2_diag, Forall_forall.
  intros data _. split; [lia|]. by intros ? [= <-].
Qed.

Lemma merged_bytes_skipped (files : list pointer) (file_sizes : list Z)
    (k : nat) (sz : Z) :
  merge_inputs files file_sizes ->
  files !! k = Some None -> file_sizes !! k = Some sz ->
  Z.of_nat (length (merged_bytes files file_sizes)) + sz <= sum_bytes file_sizes.
Proof.
  intros Hin. revert k.
  induction Hin as [|file sz' files file_sizes [Hsz Hdata] Hin IH]; intros k Hf Hs;
    [done|].
  unfold merged_bytes. cbn [zip_with concat]. rewrite length_app, sum_bytes_cons.
  destruct k as [|k]; cbn in Hf, Hs.
  - injection Hf as ->. injection Hs as ->. cbn [merged_chunk length].
    pose proof (merged_bytes_length _ _ Hin). unfold merged_bytes in *. lia.
  - specialize (IH k Hf Hs). unfold merged_bytes in IH.
    assert (Z.of_nat (length (merged_chunk file sz')) <= sz'); [|lia].
    unfold merged_chunk. destruct file as [data|]; [|cbn; lia].
    destruct (Z.ltb_spec 0 sz'); [|cbn; lia]. rewrite length_take. lia.
Qed.

Lemma sum_bytes_lengths (datas : list buffer) :
  sum_bytes ((fun data => Z.of_nat (length data)) <$> datas)
  = Z.of_nat (length (concat datas)).
Proof.
  induction datas as [|data datas IH]; [done|].
  rewrite fmap_cons, sum_bytes_cons, IH. cbn [concat]. rewrite length_app. lia.
Qed.

(** X1: [merge_audio] and [merge_video] write their inputs one after the
    other, in the order of the array, at the start of the output, leave the
    rest of the output as it was, and return the number of bytes written. *)
Theorem merge_writes_concatenation (datas : list buffer) (output : buffer)
    (num_files output_size : Z) :
  let files := Some <$> datas in
  let file_sizes := (fun data => Z.of_nat (length data)) <$> datas in
  Z.of_nat (length datas) = num_files ->
  Z.of_nat (length output) = output_size ->
  0 < num_files <= INT_MAX -> 0 < output_size <= INT_MAX ->
  Z.of_nat (length (concat datas)) <= output_size ->
  let merged :=
    Done (Z.of_nat (length (concat datas)),
          Some (concat datas ++ drop (length (concat datas)) output)) in
  merge_audio (Some files) (Some file_sizes) num_files (Some output) output_size
    = merged /\
  merge_video (Some files) (Some file_sizes) num_files (Some output) output_size
    = merged.
Proof.
  intros files file_sizes Hcount Hout Hn Hcap Hfits merged.
  pose proof (sum_bytes_lengths datas) as Hsum. fold file_sizes in Hsum.
  assert (Hrun : merge_audio (Some files) (Some file_sizes) num_files (Some output)
                   output_size = merged).
  { subst merged files file_sizes.
    rewrite merge_audio_runs;
      rewrite ?merged_bytes_present, ?length_fmap, ?Hsum;
      (done || lia || apply merge_inputs_present). }
  split; [exact Hrun|]. exact Hrun.
Qed.

Lemma merge_writes_concatenation_witness :
  merge_audio (Some [Some [1; 2; 3]; Some []; Some [4; 5]]) (Some [3; 0; 2]) 3
    (Some [9; 9; 9; 9; 9; 9; 9]) 7
    = Done (5, Some [1; 2; 3; 4; 5; 9; 9]) /\
  merge_video (Some [Some [1; 2; 3]; Some []; Some [4; 5]]) (Some [3; 0; 2]) 3
    (Some [9; 9; 9; 9; 9; 9; 9]) 7
    = Done (5, Some [1; 2; 3; 4; 5; 9; 9]).
Proof.
  apply (merge_writes_concatenation [[1; 2; 3]; []; [4; 5]] [9; 9; 9; 9; 9; 9; 9] 3 7);
    (reflexivity || (by vm_compute)).
Defined.

(** X2: the value [merge_audio] and [merge_video] return is the sum of the
    declared sizes, also when an entry of the array is [NULL]: that entry is
    skipped, and the returned size exceeds the bytes written by its declared
    size at least. *)
Theorem merge_counts_missing_files (files : list pointer) (file_sizes output : buffer)
    (num_files output_size : Z) (k : nat) (sz : Z) :
  merge_inputs files file_sizes ->
  Z.of_nat (length file_sizes) = num_files ->
  Z.of_nat (length output) = output_size ->
  0 < num_files <= INT_MAX -> 0 < output_size <= INT_MAX ->
  sum_bytes file_sizes <= output_size ->
  files !! k = Some None -> file_sizes !! k = Some sz ->
  let written := merged_bytes files file_sizes in
  let merged :=
    Done (sum_bytes file_sizes, Some (written ++ drop (length written) output)) in
  merge_audio (Some files) (Some file_sizes) num_files (Some output) output_size
    = merged /\
  merge_video (Some files) (Some file_sizes) num_files (Some output) output_size
    = merged /\
  Z.of_nat (length written) + sz <= sum_bytes file_sizes.
Proof.
  intros Hin Hcount Hout Hn Hcap Hfits Hfile Hsz written merged.
  assert (Hrun : merge_audio (Some files) (Some file_sizes) num_files (Some output)
                   output_size = merged) by (by apply merge_audio_runs).
  split; [exact Hrun|]. split; [exact Hrun|].
  by apply (merged_bytes_skipped files file_sizes k).
Qed.

Lemma merge_counts_missing_files_witness :
  merge_audio (Some [Some [1; 2; 3]; None; Some [4; 5]]) (Some [3; 4; 2]) 3
    (Some [9; 9; 9; 9; 9; 9; 9; 9; 9]) 9
    = Done (9, Some [1; 2; 3; 4; 5; 9; 9; 9; 9]) /\
  merge_video (Some [Some [1; 2; 3]; None; Some [4; 5]]) (Some [3; 4; 2]) 3
    (Some [9; 9; 9; 9; 9; 9; 9; 9; 9]) 9
    = Done (9, Some [1; 2; 3; 4; 5; 9; 9; 9; 9]) /\
  5 + 4 <= 9.
Proof.
  apply (merge_counts_missing_files [Some [1; 2; 3]; None; Some [4; 5]] [3; 4; 2]
           [9; 9; 9; 9; 9; 9; 9; 9; 9] 3 9 1 4);
    try reflexivity; try (by vm_compute).
  repeat constructor; try lia; intros data [= <-]; cbn; lia.
Defined.

(** X3: [merge_audio] and [merge_video] refuse inputs whose declared sizes,
    none of them negative and their sum within [int], add up to more than
    the output holds: they return -1 and leave the output as it was, without
    looking at the files. *)
Theorem merge_rejects_overflow (files : list pointer) (file_sizes output : buffer)
    (num_files output_size : Z) :
  Z.of_nat (length file_sizes) = num_files ->
  Forall (fun sz => 0 <= sz) file_sizes ->
  sum_bytes file_sizes <= INT_MAX ->
  0 < num_files <= INT_MAX -> 0 < output_size ->
  output_size < sum_bytes file_sizes ->
  merge_audio (Some files) (Some file_sizes) num_files (Some output) output_size
    = Done (-1, Some output) /\
  merge_video (Some files) (Some file_sizes) num_files (Some output) output_size
    = Done (-1, Some output).
Proof.
  intros Hlen Hpos Hmax Hn Ho Hbig.
  assert (Hguard : (num_files <=? 0) || (output_size <=? 0) = false).
  { apply orb_false_iff. split; apply Z.leb_gt; lia. }
  unfold merge_audio, merge_video.
  rewrite Hguard, !(bind_Done _ _ _ (total_size_loop _ _ Hlen ltac:(lia) Hpos Hmax)).
  cbn [snd]. apply Z.ltb_lt in Hbig. by rewrite Hbig.
Qed.

Lemma merge_rejects_overflow_witness :
  merge_audio (Some [Some [1; 2; 3]; Some [4; 5; 6]]) (Some [3; 3]) 2
    (Some [0; 0; 0; 0; 0]) 5
    = Done (-1, Some [0; 0; 0; 0; 0]) /\
  merge_video (Some [Some [1; 2; 3]; Some [4; 5; 6]]) (Some [3; 3]) 2
    (Some [0; 0; 0; 0; 0]) 5
    = Done (-1, Some [0; 0; 0; 0; 0]).
Proof.
  apply (merge_rejects_overflow [Some [1; 2; 3]; Some [4; 5; 6]] [3; 3]
           [0; 0; 0; 0; 0] 2 5); try reflexivity; try (by vm_compute).
  repeat constructor; lia.
Defined.

(** ** Trimming *)

Lemma trimmed_length (input : buffer) (start_byte duration_bytes : Z) :
  0 <= start_byte -> 0 <= duration_bytes ->
  Z.of_nat (length (trimmed input start_byte duration_bytes))
  = Z.max 0 (Z.min duration_bytes (Z.of_nat (length input) - start_byte)).
Proof. intros Hs Hd. unfold trimmed. rewrite length_take, length_drop. lia. Qed.

Lemma trim_bytes_slice (input output : buffer) (input_size start_byte duration_bytes : Z) :
  Z.of_nat (length input) = input_size -> input_size <= INT_MAX ->
  0 <= start_byte -> 0 <= duration_bytes ->
  start_byte + duration_bytes <= INT_MAX ->
  let kept := trimmed input start_byte duration_bytes in
  (length kept <= length output)%nat ->
  trim_bytes input input_size output start_byte duration_bytes
  = Done (Z.of_nat (length kept), Some (kept ++ drop (length kept) output)).
Proof.
  intros Hin Hmax Hs Hd Hsum kept Hfits.
  pose proof (trimmed_length input start_byte duration_bytes Hs Hd) as Hlen.
  fold kept in Hlen. unfold trim_bytes.
  destruct (Z.leb_spec input_size start_byte) as [Hbeyond|Hinside].
  - assert (Hnil : kept = []).
    { apply length_zero_iff_nil. lia. }
    rewrite Hnil. cbn [length app]. by rewrite drop_0.
  - rewrite add_id by (unfold in_int, INT_MIN, INT_MAX in *; lia).
    set (end_byte := if input_size <? start_byte + duration_bytes
                     then input_size else start_byte + duration_bytes).
    assert (Hend : end_byte - start_byte = Z.of_nat (length kept)).
    { subst end_byte. destruct (Z.ltb_spec input_size (start_byte + duration_bytes)); lia. }
    unfold CInt.sub. rewrite wrap32_id by (unfold in_int, INT_MIN, INT_MAX in *; lia).
    rewrite Hend, memcpy_copies by lia.
    cbn [mbind outcome_bind]. rewrite take_0. cbn [app].
    replace (Z.to_nat (0 + Z.of_nat (length kept))) with (length kept) by lia.
    rewrite Nat2Z.id. do 3 f_equal.
    unfold kept, trimmed. rewrite length_take.
    set (rest := drop (Z.to_nat start_byte) input).
    destruct (Nat.min_spec (Z.to_nat duration_bytes) (length rest)) as [[_ ->]|[Hle ->]];
      [done|].
    by rewrite !take_ge by lia.
Qed.

(** X4: [trim_video] returns the frames from [start_frame] on, at most
    [duration_frames] of them and no more than the input holds: it writes
    these bytes at the start of the output, leaves the rest of the output as
    it was, and returns their number. A start beyond the input yields 0 and
    writes nothing. The start and the duration are not negative, and the
    byte offset of the end, [(start_frame + duration_frames) * frame_size],
    stays within [int]; the output holds the bytes kept. *)
Theorem trim_video_keeps_slice (input output : buffer)
    (input_size start_frame duration_frames frame_size : Z) :
  Z.of_nat (length input) = input_size -> 0 < input_size <= INT_MAX ->
  0 < frame_size -> 0 <= start_frame -> 0 <= duration_frames ->
  start_frame * frame_size + duration_frames * frame_size <= INT_MAX ->
  let kept := trimmed input (start_frame * frame_size) (duration_frames * frame_size) in
  (length kept <= length output)%nat ->
  trim_video (Some input) input_size (Some output) start_frame duration_frames frame_size
  = Done (Z.of_nat (length kept), Some (kept ++ drop (length kept) output)).
Proof.
  intros Hin Hsize Hframe Hstart Hduration Hsum kept Hfits. unfold trim_video.
  assert (Hguard : (input_size <=? 0) || (frame_size <=? 0) = false).
  { apply orb_false_iff. split; apply Z.leb_gt; lia. }
  rewrite Hguard.
  assert (0 <= start_frame * frame_size) by nia.
  assert (0 <= duration_frames * frame_size) by nia.
  rewrite !mul_id by (unfold in_int, INT_MIN, INT_MAX in *; lia).
  apply trim_bytes_slice; (done || lia).
Qed.

Lemma trim_video_keeps_slice_witness :
  trim_video (Some [10; 11; 20; 21; 30; 31; 40; 41]) 8 (Some [0; 0; 0; 0; 0; 0]) 1 2 2
  = Done (4, Some [20; 21; 30; 31; 0; 0]) /\
  trim_video (Some [10; 11; 20; 21; 30; 31; 40; 41]) 8 (Some [0; 0; 0; 0; 0; 0]) 3 5 2
  = Done (2, Some [40; 41; 0; 0; 0; 0]) /\
  trim_video (Some [10; 11; 20; 21; 30; 31; 40; 41]) 8 (Some [0; 0; 0; 0; 0; 0]) 4 1 2
  = Done (0, Some [0; 0; 0; 0; 0; 0]).
Proof.
  split; [|split].
  - apply (trim_video_keeps_slice [10; 11; 20; 21; 30; 31; 40; 41] [0; 0; 0; 0; 0; 0]
             8 1 2 2); (reflexivity || (unfold INT_MAX; cbn; lia) || (vm_compute; lia)).
  - apply (trim_video_keeps_slice [10; 11; 20; 21; 30; 31; 40; 41] [0; 0; 0; 0; 0; 0]
             8 3 5 2); (reflexivity || (unfold INT_MAX; cbn; lia) || (vm_compute; lia)).
  - apply (trim_video_keeps_slice [10; 11; 20; 21; 30; 31; 40; 41] [0; 0; 0; 0; 0; 0]
             8 4 1 2); (reflexivity || (unfold INT_MAX; cbn; lia) || (vm_compute; lia)).
Defined.

Lemma wrap32_nonzero (z : Z) : 1 <= z < 4294967296 -> wrap32 z <> 0.
Proof.
  unfold wrap32. intros Hz Hw.
  destruct (Z.ltb_spec z 2147483648).
  - rewrite Z.mod_small in Hw by lia. lia.
  - replace (z + 2147483648) with (z - 2147483648 + 1 * 4294967296) in Hw by lia.
    rewrite Z.mod_add, Z.mod_small in Hw by lia. lia.
Qed.

Lemma memcpy_before_source (dst src : buffer) (dst_off src_off n : Z) :
  src_off < 0 -> n <> 0 -> memcpy dst dst_off src src_off n = Undefined OutOfBounds.
Proof.
  intros Hoff Hn. unfold memcpy. destruct (Z.ltb_spec n 0); [done|].
  destruct (Z.to_nat n) as [|k] eqn:Hk; [lia|]. cbn [memcpy_from]. unfold load.
  by destruct (Z.leb_spec 0 src_off); [lia|].
Qed.

(** X5: [trim_video] does not check the signs of its arguments. A negative
    duration from a start inside the input asks [memcpy] for a negative
    number of bytes; a negative start with a positive duration makes it read
    before the input. Both are undefined behaviour. *)
Theorem trim_video_negative_arguments (input output : buffer)
    (input_size start_frame duration_frames frame_size : Z) :
  Z.of_nat (length input) = input_size -> 0 < input_size <= INT_MAX ->
  0 < frame_size ->
  in_int (start_frame * frame_size) -> in_int (duration_frames * frame_size) ->
  (0 <= start_frame /\ start_frame * frame_size < input_size /\ duration_frames < 0)
  \/ (start_frame < 0 /\ 0 < duration_frames) ->
  trim_video (Some input) input_size (Some output) start_frame duration_frames frame_size
  = Undefined OutOfBounds.
Proof.
  intros Hin Hsize Hframe Hs Hd Hneg. unfold trim_video.
  assert (Hguard : (input_size <=? 0) || (frame_size <=? 0) = false).
  { apply orb_false_iff. split; apply Z.leb_gt; lia. }
  rewrite Hguard, !mul_id by done.
  set (start_byte := start_frame * frame_size) in *.
  set (duration_bytes := duration_frames * frame_size) in *.
  unfold trim_bytes, in_int, INT_MIN, INT_MAX in *.
  destruct Hneg as [(Hstart & Hinside & Hduration)|[Hstart Hduration]].
  - assert (0 <= start_byte) by (subst start_byte; nia).
    assert (duration_bytes < 0) by (subst duration_bytes; nia).
    destruct (Z.leb_spec input_size start_byte); [lia|].
    rewrite add_id by (unfold in_int, INT_MIN, INT_MAX; lia).
    destruct (Z.ltb_spec input_size (start_byte + duration_bytes)); [lia|].
    unfold CInt.sub. rewrite wrap32_id by (unfold in_int, INT_MIN, INT_MAX; lia).
    unfold memcpy.
    by destruct (Z.ltb_spec (start_byte + duration_bytes - start_byte) 0); [|lia].
  - assert (start_byte < 0) by (subst start_byte; nia).
    assert (0 < duration_bytes) by (subst duration_bytes; nia).
    destruct (Z.leb_spec input_size start_byte); [lia|].
    rewrite add_id by (unfold in_int, INT_MIN, INT_MAX; lia).
    rewrite memcpy_before_source; [done|lia|].
    apply wrap32_nonzero.
    destruct (Z.ltb_spec input_size (start_byte + duration_bytes)); lia.
Qed.

Lemma trim_video_negative_arguments_witness :
  trim_video (Some [10; 11; 20; 21; 30; 31; 40; 41]) 8 (Some [0; 0; 0; 0; 0; 0]) 1 (-1) 2
  = Undefined OutOfBounds /\
  trim_video (Some [10; 11; 20; 21; 30; 31; 40; 41]) 8 (Some [0; 0; 0; 0; 0; 0]) (-1) 1 2
  = Undefined OutOfBounds.
Proof.
  split.
  - apply (trim_video_negative_arguments [10; 11; 20; 21; 30; 31; 40; 41]
             [0; 0; 0; 0; 0; 0] 8 1 (-1) 2);
      try reflexivity; try (by vm_compute). left. lia.
  - apply (trim_video_negative_arguments [10; 11; 20; 21; 30; 31; 40; 41]
             [0; 0; 0; 0; 0; 0] 8 (-1) 1 2);
      try reflexivity; try (by vm_compute). right. lia.
Defined.



(** ** Splitting *)

Lemma take_S_insert {A : Type} (l : list A) (i : nat) (x : A) :
  (i < length l)%nat -> take (S i) (<[i := x]> l) = take i l ++ [x].
Proof.
  intros Hi. rewrite (take_S_r _ _ x) by (by apply list_lookup_insert_eq).
  by rewrite take_insert_ge.
Qed.

Lemma lookup_of_drop {A : Type} (l k : list A) (i : nat) :
  drop i l = drop i k -> l !! i = k !! i.
Proof.
  intros H. rewrite <- (Nat.add_0_r i). rewrite <- !lookup_drop. by rewrite H.
Qed.

Lemma drop_S_of_drop {A : Type} (l k : list A) (i : nat) :
  drop i l = drop i k -> drop (S i) l = drop (S i) k.
Proof.
  intros H. replace (S i) with (i + 1)%nat by lia. rewrite <- !drop_drop. by rewrite H.
Qed.

Section SplitLoop.
Variables (input : buffer) (bufs : list buffer) (caps : buffer).
Variables (input_size page_count : Z).
Hypothesis Hinput : Z.of_nat (length input) = input_size.
Hypothesis Hsize : 0 < input_size <= INT_MAX.
Hypothesis Hcount : 0 < page_count <= Z.of_nat (length caps).
Hypothesis Hcmax : page_count <= INT_MAX.
Hypothesis Hpages :
  Forall2 (fun buf cap =>
             page_capacity input_size page_count <= cap <= Z.of_nat (length buf))
          bufs caps.

Local Abbreviation page_size := (input_size / page_count).
Local Abbreviation spinv := (split_inv input (Some <$> bufs) caps page_count).

Lemma page_size_bounds (i : Z) :
  0 <= i < page_count ->
  0 <= page_size /\ 0 <= i * page_size /\ (i + 1) * page_size <= input_size /\
  page_size <= page_capacity input_size page_count.
Proof.
  intros Hi. unfold page_capacity.
  pose proof (Z.mul_div_le input_size page_count ltac:(lia)).
  assert (0 <= page_size) by (apply Z.div_pos; lia).
  repeat split; nia.
Qed.

Lemma split_pdf_body_inv (s : Z * list pointer * buffer) :
  spinv s -> (s.1.1 <? page_count) = true ->
  exists s', split_pdf_body input input_size page_size page_count s = Done s' /\
             spinv s' /\
             (Z.to_nat (page_count - s'.1.1) < Z.to_nat (page_count - s.1.1))%nat.
Proof using All.
  destruct s as [[i pages] sizes]. unfold split_inv. cbn [fst snd].
  intros (Hi & Hlp & Hls & Hdp & Hds & Hwritten) Hc. apply Z.ltb_lt in Hc.
  rewrite Hinput in Hwritten.
  pose proof (Forall2_length _ _ _ Hpages) as Hlen.
  destruct (page_size_bounds i ltac:(lia)) as (Hps0 & Hstart & Hend & Hps).
  destruct (lookup_lt_is_Some_2 bufs (Z.to_nat i)) as [buf Hbuf]; [lia|].
  destruct (lookup_lt_is_Some_2 caps (Z.to_nat i)) as [cap Hcap]; [lia|].
  destruct (Forall2_lookup_lr _ _ _ _ _ _ Hpages Hbuf Hcap) as [Hcap1 Hcap2].
  assert (Hpage : pages !! Z.to_nat i = Some (Some buf)).
  { rewrite (lookup_of_drop _ _ _ Hdp), list_lookup_fmap, Hbuf. done. }
  assert (Hsz : sizes !! Z.to_nat i = Some cap).
  { by rewrite (lookup_of_drop _ _ _ Hds). }
  set (end_offset := if i =? page_count - 1 then input_size else (i + 1) * page_size).
  set (current := end_offset - i * page_size).
  assert (Hcur : (0 <= current <= page_capacity input_size page_count
                  /\ i * page_size + current <= input_size)
                 /\ i * page_size + current = split_offset input_size page_count (i + 1)).
  { subst current end_offset. unfold split_offset, page_capacity in *.
    clear Hpages Hcap1 Hwritten.
    generalize dependent (input_size / page_count). intros ps Hps0 Hstart Hend Hps.
    destruct (Z.eqb_spec i (page_count - 1)) as [Hlast|Hlast],
             (Z.eqb_spec (i + 1) page_count); lia. }
  destruct Hcur as [[Hcur Hcur'] Hoff].
  unfold split_pdf_body.
  rewrite !add_id, !mul_id by (unfold in_int, INT_MIN, INT_MAX in *; lia).
  assert (Hsub1 : CInt.sub page_count 1 = page_count - 1)
    by (apply wrap32_id; unfold in_int, INT_MIN, INT_MAX in *; lia).
  assert (Hsub2 : CInt.sub end_offset (i * page_size) = current)
    by (apply wrap32_id; unfold in_int, INT_MIN, INT_MAX in *; subst current; lia).
  rewrite Hsub1. fold end_offset. rewrite Hsub2.
  rewrite (bind_Done _ _ _ (load_Done sizes i cap ltac:(lia) Hsz)).
  destruct (Z.ltb_spec cap current); [lia|].
  unfold load_pointer. destruct (Z.leb_spec 0 i); [|lia]. rewrite Hpage.
  cbn [mbind outcome_bind].
  rewrite memcpy_copies by lia. cbn [mbind outcome_bind].
  rewrite store_in_bounds by lia. cbn [mbind outcome_bind].
  eexists. split; [reflexivity|]. cbn [fst snd].
  rewrite !length_insert.
  replace (Z.to_nat (i + 1)) with (S (Z.to_nat i)) by lia.
  split; [|lia].
  split; [lia|]. split; [done|]. split; [done|].
  split; [|split].
  - rewrite drop_insert_lt by lia. by apply drop_S_of_drop.
  - rewrite drop_insert_lt by lia. by apply drop_S_of_drop.
  - rewrite length_fmap in Hlp. rewrite !take_S_insert by lia.
    unfold merged_bytes in *. rewrite zip_with_app by (rewrite !length_take; lia).
    rewrite concat_app, Hwritten. cbn [zip_with concat]. rewrite app_nil_r.
    rewrite Hinput, <- Hoff.
    assert (Hsplit : split_offset input_size page_count i = i * page_size).
    { unfold split_offset. destruct (Z.eqb_spec i page_count); lia. }
    rewrite Hsplit.
    replace (Z.to_nat (i * page_size + current))
      with (Z.to_nat (i * page_size) + Z.to_nat current)%nat by lia.
    rewrite <- take_take_drop. f_equal.
    unfold merged_chunk. destruct (Z.ltb_spec 0 current) as [Hpos|Hzero].
    + rewrite take_0. cbn [app].
      rewrite take_app_le by (rewrite length_take, length_drop; lia).
      rewrite take_take. f_equal. lia.
    + replace current with 0 by lia. by rewrite take_0.
Qed.

Lemma split_pdf_loop :
  exists pages sizes,
    while (Z.to_nat page_count) (fun s : Z * list pointer * buffer => s.1.1 <? page_count)
      (split_pdf_body input input_size page_size page_count) (0, Some <$> bufs, caps)
    = Done (page_count, pages, sizes) /\
    merged_bytes (take (Z.to_nat page_count) pages) (take (Z.to_nat page_count) sizes)
    = input.
Proof using All.
  destruct (while_rule spinv (fun s => Z.to_nat (page_count - s.1.1))
              (fun s : Z * list pointer * buffer => s.1.1 <? page_count)
              (split_pdf_body input input_size page_size page_count) split_pdf_body_inv
              (Z.to_nat page_count) (0, Some <$> bufs, caps))
    as ([[i pages] sizes] & Hrun & (Hi & _ & _ & _ & _ & Hwritten) & Hexit).
  - unfold split_inv. cbn [fst snd]. rewrite !take_0, !drop_0.
    repeat split; try (done || lia).
    unfold split_offset. destruct (Z.eqb_spec 0 page_count); [lia|]. done.
  - cbn. lia.
  - cbn [fst snd] in *. apply Z.ltb_ge in Hexit.
    assert (i = page_count) as -> by lia.
    exists pages, sizes. split; [done|]. rewrite Hwritten.
    unfold split_offset. rewrite Z.eqb_refl. apply take_ge. lia.
Qed.

End SplitLoop.



(** ** Subsampling: the contents *)

Section SubsampleLoop.
Variables (encode : Z -> Z) (body : copy_state -> outcome copy_state).
Variables (input output : buffer) (input_size target_size step : Z).
Hypothesis Hbody : forall s,
  body s = (v ← load input (cp_i s);
            out ← store (cp_out s) (cp_j s) (encode v);
            Done (CopyState (CInt.add (cp_i s) step) (CInt.add (cp_j s) 1) out)).
Hypothesis Hinput : Z.of_nat (length input) = input_size.
Hypothesis Htarget : 0 <= target_size <= Z.of_nat (length output).
Hypothesis Hstep : 1 <= step.
Hypothesis Hspan : target_size * step <= INT_MAX.

Local Abbreviation ssinv := (subsample_inv encode input output target_size step).

Lemma subsample_body_inv (s : copy_state) :
  ssinv s -> compress_cond input_size target_size s = true ->
  exists s', body s = Done s' /\ ssinv s' /\
             (copy_measure target_size s' < copy_measure target_size s)%nat.
Proof.
  intros ((Hi & Hj & Hlen) & Hlast & Hwritten & Hrest) Hc. unfold compress_cond in Hc.
  apply andb_true_iff in Hc as [Hc1 Hc2].
  apply Z.ltb_lt in Hc1, Hc2.
  assert (0 <= cp_i s) by nia.
  destruct (load_in_bounds input (cp_i s)) as (v & Hv & Hlook); [lia|].
  rewrite Hbody, (bind_Done _ _ _ Hv).
  rewrite (bind_Done _ _ _ (store_in_bounds (cp_out s) (cp_j s) (encode v) ltac:(lia))).
  destruct (copy_next_in_int input output target_size step Htarget Hstep Hspan (cp_j s))
    as [Hn1 Hn2]; [lia|].
  eexists. split; [reflexivity|]. unfold subsample_inv, copy_inv, copy_measure.
  cbn [cp_i cp_j cp_out].
  rewrite Hi, !add_id by done. rewrite length_insert.
  split; [|lia]. split; [repeat split; lia|]. split; [|split].
  - intros _. replace (cp_j s + 1 - 1) with (cp_j s) by lia. lia.
  - intros j Hjr. destruct (decide (j = Z.to_nat (cp_j s))) as [->|Hne].
    + rewrite list_lookup_insert_eq by lia.
      rewrite Z2Nat.id, <- Hi, Hlook by lia. done.
    + rewrite list_lookup_insert_ne by lia. apply Hwritten. lia.
  - intros j Hjr. rewrite list_lookup_insert_ne by lia. apply Hrest. lia.
Qed.

Lemma subsample_loop :
  exists s', while (Z.to_nat target_size) (compress_cond input_size target_size)
               body (CopyState 0 0 output) = Done s'
             /\ length (cp_out s') = length output
             /\ forall j : nat,
                  cp_out s' !! j =
                  if (Z.of_nat j <? target_size) && (Z.of_nat j * step <? input_size)
                  then encode <$> input !! Z.to_nat (Z.of_nat j * step)
                  else output !! j.
Proof.
  destruct (while_rule ssinv (copy_measure target_size) _ _ subsample_body_inv
              (Z.to_nat target_size) (CopyState 0 0 output))
    as (s' & Hs' & ((Hi & Hj & Hlen) & Hlast & Hwritten & Hrest) & Hexit).
  - unfold subsample_inv, copy_inv. cbn [cp_i cp_j cp_out].
    repeat split; try (done || lia).
  - unfold copy_measure. cbn. lia.
  - exists s'. split; [done|]. split; [done|].
    unfold compress_cond in Hexit. rewrite Hi in Hexit.
    intros j.
    destruct (Z.ltb_spec (Z.of_nat j) target_size) as [Hjt|Hjt];
      destruct (Z.ltb_spec (Z.of_nat j * step) input_size) as [Hjs|Hjs]; cbn [andb].
    + apply Hwritten.
      apply andb_false_iff in Hexit as [He|He]; apply Z.ltb_ge in He; [nia|lia].
    + apply Hrest.
      destruct (Z.le_gt_cases (cp_j s') (Z.of_nat j)) as [|Hlt]; [done|].
      specialize (Hlast ltac:(lia)). nia.
    + apply Hrest. lia.
    + apply Hrest. lia.
Qed.

End SubsampleLoop.

Section SubsampleCall.
Variables (encode : Z -> Z) (body : Z -> copy_state -> outcome copy_state).
Variables (input output : buffer) (input_size target_size : Z).
Hypothesis Hbody : forall step s,
  body step s = (v ← load input (cp_i s);
                 out ← store (cp_out s) (cp_j s) (encode v);
                 Done (CopyState (CInt.add (cp_i s) step) (CInt.add (cp_j s) 1) out)).
Hypothesis Hinput : Z.of_nat (length input) = input_size.
Hypothesis Hisz : 0 < input_size <= INT_MAX.
Hypothesis Htarget : 1 <= target_size <= Z.of_nat (length output).
Hypothesis Hosz : Z.of_nat (length output) <= INT_MAX.

Lemma subsample_runs :
  exists out,
    subsample body input_size target_size output = Done (target_size, Some out) /\
    subsampled encode input output target_size out.
Proof.
  destruct (compress_step_span input_size target_size) as [Hstep Hspan]; [lia|lia|].
  destruct (subsample_loop encode (body _) input output input_size target_size _
              (Hbody _) Hinput ltac:(lia) Hstep Hspan) as (s & Hs & Hlen & Hcontent).
  exists (cp_out s). split.
  - unfold subsample, divide. destruct (Z.eqb_spec target_size 0); [lia|].
    cbn [mbind outcome_bind]. rewrite div_pos by lia.
    by rewrite (bind_Done _ _ _ Hs).
  - unfold subsampled, sample_step. rewrite Hinput. by split.
Qed.

End SubsampleCall.

Lemma compress_image_body_shape (input : buffer) (step : Z) (s : copy_state) :
  compress_image_body input step s
  = (v ← load input (cp_i s);
     out ← store (cp_out s) (cp_j s) ((fun v => v) v);
     Done (CopyState (CInt.add (cp_i s) step) (CInt.add (cp_j s) 1) out)).
Proof. reflexivity. Qed.

Lemma scaled_copy_body_shape (input : buffer) (quality step : Z) (s : copy_state) :
  scaled_copy_body input step quality s
  = (v ← load input (cp_i s);
     out ← store (cp_out s) (cp_j s) (scale_byte quality v);
     Done (CopyState (CInt.add (cp_i s) step) (CInt.add (cp_j s) 1) out)).
Proof. reflexivity. Qed.

(** X8: [compress_image] subsamples: entry [j] of the output, for [j] below
    the returned size, is the input byte at [j * step], where [step] is
    [input_size / target_size], at least 1; the output beyond is as it
    was. *)
Theorem compress_image_subsamples (input output : buffer)
    (input_size output_size quality t : Z) :
  Z.of_nat (length input) = input_size ->
  Z.of_nat (length output) = output_size ->
  0 < input_size <= INT_MAX -> 0 < output_size <= INT_MAX ->
  scaled_size input_size quality = Some t -> 1 <= t ->
  exists out,
    compress_image (Some input) input_size (Some output) output_size quality
      = Done (Z.min t output_size, Some out) /\
    subsampled (fun v => v) input output (Z.min t output_size) out.
Proof.
  intros Hin Hout Hisz Hosz Hscaled Ht.
  destruct (compress_prologue input output input_size output_size quality t
              Hin Hout Hisz Hosz Hscaled Ht) as (Hguard & Hfloat & Htarget & _).
  destruct (subsample_runs (fun v => v) (compress_image_body input) input output
              input_size (Z.min t output_size) (compress_image_body_shape input)
              Hin Hisz Htarget ltac:(lia)) as (out & Hrun & Hcontent).
  exists out. split; [|done].
  unfold compress_image. rewrite Hguard, (bind_Done _ _ _ Hfloat), clamp_size_min.
  exact Hrun.
Qed.

Lemma compress_image_subsamples_witness :
  exists out,
    compress_image (Some [10; 20; 30; 40; 50; 60; 70; 80; 90; 100]) 10
      (Some [0; 0; 0; 0; 0; 0]) 6 50
      = Done (Z.min 5 6, Some out) /\
    subsampled (fun v => v) [10; 20; 30; 40; 50; 60; 70; 80; 90; 100]
      [0; 0; 0; 0; 0; 0] (Z.min 5 6) out.
Proof.
  apply (compress_image_subsamples [10; 20; 30; 40; 50; 60; 70; 80; 90; 100]
           [0; 0; 0; 0; 0; 0] 10 6 50 5); (reflexivity || (by vm_compute)).
Defined.

(** X9: a quality so low that the scaled size truncates to 0 (quality 0, for
    one) makes every subsampling function divide by zero when it computes
    its step: [compress_image], [compress_audio], [compress_video], and
    [process_audio], [process_video] and [process_pdf] for their format 0. *)
Theorem zero_target_divides_by_zero (input output : buffer)
    (input_size output_size quality : Z) :
  0 < input_size -> 0 < output_size ->
  scaled_size input_size quality = Some 0 ->
  compress_image (Some input) input_size (Some output) output_size quality
    = Undefined DivisionByZero /\
  compress_audio (Some input) input_size (Some output) output_size quality
    = Undefined DivisionByZero /\
  process_audio (Some input) input_size (Some output) output_size quality 0
    = Undefined DivisionByZero /\
  process_video (Some input) input_size (Some output) output_size quality 0
    = Undefined DivisionByZero /\
  process_pdf (Some input) input_size (Some output) output_size quality 0
    = Undefined DivisionByZero /\
  compress_video (Some input) input_size (Some output) output_size quality
    = Undefined DivisionByZero.
Proof.
  intros Hisz Hosz Hscaled.
  assert (Hguard : (input_size <=? 0) || (output_size <=? 0) = false).
  { apply orb_false_iff. split; apply Z.leb_gt; lia. }
  assert (Hfloat : float_to_int
            (F32.fmul (F32.of_int input_size) (compression_ratio quality)) = Done 0).
  { unfold float_to_int. unfold scaled_size in Hscaled. by rewrite Hscaled. }
  assert (Hclamp : clamp_size 0 output_size = 0).
  { rewrite clamp_size_min. lia. }
  unfold compress_image, compress_audio, process_audio, process_video, process_pdf,
    compress_video, subsample.
  rewrite Hguard, !(bind_Done _ _ _ Hfloat), Hclamp.
  repeat split; reflexivity.
Qed.

Lemma zero_target_divides_by_zero_witness :
  compress_image (Some [10; 20; 30; 40]) 4 (Some [0; 0; 0; 0]) 4 0
    = Undefined DivisionByZero /\
  compress_audio (Some [10; 20; 30; 40]) 4 (Some [0; 0; 0; 0]) 4 0
    = Undefined DivisionByZero /\
  process_audio (Some [10; 20; 30; 40]) 4 (Some [0; 0; 0; 0]) 4 0 0
    = Undefined DivisionByZero /\
  process_video (Some [10; 20; 30; 40]) 4 (Some [0; 0; 0; 0]) 4 0 0
    = Undefined DivisionByZero /\
  process_pdf (Some [10; 20; 30; 40]) 4 (Some [0; 0; 0; 0]) 4 0 0
    = Undefined DivisionByZero /\
  compress_video (Some [10; 20; 30; 40]) 4 (Some [0; 0; 0; 0]) 4 0
    = Undefined DivisionByZero.
Proof.
  apply (zero_target_divides_by_zero [10; 20; 30; 40] [0; 0; 0; 0] 4 4 0);
    (reflexivity || lia).
Defined.

Section ProcessCalls.
Variables (input output : buffer) (input_size output_size quality t : Z).
Hypothesis Hinput : Z.of_nat (length input) = input_size.
Hypothesis Houtput : Z.of_nat (length output) = output_size.
Hypothesis Hisz : 0 < input_size <= INT_MAX.
Hypothesis Hosz : 0 < output_size <= INT_MAX.
Hypothesis Hscaled : scaled_size input_size quality = Some t.
Hypothesis Ht : 1 <= t.

Local Abbreviation target_size := (Z.min t output_size).

Lemma subsample_plain :
  exists out,
    subsample (compress_image_body input) input_size target_size output
      = Done (target_size, Some out) /\
    subsampled (fun v => v) input output target_size out.
Proof.
  apply subsample_runs; (done || lia || apply compress_image_body_shape).
Qed.

Lemma subsample_scaled :
  exists out,
    subsample (fun step => scaled_copy_body input step quality) input_size
      target_size output
      = Done (target_size, Some out) /\
    subsampled (scale_byte quality) input output target_size out.
Proof.
  apply subsample_runs; (done || lia || (intros; apply scaled_copy_body_shape)).
Qed.

Lemma process_prologue :
  (input_size <=? 0) || (output_size <=? 0) = false /\
  float_to_int (F32.fmul (F32.of_int input_size) (compression_ratio quality)) = Done t.
Proof.
  destruct (compress_prologue input output input_size output_size quality t
              Hinput Houtput Hisz Hosz Hscaled Ht) as (Hguard & Hfloat & _).
  by split.
Qed.

End ProcessCalls.





(** ** Text of a PDF *)

Lemma insert_at_end (text output : buffer) (v : Z) :
  (length text < length output)%nat ->
  <[length text := v]> (text ++ drop (length text) output)
  = (text ++ [v]) ++ drop (length (text ++ [v])) output.
Proof.
  intros Hlt.
  destruct (lookup_lt_is_Some_2 output (length text) Hlt) as [w Hw].
  rewrite (drop_S _ _ _ Hw).
  rewrite insert_app_r_alt, Nat.sub_diag by lia. cbn [insert list_insert].
  rewrite <- app_assoc, length_app. cbn [app length].
  by replace (length text + 1)%nat with (S (length text)) by lia.
Qed.

Section PrintableLoop.
Variables (prefix : list Z) (input output : buffer) (input_size target_size : Z).
Hypothesis Hinput : Z.of_nat (length input) = input_size.
Hypothesis Hisz : input_size <= INT_MAX.
Hypothesis Hprefix : Z.of_nat (length prefix) <= target_size.
Hypothesis Htarget : target_size <= Z.of_nat (length output).
Hypothesis Hosz : Z.of_nat (length output) <= INT_MAX.

Local Abbreviation pinv := (printable_inv prefix input output target_size).

Lemma printable_body_inv (s : Z * Z * buffer) :
  pinv s -> printable_cond input_size target_size s = true ->
  exists s', printable_body input s = Done s' /\ pinv s' /\
             (Z.to_nat (input_size - s'.1.1) < Z.to_nat (input_size - s.1.1))%nat.
Proof.
  destruct s as [[i ts] out]. unfold printable_inv, printable_cond. cbn [fst snd].
  intros (Hi & Hts & Hle & Hout) Hc.
  apply andb_true_iff in Hc as [Hc1 Hc2]. apply Z.ltb_lt in Hc1, Hc2.
  set (text := prefix ++ filter (fun b => printable b = true) (take (Z.to_nat i) input))
    in *.
  destruct (load_in_bounds input i) as (v & Hv & Hlook); [lia|].
  assert (Hnext : CInt.add i 1 = i + 1)
    by (apply add_id; unfold in_int, INT_MIN, INT_MAX in *; lia).
  assert (Htake : take (Z.to_nat (i + 1)) input = take (Z.to_nat i) input ++ [v]).
  { replace (Z.to_nat (i + 1)) with (S (Z.to_nat i)) by lia. by apply take_S_r. }
  unfold printable_body. rewrite (bind_Done _ _ _ Hv), Hnext.
  destruct (printable v) eqn:Hp.
  - assert (Hlen : length out = length output).
    { rewrite Hout, length_app, length_drop. lia. }
    rewrite store_in_bounds by lia. cbn [mbind outcome_bind fst snd].
    rewrite add_id by (unfold in_int, INT_MIN, INT_MAX in *; lia).
    eexists. split; [reflexivity|]. cbn [fst snd].
    rewrite Htake, filter_app, filter_cons_True, filter_nil by done.
    rewrite app_assoc. fold text.
    split; [|lia]. split; [lia|]. split; [rewrite length_app; cbn; lia|].
    split; [lia|].
    rewrite Hout, Hts, Nat2Z.id. apply insert_at_end. lia.
  - cbn [mbind outcome_bind fst snd].
    eexists. split; [reflexivity|]. cbn [fst snd].
    rewrite Htake, filter_app, filter_cons_False, filter_nil, app_nil_r
      by (by rewrite Hp).
    fold text. split; [|lia]. split; [lia|]. done.
Qed.

Lemma printable_loop :
  let text := printable_text prefix input target_size in
  exists i,
  while (Z.to_nat input_size) (printable_cond input_size target_size)
    (printable_body input)
    (0, Z.of_nat (length prefix), prefix ++ drop (length prefix) output)
  = Done (i, Z.of_nat (length text), text ++ drop (length text) output).
Proof.
  intros text.
  destruct (while_rule pinv (fun s => Z.to_nat (input_size - s.1.1))
              (printable_cond input_size target_size) (printable_body input)
              printable_body_inv (Z.to_nat input_size)
              (0, Z.of_nat (length prefix), prefix ++ drop (length prefix) output))
    as ([[i ts] out] & Hrun & (Hi & Hts & Hle & Hout) & Hexit).
  - unfold printable_inv. cbn [fst snd]. rewrite take_0, filter_nil, app_nil_r.
    repeat split; (done || lia).
  - cbn. lia.
  - cbn [fst snd] in *. exists i. rewrite Hrun.
    set (written := prefix ++ filter (fun b => printable b = true)
                                     (take (Z.to_nat i) input)) in *.
    assert (Htext : text = written).
    { subst text written. unfold printable_text, printable_cond in *.
      cbn [fst snd] in Hexit.
      apply andb_false_iff in Hexit as [He|He]; apply Z.ltb_ge in He.
      - rewrite (take_ge input) in * by lia. apply take_ge. lia.
      - rewrite <- (take_drop (Z.to_nat i) input) at 1.
        rewrite filter_app, app_assoc, take_app_le by lia.
        apply take_ge. lia. }
    by rewrite Htext, Hts, Hout.
Qed.

End PrintableLoop.

(** X12: what [process_pdf] writes, format by format. PDF (0) subsamples the
    input. TXT (1) keeps the printable bytes of the input, in order, up to the
    target size, and returns their number. DOCX (2) does the same after an
    XML declaration, which it writes only when the target size exceeds its 38
    bytes. Any other format writes nothing and still returns the target
    size. *)
Theorem process_pdf_formats (input output : buffer)
    (input_size output_size quality t format : Z) :
  Z.of_nat (length input) = input_size ->
  Z.of_nat (length output) = output_size ->
  0 < input_size <= INT_MAX -> 0 < output_size <= INT_MAX ->
  scaled_size input_size quality = Some t -> 1 <= t ->
  let target_size := Z.min t output_size in
  let run := process_pdf (Some input) input_size (Some output) output_size quality in
  (exists out, run 0 = Done (target_size, Some out) /\
               subsampled (fun v => v) input output target_size out) /\
  (let text := printable_text [] input target_size in
   run 1 = Done (Z.of_nat (length text), Some (text ++ drop (length text) output))) /\
  (let text := printable_text (if 38 <? target_size then docx_header else [])
                 input target_size in
   run 2 = Done (Z.of_nat (length text), Some (text ++ drop (length text) output))) /\
  (format < 0 \/ 2 < format -> run format = Done (target_size, Some output)).
Proof.
  intros Hin Hout Hisz Hosz Hscaled Ht target_size run.
  destruct (process_prologue input output input_size output_size quality t
              Hin Hout Hisz Hosz Hscaled Ht) as [Hguard Hfloat].
  assert (Hrun : forall fmt, run fmt =
            if fmt =? 0 then
              subsample (compress_image_body input) input_size target_size output
            else if fmt =? 1 then
              s ← while (Z.to_nat input_size) (printable_cond input_size target_size)
                    (printable_body input) (0, 0, output);
              Done (s.1.2, Some s.2)
            else if fmt =? 2 then
              h ← (if 38 <? target_size then
                     out ← memcpy output 0 docx_header 0 38;
                     Done (38, out)
                   else Done (0, output));
              s ← while (Z.to_nat input_size) (printable_cond input_size target_size)
                    (printable_body input) (0, h.1, h.2);
              Done (s.1.2, Some s.2)
            else Done (target_size, Some output)).
  { intros fmt. unfold run, process_pdf.
    by rewrite Hguard, (bind_Done _ _ _ Hfloat), clamp_size_min. }
  rewrite !Hrun. cbn [Z.eqb Pos.eqb].
  split; [|split; [|split]].
  - by apply subsample_plain.
  - cbv zeta.
    destruct (printable_loop [] input output input_size target_size Hin ltac:(lia)
                ltac:(cbn; lia) ltac:(lia) ltac:(lia)) as [i Hloop].
    cbn [length app] in Hloop. rewrite drop_0 in Hloop.
    by rewrite (bind_Done _ _ _ Hloop).
  - cbv zeta. destruct (Z.ltb_spec 38 target_size) as [Hroom|Hshort].
    + rewrite memcpy_copies by (cbn; lia). cbn [mbind outcome_bind fst snd].
      destruct (printable_loop docx_header input output input_size target_size Hin
                  ltac:(lia) ltac:(cbn; lia) ltac:(lia) ltac:(lia)) as [i Hloop].
      change (take (Z.to_nat 0) output
              ++ take (Z.to_nat 38) (drop (Z.to_nat 0) docx_header)
              ++ drop (Z.to_nat (0 + 38)) output)
        with (docx_header ++ drop (length docx_header) output).
      change 38 with (Z.of_nat (length docx_header)) at 1.
      by rewrite (bind_Done _ _ _ Hloop).
    + cbn [mbind outcome_bind fst snd].
      destruct (printable_loop [] input output input_size target_size Hin ltac:(lia)
                  ltac:(cbn; lia) ltac:(lia) ltac:(lia)) as [i Hloop].
      cbn [length app] in Hloop. rewrite drop_0 in Hloop.
      by rewrite (bind_Done _ _ _ Hloop).
  - intros Hfmt.
    destruct (Z.eqb_spec format 0); [lia|].
    destruct (Z.eqb_spec format 1); [lia|].
    destruct (Z.eqb_spec format 2); [lia|]. done.
Qed.

Lemma process_pdf_formats_witness :
  process_pdf (Some [37; 80; 68; 70; 10; 72; 105; 0; 255; 33]) 10
    (Some [0; 0; 0; 0; 0; 0; 0; 0]) 8 60 1
  = Done (6, Some [37; 80; 68; 70; 72; 105; 0; 0]) /\
  process_pdf (Some [37; 80; 68; 70; 10; 72; 105; 0; 255; 33]) 10
    (Some [0; 0; 0; 0; 0; 0; 0; 0]) 8 60 2
  = Done (6, Some [37; 80; 68; 70; 72; 105; 0; 0]) /\
  process_pdf (Some [37; 80; 68; 70; 10; 72; 105; 0; 255; 33]) 10
    (Some [0; 0; 0; 0; 0; 0; 0; 0]) 8 60 5
  = Done (6, Some [0; 0; 0; 0; 0; 0; 0; 0]).
Proof.
  destruct (process_pdf_formats [37; 80; 68; 70; 10; 72; 105; 0; 255; 33]
              [0; 0; 0; 0; 0; 0; 0; 0] 10 8 60 6 5 eq_refl eq_refl
              ltac:(by vm_compute) ltac:(by vm_compute) eq_refl ltac:(lia))
    as (_ & Htxt & Hdocx & Hother).
  split; [exact Htxt|]. split; [exact Hdocx|]. apply Hother. lia.
Defined.

(** ** [process_image]: the contents *)

Lemma process_image_body_encodes (input : buffer) (quality format i : Z) (out : buffer) :
  0 <= format <= 2 ->
  process_image_body input quality format (i, out)
  = (v ← load input i;
     out' ← store out i (encode_byte quality format v);
     Done (CInt.add i 1, out')).
Proof.
  intros Hf. unfold process_image_body, encode_byte.
  destruct (Z.eqb_spec format 0); [by destruct (load input i)|].
  destruct (Z.eqb_spec format 1); [by destruct (load input i)|].
  destruct (Z.eqb_spec format 2); [by destruct (load input i)|lia].
Qed.

Lemma process_image_body_skips (input : buffer) (quality format i : Z) (out : buffer) :
  format < 0 \/ 2 < format ->
  process_image_body input quality format (i, out) = Done (CInt.add i 1, out).
Proof.
  intros Hf. unfold process_image_body.
  destruct (Z.eqb_spec format 0); [lia|].
  destruct (Z.eqb_spec format 1); [lia|].
  destruct (Z.eqb_spec format 2); [lia|]. done.
Qed.

Lemma process_image_encode_inv (input output : buffer) (input_size processed : Z)
    (quality format : Z) (s : Z * buffer) :
  Z.of_nat (length input) = input_size -> input_size <= INT_MAX ->
  processed <= Z.of_nat (length output) ->
  encode_inv quality format input output s ->
  process_image_cond processed input_size s = true ->
  exists s', process_image_body input quality format s = Done s' /\
             encode_inv quality format input output s' /\
             s'.1 = s.1 + 1 /\
             (Z.to_nat (input_size - s'.1) < Z.to_nat (input_size - s.1))%nat.
Proof.
  intros Hin Hmax Hproc (Hi & Hio & Hout) Hc. destruct s as [i out].
  cbn [fst snd] in *. unfold process_image_cond in Hc. cbn [fst] in Hc.
  apply andb_true_iff in Hc as [Hc1 Hc2]. apply Z.ltb_lt in Hc1, Hc2.
  assert (Hnext : CInt.add i 1 = i + 1)
    by (apply add_id; unfold in_int, INT_MIN, INT_MAX in *; lia).
  unfold encode_inv. cbn [fst snd].
  destruct (Z.leb_spec 0 format) as [Hf0|Hf0];
    [destruct (Z.leb_spec format 2) as [Hf2|Hf2]|]; cbn [andb] in *.
  - destruct (load_in_bounds input i) as (v & Hv & Hlook); [lia|].
    set (f := encode_byte quality format) in *.
    assert (Hlen : length out = length output).
    { rewrite Hout, length_app, length_fmap, length_take, length_drop. lia. }
    rewrite process_image_body_encodes, (bind_Done _ _ _ Hv) by lia.
    rewrite store_in_bounds by lia. cbn [mbind outcome_bind]. rewrite Hnext.
    eexists. split; [reflexivity|]. cbn [fst snd].
    split; [|split; [done|lia]]. split; [lia|]. split; [lia|].
    replace (Z.to_nat (i + 1)) with (S (Z.to_nat i)) by lia.
    rewrite (take_S_r _ _ _ Hlook), fmap_app. cbn [fmap list_fmap].
    rewrite Hout.
    assert (Hti : length (f <$> take (Z.to_nat i) input) = Z.to_nat i).
    { rewrite length_fmap, length_take. lia. }
    rewrite <- Hti at 1 3. rewrite insert_at_end by lia.
    rewrite !length_app, Hti. cbn [length].
    by replace (Z.to_nat i + 1)%nat with (S (Z.to_nat i)) by lia.
  - rewrite process_image_body_skips, Hnext by lia.
    eexists. split; [reflexivity|]. cbn [fst snd]. repeat split; (done || lia).
  - rewrite process_image_body_skips, Hnext by lia.
    eexists. split; [reflexivity|]. cbn [fst snd]. repeat split; (done || lia).
Qed.

(** X13: [process_image] encodes the input byte by byte: the first
    [min(processed_size, output_size, input_size)] bytes of the output are
    the input bytes, scaled by [quality / 100] for JPEG (0), unchanged for
    PNG (1), scaled by [(quality + 20) / 120] for WebP (2); the rest of the
    output is as it was. For any other format nothing is written, and the
    processed size is returned all the same. *)
Theorem process_image_encodes (input output : buffer)
    (input_size output_size quality format : Z) :
  Z.of_nat (length input) = input_size ->
  Z.of_nat (length output) = output_size ->
  0 < input_size <= INT_MAX -> 0 < output_size ->
  let processed := Z.min (processed_size input_size quality) output_size in
  let n := Z.to_nat (Z.min processed input_size) in
  process_image (Some input) input_size (Some output) output_size quality format
  = Done (processed,
          Some (if (0 <=? format) && (format <=? 2)
                then (encode_byte quality format <$> take n input) ++ drop n output
                else output)).
Proof.
  intros Hin Hout Hisz Hosz processed n. unfold process_image.
  assert (Hguard : (input_size <=? 0) || (output_size <=? 0) = false).
  { apply orb_false_iff. split; apply Z.leb_gt; lia. }
  rewrite Hguard, clamp_size_min. fold processed.
  destruct (while_rule
              (fun s => encode_inv quality format input output s
                        /\ s.1 <= Z.max 0 (Z.min processed input_size))
              (fun s => Z.to_nat (input_size - s.1))
              (process_image_cond processed input_size)
              (process_image_body input quality format))
    with (fuel := Z.to_nat input_size) (s := (0, output))
    as ([i out] & Hrun & [(Hi & Hio & Hcontent) Hle] & Hexit).
  - intros s [Hinv Hle] Hc.
    destruct (process_image_encode_inv input output input_size processed quality
                format s Hin ltac:(lia) ltac:(lia) Hinv Hc)
      as (s' & Hs' & Hinv' & Hstep & Hm).
    exists s'. split; [done|]. split; [|done]. split; [done|].
    unfold process_image_cond in Hc.
    apply andb_true_iff in Hc as [Hc1 Hc2]. apply Z.ltb_lt in Hc1, Hc2. lia.
  - unfold encode_inv. cbn [fst snd]. rewrite take_0, drop_0.
    split; [|lia]. split; [lia|]. split; [lia|].
    by destruct ((0 <=? format) && (format <=? 2)).
  - cbn. lia.
  - rewrite (bind_Done _ _ _ Hrun). cbn [fst snd] in *.
    unfold process_image_cond in Hexit. cbn [fst] in Hexit.
    assert (Z.to_nat i = n) as <-; [|by rewrite Hcontent].
    apply andb_false_iff in Hexit as [He|He]; apply Z.ltb_ge in He; lia.
Qed.

Lemma process_image_encodes_witness :
  process_image (Some [100; 200; 50; 10]) 4 (Some [7; 7; 7; 7; 7]) 5 50 0
  = Done (4, Some [50; 100; 25; 5; 7]) /\
  process_image (Some [100; 200; 50; 10]) 4 (Some [7; 7; 7; 7; 7]) 5 50 1
  = Done (4, Some [100; 200; 50; 10; 7]) /\
  process_image (Some [100; 200; 50; 10]) 4 (Some [7; 7; 7; 7; 7]) 5 50 9
  = Done (4, Some [7; 7; 7; 7; 7]).
Proof.
  split; [|split].
  - apply (process_image_encodes [100; 200; 50; 10] [7; 7; 7; 7; 7] 4 5 50 0);
      (reflexivity || (by vm_compute)).
  - apply (process_image_encodes [100; 200; 50; 10] [7; 7; 7; 7; 7] 4 5 50 1);
      (reflexivity || (by vm_compute)).
  - apply (process_image_encodes [100; 200; 50; 10] [7; 7; 7; 7; 7] 4 5 50 9);
      (reflexivity || (by vm_compute)).
Defined.

(** X14: [compress_video] averages as [compress_audio] does: every byte it
    writes is the mean of the bytes of its window, rounded down; the window
    holds [step] consecutive input bytes, or those that remain. *)
Theorem compress_video_floor_mean
    (input output : list Z) (input_size output_size quality t : Z) :
  Z.of_nat (length input) = input_size ->
  Z.of_nat (length output) = output_size ->
  0 < input_size <= INT_MAX ->
  0 < output_size <= INT_MAX ->
  scaled_size input_size quality = Some t ->
  1 <= t ->
  Forall is_byte input ->
  let target_size := Z.min t output_size in
  let step := Z.max 1 (input_size / target_size) in
  255 * step <= INT_MAX ->
  exists out,
    compress_video (Some input) input_size (Some output) output_size quality
      = Done (target_size, Some out) /\
    length out = length output /\
    forall j, 0 <= j < target_size -> j * step < input_size ->
      out !! Z.to_nat j = Some (floor_mean (window input (j * step) step)).
Proof.
  intros Hin Hout Hisz Hosz Hscaled Ht Hbytes target_size step Hmax.
  destruct (compress_audio_runs input output input_size output_size quality t)
    as (out & Hrun & Hlen & Hcontent); try done.
  exists out. split; [exact Hrun|]. split; [exact Hlen|].
  assert (Hstep : (if input_size / target_size <? 1 then 1
                   else input_size / target_size) = step).
  { subst step. destruct (Z.ltb_spec (input_size / target_size) 1); lia. }
  cbv zeta in Hcontent. fold target_size in Hcontent. rewrite Hstep in Hcontent.
  intros j Hj Hjs. rewrite (Hcontent j Hj Hjs). f_equal.
  apply averaged_floor_mean; [done|done|].
  unfold window. intros Hnil. apply (f_equal length) in Hnil.
  rewrite length_take, length_drop in Hnil. cbn in Hnil.
  assert (0 <= j * step) by nia. lia.
Qed.

Lemma compress_video_floor_mean_witness :
  exists out,
    compress_video (Some [1; 2; 3; 4; 9; 10]) 6 (Some [0; 0; 0; 0]) 4 50
      = Done (3, Some out) /\
    length out = 4%nat /\
    forall j, 0 <= j < 3 -> j * 2 < 6 ->
      out !! Z.to_nat j = Some (floor_mean (window [1; 2; 3; 4; 9; 10] (j * 2) 2)).
Proof.
  apply (compress_video_floor_mean [1; 2; 3; 4; 9; 10] [0; 0; 0; 0] 6 4 50 3).
  - reflexivity.
  - reflexivity.
  - by vm_compute.
  - by vm_compute.
  - by vm_compute.
  - lia.
  - repeat constructor; by vm_compute.
  - by vm_compute.
Defined.

(** ** Merging PDFs when there is room *)

Lemma starts_with_prefix (lit : list Z) : forall (buf : buffer) (off : nat),
  (off + length lit <= length buf)%nat ->
  starts_with buf (Z.of_nat off) lit
  = Done (bool_decide (take (length lit) (drop off buf) = lit)).
Proof.
  induction lit as [|c lit IH]; intros buf off Hlen; cbn [starts_with length] in *.
  - done.
  - destruct (load_in_bounds buf (Z.of_nat off)) as (v & Hv & Hlook); [lia|].
    rewrite Nat2Z.id in Hlook. rewrite (bind_Done _ _ _ Hv).
    replace (Z.of_nat off + 1) with (Z.of_nat (S off)) by lia.
    rewrite IH by lia. cbn [mbind outcome_bind]. f_equal.
    rewrite (drop_S _ _ _ Hlook). cbn [take]. symmetry.
    destruct (Z.eqb_spec v c) as [->|Hne]; cbn [andb].
    + apply bool_decide_ext. split; [by intros [= ->]|by intros ->].
    + apply bool_decide_eq_false. by intros [= ? ?].
Qed.

Lemma pdf_chunks_take_S (files : list pointer) (file_sizes : list Z) (i : nat)
    (file : pointer) (sz : Z) :
  files !! i = Some file -> file_sizes !! i = Some sz ->
  pdf_chunks (take (S i) files) (take (S i) file_sizes)
  = pdf_chunks (take i files) (take i file_sizes) ++ pdf_chunk i file sz.
Proof.
  intros Hf Hs. unfold pdf_chunks.
  rewrite (take_S_r _ _ _ Hf), (take_S_r _ _ _ Hs).
  apply lookup_lt_Some in Hf as Hf', Hs as Hs'.
  rewrite zip_with_app by (rewrite !length_take; lia).
  rewrite imap_app, concat_app. cbn [zip_with imap concat fst snd].
  rewrite app_nil_r, length_zip_with, !length_take. do 2 f_equal. lia.
Qed.

Lemma pdf_chunk_length (i : nat) (file : pointer) (sz : Z) :
  0 <= sz -> Z.of_nat (length (pdf_chunk i file sz)) <= sz.
Proof.
  intros Hsz. unfold pdf_chunk. destruct file as [data|]; [|cbn; lia].
  destruct (Z.ltb_spec 0 sz); [|cbn; lia].
  rewrite length_take. destruct (_ && _ && _); lia.
Qed.

Section MergePdfs.
Variables (files : list pointer) (file_sizes output : buffer).
Variables (num_files output_size : Z).
Hypothesis Hinputs : merge_inputs files file_sizes.
Hypothesis Hcount : Z.of_nat (length file_sizes) = num_files.
Hypothesis Hfiles : 0 < num_files <= INT_MAX.
Hypothesis Houtput : Z.of_nat (length output) = output_size.
Hypothesis Hcapacity : output_size <= INT_MAX.
Hypothesis Hroom : sum_bytes file_sizes + 16 < output_size.

Local Abbreviation pinv' := (pdf_inv files file_sizes output num_files).

Lemma merge_pdfs_body_inv (s : Z * Z * buffer) :
  pinv' s -> (s.1.1 <? num_files) = true ->
  exists s', merge_pdfs_body files file_sizes output_size s = Done s' /\ pinv' s' /\
             (Z.to_nat (num_files - s'.1.1) < Z.to_nat (num_files - s.1.1))%nat.
Proof.
  destruct s as [[i offset] out]. unfold pdf_inv. cbn [fst snd].
  intros (Hi & Hoff & Hbound & Hout) Hc. apply Z.ltb_lt in Hc.
  set (written := pdf_header ++ pdf_chunks (take (Z.to_nat i) files)
                                           (take (Z.to_nat i) file_sizes)) in *.
  pose proof (Forall2_length _ _ _ Hinputs) as Hlen.
  pose proof (merge_inputs_sizes _ _ Hinputs) as Hpos.
  destruct (lookup_lt_is_Some_2 files (Z.to_nat i)) as [file Hfile]; [lia|].
  destruct (lookup_lt_is_Some_2 file_sizes (Z.to_nat i)) as [sz Hsz]; [lia|].
  destruct (Forall2_lookup_lr _ _ _ _ _ _ Hinputs Hfile Hsz) as [Hsz0 Hdata].
  assert (Hnext : CInt.add i 1 = i + 1)
    by (apply add_id; unfold in_int, INT_MIN, INT_MAX in *; lia).
  assert (Hstep : pdf_header ++ pdf_chunks (take (Z.to_nat (i + 1)) files)
                                           (take (Z.to_nat (i + 1)) file_sizes)
                  = written ++ pdf_chunk (Z.to_nat i) file sz).
  { replace (Z.to_nat (i + 1)) with (S (Z.to_nat i)) by lia.
    rewrite (pdf_chunks_take_S _ _ _ _ _ Hfile Hsz). by rewrite app_assoc. }
  assert (Hsum : sum_bytes (take (Z.to_nat (i + 1)) file_sizes)
                 = sum_bytes (take (Z.to_nat i) file_sizes) + sz).
  { replace (Z.to_nat (i + 1)) with (S (Z.to_nat i)) by lia.
    rewrite (take_S_r _ _ _ Hsz), sum_bytes_app, sum_bytes_cons. cbn. lia. }
  pose proof (sum_bytes_take_le file_sizes (Z.to_nat (i + 1)) Hpos) as Htotal.
  pose proof (pdf_chunk_length (Z.to_nat i) file sz Hsz0) as Hchunk.
  assert (Hlout : length out = length output).
  { rewrite Hout, length_app, length_drop. lia. }
  unfold merge_pdfs_body.
  destruct (Z.leb_spec 0 i); [|lia]. rewrite Hfile. cbn [mbind outcome_bind].
  destruct file as [data|].
  - rewrite (bind_Done _ _ _ (load_Done file_sizes i sz ltac:(lia) Hsz)).
    specialize (Hdata data eq_refl).
    destruct (Z.ltb_spec 0 sz) as [Hsz1|Hsz1].
    + set (skip := if (0 <? Z.of_nat (Z.to_nat i)) && (8 <? sz)
                      && bool_decide (take 5 data = pdf_magic) then 8 else 0).
      assert (Hskip : (if (0 <? i) && (8 <? sz) then
                         m ← starts_with data 0 pdf_magic;
                         Done (if m : bool then 8 else 0)
                       else Done 0) = Done skip).
      { subst skip. rewrite Z2Nat.id by lia.
        destruct ((0 <? i) && (8 <? sz)) eqn:Hlong; [|done].
        apply andb_true_iff in Hlong as [_ Hlong]. apply Z.ltb_lt in Hlong.
        pose proof (starts_with_prefix pdf_magic data 0 ltac:(cbn; lia)) as Hm.
        change (Z.of_nat 0) with 0 in Hm. rewrite drop_0 in Hm.
        by rewrite Hm. }
      assert (Hskip' : 0 <= skip <= 8 /\ skip < sz).
      { subst skip.
        destruct ((0 <? Z.of_nat (Z.to_nat i)) && (8 <? sz)
                  && bool_decide (take 5 data = pdf_magic)) eqn:Hb; [|lia].
        apply andb_true_iff in Hb as [Hb _]. apply andb_true_iff in Hb as [_ Hb].
        apply Z.ltb_lt in Hb. lia. }
      assert (Hpiece : pdf_chunk (Z.to_nat i) (Some data) sz
                       = take (Z.to_nat (sz - skip)) (drop (Z.to_nat skip) data)).
      { unfold pdf_chunk. by destruct (Z.ltb_spec 0 sz); [|lia]. }
      rewrite Hpiece in *. rewrite length_take, length_drop in Hchunk.
      rewrite (bind_Done _ _ _ Hskip).
      assert (Hcopy : CInt.sub sz skip = sz - skip)
        by (apply wrap32_id; unfold in_int, INT_MIN, INT_MAX in *; lia).
      rewrite Hcopy, Hnext.
      rewrite (add_id offset (sz - skip)) by (unfold in_int, INT_MIN, INT_MAX in *; lia).
      destruct (Z.ltb_spec (offset + (sz - skip)) output_size); [|lia].
      rewrite memcpy_copies by lia. cbn [mbind outcome_bind fst snd].
      eexists. split; [reflexivity|]. cbn [fst snd].
      rewrite Hstep, Hsum, length_app, length_take, length_drop.
      split; [|lia]. split; [lia|]. split; [lia|]. split; [lia|].
      rewrite Hout at 1. rewrite Hoff, Nat2Z.id, take_app_length.
      rewrite <- app_assoc. do 2 f_equal.
      rewrite Hout.
      replace (Z.to_nat (Z.of_nat (length written) + (sz - skip)))
        with (length written + Z.to_nat (sz - skip))%nat by lia.
      rewrite drop_app_add, drop_drop. f_equal. lia.
    + cbn [mbind outcome_bind fst snd]. rewrite Hnext.
      eexists. split; [reflexivity|]. cbn [fst snd].
      assert (Hpiece : pdf_chunk (Z.to_nat i) (Some data) sz = []).
      { unfold pdf_chunk. by destruct (Z.ltb_spec 0 sz); [lia|]. }
      rewrite Hstep, Hsum, Hpiece, app_nil_r.
      split; [|lia]. split; [lia|]. split; [lia|]. split; [lia|]. done.
  - cbn [mbind outcome_bind fst snd]. rewrite Hnext.
    eexists. split; [reflexivity|]. cbn [fst snd].
    rewrite Hstep, Hsum. cbn [pdf_chunk]. rewrite app_nil_r.
    split; [|lia]. split; [lia|]. split; [lia|]. split; [lia|]. done.
Qed.

End MergePdfs.

(** X15: when the output has room for every input and for the 16 bytes of
    header and footer, [merge_pdfs] writes ["%PDF-1.4\n"], then the files in
    the order of the array, then ["\n%%EOF\n"], and returns the number of
    bytes written. A file after the first that is longer than 8 bytes and
    starts with ["%PDF-"] is copied without its first 8 bytes, whatever they
    are. *)
Theorem merge_pdfs_layout (files : list pointer) (file_sizes output : buffer)
    (num_files output_size : Z) :
  merge_inputs files file_sizes ->
  Z.of_nat (length file_sizes) = num_files ->
  Z.of_nat (length output) = output_size ->
  0 < num_files <= INT_MAX -> output_size <= INT_MAX ->
  sum_bytes file_sizes + 16 < output_size ->
  let merged := pdf_header ++ pdf_chunks files file_sizes ++ pdf_footer in
  merge_pdfs (Some files) (Some file_sizes) num_files (Some output) output_size
  = Done (Z.of_nat (length merged), Some (merged ++ drop (length merged) output)).
Proof.
  intros Hinputs Hcount Houtput Hfiles Hcapacity Hroom merged. unfold merge_pdfs.
  pose proof (Forall2_length _ _ _ Hinputs) as Hlen.
  pose proof (merge_inputs_sizes _ _ Hinputs) as Hpos.
  pose proof (sum_bytes_nonneg _ Hpos).
  assert (Hguard : (num_files <=? 0) || (output_size <=? 0) = false).
  { apply orb_false_iff. split; apply Z.leb_gt; lia. }
  rewrite Hguard.
  rewrite (bind_Done _ _ _ (total_size_loop _ _ Hcount ltac:(lia) Hpos ltac:(lia))).
  cbn [snd]. destruct (Z.ltb_spec output_size (sum_bytes file_sizes)); [lia|].
  change (strlen pdf_header) with 9. change (strlen pdf_footer) with 7.
  change (CInt.add 0 9) with 9.
  destruct (Z.ltb_spec 9 output_size); [|lia].
  rewrite memcpy_copies by (cbn; lia). cbn [mbind outcome_bind fst snd].
  change (take (Z.to_nat 0) output ++ take (Z.to_nat 9) (drop (Z.to_nat 0) pdf_header)
          ++ drop (Z.to_nat (0 + 9)) output)
    with (pdf_header ++ drop (length pdf_header) output).
  destruct (while_rule (pdf_inv files file_sizes output num_files)
              (fun s => Z.to_nat (num_files - s.1.1))
              (fun s : Z * Z * buffer => s.1.1 <? num_files)
              (merge_pdfs_body files file_sizes output_size)
              ltac:(by apply merge_pdfs_body_inv)
              (Z.to_nat num_files) (0, 9, pdf_header ++ drop (length pdf_header) output))
    as ([[i offset] out] & Hrun & (Hi & Hoff & Hbound & Hout) & Hexit).
  - unfold pdf_inv. cbn [fst snd]. rewrite !take_0.
    change (pdf_chunks [] []) with (@nil Z). rewrite app_nil_r.
    repeat split; (done || lia).
  - cbn. lia.
  - rewrite (bind_Done _ _ _ Hrun). cbn [fst snd] in *. apply Z.ltb_ge in Hexit.
    rewrite !take_ge in Hoff by lia. rewrite !take_ge in Hout by lia.
    rewrite take_ge in Hbound by lia.
    set (body := pdf_header ++ pdf_chunks files file_sizes) in *.
    rewrite add_id by (unfold in_int, INT_MIN, INT_MAX in *; lia).
    destruct (Z.ltb_spec (offset + 7) output_size); [|lia].
    assert (Hlout : length out = length output).
    { rewrite Hout, length_app, length_drop. lia. }
    rewrite memcpy_copies by (cbn; lia). cbn [mbind outcome_bind].
    assert (Hmerged : merged = body ++ pdf_footer).
    { subst merged body. by rewrite <- app_assoc. }
    rewrite Hmerged, length_app. change (length pdf_footer) with 7%nat.
    f_equal. f_equal; [lia|]. f_equal.
    rewrite Hout at 1. rewrite Hoff, Nat2Z.id, take_app_length.
    rewrite <- app_assoc. do 2 f_equal.
    rewrite Hout.
    replace (Z.to_nat (Z.of_nat (length body) + 7)) with (length body + 7)%nat by lia.
    by rewrite drop_app_add, drop_drop.
Qed.

Lemma merge_pdfs_layout_witness :
  merge_pdfs
    (Some [Some [1; 2; 3]; Some [37; 80; 68; 70; 45; 49; 46; 55; 10; 65; 66]])
    (Some [3; 11]) 2 (Some (replicate 32 0)) 32
  = Done (22, Some ([37; 80; 68; 70; 45; 49; 46; 52; 10] ++ [1; 2; 3] ++ [10; 65; 66]
                    ++ [10; 37; 37; 69; 79; 70; 10] ++ replicate 10 0)).
Proof.
  apply (merge_pdfs_layout
           [Some [1; 2; 3]; Some [37; 80; 68; 70; 45; 49; 46; 55; 10; 65; 66]]
           [3; 11] (replicate 32 0) 2 32);
    try reflexivity; try (by vm_compute).
  repeat constructor; try lia; intros data [= <-]; cbn; lia.
Defined.

(** ** File names *)

Lemma append_cons (c : ascii) (a b : string) : String c a +:+ b = String c (a +:+ b).
Proof. reflexivity. Qed.

Lemma append_empty_l (s : string) : "" +:+ s = s.
Proof. reflexivity. Qed.

Lemma append_empty_r (s : string) : s +:+ "" = s.
Proof. induction s as [|c s IH]; [done|]. by rewrite append_cons, IH. Qed.

Lemma append_assoc (a b c : string) : (a +:+ b) +:+ c = a +:+ (b +:+ c).
Proof. induction a as [|x a IH]; [done|]. by rewrite !append_cons, IH. Qed.

Lemma append_snoc (a b : string) (c : ascii) :
  (a +:+ String c "") +:+ b = a +:+ String c b.
Proof. by rewrite append_assoc. Qed.

Lemma append_not_empty (a b : string) : b <> ""%string -> a +:+ b <> ""%string.
Proof. by destruct a, b. Qed.

Lemma has_dot_app (a b : string) : has_dot (a +:+ b) = has_dot a || has_dot b.
Proof.
  induction a as [|c a IH]; [done|]. simpl.
  by rewrite IH, orb_assoc.
Qed.

Lemma split_pop_from_dot (s : string) (acc acc' : string) :
  has_dot s = true -> split_pop_from s acc = split_pop_from s acc'.
Proof.
  revert acc acc'. induction s as [|c s IH]; intros acc acc' Hdot; [done|].
  cbn [split_pop_from has_dot] in *. destruct (Ascii.eqb c "."); [done|].
  by apply IH.
Qed.

Lemma split_pop_from_app (a b : string) (acc : string) :
  has_dot b = true -> split_pop_from (a +:+ b) acc = split_pop b.
Proof.
  intros Hdot. revert acc. induction a as [|c a IH]; intros acc.
  - by apply split_pop_from_dot.
  - simpl. destruct (Ascii.eqb c "."); apply IH.
Qed.

Lemma split_pop_app (a b : string) :
  has_dot b = true -> split_pop (a +:+ b) = split_pop b.
Proof. apply split_pop_from_app. Qed.

Lemma split_pop_cons (c : ascii) (s : string) :
  has_dot s = true -> split_pop (String c s) = split_pop s.
Proof.
  intros Hdot. change (String c s) with (String c "" +:+ s). by apply split_pop_app.
Qed.

Lemma split_pop_from_undotted (s acc : string) :
  has_dot s = false -> split_pop_from s acc = acc +:+ s.
Proof.
  revert acc. induction s as [|c s IH]; intros acc Hdot.
  - by rewrite append_empty_r.
  - cbn [split_pop_from has_dot] in *. apply orb_false_iff in Hdot as [Hc Hs].
    by rewrite Hc, IH, append_snoc.
Qed.

(** A name with a dot ends in a dot and what [split('.').pop()] returns,
    which holds no dot. *)
Lemma split_at_last_dot (s : string) :
  has_dot s = true ->
  has_dot (split_pop s) = false /\ exists a, s = a +:+ String "." (split_pop s).
Proof.
  induction s as [|c s IH]; [done|]. intros Hdot.
  destruct (has_dot s) eqn:Hs.
  - destruct (IH eq_refl) as [Hext [a Ha]]. rewrite split_pop_cons by done.
    split; [done|]. exists (String c a). by rewrite append_cons, <- Ha.
  - cbn [has_dot] in Hdot. rewrite Hs, orb_false_r in Hdot.
    apply Ascii.eqb_eq in Hdot as ->.
    assert (Hpop : split_pop (String "." s) = s).
    { unfold split_pop. cbn [split_pop_from]. cbn [Ascii.eqb Bool.eqb].
      by rewrite split_pop_from_undotted. }
    rewrite Hpop. split; [done|]. by exists ""%string.
Qed.

Lemma portion_extension_app (prefix portion : string) :
  dotted_name portion = true ->
  portion_extension (prefix +:+ portion) = split_pop portion.
Proof.
  destruct portion as [|c rest]; [done|]. cbn [dotted_name]. intros Hdot.
  assert (Hportion : has_dot (String c rest) = true).
  { cbn [has_dot]. rewrite Hdot. apply orb_true_r. }
  rewrite (split_pop_cons c rest Hdot).
  destruct prefix as [|d prefix]; rewrite ?append_cons, ?append_empty_l; cbn [portion_extension].
  - by rewrite Hdot.
  - rewrite has_dot_app, Hportion, orb_true_r.
    rewrite split_pop_app by done. by apply split_pop_cons.
Qed.

Lemma portion_extension_dotted (portion : string) :
  portion_extension portion <> ""%string -> dotted_name portion = true.
Proof. destruct portion as [|c rest]; [done|]. cbn. by destruct (has_dot rest). Qed.

Lemma portion_extension_prefixed (prefix portion : string) :
  portion_extension portion <> ""%string ->
  portion_extension (prefix +:+ portion) = portion_extension portion.
Proof.
  intros Hext. pose proof (portion_extension_dotted portion Hext) as Hdot.
  rewrite (portion_extension_app prefix portion Hdot).
  by rewrite <- (portion_extension_app "" portion Hdot).
Qed.

Lemma last_portion_from_plain (s current last : string) :
  has_slash s = false ->
  last_portion_from s current last
  = if String.eqb (current +:+ s) "" then last else current +:+ s.
Proof.
  revert current. induction s as [|c s IH]; intros current Hplain.
  - cbn [last_portion_from]. by rewrite append_empty_r.
  - cbn [last_portion_from has_slash] in *. apply orb_false_iff in Hplain as [Hc Hs].
    by rewrite Hc, IH, append_snoc.
Qed.

Lemma last_portion_from_app (a s current last : string) :
  has_slash s = false -> s <> ""%string ->
  exists prefix, last_portion_from (a +:+ s) current last = prefix +:+ s.
Proof.
  intros Hplain Hne. revert current last.
  induction a as [|c a IH]; intros current last.
  - exists current. rewrite append_empty_l, last_portion_from_plain by done.
    by rewrite (proj2 (String.eqb_neq _ _) (append_not_empty current s Hne)).
  - rewrite append_cons; cbn [last_portion_from]. destruct (Ascii.eqb c "/"); apply IH.
Qed.

Lemma extname_slice1_portion (p : string) :
  extname_slice1 p = portion_extension (last_portion p).
Proof. reflexivity. Qed.

(** For a name without separators and with a dot after its first character,
    alone or behind a prefix, [path.extname(name).slice(1)] is what
    [name.split('.').pop()] returns. *)
Lemma extname_prefixed (prefix name : string) :
  plain_name name = true -> dotted_name name = true ->
  extname_slice1 (prefix +:+ name) = split_pop name.
Proof.
  intros Hplain Hdot. apply negb_true_iff in Hplain.
  destruct (last_portion_from_app prefix name "" "" Hplain) as [pre Hpre].
  { by destruct name. }
  rewrite extname_slice1_portion. unfold last_portion. rewrite Hpre.
  by apply portion_extension_app.
Qed.

Lemma split_pop_extname (name : string) :
  plain_name name = true -> dotted_name name = true ->
  split_pop name = extname_slice1 name.
Proof. intros Hplain Hdot. by rewrite <- (extname_prefixed "" name). Qed.

(** When what follows the last dot of a name holds no separator,
    [path.extname] finds that same extension, or none. *)
Lemma extname_slice1_split_pop (name : string) :
  has_slash (split_pop name) = false ->
  extname_slice1 name = split_pop name \/ extname_slice1 name = ""%string.
Proof.
  intros Hplain. rewrite extname_slice1_portion.
  destruct (has_dot name) eqn:Hdot.
  - destruct (split_at_last_dot name Hdot) as [Hext [a Ha]].
    set (extension := split_pop name) in *.
    assert (Hpop : split_pop (String "." extension) = extension).
    { unfold split_pop. cbn [split_pop_from]. cbn [Ascii.eqb Bool.eqb].
      by rewrite split_pop_from_undotted. }
    destruct (last_portion_from_app a (String "." extension) "" "") as [pre Hpre];
      [done|done|].
    unfold last_portion. rewrite Ha, Hpre.
    destruct pre as [|d pre]; rewrite ?append_cons, ?append_empty_l; cbn [portion_extension].
    + right. by rewrite Hext.
    + left. rewrite has_dot_app. cbn [has_dot]. cbn [Ascii.eqb Bool.eqb].
      rewrite orb_true_r. by rewrite split_pop_app.
  - right. unfold split_pop in Hplain.
    rewrite split_pop_from_undotted, append_empty_l in Hplain by done.
    unfold last_portion. rewrite last_portion_from_plain, append_empty_l by done.
    destruct name as [|c rest]; [done|].
    cbn [String.eqb portion_extension]. cbn [has_dot] in Hdot.
    apply orb_false_iff in Hdot as [_ Hrest]. by rewrite Hrest.
Qed.

(** The two runs of [last_portion_from] over a path, alone and behind a
    prefix, end on portions with the same extension, if the first has one. *)
Lemma last_portion_from_prefixed (prefix p current1 last1 current2 last2 : string) :
  (current2 = prefix +:+ current1 /\ last1 = ""%string)
  \/ (current2 = current1 /\
      (portion_extension last1 <> ""%string ->
       portion_extension last2 = portion_extension last1)) ->
  portion_extension (last_portion_from p current1 last1) <> ""%string ->
  portion_extension (last_portion_from p current2 last2)
  = portion_extension (last_portion_from p current1 last1).
Proof.
  revert current1 last1 current2 last2.
  induction p as [|c p IH]; intros current1 last1 current2 last2 Hrel.
  - cbn [last_portion_from].
    destruct Hrel as [[-> ->]|[-> Hlast]].
    + destruct current1 as [|d current1]; [done|].
      rewrite (proj2 (String.eqb_neq _ _)
                 (append_not_empty prefix (String d current1) ltac:(done))).
      cbn [String.eqb]. intros Hext. by apply portion_extension_prefixed.
    + destruct (String.eqb current1 ""); [exact Hlast|done].
  - cbn [last_portion_from]. destruct (Ascii.eqb c "/").
    + apply IH. right. split; [done|].
      destruct Hrel as [[-> ->]|[-> Hlast]].
      * destruct current1 as [|d current1]; [done|].
        rewrite (proj2 (String.eqb_neq _ _)
                   (append_not_empty prefix (String d current1) ltac:(done))).
        cbn [String.eqb]. intros Hext. by apply portion_extension_prefixed.
      * destruct (String.eqb current1 ""); [exact Hlast|done].
    + apply IH. destruct Hrel as [[-> ->]|[-> Hlast]].
      * left. by rewrite append_assoc.
      * by right.
Qed.

Lemma last_portion_from_append (a p current last : string) :
  exists current' last',
    last_portion_from (a +:+ p) current last = last_portion_from p current' last'.
Proof.
  revert current last. induction a as [|c a IH]; intros current last.
  - by exists current, last.
  - rewrite append_cons; cbn [last_portion_from]. destruct (Ascii.eqb c "/"); apply IH.
Qed.

(** A prefix leaves the extension of a path as it is, if it has one. *)
Lemma extname_slice1_prefixed (prefix p : string) :
  extname_slice1 p <> ""%string ->
  extname_slice1 (prefix +:+ p) = extname_slice1 p.
Proof.
  rewrite !extname_slice1_portion. unfold last_portion. intros Hext.
  destruct (last_portion_from_append prefix p "" "") as (current & last & ->).
  apply (last_portion_from_prefixed current); [|done].
  left. by rewrite append_empty_r.
Qed.

Lemma lower_ascii_slash (c : ascii) : Ascii.eqb (lower_ascii c) "/" = Ascii.eqb c "/".
Proof. by destruct c as [[] [] [] [] [] [] [] []]. Qed.

Lemma toLowerCase_cons (c : ascii) (rest : string) :
  toLowerCase (String c rest)
  = match rest with
    | String c1 (String c2 rest') =>
        if Ascii.eqb c "226" && Ascii.eqb c1 "132" && Ascii.eqb c2 "170"
        then String "k" (toLowerCase rest')
        else String (lower_ascii c) (toLowerCase rest)
    | _ => String (lower_ascii c) (toLowerCase rest)
    end.
Proof. by destruct rest as [|c1 [|c2 rest']]. Qed.

Lemma has_slash_toLowerCase_bounded (n : nat) (s : string) :
  (String.length s <= n)%nat -> has_slash (toLowerCase s) = has_slash s.
Proof.
  revert s. induction n as [|n IH]; intros s Hlen.
  - destruct s; [done|cbn in Hlen; lia].
  - destruct s as [|c rest]; [done|]. rewrite toLowerCase_cons.
    assert (Hrest : has_slash (toLowerCase rest) = has_slash rest).
    { apply IH. cbn in Hlen. lia. }
    destruct rest as [|c1 [|c2 rest']];
      try (cbn [has_slash] in *; by rewrite lower_ascii_slash, Hrest).
    destruct (Ascii.eqb c "226" && Ascii.eqb c1 "132" && Ascii.eqb c2 "170") eqn:Hkelvin.
    + apply andb_true_iff in Hkelvin as [Hkelvin H2].
      apply andb_true_iff in Hkelvin as [H0 H1].
      apply Ascii.eqb_eq in H0 as ->. apply Ascii.eqb_eq in H1 as ->.
      apply Ascii.eqb_eq in H2 as ->.
      cbn [has_slash]. cbn [Ascii.eqb Bool.eqb orb].
      apply IH. cbn in Hlen. lia.
    + cbn [has_slash] in *. by rewrite lower_ascii_slash, Hrest.
Qed.

(** The Kelvin sign lowers to [k]: [mKv], spelt with it, lowers to [mkv]. *)
Lemma toLowerCase_kelvin_sign :
  toLowerCase (String "m" (String "226" (String "132" (String "170" "v")))) = "mkv"%string.
Proof. reflexivity. Qed.

(** [toLowerCase] neither adds nor removes a separator. *)
Lemma has_slash_toLowerCase (s : string) : has_slash (toLowerCase s) = has_slash s.
Proof. by apply (has_slash_toLowerCase_bounded (String.length s)). Qed.

(** ** The conversion table *)

Lemma conversionMap_entry (fromFormat : string) (targets : list string) :
  conversionMap !! fromFormat = Some targets ->
  (fromFormat, targets) ∈
    [("jpg", ["png"; "webp"]); ("jpeg", ["png"; "webp"]);
     ("png", ["jpg"; "webp"]); ("webp", ["jpg"; "png"]);
     ("gif", ["jpg"; "png"; "webp"]);
     ("mp3", ["wav"; "aac"]); ("wav", ["mp3"; "aac"]); ("aac", ["mp3"; "wav"]);
     ("mp4", ["mov"; "avi"; "mkv"]); ("mov", ["mp4"; "avi"; "mkv"]);
     ("avi", ["mp4"; "mov"; "mkv"]); ("mkv", ["mp4"; "mov"; "avi"]);
     ("pdf", ["docx"; "txt"]); ("docx", ["pdf"; "txt"]);
     ("txt", ["pdf"; "docx"]); ("pptx", ["pdf"]);
     ("zip", ["rar"; "7z"]); ("rar", ["zip"; "7z"]); ("7z", ["zip"; "rar"])]%string.
Proof. apply elem_of_list_to_map_2. Qed.

(** Every pair that [isConversionSupported] accepts, as a list. *)
Lemma isConversionSupported_pairs (fromFormat toFormat : string) :
  isConversionSupported fromFormat toFormat = Some true ->
  (fromFormat, toFormat) ∈
    [("jpg", "png"); ("jpg", "webp"); ("jpeg", "png"); ("jpeg", "webp");
     ("png", "jpg"); ("png", "webp"); ("webp", "jpg"); ("webp", "png");
     ("gif", "jpg"); ("gif", "png"); ("gif", "webp");
     ("mp3", "wav"); ("mp3", "aac"); ("wav", "mp3"); ("wav", "aac");
     ("aac", "mp3"); ("aac", "wav");
     ("mp4", "mov"); ("mp4", "avi"); ("mp4", "mkv");
     ("mov", "mp4"); ("mov", "avi"); ("mov", "mkv");
     ("avi", "mp4"); ("avi", "mov"); ("avi", "mkv");
     ("mkv", "mp4"); ("mkv", "mov"); ("mkv", "avi");
     ("pdf", "docx"); ("pdf", "txt"); ("docx", "pdf"); ("docx", "txt");
     ("txt", "pdf"); ("txt", "docx"); ("pptx", "pdf");
     ("zip", "rar"); ("zip", "7z"); ("rar", "zip"); ("rar", "7z");
     ("7z", "zip"); ("7z", "rar")]%string.
Proof.
  unfold isConversionSupported.
  destruct (conversionMap !! fromFormat) as [targets|] eqn:Hentry;
    [|by destruct (bool_decide _)].
  intros [= Hto]. apply bool_decide_eq_true in Hto.
  apply conversionMap_entry in Hentry.
  repeat (apply elem_of_cons in Hentry as [[= -> ->]|Hentry];
          [repeat (apply elem_of_cons in Hto as [->|Hto];
                   [apply (bool_decide_unpack _); vm_compute; exact I|]);
           by apply elem_of_nil in Hto|]).
  by apply elem_of_nil in Hentry.
Qed.

(** X16: a conversion that [isConversionSupported] accepts changes the format
    and stays inside a category: source and target are two different
    formats, both among those [validateFile] supports, and [getFileCategory]
    puts them in the same category, which is never the fallback ['text']. *)
Theorem supported_conversion_within_category (fromFormat toFormat : string) :
  isConversionSupported fromFormat toFormat = Some true ->
  fromFormat <> toFormat /\
  getFileCategory fromFormat = getFileCategory toFormat /\
  getFileCategory fromFormat <> Text /\
  fromFormat ∈ supportedFormats /\ toFormat ∈ supportedFormats.
Proof.
  intros Hpair. apply isConversionSupported_pairs in Hpair.
  repeat (apply elem_of_cons in Hpair as [[= -> ->]|Hpair];
          [repeat split; (done || apply (bool_decide_unpack _); vm_compute; exact I)|]).
  by apply elem_of_nil in Hpair.
Qed.

Lemma supported_conversion_within_category_witness :
  "gif"%string <> "webp"%string /\
  getFileCategory "gif" = getFileCategory "webp" /\
  getFileCategory "gif" <> Text /\
  "gif"%string ∈ supportedFormats /\ "webp"%string ∈ supportedFormats.
Proof. apply (supported_conversion_within_category "gif" "webp"). reflexivity. Defined.

(** X17: the two tables of imageConverter.js agree for every level string: a
    level that lowers the JPEG/WebP quality raises the PNG compression level,
    and conversely; the quality stays within [50, 90] and the PNG level
    within [3, 9], an unknown level counting as ['medium']. *)
Theorem compression_levels_agree (level level' : string) :
  (getQualityFromLevel level < getQualityFromLevel level'
   <-> getPngCompressionLevel level' < getPngCompressionLevel level) /\
  50 <= getQualityFromLevel level <= 90 /\
  3 <= getPngCompressionLevel level <= 9 /\
  (toLowerCase level ∉ ["low"; "medium"; "high"]%string ->
   getQualityFromLevel level = getQualityFromLevel "medium" /\
   getPngCompressionLevel level = getPngCompressionLevel "medium").
Proof.
  unfold getQualityFromLevel, getPngCompressionLevel. cbv zeta.
  change (toLowerCase "medium") with "medium"%string. cbn [String.eqb Ascii.eqb].
  set (l := toLowerCase level). set (l' := toLowerCase level').
  split; [|split; [|split]].
  - destruct (String.eqb l "low"), (String.eqb l "medium"), (String.eqb l "high"),
      (String.eqb l' "low"), (String.eqb l' "medium"), (String.eqb l' "high"); lia.
  - destruct (String.eqb l "low"), (String.eqb l "medium"), (String.eqb l "high"); lia.
  - destruct (String.eqb l "low"), (String.eqb l "medium"), (String.eqb l "high"); lia.
  - intros Hother.
    destruct (String.eqb_spec l "low") as [->|_]; [exfalso; apply Hother; set_solver|].
    destruct (String.eqb_spec l "medium") as [->|_]; [done|].
    destruct (String.eqb_spec l "high") as [->|_]; [exfalso; apply Hother; set_solver|].
    done.
Qed.

Lemma compression_levels_agree_witness :
  (getQualityFromLevel "HIGH" < getQualityFromLevel "best"
   <-> getPngCompressionLevel "best" < getPngCompressionLevel "HIGH") /\
  getQualityFromLevel "best" = 75 /\ getPngCompressionLevel "best" = 6.
Proof.
  destruct (compression_levels_agree "HIGH" "best") as (Horder & _).
  destruct (compression_levels_agree "best" "best") as (_ & _ & _ & Hother).
  split; [exact Horder|].
  apply Hother. intros Hin. apply (bool_decide_pack _) in Hin.
  by vm_compute in Hin.
Defined.

(** ** Validation on the client, routing on the server *)

Lemma validateFile_valid (f : file) :
  size f <= 100 * 1024 * 1024 ->
  toLowerCase (split_pop (name f)) ∈ supportedFormats ->
  validateFile f
  = Validation true []
      (if 50 * 1024 * 1024 <? size f
       then ["Large file may take longer to process"%string] else []).
Proof.
  intros Hsize Hext. unfold validateFile. cbv zeta.
  destruct (Z.ltb_spec (100 * 1024 * 1024) (size f)); [lia|].
  rewrite (bool_decide_eq_true_2 _ Hext).
  assert (Hne : String.eqb (toLowerCase (split_pop (name f))) "" = false).
  { apply String.eqb_neq. intros Hempty. rewrite Hempty in Hext.
    apply (bool_decide_pack _) in Hext. by vm_compute in Hext. }
  by rewrite Hne.
Qed.

(** What [validateFile] accepts: at most 100 MB, under a name whose last
    dot is followed by a supported format. *)
Lemma validateFile_accepts (f : file) :
  isValid (validateFile f) = true ->
  size f <= 100 * 1024 * 1024 /\ toLowerCase (split_pop (name f)) ∈ supportedFormats.
Proof.
  unfold validateFile. cbv zeta. cbn [isValid]. intros Hvalid.
  apply bool_decide_eq_true in Hvalid.
  destruct (Z.ltb_spec (100 * 1024 * 1024) (size f)); [discriminate Hvalid|].
  destruct (bool_decide (toLowerCase (split_pop (name f)) ∈ supportedFormats))
    eqn:Hin; [by apply bool_decide_eq_true in Hin|].
  destruct (String.eqb _ _); discriminate Hvalid.
Qed.

(** No supported format holds a separator, so neither does a string whose
    lower case is one. *)
Lemma supported_format_plain (extension : string) :
  toLowerCase extension ∈ supportedFormats -> has_slash extension = false.
Proof.
  intros Hext. rewrite <- has_slash_toLowerCase. unfold supportedFormats in Hext.
  repeat (apply elem_of_cons in Hext as [->|Hext]; [done|]).
  by apply elem_of_nil in Hext.
Qed.

Lemma converter_for_supported (extension : string) :
  extension ∈ supportedFormats ->
  exists a, converter_for extension = Some a
            /\ adapter_category a = getFileCategory extension.
Proof.
  intros Hext. unfold supportedFormats in Hext.
  repeat (apply elem_of_cons in Hext as [->|Hext]; [by eexists|]).
  by apply elem_of_nil in Hext.
Qed.

(** A name without a dot after its first character, whose reading by
    [split('.').pop()] holds no separator, has no extension for
    [path.extname]. *)
Lemma extname_slice1_undotted (name : string) :
  dotted_name name = false -> has_slash (split_pop name) = false ->
  extname_slice1 name = ""%string.
Proof.
  destruct name as [|c rest]; [done|]. cbn [dotted_name]. intros Hdot Hplain.
  assert (Hname : has_slash (String c rest) = false).
  { unfold split_pop in Hplain. cbn [split_pop_from] in Hplain.
    destruct (Ascii.eqb c ".") eqn:Hc.
    - apply Ascii.eqb_eq in Hc as ->.
      rewrite split_pop_from_undotted, append_empty_l in Hplain by done.
      cbn [has_slash]. by rewrite Hplain.
    - by rewrite split_pop_from_undotted in Hplain by done. }
  rewrite extname_slice1_portion. unfold last_portion.
  rewrite last_portion_from_plain, append_empty_l by done.
  cbn [String.eqb portion_extension]. by rewrite Hdot.
Qed.

Section Routing.
Variable stat_size : string -> Z.
Variable codec : adapter -> string -> string -> string -> string + conversion_result.
Variable sharp : string -> string -> string + list Z.
Variable unzip : string -> option string.
Variable archive : string -> string + list Z.
Variable uuidv4 : nat -> string.
Variables uploadsDir outputsDir : string.
Variable remove : string -> option string.

Local Abbreviation handler :=
  (convert_handler stat_size codec sharp unzip archive uuidv4 outputsDir remove).
Local Abbreviation request :=
  (convertFile stat_size codec sharp unzip archive uuidv4 uploadsDir outputsDir remove).

Lemma invoke_trace (a : adapter) (inputPath outputPath targetFormat : string) :
  exists t,
    (invoke stat_size codec sharp unzip archive a inputPath outputPath targetFormat).1
    = AdapterCall a :: t.
Proof. unfold invoke. rewrite run_bind_eq. cbn. by eexists. Qed.

Lemma run_bind_prefix {A B : Type} (m : run A) (k : A -> run B) :
  exists t, (m ≫= k).1 = m.1 ++ t.
Proof.
  rewrite run_bind_eq. destruct m as [t1 [a|e]]; cbn [fst snd]; [by eexists|].
  exists []. by rewrite app_nil_r.
Qed.

Lemma convert_handler_trace (u : upload) (targetFormat : string) (a : adapter) :
  converter_for (toLowerCase (extname_slice1 (originalname u))) = Some a ->
  exists t, (handler u targetFormat).1 = AdapterCall a :: t.
Proof.
  intros Ha. unfold convert_handler. rewrite Ha. cbv zeta.
  match goal with
  | |- context [invoke _ _ _ _ _ a ?i ?o ?t ≫= ?k] =>
      destruct (invoke_trace a i o t) as [t' Ht'];
      destruct (run_bind_prefix (invoke stat_size codec sharp unzip archive a i o t) k)
        as [t2 Ht2];
      destruct (invoke stat_size codec sharp unzip archive a i o t ≫= k) as [t0 c]
  end.
  cbn [fst snd] in *. rewrite Ht' in Ht2. subst t0.
  destruct c; cbn [fst]; by eexists.
Qed.

Lemma convert_handler_unrouted (u : upload) (targetFormat : string) :
  converter_for (toLowerCase (extname_slice1 (originalname u))) = None ->
  handler u targetFormat = ([], Error400 "Unsupported file format").
Proof. intros Hnone. unfold convert_handler. by rewrite Hnone. Qed.

Lemma convert_handler_failed (u : upload) (targetFormat : string) (a : adapter)
    (t : list event) (message : string) :
  converter_for (toLowerCase (extname_slice1 (originalname u))) = Some a ->
  invoke stat_size codec sharp unzip archive a (stored_path u)
    (output_path outputsDir uuidv4
       (parse_name (originalname u) +:+ "." +:+ targetFormat))
    targetFormat = (t, Threw message) ->
  handler u targetFormat = (t, Error500 "Conversion failed" (Some message)).
Proof.
  intros Ha Hrun. unfold convert_handler. rewrite Ha. cbv zeta.
  unfold output_path in Hrun. by rewrite run_bind_eq, Hrun.
Qed.

Lemma convertFile_refused (f : file) (targetFormat : string) (onProgress : callback)
    (t : list event) (error : string) :
  error <> ""%string ->
  size f <= fileSize ->
  (handler (Upload (name f) (upload_path uploadsDir uuidv4 (name f))) targetFormat
   = (t, Error400 error)
   \/ exists details,
        handler (Upload (name f) (upload_path uploadsDir uuidv4 (name f))) targetFormat
        = (t, Error500 error details)) ->
  request f targetFormat onProgress = (t, Threw ("Conversion failed: " +:+ error)).
Proof.
  intros Hne Hsize Hroute. unfold convertFile.
  rewrite (upload_single_stored uuidv4 uploadsDir f Hsize). cbn [convert_route].
  assert (Hdefault : or_default error "Conversion failed" = error).
  { unfold or_default. by destruct (String.eqb_spec error ""). }
  destruct Hroute as [->|[details ->]]; cbn [fst snd]; by rewrite Hdefault.
Qed.

End Routing.



(** X19: the two readings differ on a name without a dot after its first
    character, such as [png] or [.png]: [split('.').pop()] returns the name, or
    what follows the leading dot, [path.extname] returns nothing. When that
    string is a supported format [validateFile] accepts the file, and the route
    refuses it with status 400 before any converter is called. *)
Theorem undotted_name_validated_then_refused
    (stat_size : string -> Z)
    (codec : adapter -> string -> string -> string -> string + conversion_result)
    (sharp : string -> string -> string + list Z)
    (unzip : string -> option string) (archive : string -> string + list Z)
    (uuidv4 : nat -> string) (uploadsDir outputsDir : string)
    (remove : string -> option string) (f : file) (targetFormat : string)
    (onProgress : callback) :
  size f <= 100 * 1024 * 1024 ->
  toLowerCase (split_pop (name f)) ∈ supportedFormats ->
  dotted_name (name f) = false ->
  isValid (validateFile f) = true /\
  convert_route stat_size codec sharp unzip archive uuidv4 outputsDir remove
    (upload_single uuidv4 uploadsDir f) targetFormat
    = ([], Error400 "Unsupported file format") /\
  convertFile stat_size codec sharp unzip archive uuidv4 uploadsDir outputsDir remove
    f targetFormat onProgress
    = ([], Threw "Conversion failed: Unsupported file format").
Proof.
  intros Hsize Hext Hdot.
  pose proof (extname_slice1_undotted (name f) Hdot (supported_format_plain _ Hext))
    as Hnone.
  pose proof (convert_handler_unrouted stat_size codec sharp unzip archive uuidv4
                outputsDir remove
                (Upload (name f) (upload_path uploadsDir uuidv4 (name f))) targetFormat)
    as Hroute.
  cbn [originalname] in Hroute. rewrite Hnone in Hroute. specialize (Hroute eq_refl).
  split; [by rewrite validateFile_valid|]. split.
  - by rewrite (upload_single_stored uuidv4 uploadsDir f Hsize).
  - apply convertFile_refused; [done|done|by left].
Qed.

Lemma undotted_name_validated_then_refused_witness :
  isValid (validateFile (File "file:///p" ".png" 10)) = true /\
  convert_route (fun _ => 10) (fun _ _ _ _ => inl ""%string)
    (fun _ _ => inl ""%string) (fun _ => None) (fun _ => inr [80; 75])
    (fun _ => "id"%string) "/srv/outputs" (fun _ => None)
    (upload_single (fun _ => "id"%string) "/srv/uploads" (File "file:///p" ".png" 10))
    "jpg"
    = ([], Error400 "Unsupported file format") /\
  convertFile (fun _ => 10) (fun _ _ _ _ => inl ""%string)
    (fun _ _ => inl ""%string) (fun _ => None) (fun _ => inr [80; 75])
    (fun _ => "id"%string) "/srv/uploads" "/srv/outputs" (fun _ => None)
    (File "file:///p" ".png" 10) "jpg" sample_callback
    = ([], Threw "Conversion failed: Unsupported file format").
Proof.
  apply (undotted_name_validated_then_refused (fun _ => 10)
           (fun _ _ _ _ => inl ""%string) (fun _ _ => inl ""%string) (fun _ => None)
           (fun _ => inr [80; 75]) (fun _ => "id"%string) "/srv/uploads" "/srv/outputs"
           (fun _ => None) (File "file:///p" ".png" 10) "jpg" sample_callback).
  - by vm_compute.
  - apply (bool_decide_unpack _). vm_compute. exact I.
  - reflexivity.
Defined.

(** ** Archives *)

Section ArchiveRequests.
Variable stat_size : string -> Z.
Variable codec : adapter -> string -> string -> string -> string + conversion_result.
Variable sharp : string -> string -> string + list Z.
Variable unzip : string -> option string.
Variable archive : string -> string + list Z.
Variable uuidv4 : nat -> string.
Variables uploadsDir outputsDir : string.
Variable remove : string -> option string.

Lemma archiveConverter_convert_fails (inputPath outputPath targetFormat : string) :
  toLowerCase (extname_slice1 inputPath) <> "zip"%string
  \/ toLowerCase targetFormat ∉ ["zip"; "tar"]%string ->
  exists t message,
    archiveConverter_convert stat_size unzip archive inputPath outputPath targetFormat
      = (t, Threw message)
    /\ adapter_calls t = [] /\ progress_values t = [].
Proof.
  intros Hfails. unfold archiveConverter_convert, extractArchive, createArchive.
  destruct (String.eqb_spec (toLowerCase (extname_slice1 inputPath)) "zip")
    as [Hzip|Hother].
  - destruct Hfails as [Hne|Htarget]; [done|].
    assert (Hfmt : String.eqb (toLowerCase targetFormat) "zip"
                   || String.eqb (toLowerCase targetFormat) "tar" = false).
    { apply orb_false_iff. split; apply String.eqb_neq; intros Heq;
        apply Htarget; rewrite Heq; set_solver. }
    rewrite Hfmt.
    destruct (unzip inputPath);
      unfold rethrow, mbind, run_bind, emit, throw; cbn;
      do 2 eexists; (split; [reflexivity|]); split; reflexivity.
  - unfold rethrow, mbind, run_bind, emit, throw; cbn.
    do 2 eexists. split; [reflexivity|]. split; reflexivity.
Qed.

(** The path of an upload has the extension of the uploaded name, when
    that name has one. *)
Lemma extname_upload (name : string) :
  extname_slice1 name <> ""%string ->
  extname_slice1 (upload_path uploadsDir uuidv4 name) = extname_slice1 name.
Proof.
  intros Hext. unfold upload_path, path_join.
  rewrite <- !append_assoc. by apply extname_slice1_prefixed.
Qed.

Lemma archive_request_fails (f : file) (targetFormat : string) (onProgress : callback) :
  size f <= fileSize ->
  converter_for (toLowerCase (extname_slice1 (name f))) = Some ArchiveConverter ->
  toLowerCase (extname_slice1 (name f)) <> "zip"%string
  \/ toLowerCase targetFormat ∉ ["zip"; "tar"]%string ->
  exists t,
    convertFile stat_size codec sharp unzip archive uuidv4 uploadsDir outputsDir remove
      f targetFormat onProgress
      = (t, Threw "Conversion failed: Conversion failed")
    /\ adapter_calls t = [ArchiveConverter] /\ progress_values t = [].
Proof.
  intros Hsize Hroute Hfails.
  assert (Hext : extname_slice1 (name f) <> ""%string).
  { intros Hempty. by rewrite Hempty in Hroute. }
  set (inputPath := upload_path uploadsDir uuidv4 (name f)).
  set (outputPath := output_path outputsDir uuidv4
                       (parse_name (name f) +:+ "." +:+ targetFormat)).
  destruct (archiveConverter_convert_fails inputPath outputPath targetFormat)
    as (t & message & Hrun & Hcalls & Hprog).
  { destruct Hfails as [Hne|Htarget]; [left|by right].
    unfold inputPath. by rewrite (extname_upload (name f) Hext). }
  exists (AdapterCall ArchiveConverter :: t). split.
  - apply convertFile_refused; [done|done|]. right. exists (Some message).
    apply (convert_handler_failed _ _ _ _ _ _ _ _ _ _ ArchiveConverter); [done|].
    cbn [stored_path originalname]. fold inputPath outputPath.
    unfold invoke. by rewrite run_bind_eq, Hrun.
  - split.
    + change (adapter_calls (AdapterCall ArchiveConverter :: t))
        with (ArchiveConverter :: adapter_calls t). by rewrite Hcalls.
    + exact Hprog.
Qed.

End ArchiveRequests.



(** ** Compression requests *)

(** X21: CompressionService accepts seven formats that the [/api/compress]
    route does not serve: gif, pdf, docx, txt, zip, rar and 7z. For a file of
    at most 100 MB whose name ends, after its last dot, in one of them
    [isCompressionSupported] and [validateFile] say yes, and [compressFile]
    fails with the route's 400 answer, no compressor having been called. *)
Theorem compression_accepted_then_refused
    (stat_size : string -> Z) (sharp : string -> string -> string + list Z)
    (uuidv4 : nat -> string) (uploadsDir outputsDir : string)
    (remove : string -> option string) (metadata_format : string -> string + string)
    (compressor : adapter -> string -> string -> string -> string + conversion_result)
    (f : file) (compressionLevel : string) (onProgress : callback) :
  let extension := toLowerCase (split_pop (name f)) in
  extension ∈ ["gif"; "pdf"; "docx"; "txt"; "zip"; "rar"; "7z"]%string ->
  size f <= 100 * 1024 * 1024 ->
  CompressionService.isCompressionSupported extension = true /\
  isValid (CompressionService.validateFile f) = true /\
  compressFile stat_size sharp uuidv4 uploadsDir outputsDir remove metadata_format
    compressor f compressionLevel onProgress
  = ([], Threw "Compression failed: Compression not supported for this file type").
Proof.
  intros extension Hext Hsize.
  assert (Hplain : has_slash (split_pop (name f)) = false).
  { apply supported_format_plain. fold extension.
    revert Hext. generalize extension. intros e He.
    repeat (apply elem_of_cons in He as [->|He];
            [apply (bool_decide_unpack _); vm_compute; exact I|]).
    by apply elem_of_nil in He. }
  assert (Hfacts : CompressionService.isCompressionSupported extension = true
                   /\ String.eqb extension "" = false
                   /\ compressor_for extension = None).
  { revert Hext. generalize extension. clear. intros extension Hext.
    repeat (apply elem_of_cons in Hext as [->|Hext]; [by vm_compute|]).
    by apply elem_of_nil in Hext. }
  destruct Hfacts as (Hsupported & Hne & Hnone).
  assert (Hroute : compressor_for (toLowerCase (extname_slice1 (name f))) = None).
  { by destruct (extname_slice1_split_pop (name f) Hplain) as [-> | ->]. }
  split; [done|]. split.
  - unfold CompressionService.validateFile. cbv zeta. fold extension.
    rewrite Hsupported, Hne.
    by destruct (Z.ltb_spec (100 * 1024 * 1024) (size f)); [lia|].
  - unfold compressFile.
    rewrite (upload_single_stored uuidv4 uploadsDir f Hsize).
    unfold compress_route, compress_handler. cbv zeta. cbn [originalname].
    by rewrite Hroute.
Qed.

Lemma compression_accepted_then_refused_witness :
  CompressionService.isCompressionSupported "pdf" = true /\
  isValid (CompressionService.validateFile (File "file:///r" "Report.PDF" 2048)) = true /\
  compressFile (fun _ => 10) (fun _ _ => inl ""%string) (fun _ => "id"%string)
    "/srv/uploads" "/srv/outputs" (fun _ => None)
    (fun _ => inl ""%string) (fun _ _ _ _ => inl ""%string)
    (File "file:///r" "Report.PDF" 2048) "medium" sample_callback
  = ([], Threw "Compression failed: Compression not supported for this file type").
Proof.
  apply (compression_accepted_then_refused (fun _ => 10) (fun _ _ => inl ""%string)
           (fun _ => "id"%string) "/srv/uploads" "/srv/outputs" (fun _ => None)
           (fun _ => inl ""%string) (fun _ _ _ _ => inl ""%string)
           (File "file:///r" "Report.PDF" 2048) "medium" sample_callback).
  - apply (bool_decide_unpack _). vm_compute. exact I.
  - by vm_compute.
Defined.

(** ** Documents *)



(** ** The jobs of [OfflineProcessor] *)

Lemma not_elem_of_eqb (s : string) (l : list string) (literal : string) :
  s ∉ l -> literal ∈ l -> String.eqb s literal = false.
Proof. intros Hnot Hin. apply String.eqb_neq. by intros ->. Qed.

Section ProcessJobs.
Variable readFile : string -> string + list Z.
Variable writeError : string -> option string.
Variable cacheDirectory : string.
Variable now : Z.

(** The shape that [processImage], [processAudio], [processVideo] and
    [processPdf] share; [convert] is their [switch]. *)
Local Abbreviation job prefix convert f targetFormat onProgress :=
  (rethrow prefix (
     report onProgress 10;;
     buffer ← readAsBuffer readFile (uri f);
     report onProgress 30;;
     report onProgress 50;;
     processedData ← convert buffer;
     report onProgress 80;;
     writeBuffer writeError (processed_path cacheDirectory now targetFormat)
       processedData;;
     report onProgress 100;;
     mret (ImageResult (processed_path cacheDirectory now targetFormat) (size f)
             (Z.of_nat (length processedData))
             (compressionRatio (size f) (Z.of_nat (length processedData)))))).

Lemma job_writes (prefix : string) (convert : list Z -> run (list Z)) (f : file)
    (targetFormat : string) (onProgress : callback) (data out : list Z) :
  quiet onProgress ->
  readFile (uri f) = inr data ->
  convert data = ([], Returned out) ->
  writeError (processed_path cacheDirectory now targetFormat) = None ->
  writes_exactly (job prefix convert f targetFormat onProgress)
    (processed_path cacheDirectory now targetFormat) (size f) out.
Proof.
  intros Hquiet Hread Hconvert Hwrite. eexists. split.
  - apply rethrow_of_returned.
    eapply run_bind_returns; [apply report_returns, Hquiet|].
    eapply run_bind_returns; [unfold readAsBuffer; rewrite Hread; reflexivity|].
    eapply run_bind_returns; [apply report_returns, Hquiet|].
    eapply run_bind_returns; [apply report_returns, Hquiet|].
    eapply run_bind_returns; [exact Hconvert|].
    eapply run_bind_returns; [apply report_returns, Hquiet|].
    eapply run_bind_returns; [unfold writeBuffer; rewrite Hwrite; reflexivity|].
    eapply run_bind_returns; [apply report_returns, Hquiet|].
    reflexivity.
  - rewrite !written_files_app, !report_written. reflexivity.
Qed.

Lemma job_fails (prefix : string) (convert : list Z -> run (list Z)) (f : file)
    (targetFormat : string) (onProgress : callback) (data : list Z) (message : string) :
  quiet onProgress ->
  readFile (uri f) = inr data ->
  convert data = ([], Threw message) ->
  fails_silently (job prefix convert f targetFormat onProgress) (prefix +:+ message).
Proof.
  intros Hquiet Hread Hconvert. unfold fails_silently.
  assert (Hbuffer : readAsBuffer readFile (uri f) = ([], Returned data)).
  { unfold readAsBuffer. by rewrite Hread. }
  rewrite (run_bind_step (report onProgress 10) _ _ tt
             (report_returns onProgress 10 (Hquiet _))).
  rewrite (run_bind_step (readAsBuffer readFile (uri f)) _ _ _ Hbuffer), run_bind_steps.
  rewrite (run_bind_step (report onProgress 30) _ _ tt
             (report_returns onProgress 30 (Hquiet _))), run_bind_steps.
  rewrite (run_bind_step (report onProgress 50) _ _ tt
             (report_returns onProgress 50 (Hquiet _))), run_bind_steps.
  rewrite Hconvert, !run_bind_eq. cbn [fst snd]. unfold rethrow. cbn [fst snd].
  split; [done|].
  by rewrite app_nil_r, !written_files_app, !report_written.
Qed.

End ProcessJobs.

(** X23: offline, a conversion between image, audio or video formats leaves
    the bytes as they are. Once the file is read and the output path can be
    written, and with a progress callback that returns, [processImage],
    [processAudio] and [processVideo] write the bytes they read under the
    requested extension, whatever the source format and the compression
    level, and report the size of those bytes. *)
Theorem offline_conversion_copies_bytes
    (readFile : string -> string + list Z) (writeError : string -> option string)
    (cacheDirectory : string) (now : Z) (f : file) (targetFormat : string)
    (onProgress : callback) (data : list Z) :
  quiet onProgress ->
  readFile (uri f) = inr data ->
  writeError (processed_path cacheDirectory now targetFormat) = None ->
  let path := processed_path cacheDirectory now targetFormat in
  let format := toLowerCase targetFormat in
  (format ∈ ["jpg"; "jpeg"; "png"; "webp"]%string ->
   writes_exactly
     (processImage readFile writeError cacheDirectory now f targetFormat onProgress)
     path (size f) data) /\
  (format ∈ ["mp3"; "wav"; "aac"]%string ->
   writes_exactly
     (processAudio readFile writeError cacheDirectory now f targetFormat onProgress)
     path (size f) data) /\
  (format ∈ ["mp4"; "mov"; "avi"; "mkv"]%string ->
   writes_exactly
     (processVideo readFile writeError cacheDirectory now f targetFormat onProgress)
     path (size f) data).
Proof.
  intros Hquiet Hread Hwrite path format.
  split; [|split]; intros Hformat;
    match goal with
    | |- writes_exactly (?process _ _ _ _ _ _ _) _ _ _ => unfold process
    end.
  - apply (job_writes readFile writeError cacheDirectory now
             "Image processing failed: "
             (fun buffer =>
                let fmt := toLowerCase targetFormat in
                if String.eqb fmt "jpg" || String.eqb fmt "jpeg" then convertToJpeg buffer
                else if String.eqb fmt "png" then convertToPng buffer
                else if String.eqb fmt "webp" then convertToWebp buffer
                else throw ("Unsupported target format: " +:+ targetFormat))
             f targetFormat onProgress data data Hquiet Hread); [|done].
    cbv zeta. fold format. revert Hformat. generalize format. intros fmt Hformat.
    repeat (apply elem_of_cons in Hformat as [->|Hformat]; [reflexivity|]).
    by apply elem_of_nil in Hformat.
  - apply (job_writes readFile writeError cacheDirectory now
             "Audio processing failed: "
             (fun buffer =>
                let fmt := toLowerCase targetFormat in
                if String.eqb fmt "mp3" then convertToMp3 buffer
                else if String.eqb fmt "wav" then convertToWav buffer
                else if String.eqb fmt "aac" then convertToAac buffer
                else throw ("Unsupported target format: " +:+ targetFormat))
             f targetFormat onProgress data data Hquiet Hread); [|done].
    cbv zeta. fold format. revert Hformat. generalize format. intros fmt Hformat.
    repeat (apply elem_of_cons in Hformat as [->|Hformat]; [reflexivity|]).
    by apply elem_of_nil in Hformat.
  - apply (job_writes readFile writeError cacheDirectory now
             "Video processing failed: "
             (fun buffer =>
                let fmt := toLowerCase targetFormat in
                if String.eqb fmt "mp4" then convertToMp4 buffer
                else if String.eqb fmt "mov" then convertToMov buffer
                else if String.eqb fmt "avi" then convertToAvi buffer
                else if String.eqb fmt "mkv" then convertToMkv buffer
                else throw ("Unsupported target format: " +:+ targetFormat))
             f targetFormat onProgress data data Hquiet Hread); [|done].
    cbv zeta. fold format. revert Hformat. generalize format. intros fmt Hformat.
    repeat (apply elem_of_cons in Hformat as [->|Hformat]; [reflexivity|]).
    by apply elem_of_nil in Hformat.
Qed.

Lemma offline_conversion_copies_bytes_witness :
  writes_exactly
    (processAudio sample_read sample_write "cache/" 1700000000000
       (File "file:///song.mp3" "song.mp3" 3) "WAV" sample_callback)
    (processed_path "cache/" 1700000000000 "WAV") 3 [73; 68; 51].
Proof.
  destruct (offline_conversion_copies_bytes sample_read sample_write "cache/"
              1700000000000 (File "file:///song.mp3" "song.mp3" 3) "WAV"
              sample_callback [73; 68; 51] (fun _ => eq_refl) eq_refl eq_refl)
    as (_ & Haudio & _).
  apply Haudio. apply (bool_decide_unpack _). vm_compute. exact I.
Defined.

(** X24: a target format that a job of [OfflineProcessor] does not know makes
    it fail once the file is read, when the progress callback returns:
    nothing is written, and the error names the format as the caller wrote
    it. *)
Theorem offline_unknown_format_writes_nothing
    (readFile : string -> string + list Z) (writeError : string -> option string)
    (cacheDirectory : string) (now : Z) (page : Type)
    (pdf_load : list Z -> string + list page) (f : file) (targetFormat : string)
    (onProgress : callback) (data : list Z) :
  quiet onProgress ->
  readFile (uri f) = inr data ->
  let format := toLowerCase targetFormat in
  let unsupported := ("Unsupported target format: " +:+ targetFormat)%string in
  (format ∉ ["jpg"; "jpeg"; "png"; "webp"]%string ->
   fails_silently
     (processImage readFile writeError cacheDirectory now f targetFormat onProgress)
     ("Image processing failed: " +:+ unsupported)) /\
  (format ∉ ["mp3"; "wav"; "aac"]%string ->
   fails_silently
     (processAudio readFile writeError cacheDirectory now f targetFormat onProgress)
     ("Audio processing failed: " +:+ unsupported)) /\
  (format ∉ ["mp4"; "mov"; "avi"; "mkv"]%string ->
   fails_silently
     (processVideo readFile writeError cacheDirectory now f targetFormat onProgress)
     ("Video processing failed: " +:+ unsupported)) /\
  (format ∉ ["txt"; "docx"]%string ->
   fails_silently
     (processPdf readFile writeError cacheDirectory now page pdf_load f targetFormat
        onProgress)
     ("PDF processing failed: " +:+ unsupported)).
Proof.
  intros Hquiet Hread format unsupported.
  split; [|split; [|split]]; intros Hformat;
    match goal with
    | |- fails_silently (?process _ _ _ _ _ _ _) _ => unfold process
    | |- fails_silently (?process _ _ _ _ _ _ _ _ _) _ => unfold process
    end.
  - apply (job_fails readFile writeError cacheDirectory now
             "Image processing failed: "
             (fun buffer =>
                let fmt := toLowerCase targetFormat in
                if String.eqb fmt "jpg" || String.eqb fmt "jpeg" then convertToJpeg buffer
                else if String.eqb fmt "png" then convertToPng buffer
                else if String.eqb fmt "webp" then convertToWebp buffer
                else throw ("Unsupported target format: " +:+ targetFormat))
             f targetFormat onProgress data unsupported Hquiet Hread).
    cbv zeta. fold format.
    by rewrite !(not_elem_of_eqb format _ _ Hformat) by set_solver.
  - apply (job_fails readFile writeError cacheDirectory now
             "Audio processing failed: "
             (fun buffer =>
                let fmt := toLowerCase targetFormat in
                if String.eqb fmt "mp3" then convertToMp3 buffer
                else if String.eqb fmt "wav" then convertToWav buffer
                else if String.eqb fmt "aac" then convertToAac buffer
                else throw ("Unsupported target format: " +:+ targetFormat))
             f targetFormat onProgress data unsupported Hquiet Hread).
    cbv zeta. fold format.
    by rewrite !(not_elem_of_eqb format _ _ Hformat) by set_solver.
  - apply (job_fails readFile writeError cacheDirectory now
             "Video processing failed: "
             (fun buffer =>
                let fmt := toLowerCase targetFormat in
                if String.eqb fmt "mp4" then convertToMp4 buffer
                else if String.eqb fmt "mov" then convertToMov buffer
                else if String.eqb fmt "avi" then convertToAvi buffer
                else if String.eqb fmt "mkv" then convertToMkv buffer
                else throw ("Unsupported target format: " +:+ targetFormat))
             f targetFormat onProgress data unsupported Hquiet Hread).
    cbv zeta. fold format.
    by rewrite !(not_elem_of_eqb format _ _ Hformat) by set_solver.
  - apply (job_fails readFile writeError cacheDirectory now
             "PDF processing failed: "
             (fun buffer =>
                let fmt := toLowerCase targetFormat in
                if String.eqb fmt "txt" then convertPdfToText page pdf_load buffer
                else if String.eqb fmt "docx" then convertPdfToDocx buffer
                else throw ("Unsupported target format: " +:+ targetFormat))
             f targetFormat onProgress data unsupported Hquiet Hread).
    cbv zeta. fold format.
    by rewrite !(not_elem_of_eqb format _ _ Hformat) by set_solver.
Qed.

Lemma offline_unknown_format_writes_nothing_witness :
  fails_silently
    (processImage sample_read sample_write "cache/" 1700000000000
       (File "file:///photo.png" "photo.png" 4) "gif" sample_callback)
    "Image processing failed: Unsupported target format: gif".
Proof.
  destruct (offline_unknown_format_writes_nothing sample_read sample_write "cache/"
              1700000000000 Z sample_load (File "file:///photo.png" "photo.png" 4)
              "gif" sample_callback [137; 80; 78; 71] (fun _ => eq_refl) eq_refl)
    as (Himage & _).
  apply Himage. intros Hin. apply (bool_decide_pack _) in Hin. by vm_compute in Hin.
Defined.

(** X25: offline, what [processPdf] writes does not depend on the PDF. With
    a progress callback that returns, for docx it writes a fixed sentence
    without looking at the file; for txt it writes another fixed sentence,
    provided pdf-lib can load the file, and fails without writing when it
    cannot. *)
Theorem processPdf_writes_placeholder
    (readFile : string -> string + list Z) (writeError : string -> option string)
    (cacheDirectory : string) (now : Z) (page : Type)
    (pdf_load : list Z -> string + list page) (f : file) (targetFormat : string)
    (onProgress : callback) (data : list Z) :
  quiet onProgress ->
  readFile (uri f) = inr data ->
  writeError (processed_path cacheDirectory now targetFormat) = None ->
  let path := processed_path cacheDirectory now targetFormat in
  let run :=
    processPdf readFile writeError cacheDirectory now page pdf_load f targetFormat
      onProgress in
  (toLowerCase targetFormat = "docx"%string ->
   writes_exactly run path (size f)
     (bytes_of_string "PDF to DOCX conversion not fully implemented in offline mode"))
  /\
  (toLowerCase targetFormat = "txt"%string ->
   match pdf_load data with
   | inr _ =>
       writes_exactly run path (size f)
         (bytes_of_string "PDF text extraction not fully implemented in offline mode")
   | inl message =>
       fails_silently run
         ("PDF processing failed: PDF to text conversion failed: " +:+ message)
   end).
Proof.
  intros Hquiet Hread Hwrite path run.
  set (convert := fun buffer : list Z =>
         let fmt := toLowerCase targetFormat in
         if String.eqb fmt "txt" then convertPdfToText page pdf_load buffer
         else if String.eqb fmt "docx" then convertPdfToDocx buffer
         else throw ("Unsupported target format: " +:+ targetFormat)).
  split; intros Hformat.
  - apply (job_writes readFile writeError cacheDirectory now "PDF processing failed: "
             convert f targetFormat onProgress data _ Hquiet Hread); [|done].
    unfold convert. cbv zeta. by rewrite Hformat.
  - destruct (pdf_load data) as [message|pages] eqn:Hload.
    + apply (job_fails readFile writeError cacheDirectory now "PDF processing failed: "
               convert f targetFormat onProgress data _ Hquiet Hread).
      unfold convert, convertPdfToText. cbv zeta. by rewrite Hformat, Hload.
    + apply (job_writes readFile writeError cacheDirectory now "PDF processing failed: "
               convert f targetFormat onProgress data _ Hquiet Hread); [|done].
      unfold convert, convertPdfToText. cbv zeta. by rewrite Hformat, Hload.
Qed.

Lemma processPdf_writes_placeholder_witness :
  writes_exactly
    (processPdf sample_read sample_write "cache/" 1700000000000 Z sample_load
       (File "file:///photo.png" "photo.png" 4) "docx" sample_callback)
    (processed_path "cache/" 1700000000000 "docx") 4
    (bytes_of_string "PDF to DOCX conversion not fully implemented in offline mode").
Proof.
  destruct (processPdf_writes_placeholder sample_read sample_write "cache/"
              1700000000000 Z sample_load (File "file:///photo.png" "photo.png" 4)
              "docx" sample_callback [137; 80; 78; 71] (fun _ => eq_refl) eq_refl
              eq_refl) as [Hdocx _].
  by apply Hdocx.
Defined.

(** X26: [mergeFiles] merges PDF, audio and video formats only. For any other
    output format, an image format included, it still reads every file,
    then, when the progress callback returns, fails with "Unsupported merge
    format", the format named as the caller wrote it, and writes nothing. *)
Theorem mergeFiles_unknown_format_fails
    (readFile : string -> string + list Z) (writeError : string -> option string)
    (cacheDirectory : string) (now : Z) (page : Type)
    (pdf_load : list Z -> string + list page) (pdf_save : list page -> list Z)
    (files : list file) (buffers : list (list Z)) (outputFormat : string)
    (onProgress : callback) :
  quiet onProgress ->
  all_read readFile files buffers ->
  toLowerCase outputFormat
    ∉ ["pdf"; "mp3"; "wav"; "aac"; "mp4"; "mov"; "avi"; "mkv"]%string ->
  fails_silently
    (mergeFiles readFile writeError cacheDirectory now page pdf_load pdf_save files
       outputFormat onProgress)
    ("File merge failed: Unsupported merge format: " +:+ outputFormat).
Proof.
  intros Hquiet Hread Hformat.
  apply (mergeFiles_fails_at_switch readFile writeError cacheDirectory now page
           pdf_load pdf_save files buffers outputFormat onProgress _ Hread Hquiet).
  unfold merge_by_format. cbv zeta.
  by rewrite !(not_elem_of_eqb _ _ _ Hformat) by set_solver.
Qed.

Lemma mergeFiles_unknown_format_fails_witness :
  fails_silently
    (mergeFiles sample_read sample_write "cache/" 1700000000000 Z sample_load
       sample_save sample_files "png" sample_callback)
    "File merge failed: Unsupported merge format: png".
Proof.
  apply (mergeFiles_unknown_format_fails sample_read sample_write "cache/"
           1700000000000 Z sample_load sample_save sample_files
           [[137; 80; 78; 71]; [73; 68; 51]] "png" sample_callback).
  - intros p. reflexivity.
  - repeat constructor.
  - intros Hin. apply (bool_decide_pack _) in Hin. by vm_compute in Hin.
Defined.

(** ** Images *)

(** The reports of the loop of [convertFile], for a callback that returns. *)
Lemma reports_quiet (onProgress : callback) (l : list Z) :
  quiet onProgress ->
  exists units,
    mapM (fun i => report onProgress (inject_Z (10 * i))) l
    = (match onProgress with
       | Some _ => (fun i => Progress (inject_Z (10 * i))) <$> l
       | None => []
       end, Returned units).
Proof.
  intros Hquiet. induction l as [|i l [units IH]].
  - exists []. by destruct onProgress.
  - exists (tt :: units). cbn [mapM].
    rewrite (run_bind_step (report onProgress (inject_Z (10 * i))) _ _ tt
               (report_returns onProgress _ (Hquiet _))).
    rewrite IH, !run_bind_eq. cbn [fst snd]. f_equal.
    destruct onProgress as [listener|]; [|done].
    unfold report. rewrite run_bind_eq. cbn [fst snd emit].
    specialize (Hquiet (inject_Z (10 * i))). cbn in Hquiet. rewrite Hquiet.
    cbn. by rewrite app_nil_r.
Qed.


